(** * WebCraft voxel world: a shallow embedding of the grid, the block
    registry, the terrain generator, the chunk streamer, the mesh builder and
    the frustum test, with the properties of the specification stated and
    settled on the embedded code.

    Conventions of the embedding.
    - A JavaScript number is a rational [Q]; a value that may be [NaN] is an
      [option Q] with [None] for [NaN].  Integer-valued quantities that the
      code only ever uses as array indices or counters (coordinates, world
      dimensions, block ids) are [Z].
    - A JavaScript exception is the [Throw] case of [Result].
    - Arrays are lists; reading outside an array yields [undefined] ([None]),
      reading a property of [undefined] throws a [TypeError].
    - Objects that the source mutates in place are threaded explicitly. *)

From Stdlib Require Import ZArith QArith Qround Qminmax Qabs Lia Lqa List Bool.
From Stdlib Require Import Sorting.Sorted Sorting.Permutation.
From stdpp Require Import base option list gmap strings.

#[local] Open Scope Z_scope.

(** ** JavaScript runtime fragments *)

Inductive Error :=
  | TypeError
  | JsError (message : string).

Inductive Result (A : Type) :=
  | Ok (a : A)
  | Throw (e : Error).
Arguments Ok {A} a.
Arguments Throw {A} e.

#[global] Instance Result_ret : MRet Result := fun A a => Ok a.
#[global] Instance Result_bind : MBind Result := fun A B f m =>
  match m with
  | Ok a => f a
  | Throw e => Throw e
  end.

#[global] Instance Result_fmap : FMap Result := fun A B f m =>
  match m with
  | Ok a => Ok (f a)
  | Throw e => Throw e
  end.

Definition is_Ok {A} (r : Result A) : Prop :=
  match r with Ok _ => True | Throw _ => False end.

(** [try { body } catch (error) { handler }] *)
Definition try_catch {A} (body : Result A) (handler : Error -> Result A) : Result A :=
  match body with
  | Ok a => Ok a
  | Throw e => handler e
  end.

(** [for (let i = lo; i < hi; i++) body], the loop state threaded through. *)
Fixpoint for_loop {S : Type} (n : nat) (i : Z) (body : Z -> S -> Result S) (s : S)
  : Result S :=
  match n with
  | O => Ok s
  | Datatypes.S n' =>
      match body i s with
      | Ok s' => for_loop n' (i + 1) body s'
      | Throw e => Throw e
      end
  end.

Definition for_range {S : Type} (lo hi : Z) (body : Z -> S -> Result S) (s : S)
  : Result S :=
  for_loop (Z.to_nat (hi - lo)) lo body s.

(** The same loop for a body that cannot throw. *)
Fixpoint iter_loop {S : Type} (n : nat) (i : Z) (body : Z -> S -> S) (s : S) : S :=
  match n with
  | O => s
  | Datatypes.S n' => iter_loop n' (i + 1) body (body i s)
  end.

Definition iter_range {S : Type} (lo hi : Z) (body : Z -> S -> S) (s : S) : S :=
  iter_loop (Z.to_nat (hi - lo)) lo body s.

(** [a[i]] for an array [a]: [undefined] outside the array. *)
Definition js_get {A} (a : list A) (i : Z) : option A :=
  if i <? 0 then None else a !! Z.to_nat i.

(** [a[i] = v] on an array of possibly-empty slots: a negative index only adds
    a named property (invisible to index reads), an index past the end grows
    the array, leaving holes. *)
Definition js_set {A} (a : list (option A)) (i : Z) (v : option A) : list (option A) :=
  if i <? 0 then a
  else if (Z.to_nat i <? length a)%nat then <[Z.to_nat i := v]> a
  else a ++ replicate (Z.to_nat i - length a)%nat None ++ [v].

(** Strings are sequences of UTF-16 code units. *)
Abbreviation JsString := (list Z).

(** [str.charCodeAt(i)]: [NaN] outside the string. *)
Definition charCodeAt (str : JsString) (i : Z) : option Z := js_get str i.

(** [String.fromCharCode(n)]: the code unit [n] modulo 2^16; [NaN] gives 0. *)
Definition fromCharCode (n : option Z) : Z :=
  match n with
  | Some n => n mod 65536
  | None => 0
  end.

(** Comparison of numbers. *)
Definition Qltb (a b : Q) : bool := negb (Qle_bool b a).

(** ** Numeric library ([Math]) *)

Module Math.

(** [Math.PI], the double nearest to pi. *)
Definition PI : Q := 884279719003555 # 281474976710656.

Definition floor (x : Q) : Z := Qfloor x.

(** [Math.round(x)] is [floor(x + 0.5)]. *)
Definition round (x : Q) : Z := Qfloor (x + (1 # 2)).

(** [Math.min(a, b)] and [Math.max(a, b)] on numbers that may be [NaN]
    ([None]): the answer is [NaN] as soon as an argument is. *)
Definition min (a b : option Q) : option Q :=
  a' ← a; b' ← b; Some (Qmin a' b').
Definition max (a b : option Q) : option Q :=
  a' ← a; b' ← b; Some (Qmax a' b').

(** [Math.sqrt]: the square root truncated to 52 binary places.  It is
    monotone, non-negative and exact on squares of integers, the properties of
    the IEEE square root that the code relies on. *)
Definition sqrt (x : Q) : Q :=
  Z.sqrt (Qfloor (x * inject_Z (2 ^ 104))) # (2 ^ 52).

(** [1 - r2/(k(k+1)) (1 - r2/((k+2)(k+3)) (1 - ...))], [n] factors deep. *)
Fixpoint series (n : nat) (k : Z) (r2 : Q) : Q :=
  match n with
  | O => 1
  | Datatypes.S n' =>
      Qred (1 - r2 / inject_Z (k * (k + 1)) * series n' (k + 2) r2)
  end.

(** Reduction of an angle to the period around 0. *)
Definition reduce (x : Q) : Q :=
  Qred (x - 2 * PI * inject_Z (round (x / (2 * PI)))).

(** Rounding to 60 binary places. *)
Definition rounded (x : Q) : Q := Qred (round (x * inject_Z (2 ^ 60)) # (2 ^ 60)).

(** [Math.sin], [Math.cos] and [Math.tan]: the Taylor polynomials of degree 31
    and 30 after range reduction, rounded to 60 binary places; [sin] and [cos]
    are exact at 0. *)
Definition sin (x : Q) : Q := let r := reduce x in rounded (r * series 15 2 (r * r)).
Definition cos (x : Q) : Q := let r := reduce x in rounded (series 15 1 (r * r)).
Definition tan (x : Q) : Q := rounded (sin x / cos x).

End Math.
(** ** Block types (blocks.js) *)

Module BLOCK.

(** [DIRECTION = { UP: 1, DOWN: 2, LEFT: 3, RIGHT: 4, FORWARD: 5, BACK: 6 }] *)
Inductive DIRECTION := UP | DOWN | LEFT | RIGHT | FORWARD | BACK.

#[global] Instance DIRECTION_eq_dec : EqDecision DIRECTION.
Proof. solve_decision. Defined.

Definition DIRECTION_code (d : DIRECTION) : Z :=
  match d with
  | UP => 1 | DOWN => 2 | LEFT => 3 | RIGHT => 4 | FORWARD => 5 | BACK => 6
  end.

(** A texture function [(world, lightmap, lit, x, y, z, dir) => coords]; every
    texture of the registry looks at [lit] and [dir] only.  It answers an
    array of numbers, any of which may be [NaN] ([None]). *)
Definition Texture := bool -> DIRECTION -> list (option Q).

(** The [metadata] argument of [setBlock], an object of the caller. *)
Definition Metadata := list (string * Z).

(** A block object.  A property that may be missing is an [option]; [id] is
    [Some n] exactly when [typeof block.id === 'number'], [texture] is
    [Some f] exactly when [typeof block.texture === 'function']; [xray] and
    [rentgenView] record the truthiness of those properties. *)
Record Block := mkBlock {
  id : option Z;
  spawnable : option bool;
  transparent : option bool;
  selflit : option bool;
  gravity : option bool;
  fluid : option bool;
  texture : option Texture;
  xray : bool;
  rentgenView : bool;
  opacity : option Q;
  metadata : option Metadata
}.

(** Truthiness of a flag that may be missing. *)
Definition truthy (flag : option bool) : bool := default false flag.

(** What a caller may pass where a block is expected. *)
Inductive Value :=
  | Nullish                      (* null or undefined *)
  | Primitive (truthy : bool)    (* a number, string or boolean *)
  | Object (block : Block).

(** An array literal of numbers. *)
Definition numbers (l : list Q) : list (option Q) := map Some l.

(** [validateTextureCoords]; [Math.max(0, Math.min(1, coord))] is [NaN] for a
    coordinate that is. *)
Definition validateTextureCoords (coords : list (option Q)) : list (option Q) :=
  if (length coords =? 4)%nat
  then map (fun coord => Math.max (Some 0%Q) (Math.min (Some 1%Q) coord)) coords
  else numbers [0; 0; 1; 1]%Q.

Definition defaultTexture : Texture := fun _ _ => numbers [0; 0; 1; 1]%Q.

Definition defaultBlock : Block := {|
  id := Some 0;
  spawnable := Some false;
  transparent := Some true;
  selflit := Some false;
  gravity := Some false;
  fluid := Some false;
  texture := Some defaultTexture;
  xray := false;
  rentgenView := false;
  opacity := None;
  metadata := None
|}.

(** [{ ...defaultBlock, ...block }] on one property. *)
Definition spread {A} (dflt : option A) (own : option A) : option A :=
  match own with
  | Some a => Some a
  | None => dflt
  end.

(** [BLOCK.validateBlockType(block)].  It is only ever applied to [null] or to
    an object whose [id] is a number. *)
Definition validateBlockType (block : option Block) : Block :=
  match block with
  | None => defaultBlock
  | Some block =>
      let boundTexture : Texture :=
        match texture block with
        | Some f => f
        | None => defaultTexture
        end in
      {| id := spread (id defaultBlock) (id block);
         spawnable := spread (spawnable defaultBlock) (spawnable block);
         transparent := spread (transparent defaultBlock) (transparent block);
         selflit := spread (selflit defaultBlock) (selflit block);
         gravity := spread (gravity defaultBlock) (gravity block);
         fluid := spread (fluid defaultBlock) (fluid block);
         texture := Some (fun lit dir => validateTextureCoords (boundTexture lit dir));
         xray := xray block;
         rentgenView := rentgenView block;
         opacity := opacity block;
         metadata := metadata block |}
  end.

(** An object literal of the registry: the properties it spells out. *)
Definition literal (id' : Z) (spawnable' transparent' selflit' gravity' fluid' : option bool)
    (texture' : Texture) : Block := {|
  id := Some id';
  spawnable := spawnable';
  transparent := transparent';
  selflit := selflit';
  gravity := gravity';
  fluid := fluid';
  texture := Some texture';
  xray := false;
  rentgenView := false;
  opacity := None;
  metadata := None
|}.

Definition solid (id' : Z) (gravity' : bool) (texture' : Texture) : Block :=
  validateBlockType (Some
    (literal id' (Some true) (Some false) (Some false) (Some gravity') (Some false) texture')).

Definition rect (a b c d : Q) : Texture := fun _ _ => numbers [a; b; c; d]%Q.

Definition BEDROCK : Block :=
  validateBlockType (Some
    (literal 1 (Some false) (Some false) None None None
       (rect (1/16) (1/16) (2/16) (2/16)))).

Definition DIRT : Block :=
  solid 2 false (fun lit dir =>
    if bool_decide (dir = UP) && lit then numbers [14/16; 0/16; 15/16; 1/16]
    else if bool_decide (dir = DOWN) || negb lit then numbers [2/16; 0/16; 3/16; 1/16]
    else numbers [3/16; 0/16; 4/16; 1/16])%Q.

Definition WOOD : Block :=
  solid 3 false (fun lit dir =>
    if bool_decide (dir = UP) || bool_decide (dir = DOWN)
    then numbers [5/16; 1/16; 6/16; 2/16]
    else numbers [4/16; 1/16; 5/16; 2/16])%Q.

Definition TNT : Block :=
  solid 4 false (fun lit dir =>
    if bool_decide (dir = UP) || bool_decide (dir = DOWN)
    then numbers [10/16; 0/16; 11/16; 1/16]
    else numbers [8/16; 0/16; 9/16; 1/16])%Q.

Definition BOOKCASE : Block :=
  solid 5 false (fun lit dir =>
    if bool_decide (dir = FORWARD) || bool_decide (dir = BACK)
    then numbers [3/16; 2/16; 4/16; 3/16]
    else numbers [4/16; 0/16; 5/16; 1/16])%Q.

Definition LAVA : Block :=
  validateBlockType (Some
    (literal 6 (Some false) (Some true) (Some true) (Some true) (Some true)
       (rect (13/16) (14/16) (14/16) (15/16)))).

Definition PLANK : Block := solid 7 false (rect (4/16) (0/16) (5/16) (1/16)).
Definition COBBLESTONE : Block := solid 8 false (rect (0/16) (1/16) (1/16) (2/16)).
Definition CONCRETE : Block := solid 9 false (rect (1/16) (0/16) (2/16) (1/16)).
Definition BRICK : Block := solid 10 false (rect (7/16) (0/16) (8/16) (1/16)).
Definition SAND : Block := solid 11 true (rect (2/16) (1/16) (3/16) (2/16)).
Definition GRAVEL : Block := solid 12 true (rect (3/16) (1/16) (4/16) (2/16)).
Definition IRON : Block := solid 13 false (rect (6/16) (1/16) (7/16) (2/16)).
Definition GOLD : Block := solid 14 false (rect (7/16) (1/16) (8/16) (2/16)).
Definition DIAMOND : Block := solid 15 false (rect (8/16) (1/16) (9/16) (2/16)).
Definition OBSIDIAN : Block := solid 16 false (rect (5/16) (2/16) (6/16) (3/16)).

Definition GLASS : Block :=
  validateBlockType (Some
    (literal 17 (Some true) (Some true) (Some false) (Some false) (Some false)
       (rect (1/16) (3/16) (2/16) (4/16)))).

Definition SPONGE : Block := solid 18 false (rect (0/16) (3/16) (1/16) (4/16)).

Definition WATER : Block :=
  validateBlockType (Some
    (literal 19 (Some false) (Some true) (Some false) (Some true) (Some true)
       (rect (13/16) (12/16) (14/16) (13/16)))).

Definition LEAVES : Block :=
  validateBlockType (Some
    (literal 20 (Some true) (Some true) (Some false) (Some false) (Some false)
       (rect (4/16) (3/16) (5/16) (4/16)))).

Definition ROCK : Block := solid 21 false (rect (2/16) (2/16) (3/16) (3/16)).

Definition AIR : Block :=
  validateBlockType (Some
    (literal 0 (Some false) (Some true) (Some false) (Some false) (Some false)
       (rect 0 0 0 0))).

(** The object-valued properties of [BLOCK] in insertion order, the order in
    which [for (const type in this)] visits them. *)
Definition registry : list Block :=
  [ BEDROCK; DIRT; WOOD; TNT; BOOKCASE; LAVA; PLANK; COBBLESTONE; CONCRETE;
    BRICK; SAND; GRAVEL; IRON; GOLD; DIAMOND; OBSIDIAN; GLASS; SPONGE; WATER;
    LEAVES; ROCK; AIR ].

(** [BLOCK.fromId(id)]; the argument is [None] for [NaN]. *)
Definition fromId (id' : option Z) : Block :=
  match id' with
  | None => validateBlockType None
  | Some n =>
      if n <? 0 then validateBlockType None
      else
        match List.find (fun b => bool_decide (id b = Some n)) registry with
        | Some b => validateBlockType (Some b)
        | None => validateBlockType None
        end
  end.

End BLOCK.


(** ** Perlin noise (perlin.js) *)

Module PerlinNoise.

Definition vectorTable : list Q :=
  [ 1; 1; 0; -1; 1; 0; 1; -1; 0; -1; -1; 0;
    1; 0; 1; -1; 0; 1; 1; 0; -1; -1; 0; -1;
    0; 1; 1; 0; -1; 1; 0; 1; -1; 0; -1; -1 ]%Q.

Definition DEFAULT_PERMUTATION : list Z :=
  [ 151; 160; 137; 91; 90; 15; 131; 13; 201; 95; 96; 53; 194; 233; 7; 225; 140; 36; 103; 30; 69; 142;
    8; 99; 37; 240; 21; 10; 23; 190; 6; 148; 247; 120; 234; 75; 0; 26; 197; 62; 94; 252; 219; 203; 117; 35; 11; 32;
    57; 177; 33; 88; 237; 149; 56; 87; 174; 20; 125; 136; 171; 168; 68; 175; 74; 165; 71; 134; 139; 48; 27; 166;
    77; 146; 158; 231; 83; 111; 229; 122; 60; 211; 133; 230; 220; 105; 92; 41; 55; 46; 245; 40; 244; 102; 143; 54;
    65; 25; 63; 161; 1; 216; 80; 73; 209; 76; 132; 187; 208; 89; 18; 169; 200; 196; 135; 130; 116; 188; 159; 86;
    164; 100; 109; 198; 173; 186; 3; 64; 52; 217; 226; 250; 124; 123; 5; 202; 38; 147; 118; 126; 255; 82; 85; 212;
    207; 206; 59; 227; 47; 16; 58; 17; 182; 189; 28; 42; 223; 183; 170; 213; 119; 248; 152; 2; 44; 154; 163; 70;
    221; 153; 101; 155; 167; 43; 172; 9; 129; 22; 39; 253; 19; 98; 108; 110; 79; 113; 224; 232; 178; 185; 112; 104;
    218; 246; 97; 228; 251; 34; 242; 193; 238; 210; 144; 12; 191; 179; 162; 241; 81; 51; 145; 235; 249; 14; 239;
    107; 49; 192; 214; 31; 181; 199; 106; 157; 184; 84; 204; 176; 115; 121; 50; 45; 127; 4; 150; 254; 138; 236;
    205; 93; 222; 114; 67; 29; 24; 72; 243; 141; 128; 195; 78; 66; 215; 61; 156; 180 ].

(** The 1024 bytes of the [ArrayBuffer] that [#perm] (a [Uint16Array],
    little-endian) and [#permMod] (a [Uint8Array]) both view. *)
Definition Buffer := list Z.

(** [this.#perm[k] = val] *)
Definition setPerm (buffer : Buffer) (k : Z) (val : Z) : Buffer :=
  <[Z.to_nat (2 * k + 1) := (val / 256) mod 256]>
    (<[Z.to_nat (2 * k) := val mod 256]> buffer).

(** [this.#permMod[j] = val] *)
Definition setPermMod (buffer : Buffer) (j : Z) (val : Z) : Buffer :=
  <[Z.to_nat j := val mod 256]> buffer.

(** [this.#perm[k]] and [this.#permMod[j]], inside the views. *)
Definition perm (buffer : Buffer) (k : Z) : Z :=
  default 0 (js_get buffer (2 * k)) + 256 * default 0 (js_get buffer (2 * k + 1)).
Definition permMod (buffer : Buffer) (j : Z) : Z :=
  default 0 (js_get buffer j).

(** The constructor: the buffer after the initialisation loop. *)
Definition constructor : Buffer :=
  iter_range 0 256 (fun i buffer =>
    let val := default 0 (js_get DEFAULT_PERMUTATION i) in
    let buffer := setPerm buffer (i + 256) val in
    let buffer := setPerm buffer i val in
    let buffer := setPermMod buffer (i + 256) (Z.land val 255) in
    setPermMod buffer i (Z.land val 255))
    (replicate 1024 0).

(** [~~x]: truncation towards zero, wrapped to 32 bits. *)
Definition toInt32 (x : Q) : Z :=
  (Z.quot (Qnum x) (Zpos (Qden x)) + 2 ^ 31) mod 2 ^ 32 - 2 ^ 31.

(** Numbers that may be [NaN]. *)
Definition nan_add (a b : option Q) : option Q := a' ← a; b' ← b; Some (a' + b')%Q.
Definition nan_sub (a b : option Q) : option Q := a' ← a; b' ← b; Some (a' - b')%Q.
Definition nan_mul (a b : option Q) : option Q := a' ← a; b' ← b; Some (a' * b')%Q.

(** [lerp(t, a, b)] *)
Definition lerp (t : Q) (a b : option Q) : option Q :=
  nan_add a (nan_mul (Some t) (nan_sub b a)).

(** [fastGrad(hash, x, y, z)]: an index past the table reads [undefined]. *)
Definition fastGrad (hash : Z) (x y z : Q) : option Q :=
  let h := Z.land hash 15 in
  let index := h * 3 in
  nan_add (nan_add (nan_mul (js_get vectorTable index) (Some x))
                   (nan_mul (js_get vectorTable (index + 1)) (Some y)))
          (nan_mul (js_get vectorTable (index + 2)) (Some z)).

(** [noise3D(x, y, z)] *)
Definition noise3D (buffer : Buffer) (x y z : Q) : option Q :=
  let X := Z.land (toInt32 x) 255 in
  let Y := Z.land (toInt32 y) 255 in
  let Z' := Z.land (toInt32 z) 255 in
  let x := Qred (x - inject_Z (toInt32 x)) in
  let y := Qred (y - inject_Z (toInt32 y)) in
  let z := Qred (z - inject_Z (toInt32 z)) in
  let u := (x * x * x * (x * (x * 6 - 15) + 10))%Q in
  let v := (y * y * y * (y * (y * 6 - 15) + 10))%Q in
  let w := (z * z * z * (z * (z * 6 - 15) + 10))%Q in
  let A := Z.land (permMod buffer X + Y) 255 in
  let AA := Z.land (permMod buffer A + Z') 255 in
  let AB := Z.land (permMod buffer (A + 1) + Z') 255 in
  let B := Z.land (permMod buffer (X + 1) + Y) 255 in
  let BA := Z.land (permMod buffer B + Z') 255 in
  let BB := Z.land (permMod buffer (B + 1) + Z') 255 in
  lerp w
    (lerp v
       (lerp u (fastGrad (perm buffer AA) x y z)
               (fastGrad (perm buffer BA) (x - 1) y z))
       (lerp u (fastGrad (perm buffer AB) x (y - 1) z)
               (fastGrad (perm buffer BB) (x - 1) (y - 1) z)))
    (lerp v
       (lerp u (fastGrad (perm buffer (AA + 1)) x y (z - 1))
               (fastGrad (perm buffer (BA + 1)) (x - 1) y (z - 1)))
       (lerp u (fastGrad (perm buffer (AB + 1)) x (y - 1) (z - 1))
               (fastGrad (perm buffer (BB + 1)) (x - 1) (y - 1) (z - 1)))).

End PerlinNoise.
(** ** World container (world.js) *)

Module World.
Import BLOCK.

(** [Vector] of helpers.js: three numbers. *)
Record Vector := mkVector { x : Q; y : Q; z : Q }.

(** A slot of the block grid: [None] is an empty slot ([undefined]/[null]). *)
Abbreviation Cell := (option Block).
Abbreviation Blocks := (list (list (list (option Block)))).

Record t := mkWorld {
  sx : Z;
  sy : Z;
  sz : Z;
  blocks : Blocks;
  spawnPoint : Vector;
  lightmap : list (list (option Z))
}.

Definition set_blocks (w : t) (blocks' : Blocks) : t :=
  {| sx := sx w; sy := sy w; sz := sz w; blocks := blocks';
     spawnPoint := spawnPoint w; lightmap := lightmap w |}.

Definition set_lightmap (w : t) (lightmap' : list (list (option Z))) : t :=
  {| sx := sx w; sy := sy w; sz := sz w; blocks := blocks w;
     spawnPoint := spawnPoint w; lightmap := lightmap' |}.

(** [isInBounds(x, y, z)] *)
Definition isInBounds (w : t) (x y z : Z) : bool :=
  (0 <=? x) && (x <? sx w) && (0 <=? y) && (y <? sy w) && (0 <=? z) && (z <? sz w).

(** [{ ...block, transparent: true, opacity: 0.3 }] *)
Definition seeThrough (block : Block) : Block :=
  {| id := id block; spawnable := spawnable block; transparent := Some true;
     selflit := selflit block; gravity := gravity block; fluid := fluid block;
     texture := texture block; xray := xray block; rentgenView := rentgenView block;
     opacity := Some (3 # 10); metadata := metadata block |}.

(** [{ ...block, metadata }] *)
Definition withMetadata (block : Block) (metadata' : Metadata) : Block :=
  {| id := id block; spawnable := spawnable block; transparent := transparent block;
     selflit := selflit block; gravity := gravity block; fluid := fluid block;
     texture := texture block; xray := xray block; rentgenView := rentgenView block;
     opacity := opacity block; metadata := Some metadata' |}.

(** [validateBlock(block)] *)
Definition validateBlock (block : Value) : Block :=
  match block with
  | Nullish => AIR
  | Primitive _ => AIR           (* falsy, or [typeof block.id] is 'undefined' *)
  | Object block =>
      match id block with
      | None => AIR
      | Some n =>
          if n =? 0 then AIR
          else if rentgenView block then seeThrough block
          else if xray block then seeThrough block
          else validateBlockType (Some block)
      end
  end.

Definition cellValue (cell : Cell) : Value :=
  match cell with
  | Some block => Object block
  | None => Nullish
  end.

(** [blocks[x][y][z]] as an expression. *)
Definition read3 (blocks : Blocks) (x y z : Z) : Result Cell :=
  match js_get blocks x with
  | None => Throw TypeError
  | Some row =>
      match js_get row y with
      | None => Throw TypeError
      | Some column => Ok (default None (js_get column z))
      end
  end.

(** [blocks?.[x]?.[y]?.[z]] *)
Definition read3_opt (blocks : Blocks) (x y z : Z) : Cell :=
  match js_get blocks x with
  | None => None
  | Some row =>
      match js_get row y with
      | None => None
      | Some column => default None (js_get column z)
      end
  end.

(** [blocks[x][y][z] = cell] *)
Definition write3 (blocks : Blocks) (x y z : Z) (cell : Cell) : Result Blocks :=
  match js_get blocks x with
  | None => Throw TypeError
  | Some row =>
      match js_get row y with
      | None => Throw TypeError
      | Some column =>
          Ok (<[Z.to_nat x := <[Z.to_nat y := js_set column z cell]> row]> blocks)
      end
  end.

(** [getBlock(x, y, z)]; the result [None] is [null]. *)
Definition getBlock (w : t) (x y z : Z) : Result (option Block) :=
  if (x <? 0) || (y <? 0) || (z <? 0) || (x >=? sx w) || (y >=? sy w) || (z >=? sz w)
  then Ok None
  else
    cell ← read3 (blocks w) x y z;
    Ok (Some (validateBlock (cellValue cell))).

(** [setBlock(x, y, z, type, metadata = {})].  [renderer] is [this.renderer],
    [onBlockChanged] its method of that name. *)
Definition setBlock {R : Type} (onBlockChanged : Z -> Z -> Z -> R -> R)
    (w : t) (renderer : option R) (x y z : Z) (type : Value) (metadata' : Metadata)
  : Result (t * option R * bool) :=
  if negb (isInBounds w x y z) then Ok (w, renderer, false)
  else
    match type with
    | Nullish => Throw TypeError            (* [type.xray] on null *)
    | _ =>
        let type_xray := match type with Object b => xray b | _ => false end in
        let block :=
          match type with
          | Object b => if xray b then seeThrough b else validateBlock type
          | _ => validateBlock type
          end in
        blocks' ← write3 (blocks w) x y z (Some (withMetadata block metadata'));
        let renderer' :=
          match renderer with
          | Some r => if negb type_xray then Some (onBlockChanged x y z r) else Some r
          | None => None
          end in
        Ok (set_blocks w blocks', renderer', true)
    end.

(** [createFromString(str)] *)
Definition createFromString (w : t) (str : JsString) : Result t :=
  if negb (Z.of_nat (length str) =? sx w * sy w * sz w)
  then Throw (JsError "String length does not match world dimensions.")
  else
    '(blocks', _) ←
      for_range 0 (sx w) (fun x =>
        for_range 0 (sy w) (fun y =>
          for_range 0 (sz w) (fun z '(blocks, i) =>
            blocks' ← write3 blocks x y z
                        (Some (fromId ((fun c => c - 97) <$> charCodeAt str i)));
            Ok (blocks', i + 1))))
        (blocks w, 0);
    Ok (set_blocks w blocks').

(** [toNetworkString()] *)
Definition toNetworkString (w : t) : Result JsString :=
  for_range 0 (sx w) (fun x =>
    for_range 0 (sy w) (fun y =>
      for_range 0 (sz w) (fun z blockArray =>
        cell ← read3 (blocks w) x y z;
        let block := validateBlock (cellValue cell) in
        Ok (blockArray ++ [fromCharCode ((fun n => 97 + n) <$> id block)]))))
    [].

(** The inner loop of [updateLighting]: scanning a column downwards from
    [n - 1], the first slot that is not transparent, else [maxZ]. *)
Fixpoint highestOpaque (blocks : Blocks) (x y : Z) (n : nat) (maxZ : Z) : Result Z :=
  match n with
  | O => Ok maxZ
  | Datatypes.S n' =>
      cell ← read3 blocks x y (Z.of_nat n');
      match cell with
      | None => Throw TypeError
      | Some block =>
          if negb (truthy (transparent block)) then Ok (Z.of_nat n')
          else highestOpaque blocks x y n' maxZ
      end
  end.

(** [lightmap[x][y] = v] *)
Definition write2 (lightmap : list (list (option Z))) (x y : Z) (v : Z)
  : Result (list (list (option Z))) :=
  match js_get lightmap x with
  | None => Throw TypeError
  | Some row => Ok (<[Z.to_nat x := js_set row y (Some v)]> lightmap)
  end.

(** [updateLighting()] *)
Definition updateLighting (w : t) : Result t :=
  lightmap' ←
    for_range 0 (sx w) (fun x =>
      for_range 0 (sy w) (fun y lightmap =>
        maxZ ← highestOpaque (blocks w) x y (Z.to_nat (sz w)) (sz w - 1);
        write2 lightmap x y maxZ))
      (lightmap w);
  Ok (set_lightmap w lightmap').

(** *** Terrain generation

    [createNoise3D (alea seed)] of the simplex-noise and alea packages is a
    function of the seed; [random] is the sequence of values that successive
    calls of [Math.random()] return, the number of calls made so far being
    threaded with the grid. *)

Section Generation.

Variable createNoise3D : string -> Q -> Q -> Q -> Q.
Variable random : nat -> Q.

(** The grid under construction and the number of [Math.random()] calls. *)
Abbreviation Gen := (Blocks * nat)%type.

(** The dimensions [isInBounds] reads from [this]. *)
Definition inBounds (sx sy sz : Z) (x y z : Z) : bool :=
  (0 <=? x) && (x <? sx) && (0 <=? y) && (y <? sy) && (0 <=? z) && (z <? sz).

(** [blocks[x][y][z]?.id] *)
Definition idAt (blocks : Blocks) (x y z : Z) : Result (option Z) :=
  cell ← read3 blocks x y z; Ok (cell ≫= id).

(** [addTree(blocks, x, y, z)] *)
Definition addTree (sx sy sz : Z) (g : Gen) (x y z : Z) : Result Gen :=
  let '(blocks, n) := g in
  if negb (inBounds sx sy sz (x + 2) (y + 2) (z + 6)) then Ok g
  else if negb (inBounds sx sy sz (x - 2) (y - 2) z) then Ok g
  else
    let height := 5 + Math.floor (random n * 3)%Q in
    let n := S n in
    blocks ← for_range 0 height (fun i blocks =>
               write3 blocks x y (z + i) (Some (validateBlock (Object WOOD)))) blocks;
    let leafStart := z + height - 3 in
    blocks ←
      for_range 0 4 (fun lz =>
        let radius := if (lz =? 0) || (lz =? 3) then 1 else 2 in
        for_range (- radius) (radius + 1) (fun lx =>
          for_range (- radius) (radius + 1) (fun ly blocks =>
            if Qle_bool (Math.sqrt (inject_Z (lx * lx + ly * ly)))
                        (inject_Z radius + (1 # 2))%Q
            then
              let nx := x + lx in
              let ny := y + ly in
              let nz := leafStart + lz in
              if inBounds sx sy sz nx ny nz then
                i ← idAt blocks nx ny nz;
                if bool_decide (i = id AIR)
                then write3 blocks nx ny nz (Some (validateBlock (Object LEAVES)))
                else Ok blocks
              else Ok blocks
            else Ok blocks)))
        blocks;
    Ok (blocks, n).

(** [createCavity(blocks, x, y, z, sx, sy, sz)] *)
Definition createCavity (sx sy sz : Z) (g : Gen) (x y z : Z) : Result Gen :=
  let radius := 1 in
  for_range (- radius) (radius + 1) (fun dx =>
    for_range (- radius) (radius + 1) (fun dy =>
      for_range (- radius) (radius + 1) (fun dz '(blocks, n) =>
        let nx := x + dx in
        let ny := y + dy in
        let nz := z + dz in
        if inBounds sx sy sz nx ny nz then
          i ← idAt blocks nx ny nz;
          if negb (bool_decide (i = id AIR)) && negb (bool_decide (i = id WATER)) then
            if Qltb (random n) (3 # 10)
            then blocks ← write3 blocks nx ny nz (Some (validateBlock (Object AIR)));
                 Ok (blocks, S n)
            else Ok (blocks, S n)
          else Ok (blocks, n)
        else Ok (blocks, n))))
    g.

(** [a > b] for a number [a] that may be [NaN]. *)
Definition nan_gt (a : option Q) (b : Q) : bool :=
  match a with
  | Some a => Qltb b a
  | None => false
  end.

(** [generateCaves(blocks, sx, sy, sz)] *)
Definition generateCaves (g : Gen) (sx sy sz : Z) : Result Gen :=
  let perlin := PerlinNoise.constructor in
  let scale : Q := 5 # 100 in
  let detail : Q := 1 # 10 in
  let threshold : Q := 3 # 10 in
  let amplitude : Q := 7 # 10 in
  let persistence : Q := 1 # 2 in
  let minHeight := 5 in
  let maxHeight := sz - 10 in
  let heightRange := maxHeight - minHeight in
  let heightFactor := (1 / inject_Z heightRange)%Q in
  for_range 0 sx (fun x =>
    for_range 0 sy (fun y =>
      for_range minHeight maxHeight (fun z '(blocks, n) =>
        i ← idAt blocks x y z;
        if bool_decide (i = id AIR) || bool_decide (i = id WATER) then Ok (blocks, n)
        else
          let heightInfluence := (inject_Z (z - minHeight) * heightFactor)%Q in
          let localThreshold := (threshold + heightInfluence * persistence)%Q in
          let primaryNoise :=
            PerlinNoise.noise3D perlin (inject_Z x * scale)%Q (inject_Z y * scale)%Q
                                (inject_Z z * scale)%Q in
          let detailNoise :=
            PerlinNoise.nan_mul
              (PerlinNoise.noise3D perlin (inject_Z x * detail + 100)%Q
                                   (inject_Z y * detail + 100)%Q
                                   (inject_Z z * detail + 100)%Q)
              (Some (1 # 2)) in
          let combinedNoise :=
            PerlinNoise.nan_mul (PerlinNoise.nan_add primaryNoise detailNoise)
                                (Some amplitude) in
          if nan_gt combinedNoise localThreshold then
            blocks ← write3 blocks x y z (Some (validateBlock (Object AIR)));
            if nan_gt combinedNoise (localThreshold + (1 # 10))%Q
            then createCavity sx sy sz (blocks, n) x y z
            else Ok (blocks, n)
          else Ok (blocks, n))))
    g.

(** The spawn platform, carved by [generateTerrain] and again by
    [findSpawnPoint]. *)
Definition carvePlatform (blocks : Blocks) (centerX centerY spawnHeight : Z)
  : Result Blocks :=
  for_range (centerX - 2) (centerX + 2 + 1) (fun x =>
    for_range (centerY - 2) (centerY + 2 + 1) (fun y blocks =>
      blocks ← write3 blocks x y (spawnHeight - 1) (Some (validateBlock (Object DIRT)));
      blocks ← write3 blocks x y spawnHeight (Some (validateBlock (Object AIR)));
      write3 blocks x y (spawnHeight + 1) (Some (validateBlock (Object AIR)))))
    blocks.

(** [Array.from({ length: sx }, () => Array.from({ length: sy }, () =>
    Array(sz).fill(BLOCK.AIR)))] *)
Definition emptyGrid (sx sy sz : Z) : Blocks :=
  replicate (Z.to_nat sx) (replicate (Z.to_nat sy) (replicate (Z.to_nat sz) (Some AIR))).

(** [createFlatWorld(height)], with the spawn point it sets. *)
Definition createFlatWorld (sx sy sz : Z) (height : Z) : Result (Blocks * Vector) :=
  if (height <? 0) || (height >? sz) then Throw (JsError "Invalid height for flat world.")
  else
    let spawn := mkVector (inject_Z sx / 2 + (1 # 2))%Q (inject_Z sy / 2 + (1 # 2))%Q
                          (inject_Z height) in
    blocks ←
      for_range 0 sx (fun x =>
        for_range 0 sy (fun y =>
          for_range 0 sz (fun z blocks =>
            write3 blocks x y z (Some (if z <? height then DIRT else AIR)))))
        (emptyGrid sx sy sz);
    Ok (blocks, spawn).

(** [column.findIndex(block => block.id === BLOCK.AIR)], for its exceptions
    only: the test compares an identifier with the object [BLOCK.AIR] and
    never holds, so the whole column is walked, and an empty slot throws. *)
Fixpoint findIndexAir (column : list Cell) : Result unit :=
  match column with
  | [] => Ok ()
  | None :: _ => Throw TypeError
  | Some block :: rest => findIndexAir rest
  end.

(** The surface height of the column [(x, y)]. *)
Definition finalHeight (noise3D : Q -> Q -> Q -> Q) (sz : Z) (x y : Z) : Z :=
  let biomeScale : Q := 24%Q in
  let heightScale : Q := (inject_Z sz / 2)%Q in
  let amplitude : Q := 1%Q in
  let octaves := 4 in
  let persistence : Q := 1 # 2 in
  let baseHeight := Math.floor (inject_Z sz * (1 # 2))%Q in
  let '(heightValue, amp, freq, totalAmp) :=
    iter_range 0 octaves (fun o '(heightValue, amp, freq, totalAmp) =>
      ( heightValue + amp * noise3D (inject_Z x * freq / biomeScale)
                                    (inject_Z y * freq / biomeScale) 0%Q,
        amp * persistence, freq * 2, totalAmp + amp )%Q)
      (0, amplitude, 1, 0)%Q in
  let heightValue := ((heightValue / totalAmp + 1) * (1 # 2))%Q in
  Math.floor (inject_Z baseHeight + heightValue * heightScale * (3 # 10))%Q.

(** The body of the [try] block of [generateTerrain]. *)
Definition generateTerrain_try (sx sy sz : Z) (n : nat) : Result Gen :=
  let seed := "minecraft" in
  let noise3D := createNoise3D seed in
  let blocks := emptyGrid sx sy sz in
  (* Add bedrock layer at bottom *)
  blocks ←
    for_range 0 sx (fun x =>
      for_range 0 sy (fun y blocks =>
        write3 blocks x y 0 (Some (validateBlock (Object BEDROCK)))))
      blocks;
  let waterLevel := Math.floor (inject_Z sz * (1 # 2))%Q in
  let treeChance : Q := 45 # 10000 in
  g ←
    for_range 0 sx (fun x =>
      for_range 0 sy (fun y '(blocks, n) =>
        let finalHeight := finalHeight noise3D sz x y in
        (* Generate terrain column *)
        blocks ←
          for_range 0 sz (fun z blocks =>
            write3 blocks x y z
              (Some (validateBlock (Object
                 (if z =? 0 then BEDROCK
                  else if z <? finalHeight - 4 then ROCK
                  else if z <? finalHeight - 1 then DIRT
                  else if z <? finalHeight then DIRT
                  else if z <=? waterLevel then WATER
                  else AIR)))))
            blocks;
        (* Add trees on exposed dirt blocks above water *)
        if finalHeight >? waterLevel then
          if Qltb (random n) treeChance
          then addTree sx sy sz (blocks, S n) x y finalHeight
          else Ok (blocks, S n)
        else Ok (blocks, n)))
      (blocks, n);
  (* Generate caves using Perlin noise *)
  '(blocks, n) ← generateCaves g sx sy sz;
  (* Create a safe spawn platform at the center *)
  let centerX := Math.floor (inject_Z sx / 2)%Q in
  let centerY := Math.floor (inject_Z sy / 2)%Q in
  let spawnHeight := Math.floor (inject_Z sz * (6 # 10))%Q in
  blocks ← carvePlatform blocks centerX centerY spawnHeight;
  (* Ensure all blocks are properly validated *)
  blocks ←
    for_range 0 sx (fun x =>
      for_range 0 sy (fun y =>
        for_range 0 sz (fun z blocks =>
          cell ← read3 blocks x y z;
          write3 blocks x y z (Some (validateBlock (cellValue cell))))))
      blocks;
  (* [blocks[centerX][centerY].findIndex(block => block.id === BLOCK.AIR)]
     of the log line *)
  _ ← match js_get blocks centerX ≫= (fun row => js_get row centerY) with
      | Some column => findIndexAir column
      | None => Throw TypeError
      end;
  Ok (blocks, n).

(** [generateTerrain(sx, sy, sz)]: the grid, the spawn point that the
    fallback sets (if it ran), and the number of random draws so far.  A
    throw inside the [try] block leaves the draws it made consumed; how
    many is immaterial, the fallback draws none. *)
Definition generateTerrain (sx sy sz : Z) (n : nat)
  : Result (Blocks * option Vector * nat) :=
  match generateTerrain_try sx sy sz n with
  | Ok (blocks, n') => Ok (blocks, None, n')
  | Throw _ =>
      '(blocks, spawn) ← createFlatWorld sx sy sz (Math.floor (inject_Z sz / 2)%Q);
      Ok (blocks, Some spawn, n)
  end.

(** [findSpawnPoint()] *)
Definition findSpawnPoint (sx sy sz : Z) (blocks : Blocks) : Result (Blocks * Vector) :=
  let x := Math.floor (inject_Z sx / 2)%Q in
  let y := Math.floor (inject_Z sy / 2)%Q in
  let spawnZ := Math.floor (inject_Z sz * (6 # 10))%Q in
  blocks ← carvePlatform blocks x y spawnZ;
  Ok (blocks, mkVector (inject_Z x) (inject_Z y) (inject_Z spawnZ)).

(** [new World(sx, sy, sz)], with the number of random draws made. *)
Definition constructor (sx sy sz : Z) (n : nat) : Result (t * nat) :=
  if (sx <=? 0) || (sy <=? 0) || (sz <=? 0)
  then Throw (JsError "World dimensions must be positive non-zero values.")
  else
    '(blocks, _, n) ← generateTerrain sx sy sz n;
    '(blocks, spawnPoint) ← findSpawnPoint sx sy sz blocks;
    let w := {| sx := sx; sy := sy; sz := sz; blocks := blocks;
                spawnPoint := spawnPoint;
                lightmap := replicate (Z.to_nat sx) (replicate (Z.to_nat sy) (Some 0)) |} in
    w ← updateLighting w;
    Ok (w, n).

(** The text of [error.message]; that of a [TypeError] is the engine's. *)
Definition errorMessage (e : Error) : string :=
  match e with
  | TypeError => "Cannot read properties of undefined"
  | JsError message => message
  end.

(** [Number.isInteger] *)
Definition isInteger (q : Q) : bool := Qeq_bool (inject_Z (Qfloor q)) q.

(** [World.generateWorld(sx, sy, sz)]: [Ok] is the resolved promise, [Throw]
    the rejected one. *)
Definition generateWorld (sx sy sz : Q) (n : nat) : Result (t * nat) :=
  try_catch
    (if negb (isInteger sx) || negb (isInteger sy) || negb (isInteger sz)
     then Throw (JsError "World dimensions must be integers")
     else if Qle_bool sx 0 || Qle_bool sy 0 || Qle_bool sz 0
     then Throw (JsError "World dimensions must be positive")
     else if Qltb 254 sx || Qltb 254 sy || Qltb 254 sz
     then Throw (JsError "World dimensions cannot exceed 254")
     else constructor (Qfloor sx) (Qfloor sy) (Qfloor sz) n)
    (fun error => Throw (JsError ("Failed to generate world: " +:+ errorMessage error))).

End Generation.

End World.

(** ** Mesh building ([pushQuad] and [BLOCK.pushVertices] of blocks.js) *)

Module Mesh.
Import BLOCK.

(** A vertex component that may be [NaN]. *)
Definition Component := option Q.

(** [validateVertex]: an array of 9 numbers, none of them [NaN]. *)
Definition validateVertex (v : list Component) : option (list Q) :=
  if (length v =? 9)%nat then mapM (fun c => c) v else None.

(** [pushQuad(vertices, v1, v2, v3, v4)]: two triangles, or nothing when a
    vertex is invalid. *)
Definition pushQuad (vertices : list Q) (v1 v2 v3 v4 : list Component) : list Q :=
  match validateVertex v1, validateVertex v2, validateVertex v3, validateVertex v4 with
  | Some a1, Some a2, Some a3, Some a4 =>
      (vertices ++ a1 ++ a2 ++ a3) ++ a3 ++ a4 ++ a1
  | _, _, _, _ => vertices
  end.

Definition padding : Q := 1 # 4096.

(** [adjustTexture(c)]; a coordinate that is missing or [NaN] makes the
    results [NaN]. *)
Definition adjustTexture (c : list Component) : list Component :=
  let lo i := (fun v => v + padding)%Q <$> mjoin (c !! i) in
  let hi i := (fun v => v - padding)%Q <$> mjoin (c !! i) in
  [ Math.min (lo 0%nat) (hi 2%nat); Math.min (lo 1%nat) (hi 3%nat);
    Math.max (lo 0%nat) (hi 2%nat); Math.max (lo 1%nat) (hi 3%nat) ].

(** [snap(v)] *)
Definition snap (v : Q) : Q := inject_Z (Math.round (v * 4096)) / 4096.

(** One vertex of [makeQuad]. *)
Definition makeVertex (lightLevel : Q) (pos : Q * Q * Q) (tex : Component * Component)
  : list Component :=
  let '(px, py, pz) := pos in
  [ Some (snap px); Some (snap py); Some (snap pz); tex.1; tex.2;
    Some lightLevel; Some lightLevel; Some lightLevel; Some 1%Q ].

Definition coord (c : list Component) (i : nat) : Component := mjoin (c !! i).

(** The two orders in which the faces list their texture corners. *)
Definition texCoordsA (c : list Component) : list (Component * Component) :=
  [ (coord c 0, coord c 1); (coord c 2, coord c 1);
    (coord c 2, coord c 3); (coord c 0, coord c 3) ].
Definition texCoordsB (c : list Component) : list (Component * Component) :=
  [ (coord c 0, coord c 3); (coord c 2, coord c 3);
    (coord c 2, coord c 1); (coord c 0, coord c 1) ].

(** [pushQuad(vertices, ...makeQuad(positions, texCoords))] *)
Definition pushFace (vertices : list Q) (lightLevel : Q)
    (positions : list (Q * Q * Q)) (texCoords : list (Component * Component)) : list Q :=
  match zip_with (makeVertex lightLevel) positions texCoords with
  | [v1; v2; v3; v4] => pushQuad vertices v1 v2 v3 v4
  | _ => vertices
  end.

(** [blocks[x][y][z].transparent] (or [.fluid]) for a neighbouring slot. *)
Definition neighbour (flag : Block -> option bool) (blocks : World.Blocks) (x y z : Z)
  : Result bool :=
  cell ← World.read3 blocks x y z;
  match cell with
  | None => Throw TypeError
  | Some b => Ok (truthy (flag b))
  end.

(** [block.texture(world, lightmap, blockLit, x, y, z, dir)] *)
Definition callTexture (block : Block) (lit : bool) (dir : DIRECTION)
  : Result (list Component) :=
  match texture block with
  | Some f => Ok (f lit dir)
  | None => Throw TypeError
  end.

(** [a || b] where evaluating [b] may throw. *)
Definition orElse (a : bool) (b : Result bool) : Result bool :=
  if a then Ok true else b.

(** One face of [pushVertices]: [if (visible) { const c = adjustTexture(
    block.texture(..., dir)); ...; pushQuad(vertices, ...makeQuad(positions,
    texCoords)); }] *)
Definition face (block : Block) (blockLit : bool) (lightLevel : Q)
    (visible : Result bool) (dir : DIRECTION) (positions : list (Q * Q * Q))
    (texCoords : list Component -> list (Component * Component))
    (vertices : list Q) : Result (list Q) :=
  visible ← visible;
  if visible : bool then
    c ← adjustTexture <$> callTexture block blockLit dir;
    Ok (pushFace vertices lightLevel positions (texCoords c))
  else Ok vertices.

(** [BLOCK.pushVertices(vertices, world, lightmap, x, y, z)] *)
Definition pushVertices (vertices : list Q) (world : World.t)
    (lightmap : list (list (option Z))) (x y z : Z) : Result (list Q) :=
  let blocks := World.blocks world in
  match World.read3_opt blocks x y z with
  | None => Ok vertices
  | Some block =>
      if bool_decide (id block = id AIR) then Ok vertices
      else
        let blockLit :=
          match js_get lightmap x ≫= (fun row => mjoin (js_get row y)) with
          | Some l => if l =? 0 then true else l <=? z
          | None => true
          end in
        bH ← (if truthy (fluid block)
              then above ← orElse (z =? World.sz world - 1)
                                  (negb <$> neighbour fluid blocks x y (z + 1));
                   Ok (if above : bool then (9 # 10)%Q else 1%Q)
              else Ok 1%Q);
        let color : Q :=
          (if truthy (selflit block) then 1 else if blockLit then 1 else 6 # 10)%Q in
        let X := inject_Z x in
        let Y := inject_Z y in
        let Zq := inject_Z z in
        (* Top face *)
        vertices ←
          face block blockLit color
            (a ← orElse (z =? World.sz world - 1)
                        (neighbour transparent blocks x y (z + 1));
             Ok (a || truthy (fluid block)))
            UP
            [ (X, Y, Zq + bH); (X + 1, Y, Zq + bH);
              (X + 1, Y + 1, Zq + bH); (X, Y + 1, Zq + bH) ]%Q
            texCoordsA vertices;
        (* Bottom face *)
        vertices ←
          face block blockLit color
            (orElse (z =? 0) (neighbour transparent blocks x y (z - 1)))
            DOWN
            [ (X, Y + 1, Zq); (X + 1, Y + 1, Zq); (X + 1, Y, Zq); (X, Y, Zq) ]%Q
            texCoordsB vertices;
        (* Front face *)
        vertices ←
          face block blockLit color
            (orElse (y =? 0) (neighbour transparent blocks x (y - 1) z))
            FORWARD
            [ (X, Y, Zq); (X + 1, Y, Zq); (X + 1, Y, Zq + bH); (X, Y, Zq + bH) ]%Q
            texCoordsB vertices;
        (* Back face *)
        vertices ←
          face block blockLit color
            (orElse (y =? World.sy world - 1) (neighbour transparent blocks x (y + 1) z))
            BACK
            [ (X, Y + 1, Zq + bH); (X + 1, Y + 1, Zq + bH);
              (X + 1, Y + 1, Zq); (X, Y + 1, Zq) ]%Q
            texCoordsA vertices;
        (* Left face *)
        vertices ←
          face block blockLit color
            (orElse (x =? 0) (neighbour transparent blocks (x - 1) y z))
            LEFT
            [ (X, Y, Zq + bH); (X, Y + 1, Zq + bH); (X, Y + 1, Zq); (X, Y, Zq) ]%Q
            texCoordsA vertices;
        (* Right face *)
        face block blockLit color
          (orElse (x =? World.sx world - 1) (neighbour transparent blocks (x + 1) y z))
          RIGHT
          [ (X + 1, Y, Zq); (X + 1, Y + 1, Zq);
            (X + 1, Y + 1, Zq + bH); (X + 1, Y, Zq + bH) ]%Q
          texCoordsB vertices
  end.

End Mesh.

(** ** The matrix library (gl-matrix), as far as the renderer uses it

    The library is not part of the repository; its functions are transcribed
    from its documented formulas, on column-major 4x4 matrices.  The entries
    are exact rationals here, where the library computes in doubles and
    stores single-precision floats: a matrix or plane of this section agrees
    with the program's up to that rounding, not to the last digit.  Nothing
    below is stated of matrices or planes that these functions produce,
    except where a sign is decided with a margin far above the rounding. *)

Module vec4.

Record t := mk { v0 : Q; v1 : Q; v2 : Q; v3 : Q }.

(** [vec4.create()] *)
Definition create : t := mk 0 0 0 0.

(** [vec4.fromValues(x, y, z, w)] and [vec4.set(out, x, y, z, w)] *)
Definition fromValues (x y z w : Q) : t := mk x y z w.

(** [vec4.dot(a, b)] *)
Definition dot (a b : t) : Q :=
  (v0 a * v0 b + v1 a * v1 b + v2 a * v2 b + v3 a * v3 b)%Q.

(** [vec4.normalize(out, a)] *)
Definition normalize (a : t) : t :=
  let len := (v0 a * v0 a + v1 a * v1 a + v2 a * v2 a + v3 a * v3 a)%Q in
  let len := if Qltb 0 len then (1 / Math.sqrt len)%Q else len in
  mk (v0 a * len) (v1 a * len) (v2 a * len) (v3 a * len).

End vec4.

Module mat4.

(** The sixteen entries [m[0]] .. [m[15]], column by column. *)
Record t := mk {
  m0 : Q; m1 : Q; m2 : Q; m3 : Q;
  m4 : Q; m5 : Q; m6 : Q; m7 : Q;
  m8 : Q; m9 : Q; m10 : Q; m11 : Q;
  m12 : Q; m13 : Q; m14 : Q; m15 : Q
}.

(** [mat4.create()] and [mat4.identity(out)] *)
Definition identity : t :=
  mk 1 0 0 0
     0 1 0 0
     0 0 1 0
     0 0 0 1.

(** [mat4.multiply(out, a, b)] *)
Definition multiply (a b : t) : t :=
  let row (b0 b1 b2 b3 : Q) :=
    ( b0 * m0 a + b1 * m4 a + b2 * m8 a + b3 * m12 a,
      b0 * m1 a + b1 * m5 a + b2 * m9 a + b3 * m13 a,
      b0 * m2 a + b1 * m6 a + b2 * m10 a + b3 * m14 a,
      b0 * m3 a + b1 * m7 a + b2 * m11 a + b3 * m15 a )%Q in
  let '(o0, o1, o2, o3) := row (m0 b) (m1 b) (m2 b) (m3 b) in
  let '(o4, o5, o6, o7) := row (m4 b) (m5 b) (m6 b) (m7 b) in
  let '(o8, o9, o10, o11) := row (m8 b) (m9 b) (m10 b) (m11 b) in
  let '(o12, o13, o14, o15) := row (m12 b) (m13 b) (m14 b) (m15 b) in
  mk o0 o1 o2 o3 o4 o5 o6 o7 o8 o9 o10 o11 o12 o13 o14 o15.

(** [mat4.translate(out, a, v)] *)
Definition translate (a : t) (v : Q * Q * Q) : t :=
  let '(x, y, z) := v in
  mk (m0 a) (m1 a) (m2 a) (m3 a)
     (m4 a) (m5 a) (m6 a) (m7 a)
     (m8 a) (m9 a) (m10 a) (m11 a)
     (m0 a * x + m4 a * y + m8 a * z + m12 a)
     (m1 a * x + m5 a * y + m9 a * z + m13 a)
     (m2 a * x + m6 a * y + m10 a * z + m14 a)
     (m3 a * x + m7 a * y + m11 a * z + m15 a).

(** [mat4.rotateX(out, a, rad)] *)
Definition rotateX (a : t) (rad : Q) : t :=
  let s := Math.sin rad in
  let c := Math.cos rad in
  mk (m0 a) (m1 a) (m2 a) (m3 a)
     (m4 a * c + m8 a * s) (m5 a * c + m9 a * s)
     (m6 a * c + m10 a * s) (m7 a * c + m11 a * s)
     (m8 a * c - m4 a * s) (m9 a * c - m5 a * s)
     (m10 a * c - m6 a * s) (m11 a * c - m7 a * s)
     (m12 a) (m13 a) (m14 a) (m15 a).

(** [mat4.rotateY(out, a, rad)] *)
Definition rotateY (a : t) (rad : Q) : t :=
  let s := Math.sin rad in
  let c := Math.cos rad in
  mk (m0 a * c - m8 a * s) (m1 a * c - m9 a * s)
     (m2 a * c - m10 a * s) (m3 a * c - m11 a * s)
     (m4 a) (m5 a) (m6 a) (m7 a)
     (m0 a * s + m8 a * c) (m1 a * s + m9 a * c)
     (m2 a * s + m10 a * c) (m3 a * s + m11 a * c)
     (m12 a) (m13 a) (m14 a) (m15 a).

(** [mat4.rotateZ(out, a, rad)] *)
Definition rotateZ (a : t) (rad : Q) : t :=
  let s := Math.sin rad in
  let c := Math.cos rad in
  mk (m0 a * c + m4 a * s) (m1 a * c + m5 a * s)
     (m2 a * c + m6 a * s) (m3 a * c + m7 a * s)
     (m4 a * c - m0 a * s) (m5 a * c - m1 a * s)
     (m6 a * c - m2 a * s) (m7 a * c - m3 a * s)
     (m8 a) (m9 a) (m10 a) (m11 a)
     (m12 a) (m13 a) (m14 a) (m15 a).

(** [mat4.perspectiveNO(out, fovy, aspect, near, far)] with a finite [far] *)
Definition perspectiveNO (fovy aspect near far : Q) : t :=
  let f := (1 / Math.tan (fovy / 2))%Q in
  let nf := (1 / (near - far))%Q in
  mk (f / aspect) 0 0 0
     0 f 0 0
     0 0 ((far + near) * nf) (-1)
     0 0 (2 * far * near * nf) 0.

End mat4.

(** ** Renderer (render.js): chunk streaming, chunk building, frustum test *)

Module GL.

(** A vertex buffer: its handle, [buffer.vertices] and the uploaded data. *)
Record Buffer := mkBuffer {
  handle : nat;
  vertices : Q;
  data : list Q
}.

(** The part of the WebGL context the chunk code touches: the next fresh
    buffer handle and the handles passed to [deleteBuffer]. *)
Record t := mk {
  nextBuffer : nat;
  deleted : gset nat
}.

Definition deleteBuffer (gl : t) (buffer : Buffer) : t :=
  {| nextBuffer := nextBuffer gl; deleted := {[handle buffer]} ∪ deleted gl |}.

(** [gl.createBuffer()], taken to succeed. *)
Definition createBuffer (gl : t) : nat * t :=
  (nextBuffer gl, {| nextBuffer := S (nextBuffer gl); deleted := deleted gl |}).

End GL.

Module Renderer.

Record Chunk := mkChunk {
  start : Z * Z * Z;
  end_ : Z * Z * Z;
  dirty : bool;
  buffer : option GL.Buffer
}.

(** An entry of [chunkLoadQueue]. *)
Record Pending := mkPending {
  x : Z;
  y : Z;
  z : Z;
  priority : Q
}.

(** An entry of [eventQueue]: [{ type: 'blockChanged', x, y, z }]. *)
Inductive Event := blockChanged (x y z : Z).

(** The renderer.  The keys of [chunkMap], strings ["cx,cy,cz"] in the
    source, are triples of integers here. *)
Record t := mk {
  gl : GL.t;
  chunkSize : Z;
  chunkMap : gmap (Z * Z * Z) Chunk;
  chunks : list Chunk;
  chunkLoadQueue : list Pending;
  loadDistance : Z;
  unloadDistance : Z;
  maxChunksPerFrame : Z;
  camPos : option (Q * Q * Q);
  projMatrix : mat4.t;
  viewMatrix : mat4.t;
  frustumPlanes : list vec4.t;
  eventQueue : list Event
}.

Definition set_gl (r : t) (v : GL.t) : t :=
  mk v (chunkSize r) (chunkMap r) (chunks r) (chunkLoadQueue r) (loadDistance r)
     (unloadDistance r) (maxChunksPerFrame r) (camPos r) (projMatrix r) (viewMatrix r)
     (frustumPlanes r) (eventQueue r).
Definition set_chunkMap (r : t) (v : gmap (Z * Z * Z) Chunk) : t :=
  mk (gl r) (chunkSize r) v (chunks r) (chunkLoadQueue r) (loadDistance r)
     (unloadDistance r) (maxChunksPerFrame r) (camPos r) (projMatrix r) (viewMatrix r)
     (frustumPlanes r) (eventQueue r).
Definition set_chunks (r : t) (v : list Chunk) : t :=
  mk (gl r) (chunkSize r) (chunkMap r) v (chunkLoadQueue r) (loadDistance r)
     (unloadDistance r) (maxChunksPerFrame r) (camPos r) (projMatrix r) (viewMatrix r)
     (frustumPlanes r) (eventQueue r).
Definition set_chunkLoadQueue (r : t) (v : list Pending) : t :=
  mk (gl r) (chunkSize r) (chunkMap r) (chunks r) v (loadDistance r)
     (unloadDistance r) (maxChunksPerFrame r) (camPos r) (projMatrix r) (viewMatrix r)
     (frustumPlanes r) (eventQueue r).
Definition set_camera (r : t) (pos : Q * Q * Q) (view : mat4.t) : t :=
  mk (gl r) (chunkSize r) (chunkMap r) (chunks r) (chunkLoadQueue r) (loadDistance r)
     (unloadDistance r) (maxChunksPerFrame r) (Some pos) (projMatrix r) view
     (frustumPlanes r) (eventQueue r).
Definition set_projMatrix (r : t) (v : mat4.t) : t :=
  mk (gl r) (chunkSize r) (chunkMap r) (chunks r) (chunkLoadQueue r) (loadDistance r)
     (unloadDistance r) (maxChunksPerFrame r) (camPos r) v (viewMatrix r)
     (frustumPlanes r) (eventQueue r).
Definition set_frustumPlanes (r : t) (v : list vec4.t) : t :=
  mk (gl r) (chunkSize r) (chunkMap r) (chunks r) (chunkLoadQueue r) (loadDistance r)
     (unloadDistance r) (maxChunksPerFrame r) (camPos r) (projMatrix r) (viewMatrix r)
     v (eventQueue r).
Definition set_eventQueue (r : t) (v : list Event) : t :=
  mk (gl r) (chunkSize r) (chunkMap r) (chunks r) (chunkLoadQueue r) (loadDistance r)
     (unloadDistance r) (maxChunksPerFrame r) (camPos r) (projMatrix r) (viewMatrix r)
     (frustumPlanes r) v.

(** [setWorld(world, chunkSize)]: the chunk structures start empty. *)
Definition setWorld (r : t) (chunkSize' : Z) : t :=
  mk (gl r) chunkSize' ∅ [] (chunkLoadQueue r) (loadDistance r)
     (unloadDistance r) (maxChunksPerFrame r) (camPos r) (projMatrix r) (viewMatrix r)
     (frustumPlanes r) (eventQueue r).

(** [getChunkKey(x, y, z)] *)
Definition getChunkKey (r : t) (x y z : Z) : Z * Z * Z :=
  (x / chunkSize r, y / chunkSize r, z / chunkSize r).

(** [onBlockChanged(x, y, z)] *)
Definition onBlockChanged (x y z : Z) (r : t) : t :=
  set_eventQueue r (eventQueue r ++ [blockChanged x y z]).

(** The mesh of the cells [start .. end) ], the loops of [buildChunk]. *)
Definition chunkVertices (world : World.t) (chunk : Chunk) : Result (list Q) :=
  let '(x0, y0, z0) := start chunk in
  let '(x1, y1, z1) := end_ chunk in
  for_range x0 x1 (fun x =>
    for_range y0 y1 (fun y =>
      for_range z0 z1 (fun z vertexData =>
        if negb (bool_decide
                   (World.read3_opt (World.blocks world) x y z ≫= BLOCK.id
                    = BLOCK.id BLOCK.AIR))
        then Mesh.pushVertices vertexData world (World.lightmap world) x y z
        else Ok vertexData)))
    [].

(** The tail of [buildChunk] and of the loop body of [buildChunks]: upload
    the vertices, if any, and clear the dirty flag. *)
Definition upload (gl0 : GL.t) (chunk : Chunk) (vertexData : list Q) : GL.t * Chunk * bool :=
  if (0 <? length vertexData)%nat then
    let gl1 := match buffer chunk with
               | Some b => GL.deleteBuffer gl0 b
               | None => gl0
               end in
    let '(h, gl2) := GL.createBuffer gl1 in
    (gl2,
     {| start := start chunk; end_ := end_ chunk; dirty := false;
        buffer := Some (GL.mkBuffer h (inject_Z (Z.of_nat (length vertexData)) / 9)
                          vertexData) |},
     true)
  else
    (gl0,
     {| start := start chunk; end_ := end_ chunk; dirty := false;
        buffer := buffer chunk |},
     false).

(** [buildChunk(chunk)], returning the chunk as it is left. *)
Definition buildChunk (r : t) (world : World.t) (chunk : Chunk) : Result (t * Chunk) :=
  vertexData ← chunkVertices world chunk;
  let '(gl', chunk', _) := upload (gl r) chunk vertexData in
  Ok (set_gl r gl', chunk').

(** [createChunk(x, y, z)].  The object put into [chunkMap] is the one
    [buildChunk] then completes, so the map holds the built chunk; when the
    build throws, the map keeps the unbuilt one. *)
Definition createChunk (r : t) (world : World.t) (x y z : Z) : t * Result Chunk :=
  let chunk := {|
    start := (x, y, z);
    end_ := (Z.min (x + chunkSize r) (World.sx world),
             Z.min (y + chunkSize r) (World.sy world),
             Z.min (z + chunkSize r) (World.sz world));
    dirty := true;
    buffer := None |} in
  let key := getChunkKey r x y z in
  let r1 := set_chunkMap r (<[key := chunk]> (chunkMap r)) in
  match buildChunk r1 world chunk with
  | Ok (r2, chunk') => (set_chunkMap r2 (<[key := chunk']> (chunkMap r2)), Ok chunk')
  | Throw e => (r1, Throw e)
  end.

(** [processChunkQueue()]: [budget] is what is left of [maxChunksPerFrame]. *)
Fixpoint processLoop (budget : nat) (r : t) (world : World.t) : t * Result unit :=
  match budget with
  | O => (r, Ok ())
  | S budget' =>
      match chunkLoadQueue r with
      | [] => (r, Ok ())
      | chunk :: rest =>
          match createChunk (set_chunkLoadQueue r rest) world (x chunk) (y chunk) (z chunk) with
          | (r', Ok _) => processLoop budget' r' world
          | (r', Throw e) => (r', Throw e)
          end
      end
  end.

Definition processChunkQueue (r : t) (world : World.t) : t * Result unit :=
  processLoop (Z.to_nat (maxChunksPerFrame r)) r world.

(** [Math.sqrt(dx*dx + dy*dy + dz*dz)] *)
Definition distance (dx dy dz : Z) : Q :=
  Math.sqrt (inject_Z (dx * dx + dy * dy + dz * dz)).

(** [Array.prototype.sort((a, b) => a.priority - b.priority)]: the host's
    sort is stable; it is rendered as a stable insertion sort, the entries
    being inserted from the last to the first, each before its equals. *)
Fixpoint insertByPriority (e : Pending) (queue : list Pending) : list Pending :=
  match queue with
  | [] => [e]
  | e' :: rest =>
      if Qle_bool (priority e) (priority e') then e :: queue
      else e' :: insertByPriority e rest
  end.

Definition sortByPriority (queue : list Pending) : list Pending :=
  foldr (fun e sorted => insertByPriority e sorted) [] queue.

(** The view vector that [updateChunksAroundPlayer] computes. *)
Definition viewVector (camPos' : Q * Q * Q) : Q * Q * Q :=
  let '(c0, c1, _) := camPos' in
  ( Math.cos c1 * Math.cos c0,
    Math.sin c1 * Math.cos c0,
    Math.sin c0 )%Q.

(** The loops that fill [chunkLoadQueue]. *)
Definition collectQueue (r : t) (world : World.t) (px py pz : Z) (view : Q * Q * Q)
  : list Pending :=
  let L := loadDistance r in
  iter_range (px - L) (px + L + 1) (fun x =>
    iter_range (py - L) (py + L + 1) (fun y =>
      iter_range (pz - L) (pz + L + 1) (fun z queue =>
        if negb (World.isInBounds world (x * chunkSize r) (y * chunkSize r) (z * chunkSize r))
        then queue
        else
          let dx := x - px in
          let dy := y - py in
          let dz := z - pz in
          let distance := distance dx dy dz in
          if Qle_bool distance (inject_Z L) then
            let key := getChunkKey r (x * chunkSize r) (y * chunkSize r) (z * chunkSize r) in
            let chunk := chunkMap r !! key in
            let '(vx, vy, vz) := view in
            let viewAlignment :=
              (inject_Z dx * vx + inject_Z dy * vy + inject_Z dz * vz)%Q in
            let priority := (distance - (if Qltb 0 viewAlignment then 2 else 0))%Q in
            match chunk with
            | None =>
                queue ++ [ {| x := x * chunkSize r; y := y * chunkSize r;
                              z := z * chunkSize r; priority := priority |} ]
            | Some _ => queue
            end
          else queue)))
    [].

(** Whether the unloading loop drops the chunk with this key. *)
Definition tooFar (r : t) (px py pz : Z) (key : Z * Z * Z) : bool :=
  let '(cx, cy, cz) := key in
  Qltb (inject_Z (unloadDistance r)) (distance (cx - px) (cy - py) (cz - pz)).

(** [updateChunksAroundPlayer(playerPos)] *)
Definition updateChunksAroundPlayer (r : t) (world : World.t) (playerPos : World.Vector)
  : t * Result unit :=
  let cs := inject_Z (chunkSize r) in
  let px := Math.floor (World.x playerPos / cs) in
  let py := Math.floor (World.y playerPos / cs) in
  let pz := Math.floor (World.z playerPos / cs) in
  match camPos r with
  | None => (r, Throw TypeError)          (* [this.camPos[1]] on undefined *)
  | Some camPos' =>
      let view := viewVector camPos' in
      let queue := sortByPriority (collectQueue r world px py pz view) in
      let doomed := filter (fun kc => tooFar r px py pz kc.1 = true) (chunkMap r) in
      let gl' :=
        map_fold (fun _ chunk gl0 =>
                    match buffer chunk with
                    | Some b => GL.deleteBuffer gl0 b
                    | None => gl0
                    end) (gl r) doomed in
      let kept := filter (fun kc => tooFar r px py pz kc.1 = false) (chunkMap r) in
      let r' := set_gl (set_chunkMap (set_chunkLoadQueue r queue) kept) gl' in
      processChunkQueue r' world
  end.

(** [setPerspective(fov, aspect, near, far)] *)
Definition setPerspective (r : t) (fov aspect near far : Q) : t :=
  set_projMatrix r (mat4.perspectiveNO fov aspect near far).

(** [setCamera(pos, ang)], [ang] being pitch, yaw and roll. *)
Definition setCamera (r : t) (pos : Q * Q * Q) (ang : Q * Q * Q) : t :=
  let '(px, py, pz) := pos in
  let '(ang0, ang1, ang2) := ang in
  let view := mat4.identity in
  let view := mat4.rotateX view (- ang0 - Math.PI / 2)%Q in
  let view := mat4.rotateZ view ang1 in
  let view := mat4.rotateY view (- ang2)%Q in
  let view := mat4.translate view (- px, - py, - pz)%Q in
  set_camera r pos view.

(** The six planes that [updateFrustumPlanes] extracts from [m]. *)
Definition planesOf (m : mat4.t) : list vec4.t :=
  let m0 := mat4.m0 m in let m1 := mat4.m1 m in let m2 := mat4.m2 m in
  let m3 := mat4.m3 m in let m4 := mat4.m4 m in let m5 := mat4.m5 m in
  let m6 := mat4.m6 m in let m7 := mat4.m7 m in let m8 := mat4.m8 m in
  let m9 := mat4.m9 m in let m10 := mat4.m10 m in let m11 := mat4.m11 m in
  let m12 := mat4.m12 m in let m13 := mat4.m13 m in let m14 := mat4.m14 m in
  let m15 := mat4.m15 m in
  [ (* Left plane *)
    vec4.normalize (vec4.fromValues (m3 + m0) (m7 + m4) (m11 + m8) (m15 + m12));
    (* Right plane *)
    vec4.normalize (vec4.fromValues (m3 - m0) (m7 - m4) (m11 - m8) (m15 - m12));
    (* Bottom plane *)
    vec4.normalize (vec4.fromValues (m3 + m1) (m7 + m5) (m11 + m9) (m15 + m13));
    (* Top plane *)
    vec4.normalize (vec4.fromValues (m3 - m1) (m7 - m5) (m11 - m9) (m15 - m13));
    (* Near plane *)
    vec4.normalize (vec4.fromValues (m3 + m2) (m7 + m6) (m11 + m10) (m15 + m14));
    (* Far plane *)
    vec4.normalize (vec4.fromValues (m3 - m2) (m7 - m6) (m11 - m10) (m15 - m14))
  ]%Q.

(** [updateFrustumPlanes()] *)
Definition updateFrustumPlanes (r : t) : t :=
  set_frustumPlanes r (planesOf (mat4.multiply (projMatrix r) (viewMatrix r))).

(** The eight corners in the order [isChunkInFrustum] tests them. *)
Definition corners (chunk : Chunk) : list vec4.t :=
  let '(s0, s1, s2) := start chunk in
  let '(e0, e1, e2) := end_ chunk in
  let q := inject_Z in
  [ vec4.fromValues (q s0) (q s1) (q s2) 1; vec4.fromValues (q e0) (q s1) (q s2) 1;
    vec4.fromValues (q s0) (q e1) (q s2) 1; vec4.fromValues (q e0) (q e1) (q s2) 1;
    vec4.fromValues (q s0) (q s1) (q e2) 1; vec4.fromValues (q e0) (q s1) (q e2) 1;
    vec4.fromValues (q s0) (q e1) (q e2) 1; vec4.fromValues (q e0) (q e1) (q e2) 1 ].

(** The test of one plane: all eight corners on its negative side. *)
Definition allOutside (plane : vec4.t) (chunk : Chunk) : bool :=
  forallb (fun corner => Qltb (vec4.dot plane corner) 0) (corners chunk).

(** [isChunkInFrustum(chunk)]; [frustumPlanes] always holds six planes. *)
Definition isChunkInFrustum (r : t) (chunk : Chunk) : bool :=
  negb (existsb (fun plane => allOutside plane chunk) (frustumPlanes r)).

(** The vertex loops of [buildChunks]: those of [buildChunk], but reading
    [blocks[x][y][z]?.id], which throws where the row or the column is
    missing. *)
Definition chunkVerticesStrict (world : World.t) (chunk : Chunk) : Result (list Q) :=
  let '(x0, y0, z0) := start chunk in
  let '(x1, y1, z1) := end_ chunk in
  for_range x0 x1 (fun x =>
    for_range y0 y1 (fun y =>
      for_range z0 z1 (fun z vertexData =>
        cell ← World.read3 (World.blocks world) x y z;
        if negb (bool_decide (cell ≫= BLOCK.id = BLOCK.id BLOCK.AIR))
        then Mesh.pushVertices vertexData world (World.lightmap world) x y z
        else Ok vertexData)))
    [].

(** The loop of [buildChunks] over [this.chunks] from some index on, inside
    its [try]: an exception ends the loop with what was built so far. *)
Fixpoint buildChunksFrom (world : World.t) (gl0 : GL.t) (count : Z) (chunks : list Chunk)
  : GL.t * list Chunk :=
  match chunks with
  | [] => (gl0, [])
  | chunk :: rest =>
      if negb (dirty chunk) then
        let '(gl1, rest') := buildChunksFrom world gl0 count rest in
        (gl1, chunk :: rest')
      else
        match chunkVerticesStrict world chunk with
        | Throw _ => (gl0, chunk :: rest)
        | Ok vertexData =>
            let '(gl1, chunk', _) := upload gl0 chunk vertexData in
            let count := count - 1 in
            if count =? 0 then (gl1, chunk' :: rest)
            else
              let '(gl2, rest') := buildChunksFrom world gl1 count rest in
              (gl2, chunk' :: rest')
        end
  end.

(** [buildChunks(count)] *)
Definition buildChunks (r : t) (world : World.t) (count : Z) : t :=
  let '(gl', chunks') := buildChunksFrom world (gl r) count (chunks r) in
  set_chunks (set_gl r gl') chunks'.

(** [processEvents()]: [fuel] bounds the turns of the [while] loop, one for
    each queued event. *)
Fixpoint processEventsLoop (fuel : nat) (r : t) (world : World.t) : t :=
  match fuel with
  | O => r
  | S fuel' =>
      match eventQueue r with
      | [] => r
      | event :: rest =>
          let r := set_eventQueue r rest in
          let r := match event with
                   | blockChanged _ _ _ => buildChunks r world 1
                   end in
          processEventsLoop fuel' r world
      end
  end.

Definition processEvents (r : t) (world : World.t) : t :=
  processEventsLoop (length (eventQueue r)) r world.

(** The vertex loops of [buildChunksAroundPlayer]: they read
    [blocks[x][y][z]], which throws where the row or the column is missing,
    and skip a slot that is empty as well as one that holds AIR. *)
Definition chunkVerticesNear (world : World.t) (chunk : Chunk) : Result (list Q) :=
  let '(x0, y0, z0) := start chunk in
  let '(x1, y1, z1) := end_ chunk in
  for_range x0 x1 (fun x =>
    for_range y0 y1 (fun y =>
      for_range z0 z1 (fun z vertexData =>
        cell ← World.read3 (World.blocks world) x y z;
        match cell with
        | Some block =>
            if negb (bool_decide (BLOCK.id block = BLOCK.id BLOCK.AIR))
            then Mesh.pushVertices vertexData world (World.lightmap world) x y z
            else Ok vertexData
        | None => Ok vertexData
        end)))
    [].

(** [dist]: the distance from the centre of the box of a chunk to the
    player. *)
Definition centreDistance (playerPos : World.Vector) (chunk : Chunk) : Q :=
  let '(s0, s1, s2) := start chunk in
  let '(e0, e1, e2) := end_ chunk in
  let cx := (inject_Z (s0 + e0) / 2)%Q in
  let cy := (inject_Z (s1 + e1) / 2)%Q in
  let cz := (inject_Z (s2 + e2) / 2)%Q in
  Math.sqrt ((cx - World.x playerPos) * (cx - World.x playerPos)
             + (cy - World.y playerPos) * (cy - World.y playerPos)
             + (cz - World.z playerPos) * (cz - World.z playerPos)).

(** An entry [{ chunk, dist }] of [sortedChunks].  The chunk is an object of
    [this.chunks]; it is named by its index there, so that building it shows
    in the list. *)
Definition Near : Type := nat * Q.

(** [this.chunks.filter(chunk => chunk.dirty).map(...)], from index [i] on. *)
Fixpoint dirtyFrom (playerPos : World.Vector) (i : nat) (chunks : list Chunk) : list Near :=
  match chunks with
  | [] => []
  | chunk :: rest =>
      if dirty chunk
      then (i, centreDistance playerPos chunk) :: dirtyFrom playerPos (S i) rest
      else dirtyFrom playerPos (S i) rest
  end.

(** [.sort((a, b) => a.dist - b.dist)], the stable sort of the host as for
    [sortByPriority]. *)
Fixpoint insertByDistance (e : Near) (sorted : list Near) : list Near :=
  match sorted with
  | [] => [e]
  | e' :: rest =>
      if Qle_bool e.2 e'.2 then e :: sorted
      else e' :: insertByDistance e rest
  end.

Definition sortByDistance (entries : list Near) : list Near :=
  foldr (fun e sorted => insertByDistance e sorted) [] entries.

(** The loop over [sortedChunks], inside the [try]: the state is the context,
    [this.chunks] and [built].  It stops at the first entry met with
    [built >= count], and an exception ends it with what was built so far. *)
Fixpoint buildNear (world : World.t) (count : Z) (sortedChunks : list Near)
    (st : GL.t * list Chunk * Z) : GL.t * list Chunk * Z :=
  match sortedChunks with
  | [] => st
  | (i, _) :: rest =>
      let '(gl0, chunks, built) := st in
      if built >=? count then st
      else
        match chunks !! i with
        | None => st
        | Some chunk =>
            match chunkVerticesNear world chunk with
            | Throw _ => st
            | Ok vertexData =>
                let '(gl1, chunk', uploaded) := upload gl0 chunk vertexData in
                buildNear world count rest
                  (gl1, <[i := chunk']> chunks, if uploaded then built + 1 else built)
            end
        end
  end.

(** [buildChunksAroundPlayer(playerPos, count)] *)
Definition buildChunksAroundPlayer (r : t) (world : World.t) (playerPos : World.Vector)
    (count : Z) : t :=
  let sortedChunks := sortByDistance (dirtyFrom playerPos 0 (chunks r)) in
  let '(gl', chunks', _) := buildNear world count sortedChunks (gl r, chunks r, 0) in
  set_chunks (set_gl r gl') chunks'.

End Renderer.
(** ** The chunk list of the world (network.js) *)

(** The methods [setWorld] and [getChunkAtBlock] of the class [World]. *)
Module WorldChunks.

(** What they keep in [this]: [chunkSize] ([None] while it is undefined) and
    [chunks]. *)
Record t := mk {
  chunkSize : option Z;
  chunks : list Renderer.Chunk
}.

(** [for (let i = lo; i < hi; i += step) body]; the loop need not end, [None]
    says that the fuel ran out. *)
Fixpoint stride_loop {S : Type} (fuel : nat) (i hi step : Z) (body : Z -> S -> option S)
    (s : S) : option S :=
  if i <? hi then
    match fuel with
    | O => None
    | Datatypes.S fuel' =>
        s' ← body i s;
        stride_loop fuel' (i + step) hi step body s'
    end
  else Some s.

(** [setWorld(world, chunkSize)] *)
Definition setWorld (fuel : nat) (world : World.t) (chunkSize' : Z) : option t :=
  chunks' ←
    stride_loop fuel 0 (World.sx world) chunkSize' (fun x =>
      stride_loop fuel 0 (World.sy world) chunkSize' (fun y =>
        stride_loop fuel 0 (World.sz world) chunkSize' (fun z chunks =>
          Some (chunks ++
                [Renderer.mkChunk (x, y, z)
                   (Z.min (World.sx world) (x + chunkSize'),
                    Z.min (World.sy world) (y + chunkSize'),
                    Z.min (World.sz world) (z + chunkSize'))
                   true None]))))
      [];
  Some {| chunkSize := Some chunkSize'; chunks := chunks' |}.

(** [getChunkAtBlock(x, y, z)] for integer coordinates; [None] is [null]. *)
Definition getChunkAtBlock (this : t) (x y z : Z) : option (Z * Z * Z) :=
  match chunkSize this with
  | None => None
  | Some size => if size =? 0 then None else Some (x / size, y / size, z / size)
  end.

End WorldChunks.
(** ** Physics (physics.js) *)

Module Physics.

Record t := mk { lastStep : Z }.

(** [new Physics()] *)
Definition constructor : t := {| lastStep := -1 |}.

Section Simulate.

Context {R : Type}.

(** [world.renderer.onBlockChanged] *)
Variable onBlockChanged : Z -> Z -> Z -> R -> R.

(** The world with its renderer, which [world.setBlock] updates. *)
Abbreviation Scene := (World.t * option R)%type.

(** [world.setBlock(x, y, z, type)], the answer dropped. *)
Definition place (s : Scene) (x y z : Z) (type : BLOCK.Value) : Result Scene :=
  '(w, r, _) ← World.setBlock onBlockChanged s.1 s.2 x y z type [];
  Ok (w, r).

(** [!blocks[x][y][z]] *)
Definition vacant (s : Scene) (x y z : Z) : Result bool :=
  cell ← World.read3 (World.blocks s.1) x y z;
  Ok (bool_decide (cell = None)).

(** The body of the gravity loops. *)
Definition fall (x y z : Z) (s : Scene) : Result Scene :=
  cell ← World.read3 (World.blocks s.1) x y z;
  match cell with
  | Some block =>
      if BLOCK.truthy (BLOCK.gravity block) && (z >? 0) then
        vacant s x y (z - 1) ≫= fun free : bool =>
        if free then
          s ← place s x y (z - 1) (BLOCK.Object block);
          place s x y z BLOCK.Nullish
        else Ok s
      else Ok s
  | None => Ok s
  end.

(** The fluid blocks spawned in this step: [newFluidBlocks], its keys
    [`${x},${y},${z}`] as triples. *)
Abbreviation Spawned := (gset (Z * Z * Z)).

(** One of the four [if]s of the fluid loops: [inside] is the bound test,
    [(x, y, z)] the neighbour. *)
Definition spread (block : BLOCK.Block) (inside : bool) (x y z : Z)
    (st : Scene * Spawned) : Result (Scene * Spawned) :=
  if inside then
    vacant st.1 x y z ≫= fun free : bool =>
    if free then
      s ← place st.1 x y z (BLOCK.Object block);
      Ok (s, {[ (x, y, z) ]} ∪ st.2)
    else Ok st
  else Ok st.

(** The body of the fluid loops. *)
Definition flow (sx sy : Z) (x y z : Z) (st : Scene * Spawned) : Result (Scene * Spawned) :=
  cell ← World.read3 (World.blocks st.1.1) x y z;
  match cell with
  | Some block =>
      if BLOCK.truthy (BLOCK.fluid block) && bool_decide ((x, y, z) ∉ st.2) then
        st ← spread block (x >? 0) (x - 1) y z st;
        st ← spread block (x <? sx - 1) (x + 1) y z st;
        st ← spread block (y >? 0) x (y - 1) z st;
        spread block (y <? sy - 1) x (y + 1) z st
      else Ok st
  | None => Ok st
  end.

(** [simulate()]; [step] is [Math.floor(new Date().getTime() / 100)]. *)
Definition simulate (p : t) (step : Z) (s : Scene) : Result (t * Scene) :=
  let world := s.1 in
  if step =? lastStep p then Ok (p, s)
  else
    let p := {| lastStep := step |} in
    (* Gravity *)
    s ← (if Z.rem step 1 =? 0 then
           for_range 0 (World.sx world) (fun x =>
             for_range 0 (World.sy world) (fun y =>
               for_range 0 (World.sz world) (fun z => fall x y z)))
             s
         else Ok s);
    (* Fluids *)
    s ← (if Z.rem step 10 =? 0 then
           '(s, _) ←
             for_range 0 (World.sx world) (fun x =>
               for_range 0 (World.sy world) (fun y =>
                 for_range 0 (World.sz world) (fun z =>
                   flow (World.sx world) (World.sy world) x y z)))
               (s, ∅);
           Ok s
         else Ok s);
    Ok (p, s).

End Simulate.

End Physics.
(** ** The rentgen view of the player (player.js) *)

Module Player.

(** [this.originalBlocks]: the entries of a [Map] in insertion order, the
    keys [`${x},${y},${z}`] as triples. *)
Abbreviation Saved := (list (Z * Z * Z * BLOCK.Block)).

(** [map.set(key, block)] *)
Fixpoint map_set (m : Saved) (key : Z * Z * Z) (block : BLOCK.Block) : Saved :=
  match m with
  | [] => [(key, block)]
  | (k, b) :: rest =>
      if decide (k = key) then (key, block) :: rest else (k, b) :: map_set rest key block
  end.

(** The part of the player that the rentgen view uses; [originalBlocks] is
    [None] while it is [null]. *)
Record t := mk {
  rentgenView : bool;
  originalBlocks : option Saved
}.

(** [{ ...block, transparent: true, opacity: 0.3, rentgenView: true }] *)
Definition rentgenBlock (block : BLOCK.Block) : BLOCK.Block :=
  {| BLOCK.id := BLOCK.id block; BLOCK.spawnable := BLOCK.spawnable block;
     BLOCK.transparent := Some true; BLOCK.selflit := BLOCK.selflit block;
     BLOCK.gravity := BLOCK.gravity block; BLOCK.fluid := BLOCK.fluid block;
     BLOCK.texture := BLOCK.texture block; BLOCK.xray := BLOCK.xray block;
     BLOCK.rentgenView := true; BLOCK.opacity := Some (3 # 10);
     BLOCK.metadata := BLOCK.metadata block |}.

Section Rentgen.

Context {R : Type}.

(** [world.renderer.onBlockChanged] *)
Variable onBlockChanged : Z -> Z -> Z -> R -> R.

(** The world with its renderer. *)
Abbreviation Scene := (World.t * option R)%type.

(** The body of the loops of [showCaves]. *)
Definition reveal (x y z : Z) (st : Scene * Saved) : Result (Scene * Saved) :=
  let '(w, r, saved) := st in
  block ← World.getBlock w x y z;
  match block with
  | Some block =>
      if negb (BLOCK.truthy (BLOCK.transparent block))
         && negb (bool_decide (BLOCK.id block = BLOCK.id BLOCK.BEDROCK))
      then
        let saved := map_set saved (x, y, z) block in
        '(w, r, _) ← World.setBlock onBlockChanged w r x y z
                       (BLOCK.Object (rentgenBlock block)) [];
        Ok (w, r, saved)
      else Ok st
  | None => Ok st
  end.

(** [showCaves()], with the new [originalBlocks].  The renderer has none of
    the methods [dirty], [update] and [render] that the end of the function
    looks for. *)
Definition showCaves (s : Scene) : Result (Scene * Saved) :=
  let world := s.1 in
  for_range 0 (World.sx world) (fun x =>
    for_range 0 (World.sy world) (fun y =>
      for_range 0 (World.sz world) (fun z => reveal x y z)))
    (s, []).

(** The loop of [hideCaves]. *)
Fixpoint restore (entries : Saved) (s : Scene) : Result Scene :=
  match entries with
  | [] => Ok s
  | (x, y, z, block) :: rest =>
      '(w, r, _) ← World.setBlock onBlockChanged s.1 s.2 x y z (BLOCK.Object block) [];
      restore rest (w, r)
  end.

(** [hideCaves()], with the new [originalBlocks]. *)
Definition hideCaves (originalBlocks' : option Saved) (s : Scene)
  : Result (Scene * option Saved) :=
  match originalBlocks' with
  | Some entries => s ← restore entries s; Ok (s, None)
  | None => Ok (s, None)
  end.

(** [toggleRentgenView()] *)
Definition toggleRentgenView (p : t) (s : Scene) : Result (t * Scene) :=
  let rentgenView' := negb (rentgenView p) in
  if rentgenView' then
    '(s, saved) ← showCaves s;
    Ok ({| rentgenView := rentgenView'; originalBlocks := Some saved |}, s)
  else
    '(s, saved) ← hideCaves (originalBlocks p) s;
    Ok ({| rentgenView := rentgenView'; originalBlocks := saved |}, s).

End Rentgen.

End Player.

(** ** Invariants of the data model *)

(** The grid has the extents of the world: [sx] rows of [sy] columns of at
    least [sz] slots. *)
Definition shaped (sx sy sz : Z) (blocks : World.Blocks) : Prop :=
  length blocks = Z.to_nat sx /\
  Forall (fun row =>
            length row = Z.to_nat sy /\
            Forall (fun column : list World.Cell => (Z.to_nat sz <= length column)%nat) row)
         blocks.

(** Every in-bounds slot holds a block. *)
Definition filled (sx sy sz : Z) (blocks : World.Blocks) : Prop :=
  Forall (fun row =>
            Forall (fun column : list World.Cell =>
                      Forall is_Some (take (Z.to_nat sz) column))
                   (take (Z.to_nat sy) row))
         (take (Z.to_nat sx) blocks).

Definition wellFormed (w : World.t) : Prop :=
  shaped (World.sx w) (World.sy w) (World.sz w) (World.blocks w).

#[global] Instance shaped_dec sx sy sz blocks : Decision (shaped sx sy sz blocks).
Proof. unfold shaped. apply _. Defined.

#[global] Instance filled_dec sx sy sz blocks : Decision (filled sx sy sz blocks).
Proof. unfold filled. apply _. Defined.

#[global] Instance wellFormed_dec w : Decision (wellFormed w).
Proof. unfold wellFormed. apply _. Defined.

(** ** Notions of the specification *)

(** What a texture answers, if the block has one. *)
Definition textureOf (block : BLOCK.Block) (lit : bool) (dir : BLOCK.DIRECTION)
  : option (list (option Q)) :=
  (fun f => f lit dir) <$> BLOCK.texture block.

(** A coordinate between 0 and 1, or [NaN]. *)
Definition unitOrNaN (c : option Q) : Prop :=
  match c with
  | Some v => (0 <= v <= 1)%Q
  | None => True
  end.

(** [c'] is [c] clamped to 0 .. 1 if [c] is a number, and [NaN] if [c] is. *)
Definition clampedFrom (c c' : option Q) : Prop :=
  match c with
  | Some v => c' = Some (Qmax 0 (Qmin 1 v))
  | None => c' = None
  end.

(** Two blocks are equivalent when they agree on the identifier, on the
    capability flags and on every texture lookup. *)
Definition equivalent (b1 b2 : BLOCK.Block) : Prop :=
  BLOCK.id b1 = BLOCK.id b2 /\
  BLOCK.spawnable b1 = BLOCK.spawnable b2 /\
  BLOCK.transparent b1 = BLOCK.transparent b2 /\
  BLOCK.selflit b1 = BLOCK.selflit b2 /\
  BLOCK.gravity b1 = BLOCK.gravity b2 /\
  BLOCK.fluid b1 = BLOCK.fluid b2 /\
  forall lit dir, textureOf b1 lit dir = textureOf b2 lit dir.

(** A valid block has a numeric identifier and is left as it is, up to
    equivalence, by the validation of the world. *)
Definition valid (block : BLOCK.Block) : Prop :=
  (exists n, BLOCK.id block = Some n) /\
  equivalent (World.validateBlock (BLOCK.Object block)) block.

(** The lightmap that [updateLighting] computes for the current grid. *)
Definition lightmapOf (w : World.t) : Result (list (list (option Z))) :=
  World.lightmap <$> World.updateLighting w.

(** The place of the cell [(x, y, z)] in the serialised string: [x] outermost,
    then [y], then [z]. *)
Definition cellIndex (w : World.t) (x y z : Z) : Z :=
  (x * World.sy w + y) * World.sz w + z.

(** The code units ['a'] .. ['v'], which stand for the identifiers 0 .. 21 of
    the registry. *)
Definition registryCode (c : Z) : Prop := 97 <= c <= 118.

(** The identifier that a code unit is decoded to: its offset from ['a'] for
    a code unit of the registry, and 0, the identifier of the default block,
    for every other code unit. *)
Definition decodedId (c : Z) : Z :=
  if (97 <=? c) && (c <=? 118) then c - 97 else 0.

(** A string decoded and encoded again: every code unit outside the registry
    has become ['a']. *)
Definition reencoded (str : JsString) : JsString :=
  map (fun c => 97 + decodedId c) str.

(** The block that [createFromString] decodes from the code unit at a place. *)
Definition decoded (str : JsString) (i : Z) : BLOCK.Block :=
  BLOCK.fromId ((fun c => c - 97) <$> charCodeAt str i).

(** What [setBlock] stores for a non-null argument. *)
Definition storedBlock (type : BLOCK.Value) (meta : BLOCK.Metadata) : BLOCK.Block :=
  World.withMetadata
    match type with
    | BLOCK.Object b => if BLOCK.xray b then World.seeThrough b else World.validateBlock type
    | _ => World.validateBlock type
    end meta.

(** Whether [setBlock] takes its argument for an x-ray block. *)
Definition isXray (type : BLOCK.Value) : bool :=
  match type with
  | BLOCK.Object b => BLOCK.xray b
  | _ => false
  end.

(** What [setBlock] leaves of the renderer. *)
Definition notified (r : option Renderer.t) (x y z : Z) (type : BLOCK.Value)
  : option Renderer.t :=
  match r with
  | Some r => if isXray type then Some r else Some (Renderer.onBlockChanged x y z r)
  | None => None
  end.

(** The cells that the loops of [createFromString] and [toNetworkString] have
    visited on reaching [(x, y, z)]. *)
Definition visitedBefore (x y z x' y' z' : Z) : Prop :=
  x' < x \/ (x' = x /\ (y' < y \/ (y' = y /\ z' < z))).

(** The state of the loops of [createFromString] on reaching [(x, y, z)]: the
    counter is the index of that cell and the cells before it are decoded. *)
Definition decodedUpTo (w : World.t) (str : JsString) (x y z : Z)
    (state : World.Blocks * Z) : Prop :=
  shaped (World.sx w) (World.sy w) (World.sz w) state.1 /\
  state.2 = cellIndex w x y z /\
  forall x' y' z',
    0 <= x' < World.sx w -> 0 <= y' < World.sy w -> 0 <= z' < World.sz w ->
    visitedBefore x y z x' y' z' ->
    World.read3_opt state.1 x' y' z' = Some (decoded str (cellIndex w x' y' z')).

(** The faces in the order in which [pushVertices] treats them. *)
Definition allDirections : list BLOCK.DIRECTION :=
  [BLOCK.UP; BLOCK.DOWN; BLOCK.FORWARD; BLOCK.BACK; BLOCK.LEFT; BLOCK.RIGHT].

(** The cell on the other side of a face. *)
Definition neighbourOf (dir : BLOCK.DIRECTION) (x y z : Z) : Z * Z * Z :=
  match dir with
  | BLOCK.UP => (x, y, z + 1)
  | BLOCK.DOWN => (x, y, z - 1)
  | BLOCK.FORWARD => (x, y - 1, z)
  | BLOCK.BACK => (x, y + 1, z)
  | BLOCK.LEFT => (x - 1, y, z)
  | BLOCK.RIGHT => (x + 1, y, z)
  end.

(** The rule of the specification for a face: the neighbour on that side is
    transparent, the edge of the world counting as transparent. *)
Definition faceExposed (w : World.t) (x y z : Z) (dir : BLOCK.DIRECTION) : bool :=
  let '(nx, ny, nz) := neighbourOf dir x y z in
  negb (World.isInBounds w nx ny nz)
  || match World.read3_opt (World.blocks w) nx ny nz with
     | Some neighbour => BLOCK.truthy (BLOCK.transparent neighbour)
     | None => false
     end.

(** The rule of the code: that, or the top face of a fluid block. *)
Definition faceEmitted (w : World.t) (block : BLOCK.Block) (x y z : Z)
    (dir : BLOCK.DIRECTION) : bool :=
  faceExposed w x y z dir
  || (bool_decide (dir = BLOCK.UP) && BLOCK.truthy (BLOCK.fluid block)).

(** The positions of the vertices of a quad, nine numbers to a vertex. *)
Fixpoint positionsOf (quad : list Q) : list (Q * Q * Q) :=
  match quad with
  | px :: py :: pz :: _ :: _ :: _ :: _ :: _ :: _ :: rest => (px, py, pz) :: positionsOf rest
  | _ => []
  end.

(** A quad lies on the side [dir] of the cell [(x, y, z)]: it is two
    triangles (six vertices, 54 numbers), and every vertex lies within the
    cell and in the plane of that side; the top, which a fluid has lower than
    the cell, is told by its vertices lying above the bottom. *)
Definition onSide (dir : BLOCK.DIRECTION) (x y z : Z) (quad : list Q) : Prop :=
  length quad = 54%nat /\
  Forall (fun '(px, py, pz) =>
            (inject_Z x <= px <= inject_Z x + 1
             /\ inject_Z y <= py <= inject_Z y + 1
             /\ inject_Z z <= pz <= inject_Z z + 1
             /\ match dir with
                | BLOCK.UP => inject_Z z < pz
                | BLOCK.DOWN => pz == inject_Z z
                | BLOCK.FORWARD => py == inject_Z y
                | BLOCK.BACK => py == inject_Z y + 1
                | BLOCK.LEFT => px == inject_Z x
                | BLOCK.RIGHT => px == inject_Z x + 1
                end)%Q)
         (positionsOf quad).

(** A position as [makeQuad] snaps it. *)
Definition snapped (p : Q * Q * Q) : Q * Q * Q :=
  let '(px, py, pz) := p in (Mesh.snap px, Mesh.snap py, Mesh.snap pz).

(** A texture answer of four numbers, none of them [NaN]. *)
Definition fourNumbers (coords : list (option Q)) : Prop :=
  exists a b c d : Q, coords = BLOCK.numbers [a; b; c; d].

(** *** Chunk streaming *)

(** The chunk coordinates of the player, as [updateChunksAroundPlayer]
    computes them. *)
Definition playerChunk (r : Renderer.t) (playerPos : World.Vector) : Z * Z * Z :=
  let cs := inject_Z (Renderer.chunkSize r) in
  (Math.floor (World.x playerPos / cs),
   Math.floor (World.y playerPos / cs),
   Math.floor (World.z playerPos / cs)).

(** The square of the Euclidean distance, in chunks, of two chunk coordinates. *)
Definition distance2 (c p : Z * Z * Z) : Z :=
  let '(cx, cy, cz) := c in
  let '(px, py, pz) := p in
  (cx - px) * (cx - px) + (cy - py) * (cy - py) + (cz - pz) * (cz - pz).

(** The priority that the queue-filling loop gives the chunk at an offset. *)
Definition priorityOf (view : Q * Q * Q) (dx dy dz : Z) : Q :=
  let '(vx, vy, vz) := view in
  (Renderer.distance dx dy dz
   - (if Qltb 0 (inject_Z dx * vx + inject_Z dy * vy + inject_Z dz * vz) then 2 else 0))%Q.

(** The queue entry of a chunk coordinate. *)
Definition entryOf (r : Renderer.t) (px py pz : Z) (view : Q * Q * Q) (x y z : Z)
  : Renderer.Pending :=
  {| Renderer.x := x * Renderer.chunkSize r;
     Renderer.y := y * Renderer.chunkSize r;
     Renderer.z := z * Renderer.chunkSize r;
     Renderer.priority := priorityOf view (x - px) (y - py) (z - pz) |}.

(** What one turn of the innermost queue-filling loop adds to the queue. *)
Definition candidate (r : Renderer.t) (world : World.t) (px py pz : Z) (view : Q * Q * Q)
    (x y z : Z) : list Renderer.Pending :=
  let cs := Renderer.chunkSize r in
  if World.isInBounds world (x * cs) (y * cs) (z * cs)
     && Qle_bool (Renderer.distance (x - px) (y - py) (z - pz))
                 (inject_Z (Renderer.loadDistance r))
     && bool_decide (Renderer.chunkMap r !! Renderer.getChunkKey r (x * cs) (y * cs) (z * cs)
                     = None)
  then [entryOf r px py pz view x y z]
  else [].

(** The map key of a queue entry. *)
Definition keyOf (r : Renderer.t) (e : Renderer.Pending) : Z * Z * Z :=
  Renderer.getChunkKey r (Renderer.x e) (Renderer.y e) (Renderer.z e).

(** The queue of a streaming pass as sorted, before any of it is processed. *)
Definition sortedQueue (r : Renderer.t) (world : World.t) (playerPos : World.Vector)
    (camPos : Q * Q * Q) : list Renderer.Pending :=
  let '(px, py, pz) := playerChunk r playerPos in
  Renderer.sortByPriority (Renderer.collectQueue r world px py pz (Renderer.viewVector camPos)).

(** The order of the sorted queue. *)
Definition byPriority (a b : Renderer.Pending) : Prop :=
  (Renderer.priority a <= Renderer.priority b)%Q.

(** *** Frustum test *)

(** The position lies in the box of the chunk. *)
Definition inChunk (chunk : Renderer.Chunk) (pos : Q * Q * Q) : Prop :=
  let '(s0, s1, s2) := Renderer.start chunk in
  let '(e0, e1, e2) := Renderer.end_ chunk in
  let '(px, py, pz) := pos in
  (inject_Z s0 <= px <= inject_Z e0
   /\ inject_Z s1 <= py <= inject_Z e1
   /\ inject_Z s2 <= pz <= inject_Z e2)%Q.

(** The renderer with projection and camera set and the planes updated. *)
Definition looking (r : Renderer.t) (fov aspect near far : Q) (pos ang : Q * Q * Q)
  : Renderer.t :=
  Renderer.updateFrustumPlanes
    (Renderer.setCamera (Renderer.setPerspective r fov aspect near far) pos ang).

(** *** Terrain generation *)

(** A run of world generation followed by serialisation; [random] is the
    sequence of the values that [Math.random()] returns during the run. *)
Definition serializedWorld (createNoise3D : string -> Q -> Q -> Q -> Q) (random : nat -> Q)
    (sx sy sz : Z) : Result JsString :=
  '(w, _) ← World.generateWorld createNoise3D random
              (inject_Z sx) (inject_Z sy) (inject_Z sz) 0;
  World.toNetworkString w.

(** Two outcomes of a generation step agree on the grid: both throw, or both
    return and the grids are the same; the counts of random draws may differ. *)
Definition sameGrid (a b : Result (World.Blocks * nat)) : Prop :=
  match a, b with
  | Ok g, Ok g' => g.1 = g'.1
  | Throw _, Throw _ => True
  | _, _ => False
  end.

(** Every slot within the extents holds a block. *)
Definition populated (sx sy sz : Z) (blocks : World.Blocks) : Prop :=
  forall x y z, 0 <= x < sx -> 0 <= y < sy -> 0 <= z < sz ->
    is_Some (World.read3_opt blocks x y z).

(** The grid of a world: it has the extents and no empty slot. *)
Definition grid (sx sy sz : Z) (blocks : World.Blocks) : Prop :=
  shaped sx sy sz blocks /\ populated sx sy sz blocks.

(** No slot of a column is empty, whatever the length of the column. *)
Definition dense (blocks : World.Blocks) : Prop :=
  Forall (Forall (Forall is_Some)) blocks.

(** The identifier of the block in a slot. *)
Definition idOf (blocks : World.Blocks) (x y z : Z) : option Z :=
  World.read3_opt blocks x y z ≫= BLOCK.id.

(** *** Chunk building *)

(** The number of dirty chunks of a list. *)
Definition dirtyCount (chunks : list Renderer.Chunk) : nat :=
  length (filter (fun chunk => Renderer.dirty chunk = true) chunks).

(** What building does to one chunk: nothing, or the dirty flag cleared. *)
Definition builtFrom (chunk chunk' : Renderer.Chunk) : Prop :=
  chunk' = chunk
  \/ (Renderer.dirty chunk = true /\ Renderer.dirty chunk' = false
      /\ Renderer.start chunk' = Renderer.start chunk
      /\ Renderer.end_ chunk' = Renderer.end_ chunk).

(** Every slot of the region of a chunk holds AIR. *)
Definition airRegion (world : World.t) (chunk : Renderer.Chunk) : Prop :=
  let '(x0, y0, z0) := Renderer.start chunk in
  let '(x1, y1, z1) := Renderer.end_ chunk in
  forall x y z, x0 <= x < x1 -> y0 <= y < y1 -> z0 <= z < z1 ->
    idOf (World.blocks world) x y z = BLOCK.id BLOCK.AIR.

(** The box of [inner] is a box and lies within the box of [outer]. *)
Definition contains (outer inner : Renderer.Chunk) : Prop :=
  let '(s0, s1, s2) := Renderer.start outer in
  let '(e0, e1, e2) := Renderer.end_ outer in
  let '(t0, t1, t2) := Renderer.start inner in
  let '(f0, f1, f2) := Renderer.end_ inner in
  (s0 <= t0 <= f0 /\ f0 <= e0) /\ (s1 <= t1 <= f1 /\ f1 <= e1) /\ (s2 <= t2 <= f2 /\ f2 <= e2).

(** *** Lighting *)

(** The slot [(x, y, z)] holds a block that is not transparent. *)
Definition opaqueAt (blocks : World.Blocks) (x y z : Z) : bool :=
  match World.read3_opt blocks x y z with
  | Some block => negb (BLOCK.truthy (BLOCK.transparent block))
  | None => false
  end.

(** [lightmap[x][y]] *)
Definition lightAt (lightmap : list (list (option Z))) (x y : Z) : option Z :=
  row ← js_get lightmap x; default None (js_get row y).

(** The height that [updateLighting] stores for a column: that of its highest
    block that is not transparent, or [sz - 1] when it has none. *)
Definition highest (blocks : World.Blocks) (sz x y v : Z) : Prop :=
  (0 <= v < sz /\ opaqueAt blocks x y v = true
   /\ forall z, v < z < sz -> opaqueAt blocks x y z = false)
  \/ (v = sz - 1 /\ forall z, 0 <= z < sz -> opaqueAt blocks x y z = false).

(** *** Perlin noise *)

(** The twelve vectors of the vector table. *)
Definition gradients : list (Q * Q * Q) :=
  [ (1, 1, 0); (-1, 1, 0); (1, -1, 0); (-1, -1, 0);
    (1, 0, 1); (-1, 0, 1); (1, 0, -1); (-1, 0, -1);
    (0, 1, 1); (0, -1, 1); (0, 1, -1); (0, -1, -1) ]%Q.

(** The entry of the default permutation at an index. *)
Definition permutation (k : Z) : Z := default 0 (js_get PerlinNoise.DEFAULT_PERMUTATION k).

(** *** Generated terrain *)

(** The identifiers of the blocks that terrain generation places: AIR,
    BEDROCK, DIRT, WOOD, WATER, LEAVES and ROCK. *)
Definition terrainIds : list Z := [0; 1; 2; 3; 19; 20; 21].

(** A block that terrain generation may leave at the height [z]; with [floor]
    set, the bottom layer holds BEDROCK only. *)
Definition terrainBlock (floor : bool) (z : Z) (block : BLOCK.Block) : Prop :=
  (exists n, BLOCK.id block = Some n /\ n ∈ terrainIds)
  /\ (floor = true -> z = 0 -> BLOCK.id block = BLOCK.id BLOCK.BEDROCK).

(** Every block of the grid is such a block. *)
Definition terrain (floor : bool) (blocks : World.Blocks) : Prop :=
  forall x y z block, World.read3_opt blocks x y z = Some block -> terrainBlock floor z block.

(** *** The chunk list *)

(** The cell lies in the box of the chunk. *)
Definition holds (chunk : Renderer.Chunk) (x y z : Z) : Prop :=
  let '(s0, s1, s2) := Renderer.start chunk in
  let '(e0, e1, e2) := Renderer.end_ chunk in
  (s0 <= x < e0) /\ (s1 <= y < e1) /\ (s2 <= z < e2).

(** *** The rentgen view *)

(** What [getBlock] answers for an in-bounds cell of a well-formed world. *)
Definition answerAt (w : World.t) (x y z : Z) : BLOCK.Block :=
  World.validateBlock (World.cellValue (World.read3_opt (World.blocks w) x y z)).

(** The blocks that [showCaves] replaces: neither transparent nor BEDROCK. *)
Definition opaque (block : BLOCK.Block) : bool :=
  negb (BLOCK.truthy (BLOCK.transparent block))
  && negb (bool_decide (BLOCK.id block = BLOCK.id BLOCK.BEDROCK)).

(** The order in which [buildChunksAroundPlayer] takes the dirty chunks: by
    distance, and by the place in the chunk list among those equally far. *)
Definition nearerFirst (a b : Renderer.Near) : Prop :=
  (a.2 < b.2)%Q \/ ((a.2 == b.2)%Q /\ (a.1 <= b.1)%nat).

(** ** Sample data for the concrete statements *)

(** A world of the given extents with every slot AIR and the lightmap that
    [updateLighting] gives it. *)
Definition airWorld (sx sy sz : Z) : World.t := {|
  World.sx := sx; World.sy := sy; World.sz := sz;
  World.blocks := World.emptyGrid sx sy sz;
  World.spawnPoint := World.mkVector 0 0 0;
  World.lightmap := replicate (Z.to_nat sx) (replicate (Z.to_nat sy) (Some (sz - 1)))
|}.

(** A renderer as its constructor leaves it, with the given sizes. *)
Definition newRenderer (chunkSize loadDistance unloadDistance maxChunksPerFrame : Z)
  : Renderer.t := {|
  Renderer.gl := GL.mk 0 ∅;
  Renderer.chunkSize := chunkSize;
  Renderer.chunkMap := ∅;
  Renderer.chunks := [];
  Renderer.chunkLoadQueue := [];
  Renderer.loadDistance := loadDistance;
  Renderer.unloadDistance := unloadDistance;
  Renderer.maxChunksPerFrame := maxChunksPerFrame;
  Renderer.camPos := None;
  Renderer.projMatrix := mat4.identity;
  Renderer.viewMatrix := mat4.identity;
  Renderer.frustumPlanes := replicate 6 vec4.create;
  Renderer.eventQueue := []
|}.

(** The same renderer holding the built, clean chunk at the origin. *)
Definition rendererWithChunk : Renderer.t :=
  Renderer.set_chunkMap (newRenderer 16 8 12 2)
    {[ (0, 0, 0) := Renderer.mkChunk (0, 0, 0) (5, 5, 4) false None ]}.

(** A world that is all AIR but for the given blocks, with its lightmap
    computed. *)
Definition worldWith (sx sy sz : Z) (cells : list (Z * Z * Z * BLOCK.Block)) : Result World.t :=
  w ← foldr (fun '(x, y, z, b) acc =>
               w ← acc;
               '(w', _, _) ← World.setBlock (fun _ _ _ (r : unit) => r) w None x y z
                               (BLOCK.Object b) [];
               Ok w')
            (Ok (airWorld sx sy sz)) cells;
  World.updateLighting w.

(** A renderer in the middle of a session: [loadDistance] 3, [unloadDistance]
    5, the camera at the origin of chunk (3, 3, 1), and one built chunk, nine
    chunks away along x, in the map. *)
Definition streamingRenderer : Renderer.t :=
  let r := newRenderer 16 3 5 2 in
  let r := Renderer.set_gl r (GL.mk 1 ∅) in
  let r := Renderer.set_chunkMap r
             {[ (12, 3, 1) := Renderer.mkChunk (192, 48, 16) (208, 64, 32) false
                                (Some (GL.mkBuffer 0 36 [])) ]} in
  Renderer.setCamera r (48, 48, 16)%Q (0, 0, 0)%Q.

(** A noise function and streams of [Math.random()] values for the concrete
    statements about terrain generation. *)
Definition flatNoise : string -> Q -> Q -> Q -> Q := fun _ _ _ _ => 0%Q.

Definition constantRandom (value : Q) : nat -> Q := fun _ => value.

(** A world of one column: DIRT under two slots of AIR, its lightmap as the
    constructor creates it. *)
Definition columnWorld : World.t := {|
  World.sx := 1; World.sy := 1; World.sz := 3;
  World.blocks := [[[Some BLOCK.DIRT; Some BLOCK.AIR; Some BLOCK.AIR]]];
  World.spawnPoint := World.mkVector 0 0 0;
  World.lightmap := [[Some 0]]
|}.

(** A world of one column: GRAVEL over an empty slot. *)
Definition hollowWorld : World.t := {|
  World.sx := 1; World.sy := 1; World.sz := 2;
  World.blocks := [[[None; Some BLOCK.GRAVEL]]];
  World.spawnPoint := World.mkVector 0 0 0;
  World.lightmap := [[Some 1]]
|}.

(** Two columns side by side: WATER and an empty slot. *)
Definition poolWorld : World.t := {|
  World.sx := 2; World.sy := 1; World.sz := 1;
  World.blocks := [[[Some BLOCK.WATER]]; [[None]]];
  World.spawnPoint := World.mkVector 0 0 0;
  World.lightmap := [[Some 0]; [Some 0]]
|}.

(** * Properties *)

(** ** Numbers and loops *)

Lemma Qltb_lt a b : Qltb a b = true <-> (a < b)%Q.
Proof.
  unfold Qltb. rewrite negb_true_iff, <- not_true_iff_false, Qle_bool_iff.
  split; [apply Qnot_le_lt | apply Qlt_not_le].
Qed.

Lemma Qltb_ge a b : Qltb a b = false <-> (b <= a)%Q.
Proof. unfold Qltb. rewrite negb_false_iff. apply Qle_bool_iff. Qed.


Lemma bind_Ok {A B} (m : Result A) (f : A -> Result B) (b : B) :
  m ≫= f = Ok b <-> exists a, m = Ok a /\ f a = Ok b.
Proof.
  destruct m as [a|e]; simpl; split.
  - intros H. exists a. auto.
  - intros (a' & Ha & Hf). congruence.
  - discriminate.
  - intros (a' & Ha & _). discriminate.
Qed.

(** The rule of the counting loop: an invariant that every iteration
    re-establishes holds when the loop ends, and the loop does end. *)
Lemma for_loop_invariant {St : Type} (P : Z -> St -> Prop) (body : Z -> St -> Result St) :
  forall (n : nat) (lo : Z) (s : St),
    P lo s ->
    (forall i s, lo <= i < lo + Z.of_nat n -> P i s ->
                 exists s', body i s = Ok s' /\ P (i + 1) s') ->
    exists s', for_loop n lo body s = Ok s' /\ P (lo + Z.of_nat n) s'.
Proof.
  induction n as [|n IH]; intros lo s H0 Hstep.
  - exists s. simpl. rewrite Z.add_0_r. auto.
  - destruct (Hstep lo s) as (s1 & Hb & H1); [lia | assumption |].
    destruct (IH (lo + 1) s1 H1) as (s2 & Hl & H2).
    + intros i s' Hi. apply Hstep. lia.
    + exists s2. simpl. rewrite Hb. split; [assumption |].
      replace (lo + Z.of_nat (S n)) with (lo + 1 + Z.of_nat n) by lia. assumption.
Qed.

Lemma for_range_invariant {St : Type} (P : Z -> St -> Prop) (body : Z -> St -> Result St)
    (lo hi : Z) (s : St) :
  lo <= hi ->
  P lo s ->
  (forall i s, lo <= i < hi -> P i s -> exists s', body i s = Ok s' /\ P (i + 1) s') ->
  exists s', for_range lo hi body s = Ok s' /\ P hi s'.
Proof.
  intros Hle H0 Hstep. unfold for_range.
  destruct (for_loop_invariant P body (Z.to_nat (hi - lo)) lo s H0) as (s' & Hl & Hp).
  - intros i s1 Hi. apply Hstep. lia.
  - exists s'. split; [assumption |].
    replace hi with (lo + Z.of_nat (Z.to_nat (hi - lo))) at 1 by lia. assumption.
Qed.

Lemma for_range_empty {St : Type} (body : Z -> St -> Result St) (lo hi : Z) (s : St) :
  hi <= lo -> for_range lo hi body s = Ok s.
Proof.
  intros H. unfold for_range. replace (Z.to_nat (hi - lo)) with O by lia. reflexivity.
Qed.

(** ** Arrays *)

Lemma js_get_Some {A} (a : list A) (i : Z) (v : A) :
  js_get a i = Some v <-> 0 <= i /\ a !! Z.to_nat i = Some v.
Proof.
  unfold js_get. destruct (Z.ltb_spec i 0); split.
  - discriminate.
  - intros [? _]. lia.
  - auto.
  - intros [_ ?]. assumption.
Qed.

Lemma js_get_in_range {A} (a : list A) (i : Z) :
  0 <= i -> (Z.to_nat i < length a)%nat -> exists v, js_get a i = Some v.
Proof.
  intros H0 Hlt. destruct (lookup_lt_is_Some_2 a (Z.to_nat i) Hlt) as [v Hv].
  exists v. apply js_get_Some. auto.
Qed.

Lemma js_get_set {A} (a : list (option A)) (i j : Z) (v : option A) :
  default None (js_get (js_set a i v) j)
  = if bool_decide (i = j /\ 0 <= i) then v else default None (js_get a j).
Proof.
  unfold js_set, js_get at 1.
  destruct (Z.ltb_spec j 0) as [Hj|Hj].
  { rewrite bool_decide_eq_false_2 by lia.
    unfold js_get. destruct (Z.ltb_spec j 0); [reflexivity | lia]. }
  destruct (Z.ltb_spec i 0) as [Hi|Hi].
  { rewrite bool_decide_eq_false_2 by lia.
    unfold js_get. destruct (Z.ltb_spec j 0); [lia | reflexivity]. }
  unfold js_get. destruct (Z.ltb_spec j 0); [lia |].
  destruct (Nat.ltb_spec (Z.to_nat i) (length a)) as [Hlen|Hlen].
  - destruct (decide (i = j)) as [->|Hne].
    + rewrite bool_decide_eq_true_2 by lia.
      rewrite list_lookup_insert_eq by assumption. reflexivity.
    + rewrite bool_decide_eq_false_2 by lia.
      rewrite list_lookup_insert_ne by lia. reflexivity.
  - destruct (decide (i = j)) as [->|Hne].
    + rewrite bool_decide_eq_true_2 by lia.
      rewrite lookup_app_r by lia.
      rewrite lookup_app_r by (rewrite length_replicate; lia).
      rewrite length_replicate.
      replace (Z.to_nat j - length a - (Z.to_nat j - length a))%nat with O by lia.
      reflexivity.
    + rewrite bool_decide_eq_false_2 by lia.
      destruct (Nat.ltb_spec (Z.to_nat j) (length a)) as [Hj'|Hj'].
      * rewrite lookup_app_l by assumption. reflexivity.
      * rewrite lookup_app_r by lia. rewrite (lookup_ge_None_2 a) by lia. simpl.
        destruct (Nat.ltb_spec (Z.to_nat j - length a) (Z.to_nat i - length a)) as [Hh|Hh].
        -- rewrite lookup_app_l by (rewrite length_replicate; lia).
           rewrite lookup_replicate_2 by lia. reflexivity.
        -- rewrite lookup_app_r by (rewrite length_replicate; lia).
           rewrite length_replicate.
           rewrite lookup_ge_None_2; [reflexivity |]. simpl. lia.
Qed.

Lemma js_set_length_ge {A} (a : list (option A)) (i : Z) (v : option A) :
  (length a <= length (js_set a i v))%nat.
Proof.
  unfold js_set. destruct (i <? 0); [lia |].
  destruct (Z.to_nat i <? length a)%nat.
  - rewrite length_insert. lia.
  - rewrite length_app. lia.
Qed.

Lemma js_set_in_range {A} (a : list (option A)) (i : Z) (v : option A) :
  0 <= i -> (Z.to_nat i < length a)%nat -> js_set a i v = <[Z.to_nat i := v]> a.
Proof.
  intros H0 Hlt. unfold js_set.
  destruct (Z.ltb_spec i 0); [lia |].
  destruct (Nat.ltb_spec (Z.to_nat i) (length a)); [reflexivity | lia].
Qed.

(** ** The block grid *)

Lemma isInBounds_true w x y z :
  World.isInBounds w x y z = true <->
  0 <= x < World.sx w /\ 0 <= y < World.sy w /\ 0 <= z < World.sz w.
Proof.
  unfold World.isInBounds. rewrite !andb_true_iff, !Z.leb_le, !Z.ltb_lt. lia.
Qed.

Lemma isInBounds_false w x y z :
  World.isInBounds w x y z = false <->
  ~ (0 <= x < World.sx w /\ 0 <= y < World.sy w /\ 0 <= z < World.sz w).
Proof. rewrite <- isInBounds_true. symmetry. apply not_true_iff_false. Qed.

Lemma shaped_column sx sy sz blocks x y :
  shaped sx sy sz blocks -> 0 <= x < sx -> 0 <= y < sy ->
  exists row column,
    js_get blocks x = Some row /\ js_get row y = Some column /\
    length row = Z.to_nat sy /\ (Z.to_nat sz <= length column)%nat.
Proof.
  intros [Hlen Hrows] Hx Hy.
  destruct (js_get_in_range blocks x) as [row Hrow]; [lia | lia |].
  pose proof Hrow as Hrow'. apply js_get_Some in Hrow' as [_ Hrow'].
  destruct (proj1 (Forall_lookup _ _) Hrows _ _ Hrow') as [Hrl Hcols].
  destruct (js_get_in_range row y) as [column Hcol]; [lia | lia |].
  pose proof Hcol as Hcol'. apply js_get_Some in Hcol' as [_ Hcol'].
  exists row, column. repeat split; try assumption.
  exact (proj1 (Forall_lookup _ _) Hcols _ _ Hcol').
Qed.

Lemma read3_read3_opt blocks x y z cell :
  World.read3 blocks x y z = Ok cell -> World.read3_opt blocks x y z = cell.
Proof.
  unfold World.read3, World.read3_opt.
  destruct (js_get blocks x) as [row|]; [|discriminate].
  destruct (js_get row y) as [column|]; [|discriminate].
  congruence.
Qed.

Lemma read3_shaped sx sy sz blocks x y z :
  shaped sx sy sz blocks -> 0 <= x < sx -> 0 <= y < sy ->
  World.read3 blocks x y z = Ok (World.read3_opt blocks x y z).
Proof.
  intros Hs Hx Hy.
  destruct (shaped_column _ _ _ _ x y Hs Hx Hy) as (row & column & Hr & Hc & _).
  unfold World.read3, World.read3_opt. rewrite Hr, Hc. reflexivity.
Qed.

Lemma write3_shaped_Ok sx sy sz blocks x y z cell :
  shaped sx sy sz blocks -> 0 <= x < sx -> 0 <= y < sy ->
  exists blocks', World.write3 blocks x y z cell = Ok blocks'.
Proof.
  intros Hs Hx Hy.
  destruct (shaped_column _ _ _ _ x y Hs Hx Hy) as (row & column & Hr & Hc & _).
  unfold World.write3. rewrite Hr, Hc. eauto.
Qed.

Lemma js_get_insert {A} (a : list A) (i j : Z) (v : A) :
  0 <= i -> (Z.to_nat i < length a)%nat ->
  js_get (<[Z.to_nat i := v]> a) j = if bool_decide (j = i) then Some v else js_get a j.
Proof.
  intros H0 Hlt. unfold js_get.
  destruct (Z.ltb_spec j 0).
  - rewrite bool_decide_eq_false_2 by lia. reflexivity.
  - destruct (decide (j = i)) as [->|Hne].
    + rewrite bool_decide_eq_true_2 by reflexivity.
      apply list_lookup_insert_eq. assumption.
    + rewrite bool_decide_eq_false_2 by assumption.
      apply list_lookup_insert_ne. lia.
Qed.

Lemma read3_opt_write3 blocks x y z cell blocks' x' y' z' :
  World.write3 blocks x y z cell = Ok blocks' ->
  World.read3_opt blocks' x' y' z'
  = if bool_decide (x' = x /\ y' = y /\ z' = z /\ 0 <= z) then cell
    else World.read3_opt blocks x' y' z'.
Proof.
  unfold World.write3.
  destruct (js_get blocks x) as [row|] eqn:Hrow; [|discriminate].
  destruct (js_get row y) as [column|] eqn:Hcol; [|discriminate].
  intros [= <-].
  pose proof Hrow as Hrow'. pose proof Hcol as Hcol'.
  apply js_get_Some in Hrow' as [Hx Hrow']. apply js_get_Some in Hcol' as [Hy Hcol'].
  apply lookup_lt_Some in Hrow'. apply lookup_lt_Some in Hcol'.
  unfold World.read3_opt.
  rewrite js_get_insert by assumption.
  destruct (decide (x' = x)) as [->|Hxne].
  - rewrite (bool_decide_eq_true_2 (x = x)) by reflexivity.
    rewrite Hrow. rewrite js_get_insert by assumption.
    destruct (decide (y' = y)) as [->|Hyne].
    + rewrite (bool_decide_eq_true_2 (y = y)) by reflexivity.
      rewrite Hcol, js_get_set.
      destruct (decide (z' = z /\ 0 <= z)) as [[-> Hz]|Hzne].
      * rewrite !bool_decide_eq_true_2 by auto. reflexivity.
      * rewrite (bool_decide_eq_false_2 (z = z' /\ _)) by (intros [? ?]; auto).
        rewrite (bool_decide_eq_false_2 (x = x /\ _)) by (intros (? & ? & ? & ?); auto).
        reflexivity.
    + rewrite (bool_decide_eq_false_2 (y' = y)) by assumption.
      rewrite (bool_decide_eq_false_2 (x = x /\ _)) by (intros (? & ? & ?); auto).
      reflexivity.
  - rewrite (bool_decide_eq_false_2 (x' = x)) by assumption.
    rewrite (bool_decide_eq_false_2 (x' = x /\ _)) by (intros (? & ?); auto).
    reflexivity.
Qed.

Lemma write3_shaped sx sy sz blocks x y z cell blocks' :
  shaped sx sy sz blocks ->
  World.write3 blocks x y z cell = Ok blocks' ->
  shaped sx sy sz blocks'.
Proof.
  intros [Hlen Hrows]. unfold World.write3.
  destruct (js_get blocks x) as [row|] eqn:Hrow; [|discriminate].
  destruct (js_get row y) as [column|] eqn:Hcol; [|discriminate].
  intros [= <-].
  apply js_get_Some in Hrow as [Hx Hrow]. apply js_get_Some in Hcol as [Hy Hcol].
  destruct (proj1 (Forall_lookup _ _) Hrows _ _ Hrow) as [Hrl Hcols].
  split; [rewrite length_insert; assumption |].
  apply Forall_insert; [assumption |].
  split; [rewrite length_insert; assumption |].
  apply Forall_insert; [assumption |].
  pose proof (js_set_length_ge column z cell).
  pose proof (proj1 (Forall_lookup _ _) Hcols _ _ Hcol). simpl in *. lia.
Qed.

(** ** [setBlock] and [getBlock] *)

Lemma setBlock_out_of_bounds {R} (notify : Z -> Z -> Z -> R -> R) w (r : option R)
    x y z type meta :
  World.isInBounds w x y z = false ->
  World.setBlock notify w r x y z type meta = Ok (w, r, false).
Proof. intros H. unfold World.setBlock. rewrite H. reflexivity. Qed.

Lemma setBlock_in_bounds w (r : option Renderer.t) x y z type meta :
  wellFormed w ->
  World.isInBounds w x y z = true ->
  type <> BLOCK.Nullish ->
  exists blocks',
    World.write3 (World.blocks w) x y z (Some (storedBlock type meta)) = Ok blocks' /\
    World.setBlock Renderer.onBlockChanged w r x y z type meta
    = Ok (World.set_blocks w blocks', notified r x y z type, true).
Proof.
  intros Hwf Hin Hnn. apply isInBounds_true in Hin as (Hx & Hy & Hz).
  destruct (write3_shaped_Ok _ _ _ _ x y z (Some (storedBlock type meta)) Hwf Hx Hy)
    as [blocks' Hw].
  exists blocks'. split; [assumption |].
  unfold World.setBlock.
  rewrite (proj2 (isInBounds_true w x y z)) by auto. simpl.
  unfold storedBlock in Hw.
  destruct type as [|p|b]; [congruence | |]; simpl in *; rewrite Hw; simpl.
  - destruct r; reflexivity.
  - destruct r; simpl; [destruct (BLOCK.xray b)|]; reflexivity.
Qed.

(** C10.  For every in-bounds position and every block object, [setBlock]
    succeeds and changes the slot at that position only: every other slot
    reads as before and the dimensions, the spawn point and the lightmap are
    the same; for an out-of-bounds position the world and the renderer are
    returned unchanged, whatever the argument. *)
Theorem setBlock_frame (w : World.t) (r : option Renderer.t) (x y z : Z)
    (b : BLOCK.Block) (meta : BLOCK.Metadata) :
  wellFormed w ->
  (World.isInBounds w x y z = true ->
   exists w' r',
     World.setBlock Renderer.onBlockChanged w r x y z (BLOCK.Object b) meta
     = Ok (w', r', true) /\
     World.sx w' = World.sx w /\ World.sy w' = World.sy w /\ World.sz w' = World.sz w /\
     World.spawnPoint w' = World.spawnPoint w /\
     World.lightmap w' = World.lightmap w /\
     forall x' y' z', (x', y', z') <> (x, y, z) ->
       World.read3_opt (World.blocks w') x' y' z'
       = World.read3_opt (World.blocks w) x' y' z') /\
  (World.isInBounds w x y z = false ->
   forall type,
     World.setBlock Renderer.onBlockChanged w r x y z type meta = Ok (w, r, false)).
Proof.
  intros Hwf. split.
  - intros Hin.
    destruct (setBlock_in_bounds w r x y z (BLOCK.Object b) meta Hwf Hin)
      as (blocks' & Hw & Hset); [discriminate |].
    eexists _, _. split; [exact Hset |].
    repeat split; try reflexivity.
    intros x' y' z' Hne. simpl.
    rewrite (read3_opt_write3 _ _ _ _ _ _ x' y' z' Hw).
    rewrite bool_decide_eq_false_2; [reflexivity |].
    intros (-> & -> & -> & _). congruence.
  - intros Hout type. apply setBlock_out_of_bounds. assumption.
Qed.

Lemma airWorld_wellFormed : wellFormed (airWorld 5 5 4).
Proof. compute_done. Qed.

Lemma setBlock_frame_witness :
  wellFormed (airWorld 5 5 4) /\
  (World.isInBounds (airWorld 5 5 4) 2 2 1 = true ->
   exists w' r',
     World.setBlock Renderer.onBlockChanged (airWorld 5 5 4) (Some rendererWithChunk)
       2 2 1 (BLOCK.Object BLOCK.DIRT) []
     = Ok (w', r', true) /\
     World.sx w' = 5 /\ World.sy w' = 5 /\ World.sz w' = 4 /\
     World.spawnPoint w' = World.spawnPoint (airWorld 5 5 4) /\
     World.lightmap w' = World.lightmap (airWorld 5 5 4) /\
     forall x' y' z', (x', y', z') <> (2, 2, 1) ->
       World.read3_opt (World.blocks w') x' y' z'
       = World.read3_opt (World.blocks (airWorld 5 5 4)) x' y' z').
Proof.
  split.
  - compute_done.
  - apply (setBlock_frame (airWorld 5 5 4) (Some rendererWithChunk) 2 2 1 BLOCK.DIRT []).
    compute_done.
Defined.

Lemma setBlock_null_throws {R} (notify : Z -> Z -> Z -> R -> R) w (r : option R) x y z meta :
  World.isInBounds w x y z = true ->
  World.setBlock notify w r x y z BLOCK.Nullish meta = Throw TypeError.
Proof. intros H. unfold World.setBlock. rewrite H. reflexivity. Qed.

(** C2 (as amended).  For an in-bounds position and every argument other than
    [null]/[undefined], [setBlock] returns [true] without raising and stores in
    the slot, together with the metadata: for an argument not flagged [xray],
    the validated block, which is the AIR template when the argument is
    malformed (a primitive, or an object without a numeric [id]); for an object
    flagged [xray], the object itself with [transparent] and [opacity]
    overridden.  The lightmap is left as it was, no chunk of the renderer
    changes (no dirty flag is set), and an attached renderer receives one
    [blockChanged] event unless the argument is flagged [xray].  For an
    out-of-bounds position nothing changes and the result is [false], whatever
    the argument. *)
Theorem setBlock_effect (w : World.t) (r : option Renderer.t) (x y z : Z)
    (type : BLOCK.Value) (meta : BLOCK.Metadata) :
  wellFormed w ->
  (World.isInBounds w x y z = true -> type <> BLOCK.Nullish ->
   exists w' r' stored,
     World.setBlock Renderer.onBlockChanged w r x y z type meta = Ok (w', r', true) /\
     World.read3_opt (World.blocks w') x y z = Some (World.withMetadata stored meta) /\
     match type with
     | BLOCK.Nullish => False
     | BLOCK.Primitive _ => stored = BLOCK.AIR
     | BLOCK.Object b =>
         (BLOCK.xray b = false ->
          stored = World.validateBlock type /\ (BLOCK.id b = None -> stored = BLOCK.AIR)) /\
         (BLOCK.xray b = true -> stored = World.seeThrough b)
     end /\
     World.lightmap w' = World.lightmap w /\
     match r, r' with
     | Some r0, Some r1 =>
         Renderer.chunkMap r1 = Renderer.chunkMap r0 /\
         Renderer.chunks r1 = Renderer.chunks r0 /\
         Renderer.eventQueue r1
         = Renderer.eventQueue r0
           ++ (if isXray type then [] else [Renderer.blockChanged x y z])
     | None, None => True
     | _, _ => False
     end) /\
  (World.isInBounds w x y z = false ->
   World.setBlock Renderer.onBlockChanged w r x y z type meta = Ok (w, r, false)).
Proof.
  intros Hwf. split; [|apply setBlock_out_of_bounds].
  intros Hin Hnn.
  destruct (setBlock_in_bounds w r x y z type meta Hwf Hin Hnn) as (blocks' & Hw & Hset).
  pose proof (proj1 (isInBounds_true w x y z) Hin) as (_ & _ & Hz).
  exists (World.set_blocks w blocks'), (notified r x y z type).
  exists match type with
         | BLOCK.Object b =>
             if BLOCK.xray b then World.seeThrough b else World.validateBlock type
         | _ => World.validateBlock type
         end.
  split; [exact Hset |]. split.
  { simpl. rewrite (read3_opt_write3 _ _ _ _ _ _ x y z Hw).
    rewrite bool_decide_eq_true_2 by (repeat split; lia). reflexivity. }
  split.
  { destruct type as [|p|b]; [congruence | reflexivity |].
    split.
    - intros ->. split; [reflexivity |]. intros Hid. simpl. rewrite Hid. reflexivity.
    - intros ->. reflexivity. }
  split; [reflexivity |].
  destruct r as [r0|]; simpl; [|exact I].
  destruct (isXray type); simpl; repeat split; try reflexivity.
  rewrite app_nil_r. reflexivity.
Qed.

Lemma setBlock_effect_witness :
  wellFormed (airWorld 5 5 4) /\
  World.isInBounds (airWorld 5 5 4) 2 2 1 = true /\
  BLOCK.Object BLOCK.DIRT <> BLOCK.Nullish /\
  exists w' r',
    World.setBlock Renderer.onBlockChanged (airWorld 5 5 4) (Some rendererWithChunk)
      2 2 1 (BLOCK.Object BLOCK.DIRT) []
    = Ok (w', r', true) /\
    World.lightmap w' = World.lightmap (airWorld 5 5 4).
Proof.
  split; [compute_done |]. split; [reflexivity |]. split; [discriminate |].
  destruct (proj1 (setBlock_effect (airWorld 5 5 4) (Some rendererWithChunk) 2 2 1
                     (BLOCK.Object BLOCK.DIRT) [] ltac:(compute_done)))
    as (w' & r' & stored & Hset & _ & _ & Hlight & _);
    [reflexivity | discriminate |].
  exists w', r'. split; assumption.
Defined.

(** C2 as stated fails: placing DIRT into an all-AIR column leaves the
    lightmap, which was up to date, as it was, so that it no longer is what
    [updateLighting] computes; and the chunk that owns the position is still
    not dirty. *)
Lemma setBlock_leaves_lightmap_and_chunk :
  match World.setBlock Renderer.onBlockChanged (airWorld 5 5 4) (Some rendererWithChunk)
          2 2 1 (BLOCK.Object BLOCK.DIRT) [] with
  | Ok (w', Some r', true) =>
      lightmapOf (airWorld 5 5 4) = Ok (World.lightmap (airWorld 5 5 4)) /\
      World.lightmap w' = World.lightmap (airWorld 5 5 4) /\
      lightmapOf w' <> Ok (World.lightmap w') /\
      Renderer.dirty <$> (Renderer.chunkMap r' !! (0, 0, 0)) = Some false
  | _ => False
  end.
Proof.
  vm_compute. repeat split; try reflexivity. discriminate.
Qed.

(** *** Reading back what was set *)

Lemma Qclamp_idempotent (c : Q) :
  Qmax 0 (Qmin 1 (Qmax 0 (Qmin 1 c))) = Qmax 0 (Qmin 1 c).
Proof.
  unfold Qmax, Qmin, GenericMinMax.gmax, GenericMinMax.gmin.
  destruct (1 ?= c)%Q eqn:H1.
  - reflexivity.
  - reflexivity.
  - destruct (0 ?= c)%Q eqn:H0.
    + reflexivity.
    + rewrite H1, H0. reflexivity.
    + reflexivity.
Qed.

Lemma clamp_idempotent (c : option Q) :
  Math.max (Some 0%Q) (Math.min (Some 1%Q) (Math.max (Some 0%Q) (Math.min (Some 1%Q) c)))
  = Math.max (Some 0%Q) (Math.min (Some 1%Q) c).
Proof.
  destruct c as [c|]; [|reflexivity].
  cbn. f_equal. apply Qclamp_idempotent.
Qed.

Lemma validateTextureCoords_idempotent (coords : list (option Q)) :
  BLOCK.validateTextureCoords (BLOCK.validateTextureCoords coords)
  = BLOCK.validateTextureCoords coords.
Proof.
  unfold BLOCK.validateTextureCoords.
  destruct (Nat.eqb_spec (length coords) 4) as [Hlen|Hlen].
  - rewrite length_map. rewrite (proj2 (Nat.eqb_eq _ _) Hlen).
    rewrite map_map. apply map_ext. intros c. apply clamp_idempotent.
  - reflexivity.
Qed.

Lemma equivalent_trans b1 b2 b3 : equivalent b1 b2 -> equivalent b2 b3 -> equivalent b1 b3.
Proof.
  unfold equivalent.
  intros (Ha1 & Ha2 & Ha3 & Ha4 & Ha5 & Ha6 & Ha7) (Hb1 & Hb2 & Hb3 & Hb4 & Hb5 & Hb6 & Hb7).
  split; [congruence |]. split; [congruence |]. split; [congruence |].
  split; [congruence |]. split; [congruence |]. split; [congruence |].
  intros lit dir. rewrite Ha7. apply Hb7.
Qed.

Lemma seeThrough_stored_equivalent b meta :
  equivalent (World.seeThrough (World.withMetadata (World.seeThrough b) meta))
             (World.seeThrough b).
Proof. repeat split. Qed.

Lemma validateBlockType_stored_equivalent b meta :
  equivalent
    (BLOCK.validateBlockType
       (Some (World.withMetadata (BLOCK.validateBlockType (Some b)) meta)))
    (BLOCK.validateBlockType (Some b)).
Proof.
  unfold equivalent, textureOf. simpl.
  repeat split;
    try (match goal with |- BLOCK.spread _ (BLOCK.spread _ ?o) = _ => destruct o end;
         reflexivity).
  intros lit dir. simpl. f_equal. apply validateTextureCoords_idempotent.
Qed.

(** Validation of what [setBlock] stored gives back a valid block. *)
Lemma validateBlock_storedBlock b meta :
  valid b ->
  equivalent (World.validateBlock (BLOCK.Object (storedBlock (BLOCK.Object b) meta))) b.
Proof.
  intros [[n Hid] Heq]. unfold storedBlock.
  unfold World.validateBlock in *. rewrite Hid in *.
  assert (BLOCK.id BLOCK.AIR = Some 0) as HidAIR by reflexivity.
  destruct (n =? 0) eqn:Hn, (BLOCK.xray b) eqn:Hx, (BLOCK.rentgenView b) eqn:Hr;
    cbn [World.withMetadata World.seeThrough BLOCK.id BLOCK.rentgenView BLOCK.xray];
    rewrite ?HidAIR, ?Hid; cbn [Z.eqb]; rewrite ?Hn, ?Hx, ?Hr;
    try exact Heq;
    try (eapply equivalent_trans; [apply seeThrough_stored_equivalent | exact Heq]).
  change (BLOCK.id (BLOCK.validateBlockType (Some b)))
    with (BLOCK.spread (Some 0) (BLOCK.id b)).
  change (BLOCK.rentgenView (BLOCK.validateBlockType (Some b))) with (BLOCK.rentgenView b).
  change (BLOCK.xray (BLOCK.validateBlockType (Some b))) with (BLOCK.xray b).
  rewrite Hid. cbn [BLOCK.spread]. rewrite Hn, Hr, Hx.
  eapply equivalent_trans; [|exact Heq].
  apply validateBlockType_stored_equivalent.
Qed.

Lemma write3_twice blocks x y z cell blocks' :
  World.write3 blocks x y z cell = Ok blocks' ->
  World.write3 blocks' x y z cell = Ok blocks'.
Proof.
  unfold World.write3.
  destruct (js_get blocks x) as [row|] eqn:Hrow; [|discriminate].
  destruct (js_get row y) as [column|] eqn:Hcol; [|discriminate].
  intros [= <-].
  pose proof Hrow as Hrow'. pose proof Hcol as Hcol'.
  apply js_get_Some in Hrow' as [Hx Hrow']. apply js_get_Some in Hcol' as [Hy Hcol'].
  apply lookup_lt_Some in Hrow'. apply lookup_lt_Some in Hcol'.
  rewrite js_get_insert by assumption.
  rewrite bool_decide_eq_true_2 by reflexivity.
  rewrite js_get_insert by assumption.
  rewrite bool_decide_eq_true_2 by reflexivity.
  rewrite !list_insert_insert_eq. do 3 f_equal.
  unfold js_set. destruct (Z.ltb_spec z 0) as [Hz|Hz].
  - reflexivity.
  - destruct (Nat.ltb_spec (Z.to_nat z) (length column)) as [Hl|Hl].
    + rewrite length_insert.
      destruct (Nat.ltb_spec (Z.to_nat z) (length column)); [|lia].
      apply list_insert_insert_eq.
    + rewrite !length_app, length_replicate. simpl.
      destruct (Nat.ltb_spec (Z.to_nat z)
                  (length column + (Z.to_nat z - length column + 1))); [|lia].
      rewrite insert_app_r_alt by lia.
      rewrite insert_app_r_alt by (rewrite length_replicate; lia).
      rewrite length_replicate.
      replace (Z.to_nat z - length column - (Z.to_nat z - length column))%nat with O by lia.
      reflexivity.
Qed.

Lemma getBlock_in_bounds w x y z :
  wellFormed w -> World.isInBounds w x y z = true ->
  World.getBlock w x y z
  = Ok (Some (World.validateBlock
                (World.cellValue (World.read3_opt (World.blocks w) x y z)))).
Proof.
  intros Hwf Hin. apply isInBounds_true in Hin as (Hx & Hy & Hz).
  unfold World.getBlock.
  destruct (Z.ltb_spec x 0); [lia |]. destruct (Z.ltb_spec y 0); [lia |].
  destruct (Z.ltb_spec z 0); [lia |].
  destruct (Z.geb_spec x (World.sx w)); [lia |].
  destruct (Z.geb_spec y (World.sy w)); [lia |].
  destruct (Z.geb_spec z (World.sz w)); [lia |].
  simpl. rewrite (read3_shaped _ _ _ _ x y z Hwf) by lia. reflexivity.
Qed.

(** The sentinel for a position outside the grid, on every axis. *)
Lemma getBlock_out_of_bounds w x y z :
  World.isInBounds w x y z = false -> World.getBlock w x y z = Ok None.
Proof.
  intros Hout. apply isInBounds_false in Hout. unfold World.getBlock.
  destruct (Z.ltb_spec x 0); [reflexivity |]. destruct (Z.ltb_spec y 0); [reflexivity |].
  destruct (Z.ltb_spec z 0); [reflexivity |].
  destruct (Z.geb_spec x (World.sx w)); [reflexivity |].
  destruct (Z.geb_spec y (World.sy w)); [reflexivity |].
  destruct (Z.geb_spec z (World.sz w)); [reflexivity |].
  lia.
Qed.

(** C3 (as amended).  For every in-bounds position and every valid block [b]:
    [getBlock] right after [setBlock] returns a block equivalent to [b]; a
    second identical [setBlock] leaves the world exactly as the first one left
    it; and each of the two calls appends one [blockChanged] event to the queue
    of an attached renderer (none for a block flagged [xray]), the chunks, and
    so their dirty flags, staying as they were. *)
Theorem setBlock_getBlock_setBlock (w : World.t) (r : option Renderer.t) (x y z : Z)
    (b : BLOCK.Block) (meta : BLOCK.Metadata) :
  wellFormed w ->
  World.isInBounds w x y z = true ->
  valid b ->
  exists w1 r1 r2,
    World.setBlock Renderer.onBlockChanged w r x y z (BLOCK.Object b) meta
    = Ok (w1, r1, true) /\
    (exists b', World.getBlock w1 x y z = Ok (Some b') /\ equivalent b' b) /\
    World.setBlock Renderer.onBlockChanged w1 r1 x y z (BLOCK.Object b) meta
    = Ok (w1, r2, true) /\
    match r, r1, r2 with
    | Some r0, Some r1, Some r2 =>
        let events := if BLOCK.xray b then [] else [Renderer.blockChanged x y z] in
        Renderer.eventQueue r1 = Renderer.eventQueue r0 ++ events /\
        Renderer.eventQueue r2 = Renderer.eventQueue r0 ++ events ++ events /\
        Renderer.chunkMap r2 = Renderer.chunkMap r0 /\
        Renderer.chunks r2 = Renderer.chunks r0
    | None, None, None => True
    | _, _, _ => False
    end.
Proof.
  intros Hwf Hin Hvalid.
  destruct (setBlock_in_bounds w r x y z (BLOCK.Object b) meta Hwf Hin)
    as (blocks1 & Hw1 & Hset1); [discriminate |].
  set (w1 := World.set_blocks w blocks1) in *.
  assert (wellFormed w1) as Hwf1 by (exact (write3_shaped _ _ _ _ _ _ _ _ _ Hwf Hw1)).
  assert (World.isInBounds w1 x y z = true) as Hin1 by exact Hin.
  destruct (setBlock_in_bounds w1 (notified r x y z (BLOCK.Object b)) x y z
              (BLOCK.Object b) meta Hwf1 Hin1)
    as (blocks2 & Hw2 & Hset2); [discriminate |].
  assert (blocks2 = blocks1) as ->.
  { pose proof (write3_twice _ _ _ _ _ _ Hw1) as Htwice.
    change (World.blocks w1) with blocks1 in Hw2. congruence. }
  exists w1, (notified r x y z (BLOCK.Object b)).
  exists (notified (notified r x y z (BLOCK.Object b)) x y z (BLOCK.Object b)).
  split; [exact Hset1 |]. split.
  { eexists. split; [apply getBlock_in_bounds; assumption |].
    change (World.blocks w1) with blocks1.
    rewrite (read3_opt_write3 _ _ _ _ _ _ x y z Hw1).
    apply isInBounds_true in Hin as (_ & _ & Hz).
    rewrite bool_decide_eq_true_2 by (repeat split; lia).
    apply validateBlock_storedBlock. assumption. }
  split.
  { rewrite Hset2. destruct w. reflexivity. }
  destruct r as [r0|]; simpl; [|exact I].
  unfold notified, isXray.
  destruct (BLOCK.xray b); simpl; rewrite ?app_nil_r, <- ?app_assoc;
    repeat split; reflexivity.
Qed.

Lemma registry_valid : Forall valid BLOCK.registry.
Proof.
  repeat constructor; try (eexists; reflexivity);
    intros lit dir; destruct lit, dir; reflexivity.
Qed.

Lemma DIRT_valid : valid BLOCK.DIRT.
Proof.
  pose proof registry_valid as H. unfold BLOCK.registry in H.
  inversion H as [|? ? _ H']. inversion H' as [|? ? Hd _]. exact Hd.
Qed.

Lemma setBlock_getBlock_setBlock_witness :
  wellFormed (airWorld 5 5 4) /\
  World.isInBounds (airWorld 5 5 4) 2 2 1 = true /\
  valid BLOCK.DIRT /\
  exists w1 r1 b',
    World.setBlock Renderer.onBlockChanged (airWorld 5 5 4) (Some rendererWithChunk)
      2 2 1 (BLOCK.Object BLOCK.DIRT) []
    = Ok (w1, r1, true) /\
    World.getBlock w1 2 2 1 = Ok (Some b') /\ equivalent b' BLOCK.DIRT.
Proof.
  split; [compute_done |]. split; [reflexivity |]. split; [exact DIRT_valid |].
  destruct (setBlock_getBlock_setBlock (airWorld 5 5 4) (Some rendererWithChunk) 2 2 1
              BLOCK.DIRT [] ltac:(compute_done) eq_refl DIRT_valid)
    as (w1 & r1 & r2 & Hset & (b' & Hget & Heq) & _).
  exists w1, r1, b'. repeat split; assumption || apply Heq.
Defined.

(** C3 as stated fails: after two identical calls the renderer has been
    notified twice, not once, and the chunk that owns the position is dirty
    neither after the first call nor after the second. *)
Lemma setBlock_twice_notifies_twice :
  match World.setBlock Renderer.onBlockChanged (airWorld 5 5 4) (Some rendererWithChunk)
          2 2 1 (BLOCK.Object BLOCK.DIRT) [] with
  | Ok (w1, Some r1, true) =>
      match World.setBlock Renderer.onBlockChanged w1 (Some r1)
              2 2 1 (BLOCK.Object BLOCK.DIRT) [] with
      | Ok (w2, Some r2, true) =>
          Renderer.eventQueue r1 = [Renderer.blockChanged 2 2 1] /\
          Renderer.eventQueue r2
          = [Renderer.blockChanged 2 2 1; Renderer.blockChanged 2 2 1] /\
          r2 <> r1 /\
          Renderer.dirty <$> (Renderer.chunkMap r1 !! (0, 0, 0)) = Some false /\
          Renderer.dirty <$> (Renderer.chunkMap r2 !! (0, 0, 0)) = Some false
      | _ => False
      end
  | _ => False
  end.
Proof.
  vm_compute. repeat split; try reflexivity. discriminate.
Qed.

(** ** [createFromString] and [toNetworkString] *)

Section Serialisation.

Variable w : World.t.
Variable str : JsString.
Hypothesis Hwf : wellFormed w.
Hypothesis Hsx : 0 <= World.sx w.
Hypothesis Hsy : 0 <= World.sy w.
Hypothesis Hsz : 0 <= World.sz w.

Lemma createFromString_loops :
  exists state,
    for_range 0 (World.sx w) (fun x =>
      for_range 0 (World.sy w) (fun y =>
        for_range 0 (World.sz w) (fun z '(blocks, i) =>
          blocks' ← World.write3 blocks x y z
                      (Some (BLOCK.fromId ((fun c => c - 97) <$> charCodeAt str i)));
          Ok (blocks', i + 1))))
      (World.blocks w, 0)
    = Ok state /\ decodedUpTo w str (World.sx w) 0 0 state.
Proof.
  apply (for_range_invariant (fun x => decodedUpTo w str x 0 0)); [assumption | |].
  { split; [exact Hwf |]. split; [unfold cellIndex; simpl; lia |].
    intros x' y' z' ? ? ? Hv. unfold visitedBefore in Hv. lia. }
  intros x st Hx Hinv.
  destruct (for_range_invariant (fun y => decodedUpTo w str x y 0)
              (fun y => for_range 0 (World.sz w) (fun z '(blocks, i) =>
                 blocks' ← World.write3 blocks x y z
                             (Some (BLOCK.fromId ((fun c => c - 97) <$> charCodeAt str i)));
                 Ok (blocks', i + 1)))
              0 (World.sy w) st) as (st' & Hrun & Hinv'); [assumption | assumption | |].
  { intros y st1 Hy Hinv1.
    destruct (for_range_invariant (fun z => decodedUpTo w str x y z)
                (fun z '(blocks, i) =>
                   blocks' ← World.write3 blocks x y z
                               (Some (BLOCK.fromId ((fun c => c - 97) <$> charCodeAt str i)));
                   Ok (blocks', i + 1))
                0 (World.sz w) st1) as (st2 & Hrun2 & Hinv2); [assumption | assumption | |].
    { intros z [blocks i] Hz (Hshape & Hi & Hcells). simpl in Hshape, Hi, Hcells.
      destruct (write3_shaped_Ok (World.sx w) (World.sy w) (World.sz w) blocks x y z
                  (Some (BLOCK.fromId ((fun c => c - 97) <$> charCodeAt str i))) Hshape)
        as [blocks' Hw]; [lia | lia |].
      exists (blocks', i + 1). rewrite Hw. split; [reflexivity |].
      split; [exact (write3_shaped _ _ _ _ _ _ _ _ _ Hshape Hw) |].
      split; [simpl; subst i; unfold cellIndex; lia |].
      intros x' y' z' Hx' Hy' Hz' Hv. simpl.
      rewrite (read3_opt_write3 _ _ _ _ _ _ x' y' z' Hw).
      destruct (decide (x' = x /\ y' = y /\ z' = z)) as [(-> & -> & ->)|Hne].
      - rewrite bool_decide_eq_true_2 by (repeat split; lia).
        subst i. reflexivity.
      - rewrite bool_decide_eq_false_2 by (intros (? & ? & ? & ?); auto).
        apply Hcells; try assumption. unfold visitedBefore in *. lia. }
    exists st2. split; [exact Hrun2 |].
    destruct Hinv2 as (Hshape & Hi & Hcells). split; [assumption |].
    split; [rewrite Hi; unfold cellIndex; lia |].
    intros x' y' z' Hx' Hy' Hz' Hv. apply Hcells; try assumption.
    unfold visitedBefore in *. lia. }
  exists st'. split; [exact Hrun |].
  destruct Hinv' as (Hshape & Hi & Hcells). split; [assumption |].
  split; [rewrite Hi; unfold cellIndex; lia |].
  intros x' y' z' Hx' Hy' Hz' Hv. apply Hcells; try assumption.
  unfold visitedBefore in *. lia.
Qed.

Lemma cellIndex_bounds x y z :
  0 <= x < World.sx w -> 0 <= y < World.sy w -> 0 <= z < World.sz w ->
  0 <= cellIndex w x y z < World.sx w * World.sy w * World.sz w.
Proof.
  intros Hx Hy Hz. unfold cellIndex.
  assert (0 <= x * World.sy w + y <= World.sx w * World.sy w - 1) by nia.
  nia.
Qed.

(** What is decoded from a code unit of the registry carries the identifier
    that the code unit stands for. *)
Lemma id_decoded (c : Z) :
  registryCode c ->
  BLOCK.id (World.validateBlock (BLOCK.Object (BLOCK.fromId (Some (c - 97)))))
  = Some (c - 97).
Proof.
  intros Hc.
  assert (Forall (fun c =>
            BLOCK.id (World.validateBlock (BLOCK.Object (BLOCK.fromId (Some (c - 97)))))
            = Some (c - 97))
            (map (fun k => 97 + Z.of_nat k) (seq 0 22))) as Hall by compute_done.
  rewrite Forall_forall in Hall. apply Hall.
  apply list_elem_of_fmap. exists (Z.to_nat (c - 97)).
  unfold registryCode in Hc. split; [lia |].
  apply elem_of_seq. lia.
Qed.

Lemma decodedId_known (c : Z) : registryCode c -> decodedId c = c - 97.
Proof.
  unfold registryCode, decodedId. intros Hc.
  rewrite (proj2 (Z.leb_le _ _)), (proj2 (Z.leb_le _ _)) by lia. reflexivity.
Qed.

Lemma decodedId_unknown (c : Z) : ~ registryCode c -> decodedId c = 0.
Proof.
  unfold registryCode, decodedId. intros Hc.
  destruct (Z.leb_spec 97 c), (Z.leb_spec c 118); cbn [andb]; try reflexivity. lia.
Qed.

Lemma decodedId_range (c : Z) : 0 <= decodedId c <= 21.
Proof.
  unfold decodedId. destruct (Z.leb_spec 97 c), (Z.leb_spec c 118); cbn [andb]; lia.
Qed.

Lemma find_absent {A} (f : A -> bool) (l : list A) :
  Forall (fun a => f a = false) l -> List.find f l = None.
Proof.
  induction 1 as [|a l Ha _ IH]; [reflexivity|]. cbn [List.find]. rewrite Ha. exact IH.
Qed.

Lemma registry_ids :
  Forall (fun block => exists k, BLOCK.id block = Some k /\ 0 <= k <= 21) BLOCK.registry.
Proof. repeat constructor; eexists; (split; [reflexivity|lia]). Qed.

(** An identifier outside the registry is answered with the default block. *)
Lemma fromId_unknown (n : Z) :
  n < 0 \/ 21 < n -> BLOCK.fromId (Some n) = BLOCK.validateBlockType None.
Proof.
  intros Hn. unfold BLOCK.fromId. destruct (Z.ltb_spec n 0); [reflexivity|].
  rewrite find_absent; [reflexivity|].
  eapply Forall_impl; [exact registry_ids|].
  intros block (k & Hk & Hrange). cbn beta. rewrite Hk.
  apply bool_decide_eq_false_2. intros [= ->]. lia.
Qed.

(** What is decoded from any code unit carries the identifier [decodedId]. *)
Lemma id_decoded_any (c : Z) :
  BLOCK.id (World.validateBlock (BLOCK.Object (BLOCK.fromId (Some (c - 97)))))
  = Some (decodedId c).
Proof.
  destruct (decide (registryCode c)) as [Hc|Hc].
  - rewrite decodedId_known by exact Hc. apply id_decoded, Hc.
  - rewrite decodedId_unknown by exact Hc.
    rewrite fromId_unknown by (unfold registryCode in Hc; lia). reflexivity.
Qed.

(** Encoding it gives the code unit of that identifier. *)
Lemma encode_decode (c : Z) :
  fromCharCode
    ((fun n => 97 + n)
       <$> BLOCK.id (World.validateBlock (BLOCK.Object (BLOCK.fromId (Some (c - 97))))))
  = 97 + decodedId c.
Proof.
  rewrite id_decoded_any. simpl.
  pose proof (decodedId_range c). rewrite Z.mod_small by lia. reflexivity.
Qed.

Lemma reencoded_known (codes : JsString) :
  Forall registryCode codes -> reencoded codes = codes.
Proof.
  unfold reencoded. induction 1 as [|c rest Hc _ IH]; [reflexivity|].
  cbn [map]. rewrite IH, decodedId_known by exact Hc. f_equal. lia.
Qed.

(** The accumulator of [toNetworkString] on reaching [(x, y, z)]. *)
Lemma toNetworkString_loops (blocks' : World.Blocks) :
  Z.of_nat (length str) = World.sx w * World.sy w * World.sz w ->
  shaped (World.sx w) (World.sy w) (World.sz w) blocks' ->
  (forall x y z, 0 <= x < World.sx w -> 0 <= y < World.sy w -> 0 <= z < World.sz w ->
     World.read3_opt blocks' x y z = Some (decoded str (cellIndex w x y z))) ->
  World.toNetworkString (World.set_blocks w blocks') = Ok (reencoded str).
Proof.
  intros Hlen Hshape Hcells. unfold World.toNetworkString.
  change (World.sx (World.set_blocks w blocks')) with (World.sx w).
  change (World.sy (World.set_blocks w blocks')) with (World.sy w).
  change (World.sz (World.set_blocks w blocks')) with (World.sz w).
  change (World.blocks (World.set_blocks w blocks')) with blocks'.
  pose (upTo := fun x y z (acc : list Z) =>
                  acc = take (Z.to_nat (cellIndex w x y z)) (reencoded str)).
  destruct (for_range_invariant (fun x => upTo x 0 0)
              (fun x => for_range 0 (World.sy w) (fun y =>
                 for_range 0 (World.sz w) (fun z blockArray =>
                   cell ← World.read3 blocks' x y z;
                   let block := World.validateBlock (World.cellValue cell) in
                   Ok (blockArray ++ [fromCharCode ((fun n => 97 + n) <$> BLOCK.id block)]))))
              0 (World.sx w) []) as (acc & Hrun & Hacc); [assumption | reflexivity | |].
  - intros x acc0 Hx Hinv0.
    destruct (for_range_invariant (fun y => upTo x y 0)
                (fun y => for_range 0 (World.sz w) (fun z blockArray =>
                   cell ← World.read3 blocks' x y z;
                   let block := World.validateBlock (World.cellValue cell) in
                   Ok (blockArray
                         ++ [fromCharCode ((fun n => 97 + n) <$> BLOCK.id block)])))
                0 (World.sy w) acc0) as (acc1' & Hrun1 & Hacc1);
      [assumption | assumption | |].
    2: { exists acc1'. split; [exact Hrun1 |].
         unfold upTo in *. rewrite Hacc1. f_equal. unfold cellIndex. lia. }
    intros y acc1 Hy Hinv1.
    destruct (for_range_invariant (fun z => upTo x y z)
                (fun z blockArray =>
                   cell ← World.read3 blocks' x y z;
                   let block := World.validateBlock (World.cellValue cell) in
                   Ok (blockArray
                         ++ [fromCharCode ((fun n => 97 + n) <$> BLOCK.id block)]))
                0 (World.sz w) acc1) as (acc2 & Hrun2 & Hacc2);
      [assumption | assumption | |].
    2: { exists acc2. split; [exact Hrun2 |].
         unfold upTo in *. rewrite Hacc2. f_equal. unfold cellIndex. lia. }
    intros z acc3 Hz Hinv3.
        rewrite (read3_shaped _ _ _ _ x y z Hshape) by lia.
        rewrite Hcells by lia. simpl.
        eexists. split; [reflexivity |].
        assert (0 <= cellIndex w x y z < World.sx w * World.sy w * World.sz w) as Hidx
          by (apply cellIndex_bounds; lia).
        unfold upTo in *. subst acc3.
        replace (cellIndex w x y (z + 1)) with (cellIndex w x y z + 1)
          by (unfold cellIndex; lia).
        replace (Z.to_nat (cellIndex w x y z + 1)) with (S (Z.to_nat (cellIndex w x y z)))
          by lia.
        destruct (lookup_lt_is_Some_2 str (Z.to_nat (cellIndex w x y z))) as [c Hc]; [lia |].
        assert (reencoded str !! Z.to_nat (cellIndex w x y z) = Some (97 + decodedId c))
          as Hc' by (unfold reencoded; rewrite list_lookup_fmap, Hc; reflexivity).
        rewrite (take_S_r _ _ _ Hc'). f_equal. f_equal.
        unfold decoded, charCodeAt, js_get.
        destruct (Z.ltb_spec (cellIndex w x y z) 0); [lia |].
        rewrite Hc. simpl.
        apply encode_decode.
  - transitivity (Ok acc); [exact Hrun |].
    f_equal. unfold upTo in Hacc. rewrite Hacc.
    apply take_ge. unfold reencoded. rewrite length_map. unfold cellIndex. lia.
Qed.

End Serialisation.

(** C4 (as amended).  For a world of non-negative dimensions: when the length
    of [str] is [sx * sy * sz], [createFromString] succeeds; it walks the
    cells with [x] outermost, then [y], then [z], and decodes the code unit at
    a cell's place to a block whose identifier is the code unit minus 97 if
    the code unit is one of ['a'] .. ['v'] (the identifiers 0 .. 21 of the
    registry), and to the default block, identifier 0, for every other code
    unit; [toNetworkString] of the result walks the cells in the same order
    and gives 97 plus the identifier of each block.  So when every code unit
    of [str] is one of ['a'] .. ['v'], [toNetworkString] of the result is [str]
    exactly.  When the length differs from [sx * sy * sz], [createFromString]
    throws the size-mismatch error. *)
Theorem createFromString_toNetworkString (w : World.t) (str : JsString) :
  wellFormed w ->
  0 <= World.sx w -> 0 <= World.sy w -> 0 <= World.sz w ->
  (Z.of_nat (length str) = World.sx w * World.sy w * World.sz w ->
   exists w',
     World.createFromString w str = Ok w' /\
     (forall x y z,
        0 <= x < World.sx w -> 0 <= y < World.sy w -> 0 <= z < World.sz w ->
        exists b c,
          World.getBlock w' x y z = Ok (Some b) /\
          str !! Z.to_nat ((x * World.sy w + y) * World.sz w + z) = Some c /\
          BLOCK.id b = Some (decodedId c)) /\
     World.toNetworkString w' = Ok (reencoded str) /\
     (Forall registryCode str ->
      World.toNetworkString w' = Ok str /\
      forall x y z,
        0 <= x < World.sx w -> 0 <= y < World.sy w -> 0 <= z < World.sz w ->
        exists b n,
          World.getBlock w' x y z = Ok (Some b) /\
          BLOCK.id b = Some n /\
          str !! Z.to_nat ((x * World.sy w + y) * World.sz w + z) = Some (97 + n))) /\
  (Z.of_nat (length str) <> World.sx w * World.sy w * World.sz w ->
   World.createFromString w str
   = Throw (JsError "String length does not match world dimensions.")).
Proof.
  intros Hwf Hsx Hsy Hsz. split.
  - intros Hlen.
    destruct (createFromString_loops w str Hwf Hsx Hsy Hsz) as ([blocks' i] & Hrun & Hinv).
    destruct Hinv as (Hshape & _ & Hcells). simpl in Hshape, Hcells.
    assert (forall x y z,
              0 <= x < World.sx w -> 0 <= y < World.sy w -> 0 <= z < World.sz w ->
              World.read3_opt blocks' x y z = Some (decoded str (cellIndex w x y z)))
      as Hall.
    { intros x y z Hx Hy Hz. apply Hcells; try assumption.
      unfold visitedBefore. lia. }
    assert (forall x y z,
              0 <= x < World.sx w -> 0 <= y < World.sy w -> 0 <= z < World.sz w ->
              exists b c,
                World.getBlock (World.set_blocks w blocks') x y z = Ok (Some b) /\
                str !! Z.to_nat ((x * World.sy w + y) * World.sz w + z) = Some c /\
                BLOCK.id b = Some (decodedId c)) as Hdecoded.
    { intros x y z Hx Hy Hz.
      assert (wellFormed (World.set_blocks w blocks')) as Hwf' by exact Hshape.
      rewrite getBlock_in_bounds;
        [|assumption | apply isInBounds_true; simpl; auto].
      change (World.blocks (World.set_blocks w blocks')) with blocks'.
      rewrite Hall by assumption.
      assert (0 <= cellIndex w x y z < World.sx w * World.sy w * World.sz w) as Hidx
        by (apply cellIndex_bounds; assumption).
      destruct (lookup_lt_is_Some_2 str (Z.to_nat (cellIndex w x y z))) as [c Hc]; [lia |].
      eexists _, c. split; [reflexivity |]. split; [exact Hc|].
      unfold decoded, charCodeAt, js_get.
      destruct (Z.ltb_spec (cellIndex w x y z) 0); [lia |].
      rewrite Hc. simpl. apply id_decoded_any. }
    assert (World.toNetworkString (World.set_blocks w blocks') = Ok (reencoded str))
      as Hser by (apply toNetworkString_loops; assumption).
    exists (World.set_blocks w blocks'). split; [|split; [exact Hdecoded|split; [exact Hser|]]].
    + unfold World.createFromString.
      rewrite (proj2 (Z.eqb_eq _ _) Hlen). simpl.
      rewrite Hrun. reflexivity.
    + intros Hcodes. split; [rewrite Hser, reencoded_known by exact Hcodes; reflexivity|].
      intros x y z Hx Hy Hz.
      destruct (Hdecoded x y z Hx Hy Hz) as (b & c & Hget & Hc & Hid).
      assert (registryCode c) as Hreg.
      { rewrite Forall_forall in Hcodes. apply Hcodes.
        eapply list_elem_of_lookup_2. eassumption. }
      exists b, (c - 97). split; [exact Hget|]. split.
      * rewrite Hid, decodedId_known by exact Hreg. reflexivity.
      * rewrite Hc. f_equal. lia.
  - intros Hne. unfold World.createFromString.
    rewrite (proj2 (Z.eqb_neq _ _) Hne). reflexivity.
Qed.

(** A string of the right length with one code unit outside the registry,
    ['z']: it is accepted, and the world serialises with ['a'] in that
    place. *)
Lemma createFromString_toNetworkString_witness :
  wellFormed (airWorld 5 5 1) /\
  Z.of_nat (length (replicate 24 97 ++ [122])) = 5 * 5 * 1 /\
  exists w',
    World.createFromString (airWorld 5 5 1) (replicate 24 97 ++ [122]) = Ok w' /\
    World.toNetworkString w' = Ok (reencoded (replicate 24 97 ++ [122])) /\
    reencoded (replicate 24 97 ++ [122]) = replicate 25 97.
Proof.
  split; [compute_done |]. split; [reflexivity |].
  destruct (proj1 (createFromString_toNetworkString (airWorld 5 5 1)
                     (replicate 24 97 ++ [122])
                     ltac:(compute_done) ltac:(simpl; lia) ltac:(simpl; lia)
                     ltac:(simpl; lia)) eq_refl)
    as (w' & Hcreate & _ & Hser & _).
  exists w'. split; [exact Hcreate|]. split; [exact Hser|reflexivity].
Defined.

(** C4 as stated fails: a string of the right length that holds a code unit
    outside ['a'] .. ['v'] (here ['z'], which would be the identifier 25) is
    accepted, the unknown identifier is replaced by the default block, and the
    world serialises to a different string. *)
Lemma unknown_code_does_not_round_trip :
  Z.of_nat (length (replicate 24 97 ++ [122])) = 5 * 5 * 1 /\
  match World.createFromString (airWorld 5 5 1) (replicate 24 97 ++ [122]) with
  | Ok w' =>
      World.toNetworkString w' = Ok (replicate 25 97) /\
      World.toNetworkString w' <> Ok (replicate 24 97 ++ [122])
  | Throw _ => False
  end.
Proof.
  split; [reflexivity |]. vm_compute. split; [reflexivity | discriminate].
Qed.
(** ** Mesh building *)

(** *** Snapping to the grid of 1/4096 *)

Lemma snap_mono (v v' : Q) : (v <= v')%Q -> (Mesh.snap v <= Mesh.snap v')%Q.
Proof.
  intros Hle. unfold Mesh.snap, Math.round.
  assert (Qfloor (v * 4096 + (1 # 2)) <= Qfloor (v' * 4096 + (1 # 2))) as Hfloor.
  { apply Qfloor_resp_le. lra. }
  apply (Qmult_le_r _ _ 4096); [reflexivity|].
  assert (forall n : Z, (inject_Z n / 4096 * 4096 == inject_Z n)%Q) as Hcancel
    by (intros n; field).
  rewrite !Hcancel. rewrite <- Zle_Qle. exact Hfloor.
Qed.

Lemma snap_grid (n : Z) : (Mesh.snap (n # 4096) == n # 4096)%Q.
Proof.
  unfold Mesh.snap, Math.round.
  assert (Qfloor ((n # 4096) * 4096 + (1 # 2)) = n) as ->.
  { unfold Qfloor, Qmult, Qplus. cbn [Qnum Qden].
    change (Z.pos (4096 * 1 * 2)) with 8192.
    symmetry. apply Z.div_unique with (r := 4096); lia. }
  unfold Qdiv, Qeq, Qmult, Qinv, inject_Z. cbn. lia.
Qed.

Lemma snap_eq (v : Q) (n : Z) : (v == n # 4096)%Q -> (Mesh.snap v == n # 4096)%Q.
Proof.
  intros Hv. apply Qle_antisym.
  - rewrite <- (snap_grid n). apply snap_mono. rewrite Hv. apply Qle_refl.
  - rewrite <- (snap_grid n) at 1. apply snap_mono. rewrite Hv. apply Qle_refl.
Qed.

Lemma snap_integer (n : Z) : (Mesh.snap (inject_Z n) == inject_Z n)%Q.
Proof.
  assert (inject_Z n == (n * 4096) # 4096)%Q as Hn
    by (unfold Qeq, inject_Z; cbn; lia).
  rewrite (snap_eq _ _ Hn). symmetry. exact Hn.
Qed.

Lemma snap_next (n : Z) : (Mesh.snap (inject_Z n + 1) == inject_Z n + 1)%Q.
Proof.
  assert (inject_Z n + 1 == ((n + 1) * 4096) # 4096)%Q as Hn
    by (unfold Qeq, Qplus, inject_Z; cbn; lia).
  rewrite (snap_eq _ _ Hn). symmetry. exact Hn.
Qed.

(** The top of a block, at its full height or at 0.9 of it, snaps to a height
    in the upper half of the cell. *)
Lemma snap_top (n : Z) (bH : Q) :
  bH = 1%Q \/ bH = (9 # 10)%Q ->
  (inject_Z n < Mesh.snap (inject_Z n + bH) <= inject_Z n + 1)%Q.
Proof.
  intros HbH.
  assert (inject_Z n + (1 # 2) == (n * 4096 + 2048) # 4096)%Q as Hhalf
    by (unfold Qeq, Qplus, inject_Z; cbn; lia).
  pose proof (snap_eq _ _ Hhalf) as Hlow.
  pose proof (snap_next n) as Hhigh.
  assert (inject_Z n + (1 # 2) <= inject_Z n + bH <= inject_Z n + 1)%Q as [Hl Hh]
    by (destruct HbH as [-> | ->]; split; lra).
  apply snap_mono in Hl, Hh. rewrite Hlow, <- Hhalf in Hl. rewrite Hhigh in Hh.
  split; lra.
Qed.

(** *** One face *)

Lemma pushFace_quad vertices lightLevel p1 p2 p3 p4 tex c :
  fourNumbers c ->
  tex = Mesh.texCoordsA \/ tex = Mesh.texCoordsB ->
  exists quad,
    Mesh.pushFace vertices lightLevel [p1; p2; p3; p4] (tex (Mesh.adjustTexture c))
    = vertices ++ quad /\
    length quad = 54%nat /\
    positionsOf quad = map snapped [p1; p2; p3; p3; p4; p1].
Proof.
  intros (c0 & c1 & c2 & c3 & ->) Htex.
  destruct p1 as [[? ?] ?], p2 as [[? ?] ?], p3 as [[? ?] ?], p4 as [[? ?] ?].
  destruct Htex as [-> | ->];
    (eexists; split; [unfold Mesh.pushFace; cbn; rewrite <- app_assoc; reflexivity
                     | split; reflexivity]).
Qed.

Lemma face_quad block lit lightLevel v dir p1 p2 p3 p4 tex vertices f :
  BLOCK.texture block = Some f ->
  (forall lit dir, fourNumbers (f lit dir)) ->
  tex = Mesh.texCoordsA \/ tex = Mesh.texCoordsB ->
  exists quad,
    Mesh.face block lit lightLevel (Ok v) dir [p1; p2; p3; p4] tex vertices
    = Ok (vertices ++ if v then quad else []) /\
    length quad = 54%nat /\
    positionsOf quad = map snapped [p1; p2; p3; p3; p4; p1].
Proof.
  intros Hf Hnum Htex. unfold Mesh.face, Mesh.callTexture. rewrite Hf. simpl.
  destruct (pushFace_quad vertices lightLevel p1 p2 p3 p4 tex (f lit dir) (Hnum lit dir) Htex)
    as (quad & Hq & Hl & Hp).
  exists quad. split; [|split; assumption].
  destruct v.
  - rewrite Hq. reflexivity.
  - rewrite app_nil_r. reflexivity.
Qed.

Lemma filled_cell sx sy sz blocks x y z :
  shaped sx sy sz blocks -> filled sx sy sz blocks ->
  0 <= x < sx -> 0 <= y < sy -> 0 <= z < sz ->
  exists b, World.read3_opt blocks x y z = Some b.
Proof.
  intros Hshape Hfilled Hx Hy Hz.
  destruct (shaped_column _ _ _ _ x y Hshape Hx Hy) as (row & column & Hr & Hc & Hrl & Hcl).
  unfold World.read3_opt. rewrite Hr, Hc.
  apply js_get_Some in Hr as [_ Hr]. apply js_get_Some in Hc as [_ Hc].
  unfold filled in Hfilled.
  pose proof (proj1 (Forall_lookup _ _) Hfilled (Z.to_nat x) row) as Hrow.
  rewrite lookup_take_lt in Hrow by lia. specialize (Hrow Hr).
  pose proof (proj1 (Forall_lookup _ _) Hrow (Z.to_nat y) column) as Hcol.
  rewrite lookup_take_lt in Hcol by lia. specialize (Hcol Hc).
  destruct (lookup_lt_is_Some_2 column (Z.to_nat z)) as [cell Hcell]; [lia |].
  pose proof (proj1 (Forall_lookup _ _) Hcol (Z.to_nat z) cell) as Hsome.
  rewrite lookup_take_lt in Hsome by lia. destruct (Hsome Hcell) as [b ->].
  exists b. unfold js_get. destruct (Z.ltb_spec z 0); [lia |]. rewrite Hcell. reflexivity.
Qed.

Lemma neighbour_filled (flag : BLOCK.Block -> option bool) w x y z :
  wellFormed w -> filled (World.sx w) (World.sy w) (World.sz w) (World.blocks w) ->
  World.isInBounds w x y z = true ->
  exists b,
    World.read3_opt (World.blocks w) x y z = Some b /\
    Mesh.neighbour flag (World.blocks w) x y z = Ok (BLOCK.truthy (flag b)).
Proof.
  intros Hwf Hfilled Hin. apply isInBounds_true in Hin as (Hx & Hy & Hz).
  destruct (filled_cell _ _ _ _ x y z Hwf Hfilled Hx Hy Hz) as [b Hb].
  exists b. split; [assumption |].
  unfold Mesh.neighbour. rewrite (read3_shaped _ _ _ _ x y z Hwf) by assumption.
  rewrite Hb. reflexivity.
Qed.

(** The test that guards a face is the rule [faceExposed]. *)
Lemma visible_faceExposed w x y z dir (atEdge : bool) :
  wellFormed w -> filled (World.sx w) (World.sy w) (World.sz w) (World.blocks w) ->
  (let '(nx, ny, nz) := neighbourOf dir x y z in
   atEdge = negb (World.isInBounds w nx ny nz)) ->
  (let '(nx, ny, nz) := neighbourOf dir x y z in
   Mesh.orElse atEdge (Mesh.neighbour BLOCK.transparent (World.blocks w) nx ny nz))
  = Ok (faceExposed w x y z dir).
Proof.
  intros Hwf Hfilled. unfold faceExposed.
  destruct (neighbourOf dir x y z) as [[nx ny] nz]. intros ->.
  destruct (World.isInBounds w nx ny nz) eqn:Hin; simpl; [|reflexivity].
  destruct (neighbour_filled BLOCK.transparent w nx ny nz Hwf Hfilled Hin) as (b & Hb & Hn).
  rewrite Hn, Hb. reflexivity.
Qed.

Lemma faceEmitted_UP w block x y z :
  faceEmitted w block x y z BLOCK.UP
  = faceExposed w x y z BLOCK.UP || BLOCK.truthy (BLOCK.fluid block).
Proof. reflexivity. Qed.

Lemma faceEmitted_side w block x y z dir :
  dir <> BLOCK.UP -> faceEmitted w block x y z dir = faceExposed w x y z dir.
Proof.
  intros Hne. unfold faceEmitted.
  rewrite bool_decide_eq_false_2 by assumption. simpl. apply orb_false_r.
Qed.

Ltac edge_test :=
  unfold World.isInBounds;
  repeat match goal with
         | |- context [?a =? ?b] => destruct (Z.eqb_spec a b)
         | |- context [?a <=? ?b] => destruct (Z.leb_spec a b)
         | |- context [?a <? ?b] => destruct (Z.ltb_spec a b)
         end;
  simpl; try reflexivity; try lia.

Ltac next_face f Hf Hnum :=
  match goal with
  | |- context [Mesh.face ?b ?l ?c (Ok ?v) ?d [?p1; ?p2; ?p3; ?p4] ?t ?vs] =>
      let q := fresh "quad" in
      let Hq := fresh "Hquad" in
      let Hl := fresh "Hlength" in
      let Hp := fresh "Hpositions" in
      destruct (face_quad b l c v d p1 p2 p3 p4 t vs f Hf Hnum ltac:(auto))
        as (q & Hq & Hl & Hp);
      rewrite Hq; cbn [mbind Result_bind]
  end.

(** The six quads of a cell lie on its six sides. *)
Lemma quads_onSide (x y z : Z) (bH : Q) (up down front back left right : list Q) :
  let X := inject_Z x in
  let Y := inject_Z y in
  let Zq := inject_Z z in
  bH = 1%Q \/ bH = (9 # 10)%Q ->
  length up = 54%nat -> length down = 54%nat -> length front = 54%nat ->
  length back = 54%nat -> length left = 54%nat -> length right = 54%nat ->
  positionsOf up
  = map snapped [ (X, Y, Zq + bH); (X + 1, Y, Zq + bH); (X + 1, Y + 1, Zq + bH);
                  (X + 1, Y + 1, Zq + bH); (X, Y + 1, Zq + bH); (X, Y, Zq + bH) ]%Q ->
  positionsOf down
  = map snapped [ (X, Y + 1, Zq); (X + 1, Y + 1, Zq); (X + 1, Y, Zq);
                  (X + 1, Y, Zq); (X, Y, Zq); (X, Y + 1, Zq) ]%Q ->
  positionsOf front
  = map snapped [ (X, Y, Zq); (X + 1, Y, Zq); (X + 1, Y, Zq + bH);
                  (X + 1, Y, Zq + bH); (X, Y, Zq + bH); (X, Y, Zq) ]%Q ->
  positionsOf back
  = map snapped [ (X, Y + 1, Zq + bH); (X + 1, Y + 1, Zq + bH); (X + 1, Y + 1, Zq);
                  (X + 1, Y + 1, Zq); (X, Y + 1, Zq); (X, Y + 1, Zq + bH) ]%Q ->
  positionsOf left
  = map snapped [ (X, Y, Zq + bH); (X, Y + 1, Zq + bH); (X, Y + 1, Zq);
                  (X, Y + 1, Zq); (X, Y, Zq); (X, Y, Zq + bH) ]%Q ->
  positionsOf right
  = map snapped [ (X + 1, Y, Zq); (X + 1, Y + 1, Zq); (X + 1, Y + 1, Zq + bH);
                  (X + 1, Y + 1, Zq + bH); (X + 1, Y, Zq + bH); (X + 1, Y, Zq) ]%Q ->
  onSide BLOCK.UP x y z up /\ onSide BLOCK.DOWN x y z down
  /\ onSide BLOCK.FORWARD x y z front /\ onSide BLOCK.BACK x y z back
  /\ onSide BLOCK.LEFT x y z left /\ onSide BLOCK.RIGHT x y z right.
Proof.
  intros X Y Zq HbH Hlu Hld Hlf Hlb Hll Hlr Hu Hd Hf Hb Hl Hr. subst X Y Zq.
  pose proof (snap_integer x) as Hx0. pose proof (snap_next x) as Hx1.
  pose proof (snap_integer y) as Hy0. pose proof (snap_next y) as Hy1.
  pose proof (snap_integer z) as Hz0. pose proof (snap_top z bH HbH) as Hz1.
  unfold onSide. rewrite Hu, Hd, Hf, Hb, Hl, Hr. cbn [map snapped].
  set (x0 := Mesh.snap (inject_Z x)) in *. set (x1 := Mesh.snap (inject_Z x + 1)) in *.
  set (y0 := Mesh.snap (inject_Z y)) in *. set (y1 := Mesh.snap (inject_Z y + 1)) in *.
  set (z0 := Mesh.snap (inject_Z z)) in *. set (z1 := Mesh.snap (inject_Z z + bH)) in *.
  clearbody x0 x1 y0 y1 z0 z1.
  repeat split; try assumption;
    repeat (apply Forall_cons; split; [repeat split; lra|]);
    constructor.
Qed.

(** C5 (as amended).  In a well-formed world whose in-bounds cells are all
    filled, for an in-bounds cell holding a block that is not AIR and whose
    texture answers four numbers, [pushVertices] appends one quad (two
    triangles, 54 numbers) for each of the six sides, tested independently and
    in the order UP, DOWN, FORWARD, BACK, LEFT, RIGHT, such that the
    neighbour on that side is transparent or lies outside the world, or, for
    the UP side, the block itself is a fluid; the quad of a side lies on that
    side of the cell; and no other quad is appended.  So two adjacent opaque,
    non-fluid cells emit no face on their shared boundary, and the chunk of a
    10x10x10 grid that is all AIR but for one DIRT block at (5,5,5) holds
    exactly 6 faces (36 vertices). *)
Theorem pushVertices_faces :
  (forall (w : World.t) (lightmap : list (list (option Z))) (vertices : list Q)
          (x y z : Z) (block : BLOCK.Block) (f : BLOCK.Texture),
     wellFormed w ->
     filled (World.sx w) (World.sy w) (World.sz w) (World.blocks w) ->
     World.isInBounds w x y z = true ->
     World.read3_opt (World.blocks w) x y z = Some block ->
     BLOCK.id block <> Some 0 ->
     BLOCK.texture block = Some f ->
     (forall lit dir, fourNumbers (f lit dir)) ->
     exists quads : list (list Q),
       Mesh.pushVertices vertices w lightmap x y z = Ok (vertices ++ concat quads) /\
       Forall2 (fun dir quad => onSide dir x y z quad)
               (filter (fun dir => faceEmitted w block x y z dir = true) allDirections)
               quads) /\
  (forall (w : World.t) (block neighbour : BLOCK.Block) (x y z : Z) (dir : BLOCK.DIRECTION),
     (let '(nx, ny, nz) := neighbourOf dir x y z in
      World.isInBounds w nx ny nz = true /\
      World.read3_opt (World.blocks w) nx ny nz = Some neighbour) ->
     BLOCK.truthy (BLOCK.transparent neighbour) = false ->
     BLOCK.truthy (BLOCK.fluid block) = false ->
     faceEmitted w block x y z dir = false) /\
  (exists w chunk buffer,
     worldWith 10 10 10 [(5, 5, 5, BLOCK.DIRT)] = Ok w /\
     (Renderer.createChunk (newRenderer 16 8 12 2) w 0 0 0).2 = Ok chunk /\
     Renderer.start chunk = (0, 0, 0) /\ Renderer.end_ chunk = (10, 10, 10) /\
     Renderer.buffer chunk = Some buffer /\
     (GL.vertices buffer == inject_Z (6 * 6))%Q /\
     length (GL.data buffer) = (6 * 54)%nat).
Proof.
  split; [|split].
  - intros w lightmap vertices x y z block f Hwf Hfilled Hin Hcell Hid Hf Hnum.
    pose proof (proj1 (isInBounds_true w x y z) Hin) as (Hx & Hy & Hz).
    unfold Mesh.pushVertices. rewrite Hcell.
    rewrite bool_decide_eq_false_2 by (change (BLOCK.id BLOCK.AIR) with (Some 0); assumption).
    cbv zeta.
    match goal with
    | |- context [mbind _ (if BLOCK.truthy (BLOCK.fluid block) then ?e else Ok 1%Q)] =>
        assert (exists bH, (if BLOCK.truthy (BLOCK.fluid block) then e else Ok 1%Q) = Ok bH
                           /\ (bH = 1%Q \/ bH = (9 # 10)%Q))
          as (bH & -> & HbH)
    end.
    { destruct (BLOCK.truthy (BLOCK.fluid block)); [|eauto].
      destruct (Z.eqb_spec z (World.sz w - 1)); simpl; [eauto |].
      destruct (neighbour_filled BLOCK.fluid w x y (z + 1) Hwf Hfilled) as (b & _ & ->);
        [apply isInBounds_true; lia |].
      simpl. destruct (negb _); eauto. }
    cbn [mbind Result_bind].
    pose proof (visible_faceExposed w x y z BLOCK.UP (z =? World.sz w - 1) Hwf Hfilled) as Hup.
    pose proof (visible_faceExposed w x y z BLOCK.DOWN (z =? 0) Hwf Hfilled) as Hdown.
    pose proof (visible_faceExposed w x y z BLOCK.FORWARD (y =? 0) Hwf Hfilled) as Hfront.
    pose proof (visible_faceExposed w x y z BLOCK.BACK (y =? World.sy w - 1) Hwf Hfilled)
      as Hback.
    pose proof (visible_faceExposed w x y z BLOCK.LEFT (x =? 0) Hwf Hfilled) as Hleft.
    pose proof (visible_faceExposed w x y z BLOCK.RIGHT (x =? World.sx w - 1) Hwf Hfilled)
      as Hright.
    cbn [neighbourOf] in *.
    rewrite Hup by edge_test. rewrite Hdown by edge_test. rewrite Hfront by edge_test.
    rewrite Hback by edge_test. rewrite Hleft by edge_test. rewrite Hright by edge_test.
    cbn [mbind Result_bind].
    rewrite <- faceEmitted_UP.
    rewrite <- (faceEmitted_side w block x y z BLOCK.DOWN) by discriminate.
    rewrite <- (faceEmitted_side w block x y z BLOCK.FORWARD) by discriminate.
    rewrite <- (faceEmitted_side w block x y z BLOCK.BACK) by discriminate.
    rewrite <- (faceEmitted_side w block x y z BLOCK.LEFT) by discriminate.
    rewrite <- (faceEmitted_side w block x y z BLOCK.RIGHT) by discriminate.
    next_face f Hf Hnum. next_face f Hf Hnum. next_face f Hf Hnum.
    next_face f Hf Hnum. next_face f Hf Hnum. next_face f Hf Hnum.
    destruct (quads_onSide x y z bH quad quad0 quad1 quad2 quad3 quad4 HbH)
      as (Hs & Hs0 & Hs1 & Hs2 & Hs3 & Hs4); try assumption.
    exists (omap (fun '(dir, quad) =>
                    if faceEmitted w block x y z dir then Some quad else None)
                 [ (BLOCK.UP, quad); (BLOCK.DOWN, quad0); (BLOCK.FORWARD, quad1);
                   (BLOCK.BACK, quad2); (BLOCK.LEFT, quad3); (BLOCK.RIGHT, quad4) ]).
    unfold allDirections. rewrite !filter_cons, filter_nil. cbn [omap list_omap].
    destruct (faceEmitted w block x y z BLOCK.UP),
             (faceEmitted w block x y z BLOCK.DOWN),
             (faceEmitted w block x y z BLOCK.FORWARD),
             (faceEmitted w block x y z BLOCK.BACK),
             (faceEmitted w block x y z BLOCK.LEFT),
             (faceEmitted w block x y z BLOCK.RIGHT);
      (split; [cbn; rewrite ?app_nil_r, <- ?app_assoc; reflexivity |
               cbn; repeat (constructor; try assumption)]).
  - intros w block neighbour x y z dir Hn Hopaque Hfluid.
    unfold faceEmitted, faceExposed.
    destruct (neighbourOf dir x y z) as [[nx ny] nz]. destruct Hn as [Hin Hcell].
    rewrite Hin, Hcell, Hopaque, Hfluid. simpl. apply andb_false_r.
  - eexists _, _, _. split; [vm_compute; reflexivity |].
    split; [vm_compute; reflexivity |].
    repeat split; vm_compute; reflexivity.
Qed.

(** The world of the concrete statements: all AIR but for one DIRT block. *)
Lemma pushVertices_faces_witness :
  match worldWith 10 10 10 [(5, 5, 5, BLOCK.DIRT)] with
  | Ok w =>
      wellFormed w /\
      filled (World.sx w) (World.sy w) (World.sz w) (World.blocks w) /\
      World.isInBounds w 5 5 5 = true /\
      exists quads : list (list Q),
        Mesh.pushVertices [] w (World.lightmap w) 5 5 5 = Ok ([] ++ concat quads) /\
        Forall2 (fun dir quad => onSide dir 5 5 5 quad) allDirections quads
  | Throw _ => False
  end.
Proof.
  destruct (worldWith 10 10 10 [(5, 5, 5, BLOCK.DIRT)]) as [w|e] eqn:Hw;
    [|vm_compute in Hw; discriminate].
  assert (w = match worldWith 10 10 10 [(5, 5, 5, BLOCK.DIRT)] with
              | Ok w => w
              | Throw _ => airWorld 1 1 1
              end) as Heq by (rewrite Hw; reflexivity).
  assert (wellFormed w) as Hwf by (rewrite Heq; compute_done).
  assert (filled (World.sx w) (World.sy w) (World.sz w) (World.blocks w)) as Hfilled
    by (rewrite Heq; compute_done).
  assert (World.isInBounds w 5 5 5 = true) as Hin by (rewrite Heq; reflexivity).
  split; [exact Hwf |]. split; [exact Hfilled |]. split; [exact Hin |].
  pose (block := World.withMetadata (World.validateBlock (BLOCK.Object BLOCK.DIRT)) []).
  destruct (proj1 pushVertices_faces w (World.lightmap w) [] 5 5 5 block
              (match BLOCK.texture block with
               | Some f => f
               | None => BLOCK.defaultTexture
               end)
              Hwf Hfilled Hin)
    as (quads & Hpush & Hsides).
  - rewrite Heq. vm_compute. reflexivity.
  - discriminate.
  - reflexivity.
  - intros lit dir. destruct lit, dir; repeat eexists.
  - exists quads. split; [exact Hpush |].
    assert (filter (fun dir => faceEmitted w block 5 5 5 dir = true) allDirections
            = allDirections) as Hall by (rewrite Heq; vm_compute; reflexivity).
    rewrite Hall in Hsides. exact Hsides.
Defined.

(** C5 as stated fails: a WATER block with an opaque DIRT block on top of it
    still gets its top face, so all six faces are emitted although only five
    neighbours are transparent. *)
Lemma covered_fluid_emits_top_face :
  match worldWith 5 5 4 [(2, 2, 1, BLOCK.WATER); (2, 2, 2, BLOCK.DIRT)] with
  | Ok w =>
      faceExposed w 2 2 1 BLOCK.UP = false /\
      filter (fun dir => faceExposed w 2 2 1 dir = true) allDirections
      = [BLOCK.DOWN; BLOCK.FORWARD; BLOCK.BACK; BLOCK.LEFT; BLOCK.RIGHT] /\
      (length <$> Mesh.pushVertices [] w (World.lightmap w) 2 2 1) = Ok (6 * 54)%nat
  | Throw _ => False
  end.
Proof. vm_compute. repeat split; reflexivity. Qed.

(** ** Chunk streaming *)

(** *** The distance test *)

Lemma sqrt_integer (n : Z) :
  Math.sqrt (inject_Z n) = Z.sqrt (n * 2 ^ 104) # (2 ^ 52).
Proof.
  unfold Math.sqrt. f_equal. f_equal. unfold Qfloor, inject_Z, Qmult. simpl Qnum. simpl Qden.
  rewrite Z.div_1_r. reflexivity.
Qed.

Lemma sqrt_nonneg (x : Q) : (0 <= Math.sqrt x)%Q.
Proof.
  unfold Math.sqrt, Qle. simpl. rewrite Z.mul_1_r. apply Z.sqrt_nonneg.
Qed.

(** For integers, [Math.sqrt n <= bound] says [n <= bound * bound]. *)
Lemma sqrt_le_integer (n bound : Z) :
  0 <= n -> 0 <= bound < 2 ^ 51 ->
  Qle_bool (Math.sqrt (inject_Z n)) (inject_Z bound) = true <-> n <= bound * bound.
Proof.
  intros Hn Hb. rewrite Qle_bool_iff, sqrt_integer. unfold Qle, inject_Z. simpl Qnum. simpl Qden.
  rewrite Z.mul_1_r.
  change (Z.pos (2 ^ 52)) with (2 ^ 52).
  assert (Z.sqrt (n * 2 ^ 104) <= bound * 2 ^ 52 <-> n * 2 ^ 104 < (bound * 2 ^ 52 + 1) * (bound * 2 ^ 52 + 1))
    as ->.
  { rewrite (Z.sqrt_lt_square (n * 2 ^ 104) (bound * 2 ^ 52 + 1)) by lia. lia. }
  change (2 ^ 104) with (2 ^ 52 * 2 ^ 52).
  destruct Hb as [Hb0 Hb1].
  change (2 ^ 51) with 2251799813685248 in Hb1.
  change (2 ^ 52) with 4503599627370496.
  split; intros H'.
  - destruct (Z_le_gt_dec n (bound * bound)) as [|Hgt]; [assumption|exfalso].
    assert (bound * bound + 1 <= n) as Hge by lia.
    assert ((bound * bound + 1) * (4503599627370496 * 4503599627370496)
            <= n * (4503599627370496 * 4503599627370496)) by nia.
    lia.
  - assert (n * (4503599627370496 * 4503599627370496)
            <= bound * bound * (4503599627370496 * 4503599627370496)) by nia.
    lia.
Qed.

Lemma sqrt_gt_integer (n bound : Z) :
  0 <= n -> 0 <= bound < 2 ^ 51 ->
  Qltb (inject_Z bound) (Math.sqrt (inject_Z n)) = true <-> bound * bound < n.
Proof.
  intros Hn Hb. unfold Qltb. rewrite negb_true_iff, <- not_true_iff_false.
  rewrite sqrt_le_integer by assumption. lia.
Qed.

Lemma square_le_bound (a bound : Z) :
  0 <= bound -> a * a <= bound * bound -> - bound <= a <= bound.
Proof. intros Hb Ha. nia. Qed.

Lemma squares_nonneg (dx dy dz : Z) : 0 <= dx * dx + dy * dy + dz * dz.
Proof. nia. Qed.

(** *** The queue-filling loops as a list comprehension *)

Lemma iter_loop_ext {St : Type} (body body' : Z -> St -> St) n i s :
  (forall j t, body j t = body' j t) ->
  iter_loop n i body s = iter_loop n i body' s.
Proof.
  intros Hext. revert i s. induction n as [|n IH]; intros i s; simpl; [reflexivity|].
  rewrite Hext. apply IH.
Qed.

Lemma iter_loop_append {A} (g : Z -> list A) n i (queue : list A) :
  iter_loop n i (fun j acc => acc ++ g j) queue = queue ++ (seqZ i (Z.of_nat n) ≫= g).
Proof.
  revert i queue. induction n as [|n IH]; intros i queue.
  - simpl. rewrite app_nil_r. reflexivity.
  - cbn [iter_loop]. rewrite IH.
    rewrite Nat2Z.inj_succ, (seqZ_cons i) by lia.
    rewrite Z.pred_succ. cbn [mbind list_bind]. rewrite <- app_assoc.
    unfold Z.succ. reflexivity.
Qed.

Lemma iter_range_append {A} (g : Z -> list A) lo hi (queue : list A) :
  lo <= hi ->
  iter_range lo hi (fun j acc => acc ++ g j) queue = queue ++ (seqZ lo (hi - lo) ≫= g).
Proof.
  intros Hle. unfold iter_range. rewrite iter_loop_append.
  rewrite Z2Nat.id by lia. reflexivity.
Qed.

Lemma iter_range_ext {St : Type} (body body' : Z -> St -> St) lo hi s :
  (forall j t, body j t = body' j t) ->
  iter_range lo hi body s = iter_range lo hi body' s.
Proof. apply iter_loop_ext. Qed.

Lemma iter_range_bind {A} (g : Z -> list A) lo hi (queue : list A) :
  iter_range lo hi (fun j acc => acc ++ g j) queue = queue ++ (seqZ lo (hi - lo) ≫= g).
Proof.
  unfold iter_range. rewrite iter_loop_append. unfold seqZ.
  rewrite Nat2Z.id. reflexivity.
Qed.

Lemma collectQueue_candidates r world px py pz view :
  Renderer.collectQueue r world px py pz view
  = x ← seqZ (px - Renderer.loadDistance r) (2 * Renderer.loadDistance r + 1);
    y ← seqZ (py - Renderer.loadDistance r) (2 * Renderer.loadDistance r + 1);
    z ← seqZ (pz - Renderer.loadDistance r) (2 * Renderer.loadDistance r + 1);
    candidate r world px py pz view x y z.
Proof.
  unfold Renderer.collectQueue.
  set (L := Renderer.loadDistance r).
  rewrite (iter_range_ext _ (fun x acc => acc ++
             (y ← seqZ (py - L) (2 * L + 1);
              z ← seqZ (pz - L) (2 * L + 1);
              candidate r world px py pz view x y z))).
  { rewrite iter_range_bind, app_nil_l.
    replace (px + L + 1 - (px - L)) with (2 * L + 1) by lia. reflexivity. }
  intros x queue.
  rewrite (iter_range_ext _ (fun y acc => acc ++
             (z ← seqZ (pz - L) (2 * L + 1);
              candidate r world px py pz view x y z))).
  { rewrite iter_range_bind.
    replace (py + L + 1 - (py - L)) with (2 * L + 1) by lia. reflexivity. }
  intros y queue'.
  rewrite (iter_range_ext _ (fun z acc => acc ++ candidate r world px py pz view x y z)).
  { rewrite iter_range_bind.
    replace (pz + L + 1 - (pz - L)) with (2 * L + 1) by lia. reflexivity. }
  intros z queue''.
  unfold candidate, entryOf, priorityOf. fold L.
  destruct (World.isInBounds world _ _ _); cbn [negb andb]; [|rewrite app_nil_r; reflexivity].
  destruct (Qle_bool _ _); cbn [andb]; [|rewrite app_nil_r; reflexivity].
  destruct view as [[vx vy] vz].
  destruct (Renderer.chunkMap r !! _) eqn:Hget.
  - rewrite bool_decide_eq_false_2 by congruence. rewrite app_nil_r. reflexivity.
  - rewrite bool_decide_eq_true_2 by reflexivity. reflexivity.
Qed.

Lemma getChunkKey_origin r x y z :
  0 < Renderer.chunkSize r ->
  Renderer.getChunkKey r (x * Renderer.chunkSize r) (y * Renderer.chunkSize r)
    (z * Renderer.chunkSize r) = (x, y, z).
Proof. intros Hcs. unfold Renderer.getChunkKey. rewrite !Z.div_mul by lia. reflexivity. Qed.

Lemma keyOf_entryOf r px py pz view x y z :
  0 < Renderer.chunkSize r -> keyOf r (entryOf r px py pz view x y z) = (x, y, z).
Proof. intros Hcs. unfold keyOf, entryOf. cbn. apply getChunkKey_origin, Hcs. Qed.

(** The queue holds the entry of a chunk coordinate exactly when the chunk is
    in bounds, within [loadDistance] and not in [chunkMap]. *)
Lemma elem_of_collectQueue r world px py pz view e :
  0 < Renderer.chunkSize r ->
  0 <= Renderer.loadDistance r < 2 ^ 51 ->
  e ∈ Renderer.collectQueue r world px py pz view <->
  exists x y z,
    e = entryOf r px py pz view x y z
    /\ World.isInBounds world (x * Renderer.chunkSize r) (y * Renderer.chunkSize r)
         (z * Renderer.chunkSize r) = true
    /\ distance2 (x, y, z) (px, py, pz) <= Renderer.loadDistance r * Renderer.loadDistance r
    /\ Renderer.chunkMap r !! (x, y, z) = None.
Proof.
  intros Hcs HL. rewrite collectQueue_candidates.
  split.
  - intros (x & (y & (z & Hc & Hz)%list_elem_of_bind & Hy)%list_elem_of_bind
            & Hx)%list_elem_of_bind.
    unfold candidate in Hc. rewrite getChunkKey_origin in Hc by assumption.
    destruct (World.isInBounds world _ _ _) eqn:Hb; [|inversion Hc].
    destruct (Qle_bool _ _) eqn:Hd; [|inversion Hc].
    destruct (bool_decide _) eqn:Hm; [|inversion Hc].
    cbn [andb] in Hc. apply list_elem_of_singleton in Hc.
    exists x, y, z. split; [assumption|]. split; [exact Hb|]. split.
    + unfold Renderer.distance in Hd. apply sqrt_le_integer in Hd;
        [exact Hd | apply squares_nonneg | assumption].
    + apply bool_decide_eq_true in Hm. exact Hm.
  - intros (x & y & z & -> & Hb & Hd & Hm).
    assert ((x - px) * (x - px) <= Renderer.loadDistance r * Renderer.loadDistance r
            /\ (y - py) * (y - py) <= Renderer.loadDistance r * Renderer.loadDistance r
            /\ (z - pz) * (z - pz) <= Renderer.loadDistance r * Renderer.loadDistance r)
      as (Hx & Hy & Hz).
    { unfold distance2 in Hd.
      pose proof (Z.square_nonneg (x - px)). pose proof (Z.square_nonneg (y - py)).
      pose proof (Z.square_nonneg (z - pz)). lia. }
    apply square_le_bound in Hx, Hy, Hz; try lia.
    apply list_elem_of_bind. exists x. split; [|apply elem_of_seqZ; lia].
    apply list_elem_of_bind. exists y. split; [|apply elem_of_seqZ; lia].
    apply list_elem_of_bind. exists z. split; [|apply elem_of_seqZ; lia].
    unfold candidate. rewrite getChunkKey_origin by assumption.
    rewrite Hb. unfold Renderer.distance.
    rewrite (proj2 (sqrt_le_integer _ _ (squares_nonneg _ _ _) HL) Hd).
    rewrite bool_decide_eq_true_2 by assumption.
    apply list_elem_of_singleton. reflexivity.
Qed.

(** *** Sorting the queue *)

Lemma insertByPriority_Permutation e queue :
  Renderer.insertByPriority e queue ≡ₚ e :: queue.
Proof.
  induction queue as [|e' rest IH]; cbn [Renderer.insertByPriority]; [reflexivity|].
  destruct (Qle_bool _ _); [reflexivity|].
  rewrite IH. apply perm_swap.
Qed.

Lemma sortByPriority_Permutation queue : Renderer.sortByPriority queue ≡ₚ queue.
Proof.
  induction queue as [|e rest IH]; [reflexivity|].
  cbn. rewrite insertByPriority_Permutation. f_equiv. exact IH.
Qed.

Lemma insertByPriority_HdRel a e queue :
  byPriority a e -> HdRel byPriority a queue ->
  HdRel byPriority a (Renderer.insertByPriority e queue).
Proof.
  intros Hae Hq. destruct queue as [|e' rest]; cbn [Renderer.insertByPriority].
  - constructor. exact Hae.
  - destruct (Qle_bool _ _); constructor; [exact Hae|].
    inversion Hq; assumption.
Qed.

Lemma insertByPriority_Sorted e queue :
  Sorted byPriority queue -> Sorted byPriority (Renderer.insertByPriority e queue).
Proof.
  induction 1 as [|e' rest Hsorted IH Hhd]; cbn [Renderer.insertByPriority].
  - repeat constructor.
  - destruct (Qle_bool _ _) eqn:Hle.
    + constructor; [constructor; assumption|].
      constructor. apply Qle_bool_iff, Hle.
    + constructor; [exact IH|].
      apply insertByPriority_HdRel; [|exact Hhd].
      apply Qlt_le_weak, Qnot_le_lt. rewrite <- Qle_bool_iff, Hle. discriminate.
Qed.

Lemma sortByPriority_Sorted queue : Sorted byPriority (Renderer.sortByPriority queue).
Proof.
  induction queue as [|e rest IH]; [constructor|].
  cbn. apply insertByPriority_Sorted, IH.
Qed.

(** *** Materialising queued chunks *)

Lemma upload_clean gl0 chunk vertexData gl1 chunk' uploaded :
  Renderer.upload gl0 chunk vertexData = (gl1, chunk', uploaded) ->
  Renderer.dirty chunk' = false
  /\ Renderer.start chunk' = Renderer.start chunk
  /\ (Renderer.buffer chunk = None -> GL.deleted gl1 = GL.deleted gl0).
Proof.
  unfold Renderer.upload. destruct (0 <? length vertexData)%nat.
  - intros [= <- <- <-]. cbn. repeat split.
    intros ->. reflexivity.
  - intros [= <- <- <-]. cbn. repeat split.
Qed.

(** [createChunk] puts one chunk under the key of its coordinates; the chunk
    is clean unless the build throws. *)
Lemma createChunk_inserts r world x y z r' res :
  Renderer.createChunk r world x y z = (r', res) ->
  exists chunk,
    Renderer.chunkMap r' = <[Renderer.getChunkKey r x y z := chunk]> (Renderer.chunkMap r)
    /\ (is_Ok res -> Renderer.dirty chunk = false)
    /\ Renderer.chunkLoadQueue r' = Renderer.chunkLoadQueue r
    /\ Renderer.chunkSize r' = Renderer.chunkSize r
    /\ GL.deleted (Renderer.gl r') = GL.deleted (Renderer.gl r).
Proof.
  unfold Renderer.createChunk, Renderer.buildChunk.
  destruct (Renderer.chunkVertices world _) as [vertexData|e]; cbn [mbind Result_bind].
  - destruct (Renderer.upload _ _ vertexData) as [[gl1 chunk'] uploaded] eqn:Hup.
    apply upload_clean in Hup as (Hclean & _ & Hdel).
    intros [= <- <-]. exists chunk'. cbn.
    rewrite insert_insert_eq. repeat split; auto.
  - intros [= <- <-]. eexists. cbn. repeat split. intros [].
Qed.

Lemma keyOf_chunkSize r r' e :
  Renderer.chunkSize r' = Renderer.chunkSize r -> keyOf r' e = keyOf r e.
Proof. unfold keyOf, Renderer.getChunkKey. intros ->. reflexivity. Qed.

(** What [processChunkQueue] does with a budget: it takes at most that many
    entries off the front of the queue and puts a chunk into the map for each;
    nothing else of the map changes, and no buffer is deleted. *)
Lemma processLoop_budget budget : forall r world r' res,
  Renderer.processLoop budget r world = (r', res) ->
  exists processed,
    (length processed <= budget)%nat
    /\ Renderer.chunkLoadQueue r = processed ++ Renderer.chunkLoadQueue r'
    /\ Renderer.chunkSize r' = Renderer.chunkSize r
    /\ GL.deleted (Renderer.gl r') = GL.deleted (Renderer.gl r)
    /\ (forall key,
          Renderer.chunkMap r' !! key = None <->
          Renderer.chunkMap r !! key = None /\ key ∉ keyOf r <$> processed)
    /\ (forall key chunk,
          Renderer.chunkMap r' !! key = Some chunk ->
          Renderer.chunkMap r !! key = Some chunk
          \/ (key ∈ keyOf r <$> processed /\ (is_Ok res -> Renderer.dirty chunk = false))).
Proof.
  induction budget as [|budget IH]; intros r world r' res; cbn [Renderer.processLoop].
  - intros [= <- <-]. exists []. cbn [length fmap list_fmap app].
    split; [lia|]. split; [reflexivity|]. split; [reflexivity|]. split; [reflexivity|]. split.
    + intros key. pose proof (not_elem_of_nil key). intuition.
    + intros key chunk Hget. left. exact Hget.
  - destruct (Renderer.chunkLoadQueue r) as [|e rest] eqn:Hqueue.
    + intros [= <- <-]. exists []. cbn [length fmap list_fmap app].
      split; [lia|]. split; [symmetry; exact Hqueue|]. split; [reflexivity|]. split; [reflexivity|]. split.
      * intros key. pose proof (not_elem_of_nil key). intuition.
      * intros key chunk Hget. left. exact Hget.
    + destruct (Renderer.createChunk _ world _ _ _) as [r1 res1] eqn:Hcreate.
      apply createChunk_inserts in Hcreate
        as (chunk1 & Hmap1 & Hclean1 & Hqueue1 & Hcs1 & Hgl1).
      cbn in Hmap1, Hqueue1, Hcs1, Hgl1.
      change (Renderer.getChunkKey _ _ _ _) with (keyOf r e) in Hmap1.
      destruct res1 as [c|err].
      * intros Hloop. apply IH in Hloop
          as (processed & Hlen & Hrest & Hcs & Hgl & Hnone & Hsome).
        exists (e :: processed). cbn [length fmap list_fmap].
        split; [lia|]. split; [rewrite <- app_comm_cons, <- Hrest, Hqueue1; reflexivity|].
        split; [congruence|]. split; [congruence|].
        assert (keyOf r1 <$> processed = keyOf r <$> processed) as Hkeys.
        { apply list_fmap_ext. intros _ e' _. apply keyOf_chunkSize, Hcs1. }
        rewrite Hkeys in Hnone, Hsome. split.
        -- intros key. rewrite Hnone, Hmap1, lookup_insert_None, not_elem_of_cons.
           intuition congruence.
        -- intros key chunk Hget. apply Hsome in Hget as [Hget|[Hin Hclean]].
           ++ rewrite Hmap1 in Hget. apply lookup_insert_Some in Hget as [[<- <-]|[_ Hget]].
              ** right. split; [apply elem_of_cons; left; reflexivity|].
                 intros _. apply Hclean1. exact I.
              ** left. exact Hget.
           ++ right. split; [apply elem_of_cons; right; exact Hin|exact Hclean].
      * intros [= <- <-]. exists [e]. cbn [length fmap list_fmap app].
        split; [lia|]. split; [rewrite Hqueue1; reflexivity|].
        split; [assumption|]. split; [assumption|]. split.
        -- intros key. rewrite Hmap1, lookup_insert_None, not_elem_of_cons.
           pose proof (not_elem_of_nil key). intuition congruence.
        -- intros key chunk Hget. rewrite Hmap1 in Hget.
           apply lookup_insert_Some in Hget as [[<- <-]|[_ Hget]].
           ++ right. split; [apply elem_of_cons; left; reflexivity|]. intros [].
           ++ left. exact Hget.
Qed.

(** *** Unloading *)

Lemma unload_deletes (gl0 : GL.t) (doomed : gmap (Z * Z * Z) Renderer.Chunk) :
  forall key chunk b,
    doomed !! key = Some chunk -> Renderer.buffer chunk = Some b ->
    GL.handle b ∈ GL.deleted
      (map_fold (fun _ chunk gl1 =>
                   match Renderer.buffer chunk with
                   | Some b => GL.deleteBuffer gl1 b
                   | None => gl1
                   end) gl0 doomed).
Proof.
  apply (map_fold_weak_ind (fun gl1 (m : gmap (Z * Z * Z) Renderer.Chunk) =>
           forall key chunk b, m !! key = Some chunk -> Renderer.buffer chunk = Some b ->
                               GL.handle b ∈ GL.deleted gl1)).
  - intros key chunk b Hget. rewrite lookup_empty in Hget. inversion Hget.
  - intros i chunk' m gl1 Hfresh IH key chunk b Hget Hbuf.
    apply lookup_insert_Some in Hget as [[<- <-]|[_ Hget]].
    + rewrite Hbuf. cbn. set_solver.
    + specialize (IH key chunk b Hget Hbuf).
      destruct (Renderer.buffer chunk'); [cbn; set_solver|exact IH].
Qed.

Lemma tooFar_spec r px py pz key :
  0 <= Renderer.unloadDistance r < 2 ^ 51 ->
  Renderer.tooFar r px py pz key = true <->
  Renderer.unloadDistance r * Renderer.unloadDistance r < distance2 key (px, py, pz).
Proof.
  intros HU. destruct key as [[cx cy] cz]. unfold Renderer.tooFar, Renderer.distance, distance2.
  apply sqrt_gt_integer; [apply squares_nonneg|assumption].
Qed.

(** *** One streaming pass *)

(** C9.  One call of [updateChunksAroundPlayer], the camera being set, the
    chunk size positive and [0 <= loadDistance <= unloadDistance] (3 and 5 in
    particular), for a player in chunk [p]:
    - every chunk coordinate that is in bounds, not in [chunkMap] and at
      Euclidean chunk distance at most [loadDistance] of [p] is put on the
      queue;
    - every chunk of [chunkMap] farther than [unloadDistance] from [p] is gone
      from the map after the pass and its buffer was passed to
      [deleteBuffer], so nothing farther than [unloadDistance] is left in the
      map;
    - the pass takes at most [maxChunksPerFrame] entries off the front of the
      sorted queue and leaves the rest queued; the chunks new in the map are
      those of the entries taken, each entry taken has its chunk in the map,
      and these chunks are built and clean when the pass returns normally. *)
Theorem updateChunksAroundPlayer_pass r world playerPos cam r' res :
  0 < Renderer.chunkSize r ->
  0 <= Renderer.loadDistance r <= Renderer.unloadDistance r ->
  Renderer.unloadDistance r < 2 ^ 51 ->
  Renderer.camPos r = Some cam ->
  Renderer.updateChunksAroundPlayer r world playerPos = (r', res) ->
  let p := playerChunk r playerPos in
  let cs := Renderer.chunkSize r in
  let queue := sortedQueue r world playerPos cam in
  (forall x y z,
      World.isInBounds world (x * cs) (y * cs) (z * cs) = true ->
      Renderer.chunkMap r !! (x, y, z) = None ->
      distance2 (x, y, z) p <= Renderer.loadDistance r * Renderer.loadDistance r ->
      exists e, e ∈ queue /\ Renderer.x e = x * cs /\ Renderer.y e = y * cs
                /\ Renderer.z e = z * cs)
  /\ (forall key chunk,
        Renderer.chunkMap r !! key = Some chunk ->
        Renderer.unloadDistance r * Renderer.unloadDistance r < distance2 key p ->
        Renderer.chunkMap r' !! key = None
        /\ forall b, Renderer.buffer chunk = Some b ->
                     GL.handle b ∈ GL.deleted (Renderer.gl r'))
  /\ (forall key,
        is_Some (Renderer.chunkMap r' !! key) ->
        distance2 key p <= Renderer.unloadDistance r * Renderer.unloadDistance r)
  /\ exists processed,
       (length processed <= Z.to_nat (Renderer.maxChunksPerFrame r))%nat
       /\ queue = processed ++ Renderer.chunkLoadQueue r'
       /\ (forall key chunk,
             Renderer.chunkMap r' !! key = Some chunk ->
             Renderer.chunkMap r !! key = Some chunk \/ key ∈ keyOf r <$> processed)
       /\ (forall e, e ∈ processed ->
             exists chunk, Renderer.chunkMap r' !! keyOf r e = Some chunk
                           /\ (is_Ok res -> Renderer.dirty chunk = false)).
Proof.
  intros Hcs HL HU Hcam Hpass p cs queue.
  unfold Renderer.updateChunksAroundPlayer in Hpass. rewrite Hcam in Hpass.
  unfold Renderer.processChunkQueue in Hpass.
  subst queue. unfold sortedQueue. subst p. unfold playerChunk.
  set (px := Math.floor (World.x playerPos / inject_Z (Renderer.chunkSize r))) in *.
  set (py := Math.floor (World.y playerPos / inject_Z (Renderer.chunkSize r))) in *.
  set (pz := Math.floor (World.z playerPos / inject_Z (Renderer.chunkSize r))) in *.
  set (view := Renderer.viewVector cam) in *.
  set (queue := Renderer.sortByPriority (Renderer.collectQueue r world px py pz view)) in *.
  assert (forall e, e ∈ queue <-> e ∈ Renderer.collectQueue r world px py pz view) as Hqueue.
  { intros e. subst queue. rewrite sortByPriority_Permutation. reflexivity. }
  apply processLoop_budget in Hpass
    as (processed & Hlen & Hrest & Hcs' & Hgl & Hnone & Hsome).
  cbn in Hlen, Hrest, Hcs', Hgl, Hnone, Hsome.
  set (r0 := Renderer.set_gl _ _) in *.
  assert (keyOf r0 <$> processed = keyOf r <$> processed) as Hkeys.
  { apply list_fmap_ext. intros _ e' _. apply keyOf_chunkSize. reflexivity. }
  rewrite Hkeys in Hnone, Hsome.
  assert (forall e, e ∈ processed ->
            distance2 (keyOf r e) (px, py, pz)
            <= Renderer.loadDistance r * Renderer.loadDistance r) as Hnear.
  { intros e He.
    assert (e ∈ queue) as Hin by (rewrite Hrest; apply elem_of_app; left; exact He).
    apply Hqueue, elem_of_collectQueue in Hin as (x & y & z & -> & _ & Hd & _);
      [|assumption|lia].
    rewrite keyOf_entryOf by assumption. exact Hd. }
  split; [|split; [|split]].
  - intros x y z Hb Hm Hd. exists (entryOf r px py pz view x y z).
    split; [|repeat split].
    apply Hqueue, elem_of_collectQueue; [assumption|lia|].
    exists x, y, z. repeat split; assumption.
  - intros key chunk Hget Hfar.
    assert (Renderer.tooFar r px py pz key = true) as Htoo
      by (apply tooFar_spec; [lia|exact Hfar]).
    split.
    + apply Hnone. split.
      * apply map_lookup_filter_None. right. intros chunk' _ Hkeep.
        change (Renderer.tooFar r px py pz key = false) in Hkeep. congruence.
      * intros (e & Hkey & He)%list_elem_of_fmap. specialize (Hnear e He).
        rewrite <- Hkey in Hnear. nia.
    + intros b Hbuf. rewrite Hgl.
      apply (unload_deletes _ _ key chunk b); [|exact Hbuf].
      apply map_lookup_filter_Some. split; [exact Hget|exact Htoo].
  - intros key [chunk Hget]. apply Hsome in Hget as [Hget|[(e & -> & He)%list_elem_of_fmap _]].
    + apply map_lookup_filter_Some in Hget as [_ Hkeep].
      change (Renderer.tooFar r px py pz key = false) in Hkeep.
      destruct (Z_le_gt_dec (distance2 key (px, py, pz))
                  (Renderer.unloadDistance r * Renderer.unloadDistance r)) as [|Hgt];
        [assumption|].
      assert (Renderer.tooFar r px py pz key = true)
        by (apply tooFar_spec; [lia|lia]).
      congruence.
    + specialize (Hnear e He). nia.
  - exists processed. split; [exact Hlen|]. split; [exact Hrest|]. split.
    + intros key chunk Hget. apply Hsome in Hget as [Hget|[Hin _]].
      * left. apply map_lookup_filter_Some in Hget as [Hget _]. exact Hget.
      * right. exact Hin.
    + intros e He.
      destruct (Renderer.chunkMap r' !! keyOf r e) as [chunk|] eqn:Hget.
      * exists chunk. split; [reflexivity|].
        apply Hsome in Hget as [Hget|[_ Hclean]]; [|exact Hclean].
        exfalso.
        assert (e ∈ queue) as Hin by (rewrite Hrest; apply elem_of_app; left; exact He).
        apply Hqueue, elem_of_collectQueue in Hin as (x & y & z & -> & _ & _ & Hm);
          [|assumption|lia].
        rewrite keyOf_entryOf in Hget by assumption.
        apply map_lookup_filter_Some in Hget as [Hget _]. congruence.
      * exfalso. apply Hnone in Hget as [_ Hnot]. apply Hnot.
        apply list_elem_of_fmap. exists e. split; [reflexivity|exact He].
Qed.

Lemma updateChunksAroundPlayer_pass_witness :
  let r := streamingRenderer in
  let world := airWorld 208 96 48 in
  let playerPos := World.mkVector 48 48 16 in
  let r' := (Renderer.updateChunksAroundPlayer r world playerPos).1 in
  let res := (Renderer.updateChunksAroundPlayer r world playerPos).2 in
  (Renderer.loadDistance r = 3 /\ Renderer.unloadDistance r = 5
   /\ playerChunk r playerPos = (3, 3, 1))
  /\ (forall key chunk,
        Renderer.chunkMap r !! key = Some chunk ->
        Renderer.unloadDistance r * Renderer.unloadDistance r
        < distance2 key (playerChunk r playerPos) ->
        Renderer.chunkMap r' !! key = None
        /\ forall b, Renderer.buffer chunk = Some b ->
                     GL.handle b ∈ GL.deleted (Renderer.gl r')).
Proof.
  intros r world playerPos r' res.
  split; [repeat split; vm_compute; reflexivity|].
  refine (proj1 (proj2
    (updateChunksAroundPlayer_pass r world playerPos (48, 48, 16)%Q r' res _ _ _ _ _))).
  - reflexivity.
  - cbn. lia.
  - reflexivity.
  - reflexivity.
  - apply surjective_pairing.
Defined.

(** *** The view vector of a streaming pass *)

Lemma createChunk_set_camera r pos view world x y z :
  Renderer.createChunk (Renderer.set_camera r pos view) world x y z
  = (Renderer.set_camera (Renderer.createChunk r world x y z).1 pos view,
     (Renderer.createChunk r world x y z).2).
Proof.
  unfold Renderer.createChunk, Renderer.buildChunk.
  destruct (Renderer.chunkVertices world _) as [vertexData|e]; cbn [mbind Result_bind].
  - cbn [Renderer.gl Renderer.set_chunkMap Renderer.set_camera].
    destruct (Renderer.upload _ _ vertexData) as [[gl1 chunk'] uploaded]. reflexivity.
  - reflexivity.
Qed.

Lemma processLoop_set_camera budget : forall r pos view world,
  Renderer.processLoop budget (Renderer.set_camera r pos view) world
  = (Renderer.set_camera (Renderer.processLoop budget r world).1 pos view,
     (Renderer.processLoop budget r world).2).
Proof.
  induction budget as [|budget IH]; intros r pos view world; cbn [Renderer.processLoop].
  - reflexivity.
  - change (Renderer.chunkLoadQueue (Renderer.set_camera r pos view))
      with (Renderer.chunkLoadQueue r).
    destruct (Renderer.chunkLoadQueue r) as [|e rest]; [reflexivity|].
    change (Renderer.set_chunkLoadQueue (Renderer.set_camera r pos view) rest)
      with (Renderer.set_camera (Renderer.set_chunkLoadQueue r rest) pos view).
    rewrite createChunk_set_camera.
    destruct (Renderer.createChunk _ world _ _ _) as [r1 [c|err]]; cbn [fst snd].
    + apply IH.
    + reflexivity.
Qed.

(** The pass after [setCamera(pos, ang)] is the pass after
    [setCamera(pos, ang')] for any other [ang'], up to the view matrix. *)
Lemma updateChunksAroundPlayer_set_camera r pos view view' world playerPos :
  Renderer.updateChunksAroundPlayer (Renderer.set_camera r pos view) world playerPos
  = (Renderer.set_camera
       (Renderer.updateChunksAroundPlayer (Renderer.set_camera r pos view') world playerPos).1
       pos view,
     (Renderer.updateChunksAroundPlayer (Renderer.set_camera r pos view') world playerPos).2).
Proof.
  unfold Renderer.updateChunksAroundPlayer, Renderer.processChunkQueue.
  cbn [Renderer.camPos Renderer.set_camera].
  match goal with
  | |- Renderer.processLoop ?n ?a world = (Renderer.set_camera (Renderer.processLoop ?n' ?b world).1 _ _, _) =>
      change a with (Renderer.set_camera b pos view); change n with n'
  end.
  apply processLoop_set_camera.
Qed.

Lemma setCamera_set_camera r pos ang :
  exists view, Renderer.setCamera r pos ang = Renderer.set_camera r pos view.
Proof.
  destruct pos as [[px py] pz], ang as [[ang0 ang1] ang2]. eexists. reflexivity.
Qed.

(** C8.  The streaming pass does not look at the orientation of the camera:
    after [setCamera(pos, ang)] and after [setCamera(pos, ang')] the pass
    leaves the same queue, the same chunk map and the same buffers, and ends
    the same way, whatever the angles [ang] and [ang'].  The view vector on
    which the priorities rest is computed from [camPos], which [setCamera]
    sets to the position. *)
Theorem updateChunksAroundPlayer_ignores_orientation r pos ang ang' world playerPos :
  let pass := Renderer.updateChunksAroundPlayer (Renderer.setCamera r pos ang) world playerPos in
  let pass' := Renderer.updateChunksAroundPlayer (Renderer.setCamera r pos ang') world playerPos in
  Renderer.camPos (Renderer.setCamera r pos ang) = Some pos
  /\ Renderer.chunkLoadQueue pass.1 = Renderer.chunkLoadQueue pass'.1
  /\ Renderer.chunkMap pass.1 = Renderer.chunkMap pass'.1
  /\ Renderer.gl pass.1 = Renderer.gl pass'.1
  /\ pass.2 = pass'.2.
Proof.
  destruct (setCamera_set_camera r pos ang) as [view ->].
  destruct (setCamera_set_camera r pos ang') as [view' ->].
  cbv zeta.
  rewrite (updateChunksAroundPlayer_set_camera r pos view view').
  cbn [fst snd]. repeat split.
Qed.

(** With the camera at (48, 48, 16), whether it is turned to yaw 0 or to
    yaw pi, the same three chunks come first in the queue: the one below the
    player, the next one along y and the next one along x. *)
Lemma priority_from_position :
  let world := airWorld 208 96 48 in
  let playerPos := World.mkVector 48 48 16 in
  let queue (yaw : Q) :=
    sortedQueue (Renderer.setCamera streamingRenderer (48, 48, 16)%Q (0, yaw, 0)%Q)
      world playerPos (48, 48, 16)%Q in
  let first (yaw : Q) :=
    (fun e => (Renderer.x e, Renderer.y e, Renderer.z e)) <$> take 3 (queue yaw) in
  first 0%Q = [(48, 48, 0); (48, 64, 16); (64, 48, 16)]
  /\ first Math.PI = [(48, 48, 0); (48, 64, 16); (64, 48, 16)].
Proof. vm_compute. split; reflexivity. Qed.

(** ** The frustum test *)

(** The test as the specification words it. *)
Lemma isChunkInFrustum_false r chunk :
  Renderer.isChunkInFrustum r chunk = false <->
  exists plane, plane ∈ Renderer.frustumPlanes r
    /\ forall corner, corner ∈ Renderer.corners chunk -> (vec4.dot plane corner < 0)%Q.
Proof.
  unfold Renderer.isChunkInFrustum. rewrite negb_false_iff, existsb_exists.
  split; intros (plane & Hin & Hall); exists plane.
  - split; [apply list_elem_of_In, Hin|].
    unfold Renderer.allOutside in Hall. rewrite forallb_forall in Hall.
    intros corner Hc. apply Qltb_lt, Hall, list_elem_of_In, Hc.
  - split; [apply list_elem_of_In, Hin|].
    unfold Renderer.allOutside. apply forallb_forall.
    intros corner Hc. apply Qltb_lt, Hall, list_elem_of_In, Hc.
Qed.

(** An affine function that is negative at both ends of an interval is
    negative inside. *)
Lemma affine_interval (a k s e x : Q) :
  (s <= x <= e -> a * s + k < 0 -> a * e + k < 0 -> a * x + k < 0)%Q.
Proof.
  intros [Hs He] Hneg_s Hneg_e.
  destruct (Qlt_le_dec a 0) as [Ha|Ha]; nra.
Qed.

(** A plane that has the eight corners of a box on its negative side has
    every point of the box there. *)
Lemma box_outside plane chunk px py pz :
  inChunk chunk (px, py, pz) ->
  Renderer.allOutside plane chunk = true ->
  (vec4.dot plane (vec4.fromValues px py pz 1) < 0)%Q.
Proof.
  destruct chunk as [[[s0 s1] s2] [[e0 e1] e2] dirty buffer].
  destruct plane as [a b c d].
  unfold inChunk, Renderer.allOutside, Renderer.corners, vec4.dot, vec4.fromValues.
  cbn [Renderer.start Renderer.end_ forallb vec4.v0 vec4.v1 vec4.v2 vec4.v3].
  intros (Hx & Hy & Hz).
  rewrite !andb_true_iff, !Qltb_lt.
  intros (H000 & H100 & H010 & H110 & H001 & H101 & H011 & H111 & _).
  assert (forall y z,
             (a * inject_Z s0 + b * y + c * z + d * 1 < 0)%Q ->
             (a * inject_Z e0 + b * y + c * z + d * 1 < 0)%Q ->
             (a * px + b * y + c * z + d * 1 < 0)%Q) as Hxs.
  { intros y z H0 H1.
    pose proof (affine_interval a (b * y + c * z + d * 1) _ _ px Hx). lra. }
  assert (forall z,
             (a * px + b * inject_Z s1 + c * z + d * 1 < 0)%Q ->
             (a * px + b * inject_Z e1 + c * z + d * 1 < 0)%Q ->
             (a * px + b * py + c * z + d * 1 < 0)%Q) as Hys.
  { intros z H0 H1.
    pose proof (affine_interval b (a * px + c * z + d * 1) _ _ py Hy). lra. }
  pose proof (affine_interval c (a * px + b * py + d * 1) _ _ pz Hz) as Hzs.
  pose proof (Hys _ (Hxs _ _ H000 H100) (Hxs _ _ H010 H110)).
  pose proof (Hys _ (Hxs _ _ H001 H101) (Hxs _ _ H011 H111)).
  lra.
Qed.

(** The camera at (8, 15.95, 20) looking along y, with the perspective of the
    program: the chunk around it is rejected. *)
Lemma near_camera_rejected :
  Renderer.isChunkInFrustum
    (looking (newRenderer 16 8 12 2) (Math.PI / 4) (4 # 3) (1 # 10) 1000
       (8, 1595 # 100, 20)%Q (0, 0, 0)%Q)
    (Renderer.mkChunk (0, 0, 16) (16, 16, 32) false None)
  = false.
Proof. vm_compute. reflexivity. Qed.

(** C6 (as amended).  The frustum test rejects a chunk exactly when some one
    of the planes has all eight corners of the chunk's box on its negative
    side.  A plane that rejects a chunk has every point of the box on its
    negative side, so a chunk is kept whenever its box holds a point that no
    plane has on its negative side; this is all that keeps a chunk: the one
    whose box contains the camera position is rejected like any other when
    the eight corners lie behind one plane. *)
Theorem isChunkInFrustum_camera_chunk (r : Renderer.t) (chunk : Renderer.Chunk) :
  (Renderer.isChunkInFrustum r chunk = true <->
   ~ exists plane, plane ∈ Renderer.frustumPlanes r
       /\ forall corner, corner ∈ Renderer.corners chunk -> (vec4.dot plane corner < 0)%Q)
  /\ (Renderer.isChunkInFrustum r chunk = false ->
      exists plane, plane ∈ Renderer.frustumPlanes r
        /\ forall px py pz, inChunk chunk (px, py, pz) ->
             (vec4.dot plane (vec4.fromValues px py pz 1) < 0)%Q)
  /\ (forall px py pz,
        inChunk chunk (px, py, pz) ->
        (forall plane, plane ∈ Renderer.frustumPlanes r ->
           (0 <= vec4.dot plane (vec4.fromValues px py pz 1))%Q) ->
        Renderer.isChunkInFrustum r chunk = true).
Proof.
  assert (Renderer.isChunkInFrustum r chunk = false ->
          exists plane, plane ∈ Renderer.frustumPlanes r
            /\ forall px py pz, inChunk chunk (px, py, pz) ->
                 (vec4.dot plane (vec4.fromValues px py pz 1) < 0)%Q) as Hrejected.
  { unfold Renderer.isChunkInFrustum. rewrite negb_false_iff, existsb_exists.
    intros (plane & Hin & Hout). exists plane. split; [apply list_elem_of_In, Hin|].
    intros px py pz Hp. exact (box_outside plane chunk px py pz Hp Hout). }
  split; [|split; [exact Hrejected|]].
  - rewrite <- isChunkInFrustum_false. destruct (Renderer.isChunkInFrustum r chunk).
    + split; [discriminate|reflexivity].
    + split; [discriminate|]. intros Hfalse. exfalso. apply Hfalse. reflexivity.
  - intros px py pz Hp Hinside.
    destruct (Renderer.isChunkInFrustum r chunk) eqn:Hvisible; [reflexivity|].
    destruct (Hrejected eq_refl) as (plane & Hplane & Hbox).
    specialize (Hinside plane Hplane). specialize (Hbox px py pz Hp). lra.
Qed.

(** The rejected chunk of the camera below: the near plane has every point
    of its box on its negative side, the camera position among them. *)
Lemma isChunkInFrustum_camera_chunk_witness :
  let chunk := Renderer.mkChunk (0, 0, 16) (16, 16, 32) false None in
  let r' := looking (newRenderer 16 8 12 2) (Math.PI / 4) (4 # 3) (1 # 10) 1000
              (8, 1595 # 100, 20)%Q (0, 0, 0)%Q in
  Renderer.isChunkInFrustum r' chunk = false
  /\ exists plane, plane ∈ Renderer.frustumPlanes r'
       /\ (vec4.dot plane (vec4.fromValues 8 (1595 # 100) 20 1) < 0)%Q.
Proof.
  intros chunk r'.
  split; [exact near_camera_rejected|].
  destruct (proj1 (proj2 (isChunkInFrustum_camera_chunk r' chunk)) near_camera_rejected)
    as (plane & Hplane & Hbox).
  exists plane. split; [exact Hplane|]. apply Hbox.
  cbn. unfold Qle. cbn. lia.
Defined.

(** C6 as stated fails.  The camera at (8, 15.95, 20) in the chunk from
    (0, 0, 16) to (16, 16, 32), looking along y with the perspective of the
    program: the near plane, 0.1 ahead, has the whole chunk behind it and
    the chunk is rejected. *)
Lemma camera_chunk_rejected :
  let chunk := Renderer.mkChunk (0, 0, 16) (16, 16, 32) false None in
  let pos := (8, 1595 # 100, 20)%Q in
  let r' := looking (newRenderer 16 8 12 2) (Math.PI / 4) (4 # 3) (1 # 10) 1000
              pos (0, 0, 0)%Q in
  inChunk chunk pos /\ Renderer.isChunkInFrustum r' chunk = false.
Proof.
  split.
  - cbn. unfold Qle. cbn. lia.
  - exact near_camera_rejected.
Qed.

(** ** Loops that keep a property, and the extents of the grid *)

Lemma for_range_first_throw {St : Type} (body : Z -> St -> Result St) lo hi s e :
  lo < hi -> body lo s = Throw e -> for_range lo hi body s = Throw e.
Proof.
  intros Hlt Hbody. unfold for_range.
  destruct (Z.to_nat (hi - lo)) as [|n] eqn:Hn; [lia|].
  cbn [for_loop]. rewrite Hbody. reflexivity.
Qed.

Lemma floor_half (n : Z) : Math.floor (inject_Z n / 2) = n / 2.
Proof.
  unfold Math.floor, Qfloor, Qdiv, Qmult, Qinv, inject_Z. cbn.
  rewrite Z.mul_1_r. reflexivity.
Qed.

Lemma write3_outside sx sy sz blocks x y z cell :
  shaped sx sy sz blocks ->
  ~ (0 <= x < sx /\ 0 <= y < sy) ->
  World.write3 blocks x y z cell = Throw TypeError.
Proof.
  intros [Hlen Hrows] Hout. unfold World.write3.
  destruct (js_get blocks x) as [row|] eqn:Hrow; [|reflexivity].
  destruct (js_get row y) as [column|] eqn:Hcolumn; [|reflexivity].
  exfalso. apply Hout.
  apply js_get_Some in Hrow as [Hx Hrow]. apply js_get_Some in Hcolumn as [Hy Hcolumn].
  destruct (proj1 (Forall_lookup _ _) Hrows _ _ Hrow) as [Hrl _].
  apply lookup_lt_Some in Hrow, Hcolumn. lia.
Qed.

(** A property that every iteration keeps holds when the loop returns. *)
Lemma for_loop_preserves {St : Type} (P : St -> Prop) (body : Z -> St -> Result St) :
  (forall i t t', P t -> body i t = Ok t' -> P t') ->
  forall (n : nat) (lo : Z) (s s' : St),
    P s -> for_loop n lo body s = Ok s' -> P s'.
Proof.
  intros Hstep. induction n as [|n IH]; intros lo s s' Hs; cbn [for_loop].
  - intros [= <-]. exact Hs.
  - destruct (body lo s) as [s1|e] eqn:Hbody; [|discriminate].
    apply IH. exact (Hstep _ _ _ Hs Hbody).
Qed.

Lemma for_range_preserves {St : Type} (P : St -> Prop) (body : Z -> St -> Result St)
    (lo hi : Z) (s s' : St) :
  (forall i t t', P t -> body i t = Ok t' -> P t') ->
  P s -> for_range lo hi body s = Ok s' -> P s'.
Proof. intros Hstep. apply for_loop_preserves, Hstep. Qed.

(** A loop one of whose iterations always throws does throw. *)
Lemma for_loop_throws_at {St : Type} (P : St -> Prop) (body : Z -> St -> Result St) (i0 : Z) :
  (forall i t t', P t -> body i t = Ok t' -> P t') ->
  (forall t, P t -> exists e, body i0 t = Throw e) ->
  forall (n : nat) (lo : Z) (s : St),
    lo <= i0 < lo + Z.of_nat n -> P s -> exists e, for_loop n lo body s = Throw e.
Proof.
  intros Hstep Hthrow. induction n as [|n IH]; intros lo s Hi Hs; [lia|].
  cbn [for_loop]. destruct (body lo s) as [s1|e] eqn:Hbody; [|exists e; reflexivity].
  destruct (decide (lo = i0)) as [->|Hne].
  - destruct (Hthrow s Hs) as [e He]. congruence.
  - apply IH; [lia|]. exact (Hstep _ _ _ Hs Hbody).
Qed.

Lemma for_range_throws_at {St : Type} (P : St -> Prop) (body : Z -> St -> Result St)
    (i0 lo hi : Z) (s : St) :
  (forall i t t', P t -> body i t = Ok t' -> P t') ->
  (forall t, P t -> exists e, body i0 t = Throw e) ->
  lo <= i0 < hi -> P s -> exists e, for_range lo hi body s = Throw e.
Proof.
  intros Hstep Hthrow Hi Hs. unfold for_range.
  apply (for_loop_throws_at P body i0 Hstep Hthrow); [lia|exact Hs].
Qed.

(** *** The grid keeps its extents through terrain generation *)

Section Extents.

Variable random : nat -> Q.
Variables sx sy sz : Z.

Lemma idAt_write3_shaped blocks x y z (test : option Z -> bool) cell blocks' :
  shaped sx sy sz blocks ->
  (i ← World.idAt blocks x y z;
   if test i then World.write3 blocks x y z cell else Ok blocks) = Ok blocks' ->
  shaped sx sy sz blocks'.
Proof.
  intros Hshape Hrun. apply bind_Ok in Hrun as (i & _ & Hrun).
  destruct (test i); [exact (write3_shaped _ _ _ _ _ _ _ _ _ Hshape Hrun)|].
  injection Hrun as <-. exact Hshape.
Qed.

Lemma addTree_shaped g x y z g' :
  shaped sx sy sz g.1 -> World.addTree random sx sy sz g x y z = Ok g' ->
  shaped sx sy sz g'.1.
Proof.
  destruct g as [blocks n]. unfold World.addTree. cbn [fst]. intros Hshape.
  destruct (negb (World.inBounds sx sy sz (x + 2) (y + 2) (z + 6)));
    [intros [= <-]; exact Hshape|].
  destruct (negb (World.inBounds sx sy sz (x - 2) (y - 2) z));
    [intros [= <-]; exact Hshape|].
  intros Hrun. apply bind_Ok in Hrun as (blocks1 & Htrunk & Hrun).
  apply bind_Ok in Hrun as (blocks2 & Hleaves & Hrun). injection Hrun as <-. cbn [fst].
  apply (for_range_preserves (shaped sx sy sz)) in Htrunk; [|  |exact Hshape].
  2:{ intros i t t' Ht Hw. exact (write3_shaped _ _ _ _ _ _ _ _ _ Ht Hw). }
  revert Hleaves. apply for_range_preserves; [|exact Htrunk].
  intros lz t t' Ht. apply for_range_preserves; [|exact Ht].
  intros lx t1 t1' Ht1. apply for_range_preserves; [|exact Ht1].
  intros ly t2 t2' Ht2.
  destruct (Qle_bool _ _); [|intros [= <-]; exact Ht2].
  destruct (World.inBounds sx sy sz _ _ _); [|intros [= <-]; exact Ht2].
  apply (idAt_write3_shaped _ _ _ _ (fun i => bool_decide (i = BLOCK.id BLOCK.AIR))), Ht2.
Qed.

Lemma createCavity_shaped g x y z g' :
  shaped sx sy sz g.1 -> World.createCavity random sx sy sz g x y z = Ok g' ->
  shaped sx sy sz g'.1.
Proof.
  unfold World.createCavity. intros Hshape.
  apply (for_range_preserves (fun g => shaped sx sy sz g.1)); [|exact Hshape].
  intros dx t t' Ht. apply (for_range_preserves (fun g => shaped sx sy sz g.1)); [|exact Ht].
  intros dy t1 t1' Ht1.
  apply (for_range_preserves (fun g => shaped sx sy sz g.1)); [|exact Ht1].
  intros dz [blocks n] t2' Ht2. cbn [fst] in Ht2.
  destruct (World.inBounds sx sy sz _ _ _); [|intros [= <-]; exact Ht2].
  intros Hrun. apply bind_Ok in Hrun as (i & _ & Hrun).
  destruct (negb _ && negb _); [|injection Hrun as <-; exact Ht2].
  destruct (Qltb _ _); [|injection Hrun as <-; exact Ht2].
  apply bind_Ok in Hrun as (blocks1 & Hw & Hrun). injection Hrun as <-.
  exact (write3_shaped _ _ _ _ _ _ _ _ _ Ht2 Hw).
Qed.

Lemma generateCaves_shaped g g' :
  shaped sx sy sz g.1 -> World.generateCaves random g sx sy sz = Ok g' ->
  shaped sx sy sz g'.1.
Proof.
  unfold World.generateCaves. intros Hshape.
  apply (for_range_preserves (fun g => shaped sx sy sz g.1)); [|exact Hshape].
  intros x t t' Ht. apply (for_range_preserves (fun g => shaped sx sy sz g.1)); [|exact Ht].
  intros y t1 t1' Ht1.
  apply (for_range_preserves (fun g => shaped sx sy sz g.1)); [|exact Ht1].
  intros z [blocks n] t2' Ht2. cbn [fst] in Ht2.
  intros Hrun. apply bind_Ok in Hrun as (i & _ & Hrun).
  destruct (bool_decide _ || bool_decide _); [injection Hrun as <-; exact Ht2|].
  match type of Hrun with
  | (if ?c then _ else _) = _ => destruct c; [|injection Hrun as <-; exact Ht2]
  end.
  apply bind_Ok in Hrun as (blocks1 & Hw & Hrun).
  pose proof (write3_shaped _ _ _ _ _ _ _ _ _ Ht2 Hw) as Hshape1.
  match type of Hrun with
  | (if ?c then _ else _) = _ => destruct c; [|injection Hrun as <-; exact Hshape1]
  end.
  exact (createCavity_shaped (blocks1, n) _ _ _ _ Hshape1 Hrun).
Qed.

Lemma emptyGrid_shaped : shaped sx sy sz (World.emptyGrid sx sy sz).
Proof.
  unfold shaped, World.emptyGrid. split; [apply length_replicate|].
  apply Forall_replicate. split; [apply length_replicate|].
  apply Forall_replicate. rewrite length_replicate. reflexivity.
Qed.

Lemma platform_row_shaped x centerY spawnHeight t t' :
  shaped sx sy sz t ->
  for_range (centerY - 2) (centerY + 2 + 1) (fun y blocks =>
    blocks ← World.write3 blocks x y (spawnHeight - 1)
               (Some (World.validateBlock (BLOCK.Object BLOCK.DIRT)));
    blocks ← World.write3 blocks x y spawnHeight
               (Some (World.validateBlock (BLOCK.Object BLOCK.AIR)));
    World.write3 blocks x y (spawnHeight + 1)
      (Some (World.validateBlock (BLOCK.Object BLOCK.AIR)))) t = Ok t' ->
  shaped sx sy sz t'.
Proof.
  intros Ht. apply for_range_preserves; [|exact Ht].
  intros y t1 t1' Ht1 Hrun.
  apply bind_Ok in Hrun as (t2 & Hw1 & Hrun). apply bind_Ok in Hrun as (t3 & Hw2 & Hw3).
  pose proof (write3_shaped _ _ _ _ _ _ _ _ _ Ht1 Hw1) as Ht2.
  pose proof (write3_shaped _ _ _ _ _ _ _ _ _ Ht2 Hw2) as Ht3.
  exact (write3_shaped _ _ _ _ _ _ _ _ _ Ht3 Hw3).
Qed.

Lemma carvePlatform_shaped blocks centerX centerY spawnHeight blocks' :
  shaped sx sy sz blocks ->
  World.carvePlatform blocks centerX centerY spawnHeight = Ok blocks' ->
  shaped sx sy sz blocks'.
Proof.
  unfold World.carvePlatform. intros Hshape.
  apply for_range_preserves; [|exact Hshape].
  intros x t t'. apply platform_row_shaped.
Qed.

(** The spawn platform reaches two cells to each side of its centre; when
    that leaves the grid, on either side, writing it throws. *)
Lemma carvePlatform_outside blocks centerX centerY spawnHeight :
  shaped sx sy sz blocks ->
  ~ (0 <= centerX - 2 /\ centerX + 2 < sx /\ 0 <= centerY - 2 /\ centerY + 2 < sy) ->
  exists e, World.carvePlatform blocks centerX centerY spawnHeight = Throw e.
Proof.
  intros Hshape Hout. unfold World.carvePlatform.
  destruct (decide (0 <= centerX - 2 /\ centerX + 2 < sx)) as [Hx|Hx].
  - (* the rows exist, a column does not *)
    set (y0 := if decide (centerY - 2 < 0) then centerY - 2 else centerY + 2).
    apply (for_range_throws_at (shaped sx sy sz) _ (centerX - 2));
      [intros x t t'; apply platform_row_shaped| |lia|exact Hshape].
    intros t Ht.
    apply (for_range_throws_at (shaped sx sy sz) _ y0);
      [| |subst y0; destruct (decide _); lia|exact Ht].
    + intros y t1 t1' Ht1 Hrun.
      apply bind_Ok in Hrun as (t2 & Hw1 & Hrun). apply bind_Ok in Hrun as (t3 & Hw2 & Hw3).
      pose proof (write3_shaped _ _ _ _ _ _ _ _ _ Ht1 Hw1) as Ht2.
      pose proof (write3_shaped _ _ _ _ _ _ _ _ _ Ht2 Hw2) as Ht3.
      exact (write3_shaped _ _ _ _ _ _ _ _ _ Ht3 Hw3).
    + intros t1 Ht1. exists TypeError.
      rewrite (write3_outside sx sy sz); [reflexivity|exact Ht1|].
      subst y0. destruct (decide _); lia.
  - (* a row does not exist *)
    set (x0 := if decide (centerX - 2 < 0) then centerX - 2 else centerX + 2).
    apply (for_range_throws_at (shaped sx sy sz) _ x0);
      [intros x t t'; apply platform_row_shaped| |subst x0; destruct (decide _); lia
      |exact Hshape].
    intros t Ht. exists TypeError.
    apply for_range_first_throw; [lia|].
    rewrite (write3_outside sx sy sz); [reflexivity|exact Ht|].
    subst x0. destruct (decide _); lia.
Qed.

End Extents.

(** *** Integers as JavaScript numbers *)

Lemma isInteger_inject_Z (n : Z) : World.isInteger (inject_Z n) = true.
Proof.
  unfold World.isInteger. rewrite Qfloor_Z. apply Qeq_bool_iff. reflexivity.
Qed.

Lemma Qle_bool_inject_Z (a b : Z) : Qle_bool (inject_Z a) (inject_Z b) = (a <=? b).
Proof.
  destruct (Z.leb_spec a b) as [Hle|Hgt].
  - apply Qle_bool_iff. rewrite <- Zle_Qle. exact Hle.
  - apply not_true_iff_false. rewrite Qle_bool_iff, <- Zle_Qle. lia.
Qed.

Lemma Qltb_inject_Z (a b : Z) : Qltb (inject_Z a) (inject_Z b) = (a <? b).
Proof. unfold Qltb. rewrite Qle_bool_inject_Z. rewrite Z.ltb_antisym. reflexivity. Qed.


(** ** World generation returns *)

(** The rule of the counting loop for a property that does not depend on the
    counter. *)
Lemma for_loop_total {St : Type} (P : St -> Prop) (body : Z -> St -> Result St) :
  forall (n : nat) (lo : Z) (s : St),
    P s ->
    (forall i t, lo <= i < lo + Z.of_nat n -> P t -> exists t', body i t = Ok t' /\ P t') ->
    exists s', for_loop n lo body s = Ok s' /\ P s'.
Proof.
  induction n as [|n IH]; intros lo s Hs Hstep; cbn [for_loop].
  - exists s. split; [reflexivity|exact Hs].
  - destruct (Hstep lo s ltac:(lia) Hs) as (s1 & -> & Hs1).
    apply IH; [exact Hs1|]. intros i t Hi. apply Hstep. lia.
Qed.

Lemma for_range_total {St : Type} (P : St -> Prop) (body : Z -> St -> Result St)
    (lo hi : Z) (s : St) :
  P s ->
  (forall i t, lo <= i < hi -> P t -> exists t', body i t = Ok t' /\ P t') ->
  exists s', for_range lo hi body s = Ok s' /\ P s'.
Proof.
  intros Hs Hstep. unfold for_range. apply for_loop_total; [exact Hs|].
  intros i t Hi. apply Hstep. lia.
Qed.

Section Grid.

Variables sx sy sz : Z.

(** Writing a block into a slot within the extents returns and keeps the grid. *)
Lemma write3_grid blocks x y z block :
  grid sx sy sz blocks -> 0 <= x < sx -> 0 <= y < sy ->
  exists blocks', World.write3 blocks x y z (Some block) = Ok blocks'
                  /\ grid sx sy sz blocks'.
Proof.
  intros [Hshape Hpop] Hx Hy.
  destruct (write3_shaped_Ok _ _ _ _ x y z (Some block) Hshape Hx Hy) as [blocks' Hw].
  exists blocks'. split; [exact Hw|]. split.
  - exact (write3_shaped _ _ _ _ _ _ _ _ _ Hshape Hw).
  - intros x' y' z' Hx' Hy' Hz'. rewrite (read3_opt_write3 _ _ _ _ _ _ _ _ _ Hw).
    destruct (bool_decide _); [eexists; reflexivity|apply Hpop; assumption].
Qed.

Lemma read3_grid blocks x y z :
  grid sx sy sz blocks -> 0 <= x < sx -> 0 <= y < sy ->
  World.read3 blocks x y z = Ok (World.read3_opt blocks x y z).
Proof. intros [Hshape _]. apply (read3_shaped sx sy sz), Hshape. Qed.

Lemma emptyGrid_grid : grid sx sy sz (World.emptyGrid sx sy sz).
Proof.
  split; [apply emptyGrid_shaped|].
  intros x y z Hx Hy Hz. unfold World.read3_opt, World.emptyGrid, js_get.
  rewrite !(proj2 (Z.ltb_ge _ _)) by lia.
  rewrite !lookup_replicate_2 by lia. cbn. eexists. reflexivity.
Qed.

Lemma inBounds_true x y z :
  World.inBounds sx sy sz x y z = true <-> 0 <= x < sx /\ 0 <= y < sy /\ 0 <= z < sz.
Proof. unfold World.inBounds. rewrite !andb_true_iff. lia. Qed.

End Grid.

(** Runs the outermost loop of the goal under an invariant. *)
Ltac run_loop P s' Hrun HP :=
  match goal with
  | |- context [for_range ?lo ?hi ?body ?s] =>
      let H := fresh in
      assert (exists t, for_range lo hi body s = Ok t /\ P t) as H;
      [apply for_range_total|
       destruct H as (s' & Hrun & HP); rewrite Hrun; cbn [mbind Result_bind]]
  end.


Lemma validateBlock_id block n :
  BLOCK.id block = Some n -> BLOCK.id (World.validateBlock (BLOCK.Object block)) = Some n.
Proof.
  intros Hid. unfold World.validateBlock. rewrite Hid.
  destruct (Z.eqb_spec n 0) as [->|Hn]; [reflexivity|].
  destruct (BLOCK.rentgenView block); [exact Hid|].
  destruct (BLOCK.xray block); [exact Hid|].
  cbn [BLOCK.validateBlockType BLOCK.id]. rewrite Hid. reflexivity.
Qed.

(** A property that one iteration establishes and the others keep holds when
    the loop returns. *)
Lemma for_loop_establishes {St : Type} (Q : St -> Prop) (body : Z -> St -> Result St)
    (i0 : Z) :
  (forall t t', body i0 t = Ok t' -> Q t') ->
  (forall i t t', i <> i0 -> Q t -> body i t = Ok t' -> Q t') ->
  forall (n : nat) (lo : Z) (s s' : St),
    (lo <= i0 < lo + Z.of_nat n \/ Q s) -> for_loop n lo body s = Ok s' -> Q s'.
Proof.
  intros Hset Hkeep. induction n as [|n IH]; intros lo s s' Hs; cbn [for_loop].
  - intros [= <-]. destruct Hs as [Hi|Hs]; [lia|exact Hs].
  - destruct (body lo s) as [s1|e] eqn:Hbody; [|discriminate].
    apply IH. destruct (decide (lo = i0)) as [->|Hne].
    + right. exact (Hset _ _ Hbody).
    + destruct Hs as [Hi|Hs]; [left; lia|right; exact (Hkeep _ _ _ Hne Hs Hbody)].
Qed.

Lemma for_range_establishes {St : Type} (Q : St -> Prop) (body : Z -> St -> Result St)
    (i0 lo hi : Z) (s s' : St) :
  (forall t t', body i0 t = Ok t' -> Q t') ->
  (forall i t t', i <> i0 -> Q t -> body i t = Ok t' -> Q t') ->
  lo <= i0 < hi -> for_range lo hi body s = Ok s' -> Q s'.
Proof.
  intros Hset Hkeep Hi. unfold for_range.
  apply (for_loop_establishes Q body i0 Hset Hkeep). left. lia.
Qed.

(** [findIndex] walks a column without empty slots to its end. *)
Lemma findIndexAir_dense (column : list World.Cell) :
  Forall is_Some column -> World.findIndexAir column = Ok ().
Proof.
  induction 1 as [|cell rest [block ->] _ IH]; cbn [World.findIndexAir]; [reflexivity|exact IH].
Qed.

Lemma for_loop_preserves_in {St : Type} (P : St -> Prop) (body : Z -> St -> Result St) :
  forall (n : nat) (lo : Z) (s s' : St),
    (forall i t t', lo <= i < lo + Z.of_nat n -> P t -> body i t = Ok t' -> P t') ->
    P s -> for_loop n lo body s = Ok s' -> P s'.
Proof.
  induction n as [|n IH]; intros lo s s' Hstep Hs; cbn [for_loop].
  - intros [= <-]. exact Hs.
  - destruct (body lo s) as [s1|e] eqn:Hbody; [|discriminate].
    apply IH; [|exact (Hstep lo _ _ ltac:(lia) Hs Hbody)].
    intros i t t' Hi. apply Hstep. lia.
Qed.

(** The rule of the counting loop for a property that the turns within the
    bounds keep. *)
Lemma for_range_preserves_in {St : Type} (P : St -> Prop) (body : Z -> St -> Result St)
    (lo hi : Z) (s s' : St) :
  (forall i t t', lo <= i < hi -> P t -> body i t = Ok t' -> P t') ->
  P s -> for_range lo hi body s = Ok s' -> P s'.
Proof.
  intros Hstep. unfold for_range. apply for_loop_preserves_in.
  intros i t t' Hi. apply Hstep. lia.
Qed.

(** *** Arrays without holes *)

Lemma js_set_dense {A} (column : list (option A)) (z : Z) (v : option A) :
  Forall is_Some column -> is_Some v -> z <= Z.of_nat (length column) ->
  Forall is_Some (js_set column z v).
Proof.
  intros Hcolumn Hv Hz. unfold js_set.
  destruct (z <? 0); [exact Hcolumn|].
  destruct (Nat.ltb_spec (Z.to_nat z) (length column)) as [Hin|Hout].
  - apply Forall_insert; assumption.
  - replace (Z.to_nat z - length column)%nat with 0%nat by lia. cbn.
    apply Forall_app. split; [exact Hcolumn|]. constructor; [exact Hv|constructor].
Qed.

Lemma js_set_length {A} (column : list (option A)) (z : Z) (v : option A) :
  (length column <= length (js_set column z v))%nat
  /\ (0 <= z -> z + 1 <= Z.of_nat (length (js_set column z v))).
Proof.
  unfold js_set. destruct (Z.ltb_spec z 0); [split; lia|].
  destruct (Nat.ltb_spec (Z.to_nat z) (length column)) as [Hin|Hout].
  - rewrite length_insert. split; lia.
  - rewrite !length_app, length_replicate. cbn. split; lia.
Qed.

(** What a write into a column without holes, at most one slot past its end,
    leaves: a grid without holes, with that column no shorter. *)
Lemma write3_dense blocks x y z block blocks' row column :
  dense blocks ->
  js_get blocks x = Some row -> js_get row y = Some column ->
  z <= Z.of_nat (length column) ->
  World.write3 blocks x y z (Some block) = Ok blocks' ->
  dense blocks'
  /\ exists row' column',
       js_get blocks' x = Some row' /\ js_get row' y = Some column'
       /\ (length column <= length column')%nat
       /\ (0 <= z -> z + 1 <= Z.of_nat (length column')).
Proof.
  intros Hdense Hrow Hcolumn Hz. unfold World.write3. rewrite Hrow, Hcolumn.
  intros [= <-].
  apply js_get_Some in Hrow as [Hx Hrow]. apply js_get_Some in Hcolumn as [Hy Hcolumn].
  pose proof (proj1 (Forall_lookup _ _) Hdense _ _ Hrow) as Hrowdense.
  pose proof (proj1 (Forall_lookup _ _) Hrowdense _ _ Hcolumn) as Hcolumndense.
  split.
  - apply Forall_insert; [exact Hdense|].
    apply Forall_insert; [exact Hrowdense|].
    apply js_set_dense; [exact Hcolumndense|eexists; reflexivity|exact Hz].
  - eexists _, _. split; [|split; [|apply js_set_length]].
    + apply js_get_Some. split; [exact Hx|].
      apply list_lookup_insert_eq. eapply lookup_lt_Some. exact Hrow.
    + apply js_get_Some. split; [exact Hy|].
      apply list_lookup_insert_eq. eapply lookup_lt_Some. exact Hcolumn.
Qed.

Lemma floor_scaled (n a : Z) (b : positive) :
  Math.floor (inject_Z n * (a # b)) = n * a / Z.pos b.
Proof. reflexivity. Qed.

Section Total.

Variable createNoise3D : string -> Q -> Q -> Q -> Q.
Variable random : nat -> Q.
Variables sx sy sz : Z.

Let G (blocks : World.Blocks) : Prop := grid sx sy sz blocks.
Let GG (g : World.Blocks * nat) : Prop := grid sx sy sz g.1.

Lemma addTree_total g x y z :
  GG g -> exists g', World.addTree random sx sy sz g x y z = Ok g' /\ GG g'.
Proof.
  destruct g as [blocks n]. unfold GG, World.addTree. cbn [fst]. intros Hg.
  destruct (World.inBounds sx sy sz (x + 2) (y + 2) (z + 6)) eqn:Hhi; cbn [negb];
    [|exists (blocks, n); split; [reflexivity|exact Hg]].
  destruct (World.inBounds sx sy sz (x - 2) (y - 2) z) eqn:Hlo; cbn [negb];
    [|exists (blocks, n); split; [reflexivity|exact Hg]].
  apply inBounds_true in Hhi, Hlo.
  run_loop G blocks1 Htrunk Hg1; [exact Hg| |].
  { intros i t _ Ht. apply write3_grid; [exact Ht|lia|lia]. }
  run_loop G blocks2 Hleaves Hg2; [exact Hg1| |].
  { intros lz t _ Ht. apply for_range_total; [exact Ht|].
    intros lx t1 _ Ht1. apply for_range_total; [exact Ht1|].
    intros ly t2 _ Ht2.
    destruct (Qle_bool _ _); [|exists t2; split; [reflexivity|exact Ht2]].
    destruct (World.inBounds sx sy sz _ _ _) eqn:Hin;
      [|exists t2; split; [reflexivity|exact Ht2]].
    apply inBounds_true in Hin. unfold World.idAt.
    rewrite (read3_grid sx sy sz) by (assumption || lia). cbn [mbind Result_bind].
    destruct (bool_decide _); [|exists t2; split; [reflexivity|exact Ht2]].
    apply write3_grid; [exact Ht2|lia|lia]. }
  exists (blocks2, S n). split; [reflexivity|exact Hg2].
Qed.

Lemma createCavity_total g x y z :
  GG g -> exists g', World.createCavity random sx sy sz g x y z = Ok g' /\ GG g'.
Proof.
  unfold World.createCavity. intros Hg.
  apply for_range_total; [exact Hg|]. intros dx t _ Ht.
  apply for_range_total; [exact Ht|]. intros dy t1 _ Ht1.
  apply for_range_total; [exact Ht1|]. intros dz [blocks n] _ Ht2.
  unfold GG in Ht2. cbn [fst] in Ht2.
  destruct (World.inBounds sx sy sz _ _ _) eqn:Hin;
    [|exists (blocks, n); split; [reflexivity|exact Ht2]].
  apply inBounds_true in Hin. unfold World.idAt.
  rewrite (read3_grid sx sy sz) by (assumption || lia). cbn [mbind Result_bind].
  destruct (negb _ && negb _); [|exists (blocks, n); split; [reflexivity|exact Ht2]].
  destruct (Qltb _ _); [|exists (blocks, S n); split; [reflexivity|exact Ht2]].
  destruct (write3_grid sx sy sz blocks (x + dx) (y + dy) (z + dz)
              (World.validateBlock (BLOCK.Object BLOCK.AIR)) Ht2) as (blocks1 & -> & Hg1);
    [lia|lia|].
  exists (blocks1, S n). split; [reflexivity|exact Hg1].
Qed.

Lemma generateCaves_total g :
  GG g -> exists g', World.generateCaves random g sx sy sz = Ok g' /\ GG g'.
Proof.
  unfold World.generateCaves. intros Hg.
  apply for_range_total; [exact Hg|]. intros x t Hx Ht.
  apply for_range_total; [exact Ht|]. intros y t1 Hy Ht1.
  apply for_range_total; [exact Ht1|]. intros z [blocks n] Hz Ht2.
  unfold GG in Ht2. cbn [fst] in Ht2. unfold World.idAt.
  rewrite (read3_grid sx sy sz) by (assumption || lia). cbn [mbind Result_bind].
  destruct (bool_decide _ || bool_decide _);
    [exists (blocks, n); split; [reflexivity|exact Ht2]|].
  match goal with
  | |- exists g', (if ?c then _ else _) = _ /\ _ =>
      destruct c; [|exists (blocks, n); split; [reflexivity|exact Ht2]]
  end.
  destruct (write3_grid sx sy sz blocks x y z
              (World.validateBlock (BLOCK.Object BLOCK.AIR)) Ht2) as (blocks1 & -> & Hg1);
    [lia|lia|]. cbn [mbind Result_bind].
  match goal with
  | |- exists g', (if ?c then _ else _) = _ /\ _ =>
      destruct c; [|exists (blocks1, n); split; [reflexivity|exact Hg1]]
  end.
  apply createCavity_total. exact Hg1.
Qed.


(** *** The spawn platform *)

Section Platform.

Variables centerX centerY spawnHeight : Z.
Hypothesis Hx : 0 <= centerX - 2 /\ centerX + 2 < sx.
Hypothesis Hy : 0 <= centerY - 2 /\ centerY + 2 < sy.

Lemma carvePlatform_total blocks :
  G blocks ->
  exists blocks', World.carvePlatform blocks centerX centerY spawnHeight = Ok blocks'
                  /\ G blocks'.
Proof.
  unfold World.carvePlatform. intros Hg.
  apply for_range_total; [exact Hg|]. intros x t Hxr Ht.
  apply for_range_total; [exact Ht|]. intros y t1 Hyr Ht1.
  destruct (write3_grid sx sy sz t1 x y (spawnHeight - 1)
              (World.validateBlock (BLOCK.Object BLOCK.DIRT)) Ht1) as (t2 & -> & Ht2);
    [lia|lia|]. cbn [mbind Result_bind].
  destruct (write3_grid sx sy sz t2 x y spawnHeight
              (World.validateBlock (BLOCK.Object BLOCK.AIR)) Ht2) as (t3 & -> & Ht3);
    [lia|lia|]. cbn [mbind Result_bind].
  apply write3_grid; [exact Ht3|lia|lia].
Qed.

End Platform.


(** *** The validation pass *)

Lemma validation_total blocks :
  G blocks ->
  exists blocks',
    for_range 0 sx (fun x =>
      for_range 0 sy (fun y =>
        for_range 0 sz (fun z blocks =>
          cell ← World.read3 blocks x y z;
          World.write3 blocks x y z (Some (World.validateBlock (World.cellValue cell))))))
      blocks = Ok blocks'
    /\ G blocks'.
Proof.
  intros Hg.
  apply for_range_total; [exact Hg|]. intros x t Hx Ht.
  apply for_range_total; [exact Ht|]. intros y t1 Hy Ht1.
  apply for_range_total; [exact Ht1|]. intros z t2 Hz Ht2.
  rewrite (read3_grid sx sy sz) by (assumption || lia). cbn [mbind Result_bind].
  apply write3_grid; [exact Ht2|lia|lia].
Qed.

(** *** Lighting *)

Lemma highestOpaque_total blocks x y maxZ : forall n : nat,
  G blocks -> 0 <= x < sx -> 0 <= y < sy -> Z.of_nat n <= sz ->
  exists v, World.highestOpaque blocks x y n maxZ = Ok v.
Proof.
  induction n as [|n IH]; intros Hg Hx Hy Hn; cbn [World.highestOpaque]; [eauto|].
  rewrite (read3_grid sx sy sz) by assumption. cbn [mbind Result_bind].
  destruct (proj2 Hg x y (Z.of_nat n) Hx Hy ltac:(lia)) as [block ->].
  destruct (negb _); [eauto|]. apply IH; [assumption..|lia].
Qed.

Lemma updateLighting_total blocks spawnPoint lightmap :
  G blocks -> 0 <= sz -> length lightmap = Z.to_nat sx ->
  exists lightmap',
    World.updateLighting
      {| World.sx := sx; World.sy := sy; World.sz := sz; World.blocks := blocks;
         World.spawnPoint := spawnPoint; World.lightmap := lightmap |}
    = Ok {| World.sx := sx; World.sy := sy; World.sz := sz; World.blocks := blocks;
            World.spawnPoint := spawnPoint; World.lightmap := lightmap' |}.
Proof.
  intros Hg Hsz Hlen. unfold World.updateLighting.
  cbn [World.sx World.sy World.sz World.blocks World.lightmap].
  run_loop (fun l : list (list (option Z)) => length l = Z.to_nat sx) lightmap' Hrun Hlen';
    [exact Hlen| |].
  - intros x t Hx Ht. apply for_range_total; [exact Ht|]. intros y t1 Hy Ht1.
    destruct (highestOpaque_total blocks x y (sz - 1) (Z.to_nat sz) Hg Hx Hy ltac:(lia))
      as [v ->]. cbn [mbind Result_bind]. unfold World.write2.
    destruct (js_get t1 x) as [row|] eqn:Hrow.
    + eexists. split; [reflexivity|]. rewrite length_insert. exact Ht1.
    + exfalso. unfold js_get in Hrow. rewrite (proj2 (Z.ltb_ge _ _)) in Hrow by lia.
      apply lookup_ge_None in Hrow. lia.
  - exists lightmap'. reflexivity.
Qed.


(** *** The whole of generation *)

Hypothesis Hsx : 5 <= sx.
Hypothesis Hsy : 5 <= sy.
Hypothesis Hsz : 1 <= sz.

Lemma centre_inside (n : Z) :
  5 <= n -> 0 <= Math.floor (inject_Z n / 2) - 2 /\ Math.floor (inject_Z n / 2) + 2 < n.
Proof.
  intros Hn. rewrite floor_half.
  pose proof (Z.div_mod n 2 ltac:(lia)). pose proof (Z.mod_pos_bound n 2 ltac:(lia)). lia.
Qed.

Lemma spawnHeight_inside : 0 <= Math.floor (inject_Z sz * (6 # 10)) < sz.
Proof.
  rewrite floor_scaled. split.
  - apply Z.div_pos; lia.
  - apply Z.div_lt_upper_bound; lia.
Qed.

(** *** No slot is left empty *)

(** The invariant: a grid, and no empty slot in any column, whatever its
    length. *)
Let D (blocks : World.Blocks) : Prop := grid sx sy sz blocks /\ dense blocks.
Let DD (g : World.Blocks * nat) : Prop := D g.1.

Lemma write3_D blocks x y z block blocks' :
  D blocks -> z <= sz -> World.write3 blocks x y z (Some block) = Ok blocks' -> D blocks'.
Proof.
  intros [[Hshape Hpop] Hdense] Hz Hw. split; [split|].
  - exact (write3_shaped _ _ _ _ _ _ _ _ _ Hshape Hw).
  - intros x' y' z' Hx' Hy' Hz'. rewrite (read3_opt_write3 _ _ _ _ _ _ _ _ _ Hw).
    destruct (bool_decide _); [eexists; reflexivity|apply Hpop; assumption].
  - pose proof Hw as Hw'. unfold World.write3 in Hw'.
    destruct (js_get blocks x) as [row|] eqn:Hrow; [|discriminate].
    destruct (js_get row y) as [column|] eqn:Hcolumn; [|discriminate].
    refine (proj1 (write3_dense _ _ _ _ _ _ _ _ Hdense Hrow Hcolumn _ Hw)).
    apply js_get_Some in Hrow as [_ Hrow]. apply js_get_Some in Hcolumn as [_ Hcolumn].
    destruct Hshape as [_ Hrows].
    destruct (proj1 (Forall_lookup _ _) Hrows _ _ Hrow) as [_ Hcolumns].
    pose proof (proj1 (Forall_lookup _ _) Hcolumns _ _ Hcolumn) as Hlen. cbn in Hlen. lia.
Qed.

Lemma emptyGrid_D : D (World.emptyGrid sx sy sz).
Proof.
  split; [apply emptyGrid_grid|].
  unfold dense, World.emptyGrid.
  apply Forall_replicate, Forall_replicate, Forall_replicate. eexists. reflexivity.
Qed.

(** The trunk of a tree: consecutive slots of one column from a slot within
    the column on, which may carry the column past its end but leave no hole. *)
Lemma trunk_D x y z block : forall (n : nat) (lo : Z) blocks blocks',
  D blocks ->
  (exists row column, js_get blocks x = Some row /\ js_get row y = Some column
                      /\ z + lo <= Z.of_nat (length column)) ->
  for_loop n lo (fun i blocks => World.write3 blocks x y (z + i) (Some block)) blocks
  = Ok blocks' ->
  D blocks'.
Proof.
  induction n as [|n IH]; intros lo blocks blocks' Hd Hcolumn; cbn [for_loop].
  - intros [= <-]. exact Hd.
  - destruct (World.write3 blocks x y (z + lo) (Some block)) as [blocks1|e] eqn:Hw;
      [|discriminate].
    destruct Hcolumn as (row & column & Hrow & Hcolumn & Hlen).
    destruct Hd as [[Hshape Hpop] Hdense].
    destruct (write3_dense _ _ _ _ _ _ _ _ Hdense Hrow Hcolumn Hlen Hw)
      as (Hdense1 & row1 & column1 & Hrow1 & Hcolumn1 & Hlonger & Hnext).
    apply IH.
    + split; [split|exact Hdense1].
      * exact (write3_shaped _ _ _ _ _ _ _ _ _ Hshape Hw).
      * intros x' y' z' Hx' Hy' Hz'. rewrite (read3_opt_write3 _ _ _ _ _ _ _ _ _ Hw).
        destruct (bool_decide _); [eexists; reflexivity|apply Hpop; assumption].
    + exists row1, column1. split; [exact Hrow1|]. split; [exact Hcolumn1|].
      destruct (Z.le_gt_cases 0 (z + lo)) as [Hpos|Hneg]; [specialize (Hnext Hpos)|]; lia.
Qed.

Lemma addTree_D g x y z g' :
  DD g -> World.addTree random sx sy sz g x y z = Ok g' -> DD g'.
Proof.
  destruct g as [blocks n]. unfold DD, World.addTree. cbn [fst]. intros Hd.
  destruct (World.inBounds sx sy sz (x + 2) (y + 2) (z + 6)) eqn:Hhi; cbn [negb];
    [|intros [= <-]; exact Hd].
  destruct (World.inBounds sx sy sz (x - 2) (y - 2) z) eqn:Hlo; cbn [negb];
    [|intros [= <-]; exact Hd].
  apply inBounds_true in Hhi, Hlo.
  intros Hrun. apply bind_Ok in Hrun as (blocks1 & Htrunk & Hrun).
  apply bind_Ok in Hrun as (blocks2 & Hleaves & Hrun). injection Hrun as <-. cbn [fst].
  apply trunk_D in Htrunk; [|exact Hd|].
  2:{ destruct (shaped_column _ _ _ _ x y (proj1 (proj1 Hd)) ltac:(lia) ltac:(lia))
        as (row & column & Hrow & Hcolumn & _ & Hlen).
      exists row, column. split; [exact Hrow|]. split; [exact Hcolumn|]. lia. }
  revert Hleaves. apply (for_range_preserves_in D); [|exact Htrunk].
  intros lz t t' Hlz Ht. apply (for_range_preserves D); [|exact Ht].
  intros lx t1 t1' Ht1. apply (for_range_preserves D); [|exact Ht1].
  intros ly t2 t2' Ht2.
  destruct (Qle_bool _ _); [|intros [= <-]; exact Ht2].
  destruct (World.inBounds sx sy sz _ _ _) eqn:Hin; [|intros [= <-]; exact Ht2].
  apply inBounds_true in Hin.
  intros Hrun. apply bind_Ok in Hrun as (i & _ & Hrun).
  destruct (bool_decide _); [|injection Hrun as <-; exact Ht2].
  refine (write3_D _ _ _ _ _ _ Ht2 _ Hrun). lia.
Qed.

Lemma createCavity_D g x y z g' :
  DD g -> World.createCavity random sx sy sz g x y z = Ok g' -> DD g'.
Proof.
  unfold World.createCavity. intros Hd.
  apply (for_range_preserves DD); [|exact Hd].
  intros dx t t' Ht. apply (for_range_preserves DD); [|exact Ht].
  intros dy t1 t1' Ht1. apply (for_range_preserves DD); [|exact Ht1].
  intros dz [blocks n] t2' Ht2. unfold DD in Ht2. cbn [fst] in Ht2.
  destruct (World.inBounds sx sy sz _ _ _) eqn:Hin; [|intros [= <-]; exact Ht2].
  apply inBounds_true in Hin.
  intros Hrun. apply bind_Ok in Hrun as (i & _ & Hrun).
  destruct (negb _ && negb _); [|injection Hrun as <-; exact Ht2].
  destruct (Qltb _ _); [|injection Hrun as <-; exact Ht2].
  apply bind_Ok in Hrun as (blocks1 & Hw & Hrun). injection Hrun as <-.
  refine (write3_D _ _ _ _ _ _ Ht2 _ Hw). lia.
Qed.

Lemma generateCaves_D g g' :
  DD g -> World.generateCaves random g sx sy sz = Ok g' -> DD g'.
Proof.
  unfold World.generateCaves. intros Hd.
  apply (for_range_preserves DD); [|exact Hd].
  intros x t t' Ht. apply (for_range_preserves DD); [|exact Ht].
  intros y t1 t1' Ht1. apply (for_range_preserves_in DD); [|exact Ht1].
  intros z [blocks n] t2' Hz Ht2. unfold DD in Ht2. cbn [fst] in Ht2.
  intros Hrun. apply bind_Ok in Hrun as (i & _ & Hrun).
  destruct (bool_decide _ || bool_decide _); [injection Hrun as <-; exact Ht2|].
  match type of Hrun with
  | (if ?c then _ else _) = _ => destruct c; [|injection Hrun as <-; exact Ht2]
  end.
  apply bind_Ok in Hrun as (blocks1 & Hw & Hrun).
  assert (D blocks1) as Ht3 by (refine (write3_D _ _ _ _ _ _ Ht2 _ Hw); lia).
  match type of Hrun with
  | (if ?c then _ else _) = _ => destruct c; [|injection Hrun as <-; exact Ht3]
  end.
  exact (createCavity_D (blocks1, n) _ _ _ _ Ht3 Hrun).
Qed.

Lemma carvePlatform_D blocks centerX centerY blocks' :
  D blocks ->
  World.carvePlatform blocks centerX centerY (Math.floor (inject_Z sz * (6 # 10))) = Ok blocks' ->
  D blocks'.
Proof.
  pose proof spawnHeight_inside as Hh.
  unfold World.carvePlatform. intros Hd.
  apply (for_range_preserves D); [|exact Hd].
  intros x t t' Ht. apply (for_range_preserves D); [|exact Ht].
  intros y t1 t1' Ht1 Hrun.
  apply bind_Ok in Hrun as (t2 & Hw1 & Hrun). apply bind_Ok in Hrun as (t3 & Hw2 & Hw3).
  refine (write3_D _ _ _ _ _ _ _ _ Hw3);
    [refine (write3_D _ _ _ _ _ _ _ _ Hw2);
     [refine (write3_D _ _ _ _ _ _ Ht1 _ Hw1)|]|]; lia.
Qed.

Lemma validation_D blocks blocks' :
  D blocks ->
  for_range 0 sx (fun x =>
    for_range 0 sy (fun y =>
      for_range 0 sz (fun z blocks =>
        cell ← World.read3 blocks x y z;
        World.write3 blocks x y z (Some (World.validateBlock (World.cellValue cell))))))
    blocks = Ok blocks' ->
  D blocks'.
Proof.
  intros Hd. apply (for_range_preserves D); [|exact Hd].
  intros x t t' Ht. apply (for_range_preserves D); [|exact Ht].
  intros y t1 t1' Ht1. apply (for_range_preserves_in D); [|exact Ht1].
  intros z t2 t2' Hz Ht2 Hrun. apply bind_Ok in Hrun as (cell & _ & Hw).
  refine (write3_D _ _ _ _ _ _ Ht2 _ Hw). lia.
Qed.

(** The log line: the centre column is walked to its end. *)
Lemma centre_column_walked blocks centerX centerY :
  D blocks -> 0 <= centerX < sx -> 0 <= centerY < sy ->
  match js_get blocks centerX ≫= (fun row => js_get row centerY) with
  | Some column => World.findIndexAir column
  | None => Throw TypeError
  end = Ok ().
Proof.
  intros [[Hshape _] Hdense] Hx Hy.
  destruct (shaped_column _ _ _ _ centerX centerY Hshape Hx Hy)
    as (row & column & Hrow & Hcolumn & _).
  rewrite Hrow. cbn [mbind option_bind]. rewrite Hcolumn.
  apply js_get_Some in Hrow as [_ Hrow]. apply js_get_Some in Hcolumn as [_ Hcolumn].
  apply findIndexAir_dense.
  pose proof (proj1 (Forall_lookup _ _) Hdense _ _ Hrow) as Hrowdense.
  exact (proj1 (Forall_lookup _ _) Hrowdense _ _ Hcolumn).
Qed.

(** With at least 5 blocks in x and in y, the [try] block of
    [generateTerrain] runs to its end. *)
Lemma generateTerrain_try_total n :
  exists blocks n',
    World.generateTerrain_try createNoise3D random sx sy sz n = Ok (blocks, n')
    /\ G blocks.
Proof.
  unfold World.generateTerrain_try.
  pose proof (centre_inside sx Hsx) as Hcx. pose proof (centre_inside sy Hsy) as Hcy.
  pose proof spawnHeight_inside as Hh.
  set (centerX := Math.floor (inject_Z sx / 2)) in *.
  set (centerY := Math.floor (inject_Z sy / 2)) in *.
  set (spawnHeight := Math.floor (inject_Z sz * (6 # 10))) in *.
  (* bedrock *)
  run_loop G blocks0 Hbedrock Hg0; [apply emptyGrid_grid| |].
  { intros x t Hx Ht. apply for_range_total; [exact Ht|]. intros y t1 Hy Ht1.
    apply write3_grid; [exact Ht1|lia|lia]. }
  assert (D blocks0) as Hd0.
  { revert Hbedrock. apply (for_range_preserves D); [|apply emptyGrid_D].
    intros x t t' Ht. apply (for_range_preserves D); [|exact Ht].
    intros y t1 t1' Ht1 Hw. refine (write3_D _ _ _ _ _ _ Ht1 _ Hw). lia. }
  (* columns and trees *)
  run_loop GG g1 Hterrain Hg1; [exact Hg0| |].
  { intros x t Hx Ht. apply for_range_total; [exact Ht|]. intros y [blocks m] Hy Ht1.
    unfold GG in Ht1. cbn [fst] in Ht1.
    run_loop G blocks1 Hcolumn Hc1; [exact Ht1| |].
    { intros z t2 Hz Ht2. apply write3_grid; [exact Ht2|lia|lia]. }
    destruct (_ >? _); [|exists (blocks1, m); split; [reflexivity|exact Hc1]].
    destruct (Qltb _ _); [|exists (blocks1, S m); split; [reflexivity|exact Hc1]].
    apply addTree_total. exact Hc1. }
  assert (DD g1) as Hd1.
  { revert Hterrain. apply (for_range_preserves DD); [|exact Hd0].
    intros x t t' Ht. apply (for_range_preserves DD); [|exact Ht].
    intros y [blocks m] t1' Ht1. unfold DD in Ht1. cbn [fst] in Ht1.
    intros Hrun. apply bind_Ok in Hrun as (blocks1 & Hcolumn & Hrun).
    assert (D blocks1) as Hc1.
    { revert Hcolumn. apply (for_range_preserves_in D); [|exact Ht1].
      intros z t2 t2' Hz Ht2 Hw. refine (write3_D _ _ _ _ _ _ Ht2 _ Hw). lia. }
    destruct (_ >? _); [|injection Hrun as <-; exact Hc1].
    destruct (Qltb _ _); [|injection Hrun as <-; exact Hc1].
    exact (addTree_D (blocks1, S m) _ _ _ _ Hc1 Hrun). }
  (* caves *)
  destruct (generateCaves_total g1 Hg1) as ([blocks2 n2] & Hcaves & Hg2).
  rewrite Hcaves. cbn [mbind Result_bind]. unfold GG in Hg2. cbn [fst] in Hg2.
  apply (generateCaves_D _ _ Hd1) in Hcaves. unfold DD in Hcaves. cbn [fst] in Hcaves.
  (* spawn platform *)
  destruct (carvePlatform_total centerX centerY spawnHeight Hcx Hcy blocks2 Hg2)
    as (blocks3 & Hcarve & Hg3).
  rewrite Hcarve. cbn [mbind Result_bind].
  apply (carvePlatform_D _ _ _ _ Hcaves) in Hcarve.
  (* validation *)
  destruct (validation_total blocks3 Hg3) as (blocks4 & Hvalid & Hg4).
  rewrite Hvalid. cbn [mbind Result_bind].
  apply (validation_D _ _ Hcarve) in Hvalid.
  rewrite (centre_column_walked blocks4 centerX centerY Hvalid); [|lia|lia].
  cbn [mbind Result_bind]. exists blocks4, n2. split; [reflexivity|exact Hg4].
Qed.

Lemma constructor_total n :
  exists w n',
    World.constructor createNoise3D random sx sy sz n = Ok (w, n')
    /\ World.sx w = sx /\ World.sy w = sy /\ World.sz w = sz
    /\ G (World.blocks w).
Proof.
  unfold World.constructor.
  rewrite !(proj2 (Z.leb_gt _ _)) by lia. cbn [orb].
  unfold World.generateTerrain.
  destruct (generateTerrain_try_total n) as (blocks & n' & -> & Hg).
  cbn [mbind Result_bind]. unfold World.findSpawnPoint.
  destruct (carvePlatform_total _ _ (Math.floor (inject_Z sz * (6 # 10)))
              (centre_inside sx Hsx) (centre_inside sy Hsy) blocks Hg)
    as (blocks1 & -> & Hg1).
  cbn [mbind Result_bind].
  match goal with
  | |- context [World.updateLighting
                  {| World.sx := _; World.sy := _; World.sz := _; World.blocks := _;
                     World.spawnPoint := ?p; World.lightmap := ?l |}] =>
      destruct (updateLighting_total blocks1 p l Hg1) as (lightmap' & ->);
      [lia|apply length_replicate|]
  end.
  cbn [mbind Result_bind]. eexists _, n'. split; [reflexivity|].
  cbn. repeat split; apply Hg1.
Qed.

End Total.

(** World creation succeeds for dimensions of 5 to 254 in x and in y and of 1
    to 254 in z, whatever the noise and the random numbers. *)
Lemma generateWorld_total createNoise3D random (sx sy sz : Z) n :
  5 <= sx <= 254 -> 5 <= sy <= 254 -> 1 <= sz <= 254 ->
  exists w n',
    World.generateWorld createNoise3D random (inject_Z sx) (inject_Z sy) (inject_Z sz) n
    = Ok (w, n')
    /\ World.sx w = sx /\ World.sy w = sy /\ World.sz w = sz
    /\ grid sx sy sz (World.blocks w).
Proof.
  intros Hsx Hsy Hsz. unfold World.generateWorld.
  rewrite !isInteger_inject_Z. cbn [negb orb].
  change 0%Q with (inject_Z 0). change 254%Q with (inject_Z 254).
  rewrite !Qle_bool_inject_Z, !Qltb_inject_Z.
  rewrite !(proj2 (Z.leb_gt _ _)), !(proj2 (Z.ltb_ge _ _)) by lia. cbn [orb].
  rewrite !Qfloor_Z.
  destruct (constructor_total createNoise3D random sx sy sz ltac:(lia) ltac:(lia)
              ltac:(lia) n) as (w & n' & -> & Hw).
  exists w, n'. split; [reflexivity|exact Hw].
Qed.

(** ** Creating worlds *)

Section SmallWorlds.

Variable createNoise3D : string -> Q -> Q -> Q -> Q.
Variable random : nat -> Q.
Variables sx sy sz : Z.
Hypothesis Hsmall : sx <= 4 \/ sy <= 4.

Lemma platform_outside :
  ~ (0 <= Math.floor (inject_Z sx / 2) - 2 /\ Math.floor (inject_Z sx / 2) + 2 < sx
     /\ 0 <= Math.floor (inject_Z sy / 2) - 2 /\ Math.floor (inject_Z sy / 2) + 2 < sy).
Proof.
  rewrite !floor_half.
  pose proof (Z.div_mod sx 2 ltac:(lia)). pose proof (Z.mod_pos_bound sx 2 ltac:(lia)).
  pose proof (Z.div_mod sy 2 ltac:(lia)). pose proof (Z.mod_pos_bound sy 2 ltac:(lia)).
  lia.
Qed.

(** The [try] block of [generateTerrain] always ends in its [catch]. *)
Lemma generateTerrain_try_small n :
  exists e, World.generateTerrain_try createNoise3D random sx sy sz n = Throw e.
Proof.
  destruct (World.generateTerrain_try createNoise3D random sx sy sz n)
    as [[blocks n']|e] eqn:Htry; [exfalso|exists e; reflexivity].
  unfold World.generateTerrain_try in Htry.
  apply bind_Ok in Htry as (blocks0 & Hbedrock & Htry).
  apply bind_Ok in Htry as (g & Hterrain & Htry).
  apply bind_Ok in Htry as ([blocks1 n1] & Hcaves & Htry).
  apply bind_Ok in Htry as (blocks2 & Hcarve & _).
  assert (shaped sx sy sz blocks0) as Hshape0.
  { revert Hbedrock. apply for_range_preserves; [|apply emptyGrid_shaped].
    intros x t t' Ht. apply for_range_preserves; [|exact Ht].
    intros y t1 t1' Ht1 Hw. exact (write3_shaped _ _ _ _ _ _ _ _ _ Ht1 Hw). }
  assert (shaped sx sy sz g.1) as Hshape1.
  { revert Hterrain.
    apply (for_range_preserves (fun g => shaped sx sy sz g.1)); [|exact Hshape0].
    intros x t t' Ht. apply (for_range_preserves (fun g => shaped sx sy sz g.1)); [|exact Ht].
    intros y [blocks' m] t1' Ht1 Hrun. cbn [fst] in Ht1.
    apply bind_Ok in Hrun as (blocks3 & Hcolumn & Hrun).
    assert (shaped sx sy sz blocks3) as Hshape3.
    { revert Hcolumn. apply for_range_preserves; [|exact Ht1].
      intros z t2 t2' Ht2 Hw. exact (write3_shaped _ _ _ _ _ _ _ _ _ Ht2 Hw). }
    destruct (_ >? _); [|injection Hrun as <-; exact Hshape3].
    destruct (Qltb _ _); [|injection Hrun as <-; exact Hshape3].
    exact (addTree_shaped random sx sy sz (blocks3, S m) _ _ _ _ Hshape3 Hrun). }
  pose proof (generateCaves_shaped random sx sy sz g _ Hshape1 Hcaves) as Hshape2.
  destruct (carvePlatform_outside sx sy sz blocks1 _ _
              (Math.floor (inject_Z sz * (6 # 10))) Hshape2 platform_outside) as [e He].
  congruence.
Qed.

Lemma createFlatWorld_shaped height blocks spawn :
  World.createFlatWorld sx sy sz height = Ok (blocks, spawn) -> shaped sx sy sz blocks.
Proof.
  unfold World.createFlatWorld. destruct ((height <? 0) || (height >? sz)); [discriminate|].
  intros Hrun. apply bind_Ok in Hrun as (blocks' & Hfill & [= <- _]).
  revert Hfill. apply for_range_preserves; [|apply emptyGrid_shaped].
  intros x t t' Ht. apply for_range_preserves; [|exact Ht].
  intros y t1 t1' Ht1. apply for_range_preserves; [|exact Ht1].
  intros z t2 t2' Ht2 Hw. exact (write3_shaped _ _ _ _ _ _ _ _ _ Ht2 Hw).
Qed.

Lemma findSpawnPoint_small blocks :
  shaped sx sy sz blocks -> exists e, World.findSpawnPoint sx sy sz blocks = Throw e.
Proof.
  intros Hshape. unfold World.findSpawnPoint.
  destruct (carvePlatform_outside sx sy sz blocks _ _
              (Math.floor (inject_Z sz * (6 # 10))) Hshape platform_outside) as [e ->].
  exists e. reflexivity.
Qed.

Lemma constructor_small n :
  exists e, World.constructor createNoise3D random sx sy sz n = Throw e.
Proof.
  unfold World.constructor.
  destruct ((sx <=? 0) || (sy <=? 0) || (sz <=? 0)); [eexists; reflexivity|].
  unfold World.generateTerrain.
  destruct (generateTerrain_try_small n) as [e ->].
  destruct (World.createFlatWorld sx sy sz _) as [[blocks spawn]|e'] eqn:Hflat;
    cbn [mbind Result_bind].
  - destruct (findSpawnPoint_small blocks (createFlatWorld_shaped _ _ _ Hflat)) as [e1 ->].
    exists e1. reflexivity.
  - eexists. reflexivity.
Qed.

End SmallWorlds.

(** A dimension that is not positive or is above 254 is refused with the
    message of the failed check. *)
Lemma generateWorld_invalid_dimension createNoise3D random (sx sy sz : Z) n :
  sx <= 0 \/ sy <= 0 \/ sz <= 0 \/ 254 < sx \/ 254 < sy \/ 254 < sz ->
  exists message,
    World.generateWorld createNoise3D random (inject_Z sx) (inject_Z sy) (inject_Z sz) n
    = Throw (JsError ("Failed to generate world: " +:+ message))
    /\ (message = "World dimensions must be positive"
        \/ message = "World dimensions cannot exceed 254").
Proof.
  intros Hbad. unfold World.generateWorld.
  rewrite !isInteger_inject_Z. cbn [negb orb].
  change 0%Q with (inject_Z 0). change 254%Q with (inject_Z 254).
  rewrite !Qle_bool_inject_Z, !Qltb_inject_Z.
  destruct (Z.leb_spec sx 0), (Z.leb_spec sy 0), (Z.leb_spec sz 0); cbn [orb];
    try (eexists; split; [reflexivity|left; reflexivity]).
  destruct (Z.ltb_spec 254 sx), (Z.ltb_spec 254 sy), (Z.ltb_spec 254 sz); cbn [orb];
    try (eexists; split; [reflexivity|right; reflexivity]).
  lia.
Qed.

(** C7.  For dimensions that pass every check of [generateWorld] (positive
    integers up to 254), whatever the noise and the random numbers: world
    creation succeeds when there are at least 5 blocks in x and in y, and is
    refused when there are fewer in x or in y, the spawn platform being
    written outside the grid. *)
Theorem generateWorld_dimensions createNoise3D random (sx sy sz : Z) n :
  0 < sx <= 254 -> 0 < sy <= 254 -> 0 < sz <= 254 ->
  let created :=
    World.generateWorld createNoise3D random (inject_Z sx) (inject_Z sy) (inject_Z sz) n in
  (sx <= 4 \/ sy <= 4 ->
   exists message, created = Throw (JsError ("Failed to generate world: " +:+ message)))
  /\ (5 <= sx /\ 5 <= sy ->
      exists w n', created = Ok (w, n')
                   /\ World.sx w = sx /\ World.sy w = sy /\ World.sz w = sz).
Proof.
  intros Hsx Hsy Hsz created. split.
  - intros Hsmall. subst created. unfold World.generateWorld.
    rewrite !isInteger_inject_Z. cbn [negb orb].
    change 0%Q with (inject_Z 0). change 254%Q with (inject_Z 254).
    rewrite !Qle_bool_inject_Z, !Qltb_inject_Z.
    rewrite !(proj2 (Z.leb_gt _ _)), !(proj2 (Z.ltb_ge _ _)) by lia. cbn [orb].
    rewrite !Qfloor_Z.
    destruct (constructor_small createNoise3D random sx sy sz Hsmall n) as [e ->].
    exists (World.errorMessage e). reflexivity.
  - intros [Hx Hy]. subst created.
    destruct (generateWorld_total createNoise3D random sx sy sz n)
      as (w & n' & Hrun & Hdx & Hdy & Hdz & _); [lia..|].
    exists w, n'. auto.
Qed.

Lemma generateWorld_dimensions_witness :
  exists message,
    World.generateWorld flatNoise (constantRandom 0) (inject_Z 4) (inject_Z 4) (inject_Z 4) 0
    = Throw (JsError ("Failed to generate world: " +:+ message)).
Proof.
  apply (generateWorld_dimensions flatNoise (constantRandom 0) 4 4 4 0); lia.
Defined.

(** ** Terrain generation and [Math.random()] *)

Lemma for_loop_sameGrid (body body' : Z -> World.Blocks * nat -> Result (World.Blocks * nat)) :
  forall (n : nat) (lo : Z) (g g' : World.Blocks * nat),
    g.1 = g'.1 ->
    (forall i g g', lo <= i < lo + Z.of_nat n -> g.1 = g'.1 ->
                    sameGrid (body i g) (body' i g')) ->
    sameGrid (for_loop n lo body g) (for_loop n lo body' g').
Proof.
  induction n as [|n IH]; intros lo g g' Hg Hstep; cbn [for_loop].
  - exact Hg.
  - pose proof (Hstep lo g g' ltac:(lia) Hg) as Hfirst.
    destruct (body lo g) as [g1|e], (body' lo g') as [g1'|e']; cbn in Hfirst;
      try contradiction; [|exact I].
    apply IH; [exact Hfirst|]. intros i h h' Hi. apply Hstep. lia.
Qed.

Lemma for_range_sameGrid (body body' : Z -> World.Blocks * nat -> Result (World.Blocks * nat))
    (lo hi : Z) (g g' : World.Blocks * nat) :
  g.1 = g'.1 ->
  (forall i g g', lo <= i < hi -> g.1 = g'.1 -> sameGrid (body i g) (body' i g')) ->
  sameGrid (for_range lo hi body g) (for_range lo hi body' g').
Proof.
  intros Hg Hstep. unfold for_range. apply for_loop_sameGrid; [exact Hg|].
  intros i h h' Hi. apply Hstep. lia.
Qed.

Lemma for_loop_unchanged {St : Type} (body : Z -> St -> Result St) :
  forall (n : nat) (lo : Z) (s : St),
    (forall i, lo <= i < lo + Z.of_nat n -> body i s = Ok s) ->
    for_loop n lo body s = Ok s.
Proof.
  induction n as [|n IH]; intros lo s Hstep; cbn [for_loop]; [reflexivity|].
  rewrite Hstep by lia. apply IH. intros i Hi. apply Hstep. lia.
Qed.

Lemma for_range_unchanged {St : Type} (body : Z -> St -> Result St) (lo hi : Z) (s : St) :
  (forall i, lo <= i < hi -> body i s = Ok s) -> for_range lo hi body s = Ok s.
Proof.
  intros Hstep. unfold for_range. apply for_loop_unchanged.
  intros i Hi. apply Hstep. lia.
Qed.

Section LowWorlds.

Variable createNoise3D : string -> Q -> Q -> Q -> Q.
Variables random random' : nat -> Q.
Variables sx sy sz : Z.
Hypothesis Hlow : sz <= 14.

(** Under a ceiling of 14 no tree fits above the water level. *)
Lemma addTree_low rnd g x y z :
  z > Math.floor (inject_Z sz * (1 # 2)) ->
  World.addTree rnd sx sy sz g x y z = Ok g.
Proof.
  intros Hz. unfold World.addTree. destruct g as [blocks n].
  assert (World.inBounds sx sy sz (x + 2) (y + 2) (z + 6) = false) as ->; [|reflexivity].
  unfold World.inBounds. rewrite !andb_false_iff. right. apply Z.ltb_ge.
  assert (sz / 2 <= Math.floor (inject_Z sz * (1 # 2))) as Hhalf.
  { unfold Math.floor, Qfloor, Qmult, inject_Z. cbn. rewrite Z.mul_1_r. reflexivity. }
  pose proof (Z.div_mod sz 2 ltac:(lia)). pose proof (Z.mod_pos_bound sz 2 ltac:(lia)). lia.
Qed.

(** And there is no layer for caves. *)
Lemma generateCaves_low rnd g : World.generateCaves rnd g sx sy sz = Ok g.
Proof.
  unfold World.generateCaves.
  apply for_range_unchanged. intros x _.
  apply for_range_unchanged. intros y _.
  apply for_range_empty. lia.
Qed.

Lemma generateTerrain_try_low n n' :
  sameGrid (World.generateTerrain_try createNoise3D random sx sy sz n)
           (World.generateTerrain_try createNoise3D random' sx sy sz n').
Proof.
  unfold World.generateTerrain_try.
  destruct (for_range 0 sx _ (World.emptyGrid sx sy sz)) as [blocks0|e];
    cbn [mbind Result_bind]; [|exact I].
  match goal with
  | |- sameGrid (?m ≫= ?f) (?m' ≫= ?f') =>
      assert (sameGrid m m') as Hterrain;
      [|destruct m as [[blocks1 n1]|e1], m' as [[blocks1' n1']|e1']; cbn in Hterrain;
        try contradiction; [|exact I]]
  end.
  - apply for_range_sameGrid; [reflexivity|]. intros x g g' _ Hg.
    apply for_range_sameGrid; [exact Hg|]. intros y [blocks m] [blocks' m'] _ Hblocks.
    cbn in Hblocks. subst blocks'.
    destruct (for_range 0 sz _ blocks) as [blocks1|e]; cbn [mbind Result_bind]; [|exact I].
    destruct (World.finalHeight (createNoise3D "minecraft") sz x y
              >? Math.floor (inject_Z sz * (1 # 2))) eqn:Hheight; [|reflexivity].
    apply Z.gtb_lt in Hheight.
    rewrite !addTree_low by lia.
    destruct (Qltb (random m) _), (Qltb (random' m') _); reflexivity.
  - subst blocks1'. cbn [mbind Result_bind]. rewrite !generateCaves_low.
    cbn [mbind Result_bind].
    destruct (World.carvePlatform blocks1 _ _ _) as [blocks2|e];
      cbn [mbind Result_bind]; [|exact I].
    destruct (for_range 0 sx _ blocks2) as [blocks3|e]; cbn [mbind Result_bind]; [|exact I].
    destruct (js_get blocks3 _ ≫= _) as [column|]; [|exact I].
    destruct (World.findIndexAir column); cbn [mbind Result_bind]; [reflexivity|exact I].
Qed.

Lemma constructor_low n n' :
  fst <$> World.constructor createNoise3D random sx sy sz n
  = fst <$> World.constructor createNoise3D random' sx sy sz n'.
Proof.
  unfold World.constructor.
  destruct ((sx <=? 0) || (sy <=? 0) || (sz <=? 0)); [reflexivity|].
  unfold World.generateTerrain.
  pose proof (generateTerrain_try_low n n') as Htry.
  destruct (World.generateTerrain_try createNoise3D random sx sy sz n) as [[blocks m]|e],
           (World.generateTerrain_try createNoise3D random' sx sy sz n') as [[blocks' m']|e'];
    cbn in Htry; try contradiction.
  - subst blocks'. cbn [mbind Result_bind].
    destruct (World.findSpawnPoint sx sy sz blocks) as [[blocks1 spawn]|e];
      cbn [mbind Result_bind]; [|reflexivity].
    destruct (World.updateLighting _); reflexivity.
  - destruct (World.createFlatWorld sx sy sz _) as [[blocks spawn]|e0];
      cbn [mbind Result_bind]; [|reflexivity].
    destruct (World.findSpawnPoint sx sy sz blocks) as [[blocks1 spawn1]|e1];
      cbn [mbind Result_bind]; [|reflexivity].
    destruct (World.updateLighting _); reflexivity.
Qed.

End LowWorlds.

Lemma for_loop_ext {St : Type} (body body' : Z -> St -> Result St) :
  forall (n : nat) (lo : Z) (s : St),
    (forall i t, body i t = body' i t) ->
    for_loop n lo body s = for_loop n lo body' s.
Proof.
  induction n as [|n IH]; intros lo s Hext; cbn [for_loop]; [reflexivity|].
  rewrite Hext. destruct (body' lo s); [apply IH, Hext|reflexivity].
Qed.

Lemma for_range_ext {St : Type} (body body' : Z -> St -> Result St) (lo hi : Z) (s : St) :
  (forall i t, body i t = body' i t) ->
  for_range lo hi body s = for_range lo hi body' s.
Proof. apply for_loop_ext. Qed.

Section SameDraws.

Variable createNoise3D : string -> Q -> Q -> Q -> Q.
Variables random random' : nat -> Q.
Hypothesis Hsame : forall k, (random k == random' k)%Q.

(** The generator looks at a draw only through comparisons and [Math.floor],
    which do not tell equal numbers apart. *)
Lemma draw_below k bound : Qltb (random k) bound = Qltb (random' k) bound.
Proof.
  unfold Qltb. f_equal.
  destruct (Qle_bool bound (random' k)) eqn:Hle.
  - apply Qle_bool_iff. rewrite Hsame. apply Qle_bool_iff, Hle.
  - apply not_true_iff_false. rewrite Qle_bool_iff, Hsame, <- Qle_bool_iff. congruence.
Qed.

Lemma addTree_same sx sy sz g x y z :
  World.addTree random sx sy sz g x y z = World.addTree random' sx sy sz g x y z.
Proof.
  unfold World.addTree. destruct g as [blocks n].
  assert (Math.floor (random n * 3) = Math.floor (random' n * 3)) as ->; [|reflexivity].
  unfold Math.floor. apply Qfloor_comp. rewrite Hsame. reflexivity.
Qed.

Lemma createCavity_same sx sy sz g x y z :
  World.createCavity random sx sy sz g x y z = World.createCavity random' sx sy sz g x y z.
Proof.
  unfold World.createCavity.
  apply for_range_ext. intros dx g1.
  apply for_range_ext. intros dy g2.
  apply for_range_ext. intros dz [blocks n].
  rewrite draw_below. reflexivity.
Qed.

Lemma generateCaves_same g sx sy sz :
  World.generateCaves random g sx sy sz = World.generateCaves random' g sx sy sz.
Proof.
  unfold World.generateCaves.
  apply for_range_ext. intros x g1.
  apply for_range_ext. intros y g2.
  apply for_range_ext. intros z [blocks n].
  destruct (World.idAt blocks x y z) as [i|e]; cbn [mbind Result_bind]; [|reflexivity].
  destruct (bool_decide _ || bool_decide _); [reflexivity|].
  destruct (World.nan_gt _ _); [|reflexivity].
  destruct (World.write3 blocks x y z _) as [blocks1|e]; cbn [mbind Result_bind];
    [|reflexivity].
  rewrite createCavity_same. reflexivity.
Qed.

Lemma generateTerrain_try_same sx sy sz n :
  World.generateTerrain_try createNoise3D random sx sy sz n
  = World.generateTerrain_try createNoise3D random' sx sy sz n.
Proof.
  unfold World.generateTerrain_try.
  destruct (for_range 0 sx _ (World.emptyGrid sx sy sz)) as [blocks0|e];
    cbn [mbind Result_bind]; [|reflexivity].
  match goal with
  | |- ?m ≫= ?f = ?m' ≫= ?f' => assert (m = m') as ->
  end.
  { apply for_range_ext. intros x g.
    apply for_range_ext. intros y [blocks m].
    destruct (for_range 0 sz _ blocks) as [blocks1|e]; cbn [mbind Result_bind]; [|reflexivity].
    rewrite draw_below, addTree_same. reflexivity. }
  match goal with
  | |- ?m ≫= _ = _ => destruct m as [g|e]; cbn [mbind Result_bind]; [|reflexivity]
  end.
  rewrite generateCaves_same. reflexivity.
Qed.

Lemma generateWorld_same sx sy sz n :
  World.generateWorld createNoise3D random sx sy sz n
  = World.generateWorld createNoise3D random' sx sy sz n.
Proof.
  unfold World.generateWorld, World.constructor, World.generateTerrain.
  rewrite generateTerrain_try_same. reflexivity.
Qed.

End SameDraws.

Lemma generateWorld_low createNoise3D random random' (sx sy sz : Z) n n' :
  sz <= 14 ->
  fst <$> World.generateWorld createNoise3D random (inject_Z sx) (inject_Z sy) (inject_Z sz) n
  = fst <$> World.generateWorld createNoise3D random' (inject_Z sx) (inject_Z sy)
              (inject_Z sz) n'.
Proof.
  intros Hlow. unfold World.generateWorld.
  destruct (negb _ || negb _ || negb _); [reflexivity|].
  destruct (Qle_bool _ _ || Qle_bool _ _ || Qle_bool _ _); [reflexivity|].
  destruct (Qltb _ _ || Qltb _ _ || Qltb _ _); [reflexivity|].
  rewrite !Qfloor_Z.
  pose proof (constructor_low createNoise3D random random' sx sy sz Hlow n n') as Hsame.
  destruct (World.constructor createNoise3D random sx sy sz n) as [[w m]|e],
           (World.constructor createNoise3D random' sx sy sz n') as [[w' m']|e'];
    cbn in Hsame |- *; congruence.
Qed.

(** C1.  Two runs of world generation with the same seed (the noise function)
    and the same dimensions serialize to the same string when [Math.random()]
    returns the same sequence of values in both, and also, whatever it
    returns, when the height is at most 14: then no tree fits under the
    ceiling and there is no layer in which caves are carved, the two places
    where terrain generation draws random numbers. *)
Theorem serializedWorld_deterministic createNoise3D random random' (sx sy sz : Z) :
  (forall k, (random k == random' k)%Q) \/ sz <= 14 ->
  serializedWorld createNoise3D random sx sy sz
  = serializedWorld createNoise3D random' sx sy sz.
Proof.
  intros [Hsame|Hlow].
  - unfold serializedWorld.
    rewrite (generateWorld_same createNoise3D random random' Hsame). reflexivity.
  - unfold serializedWorld.
    pose proof (generateWorld_low createNoise3D random random' sx sy sz 0 0 Hlow) as Hworld.
    destruct (World.generateWorld createNoise3D random _ _ _ 0) as [[w m]|e],
             (World.generateWorld createNoise3D random' _ _ _ 0) as [[w' m']|e'];
      cbn in Hworld |- *; congruence.
Qed.

Lemma serializedWorld_deterministic_witness :
  serializedWorld flatNoise (constantRandom 0) 5 5 14
  = serializedWorld flatNoise (constantRandom (9 # 10)) 5 5 14.
Proof.
  apply serializedWorld_deterministic. right. lia.
Defined.

(** A world of 5 x 5 x 16 on level ground: when [Math.random()] returns 0
    throughout, a tree is planted in the middle column; when it returns 0.9
    throughout, none is.  The two strings differ. *)
Lemma random_draws_change_world :
  serializedWorld flatNoise (constantRandom 0) 5 5 16
  <> serializedWorld flatNoise (constantRandom (9 # 10)) 5 5 16.
Proof. vm_compute. discriminate. Qed.

(** The same holds of [addTree] alone, whatever the noise: on one grid and at
    one place, the trunk is 5 blocks high when [Math.random()] returns 0 and
    7 when it returns 0.9. *)
Lemma addTree_height_is_random :
  let grid := World.emptyGrid 5 5 16 in
  World.addTree (constantRandom 0) 5 5 16 (grid, 0%nat) 2 2 9
  <> World.addTree (constantRandom (9 # 10)) 5 5 16 (grid, 0%nat) 2 2 9.
Proof. vm_compute. discriminate. Qed.

(** * Further properties of the code *)

(** ** Block validation and lookup *)

Lemma clamp_bounds (c : Q) : (0 <= Qmax 0 (Qmin 1 c) <= 1)%Q.
Proof.
  split.
  - apply Q.le_max_l.
  - apply Q.max_lub; [discriminate|apply Q.le_min_l].
Qed.

(** [Math.max(0, Math.min(1, coord))]: a number is clamped, [NaN] passes. *)
Lemma clamp_cases (c : option Q) :
  clampedFrom c (Math.max (Some 0%Q) (Math.min (Some 1%Q) c)).
Proof. destruct c as [v|]; reflexivity. Qed.

Lemma clampedFrom_bounds (c c' : option Q) : clampedFrom c c' -> unitOrNaN c'.
Proof.
  destruct c as [v|]; cbn; intros ->; cbn; [apply clamp_bounds|exact I].
Qed.

Lemma validateTextureCoords_cases (coords : list (option Q)) :
  (length coords = 4%nat
   /\ Forall2 clampedFrom coords (BLOCK.validateTextureCoords coords))
  \/ (length coords <> 4%nat
      /\ BLOCK.validateTextureCoords coords = BLOCK.numbers [0; 0; 1; 1]%Q).
Proof.
  unfold BLOCK.validateTextureCoords.
  destruct (Nat.eqb_spec (length coords) 4) as [Hlen|Hlen]; [left|right; auto].
  split; [exact Hlen|]. clear Hlen.
  induction coords as [|c rest IH]; cbn [map]; constructor; [apply clamp_cases|exact IH].
Qed.

Lemma default_coords_bounds : Forall unitOrNaN (BLOCK.numbers [0; 0; 1; 1]%Q).
Proof. repeat constructor; discriminate. Qed.

(** X1. Every texture lookup of a block that went through
    [BLOCK.validateBlockType] answers four coordinates, each a number between
    0 and 1 or [NaN].  They are (0, 0, 1, 1) when the block has no texture or
    its own answer does not have four entries; otherwise they are the entries
    of the block's own answer, a number clamped to 0 .. 1 and [NaN] left as
    it is: the clamp [Math.max(0, Math.min(1, coord))] does not remove a
    [NaN]. *)
Theorem validateBlockType_texture (block : option BLOCK.Block) (lit : bool)
    (dir : BLOCK.DIRECTION) :
  exists coords,
    textureOf (BLOCK.validateBlockType block) lit dir = Some coords
    /\ length coords = 4%nat
    /\ Forall unitOrNaN coords
    /\ match block ≫= BLOCK.texture with
       | Some own =>
           (length (own lit dir) = 4%nat /\ Forall2 clampedFrom (own lit dir) coords)
           \/ (length (own lit dir) <> 4%nat /\ coords = BLOCK.numbers [0; 0; 1; 1]%Q)
       | None => coords = BLOCK.numbers [0; 0; 1; 1]%Q
       end.
Proof.
  destruct block as [block|].
  - unfold textureOf. cbn [BLOCK.validateBlockType BLOCK.texture fmap option_fmap option_map].
    eexists. split; [reflexivity|].
    cbn [mbind option_bind].
    destruct (BLOCK.texture block) as [own|].
    + destruct (validateTextureCoords_cases (own lit dir)) as [[Hlen Hall]|[Hlen ->]].
      * split; [rewrite <- Hlen; symmetry; exact (Forall2_length _ _ _ Hall)|].
        split; [|left; split; assumption].
        apply Forall_forall. intros c' Hc'.
        apply list_elem_of_lookup in Hc' as [i Hi].
        destruct (Forall2_lookup_r _ _ _ _ _ Hall Hi) as (c & _ & Hc).
        exact (clampedFrom_bounds _ _ Hc).
      * split; [reflexivity|]. split; [apply default_coords_bounds|]. right. auto.
    + split; [reflexivity|]. split; [apply default_coords_bounds|reflexivity].
  - exists (BLOCK.numbers [0; 0; 1; 1]%Q). split; [reflexivity|]. split; [reflexivity|].
    split; [apply default_coords_bounds|reflexivity].
Qed.

(** The three answers of [validateBlock] for an object. *)
Lemma validateBlock_cases (block : BLOCK.Block) :
  ((BLOCK.id block = None \/ BLOCK.id block = Some 0)
   /\ World.validateBlock (BLOCK.Object block) = BLOCK.AIR)
  \/ exists n,
       BLOCK.id block = Some n /\ n <> 0
       /\ ((World.validateBlock (BLOCK.Object block) = World.seeThrough block
            /\ (BLOCK.rentgenView block = true \/ BLOCK.xray block = true))
           \/ (World.validateBlock (BLOCK.Object block)
               = BLOCK.validateBlockType (Some block)
               /\ BLOCK.rentgenView block = false /\ BLOCK.xray block = false)).
Proof.
  unfold World.validateBlock.
  destruct (BLOCK.id block) as [n|]; [|left; auto].
  destruct (Z.eqb_spec n 0) as [->|Hn]; [left; auto|].
  right. exists n. split; [reflexivity|]. split; [exact Hn|].
  destruct (BLOCK.rentgenView block); [left; auto|].
  destruct (BLOCK.xray block); [left; auto|right; auto].
Qed.

Lemma validateBlock_numeric (value : BLOCK.Value) :
  BLOCK.id (World.validateBlock value)
  = Some match value with
         | BLOCK.Object block => default 0 (BLOCK.id block)
         | _ => 0
         end.
Proof.
  destruct value as [|p|block]; try reflexivity.
  destruct (BLOCK.id block) as [n|] eqn:Hid.
  - apply validateBlock_id, Hid.
  - unfold World.validateBlock. rewrite Hid. reflexivity.
Qed.

(** What [validateBlock] answers is a block with a numeric identifier that
    validation leaves as it is. *)
Lemma validateBlock_stable (value : BLOCK.Value) :
  BLOCK.id (World.validateBlock value)
  = Some match value with
         | BLOCK.Object block => default 0 (BLOCK.id block)
         | _ => 0
         end
  /\ equivalent (World.validateBlock (BLOCK.Object (World.validateBlock value)))
                (World.validateBlock value).
Proof.
  assert (equivalent (World.validateBlock (BLOCK.Object BLOCK.AIR)) BLOCK.AIR) as Hair
    by (repeat split).
  destruct value as [|p|block]; try (split; [reflexivity|exact Hair]).
  destruct (validateBlock_cases block) as [[Hid ->]|(n & Hid & Hn & [[-> Hsee]|(-> & Hr & Hx)])].
  - split; [|exact Hair]. destruct Hid as [->| ->]; reflexivity.
  - rewrite Hid. split; [exact Hid|].
    unfold World.validateBlock. cbn [World.seeThrough BLOCK.id BLOCK.rentgenView BLOCK.xray].
    rewrite Hid, (proj2 (Z.eqb_neq _ _) Hn).
    destruct (BLOCK.rentgenView block); [repeat split|].
    destruct Hsee as [Hsee|Hsee]; [discriminate|]. rewrite Hsee. repeat split.
  - rewrite Hid. split; [cbn [BLOCK.validateBlockType BLOCK.id]; rewrite Hid; reflexivity|].
    unfold World.validateBlock.
    change (BLOCK.id (BLOCK.validateBlockType (Some block)))
      with (BLOCK.spread (Some 0) (BLOCK.id block)).
    change (BLOCK.rentgenView (BLOCK.validateBlockType (Some block)))
      with (BLOCK.rentgenView block).
    change (BLOCK.xray (BLOCK.validateBlockType (Some block))) with (BLOCK.xray block).
    rewrite Hid. cbn [BLOCK.spread]. rewrite (proj2 (Z.eqb_neq _ _) Hn), Hr, Hx.
    unfold equivalent, textureOf.
    cbn [BLOCK.validateBlockType BLOCK.id BLOCK.spawnable BLOCK.transparent BLOCK.selflit
         BLOCK.gravity BLOCK.fluid BLOCK.texture fmap option_fmap option_map].
    repeat split;
      try (match goal with |- BLOCK.spread _ (BLOCK.spread _ ?o) = _ =>
             destruct o; reflexivity end).
    intros lit dir. f_equal. apply validateTextureCoords_idempotent.
Qed.

Lemma validateBlock_valid (value : BLOCK.Value) : valid (World.validateBlock value).
Proof.
  destruct (validateBlock_stable value) as [Hid Hstable]. split; [eauto|exact Hstable].
Qed.

(** X2. [validateBlock] always answers a block with a numeric identifier: AIR for
    [null], for a primitive and for an object without a numeric [id], the
    identifier of the object otherwise.  Validating its answer again changes
    nothing that [equivalent] observes. *)
Theorem validateBlock_idempotent (value : BLOCK.Value) :
  BLOCK.id (World.validateBlock value)
  = Some match value with
         | BLOCK.Object block => default 0 (BLOCK.id block)
         | _ => 0
         end
  /\ equivalent (World.validateBlock (BLOCK.Object (World.validateBlock value)))
                (World.validateBlock value).
Proof. apply validateBlock_stable. Qed.

(** X3. [BLOCK.fromId] answers a block that carries the identifier asked for when
    it is one of the registry, 0 to 21, and a block with identifier 0 for
    every other argument, [undefined] and [NaN] included; for the identifier
    of a block of the registry it answers that block, validated. *)
Theorem fromId_id (id' : option Z) :
  BLOCK.id (BLOCK.fromId id')
  = Some match id' with
         | Some n => if (0 <=? n) && (n <=? 21) then n else 0
         | None => 0
         end
  /\ Forall (fun block => BLOCK.fromId (BLOCK.id block)
                          = BLOCK.validateBlockType (Some block)) BLOCK.registry.
Proof.
  split; [|repeat constructor].
  destruct id' as [n|]; [|reflexivity].
  destruct (Z.leb_spec 0 n) as [Hlo|Hlo]; cbn [andb].
  - destruct (Z.leb_spec n 21) as [Hhi|Hhi].
    + assert (Forall (fun n => BLOCK.id (BLOCK.fromId (Some n)) = Some n) (seqZ 0 22))
        as Hall by compute_done.
      rewrite Forall_forall in Hall. apply Hall, elem_of_seqZ. lia.
    + unfold BLOCK.fromId. rewrite (proj2 (Z.ltb_ge _ _)) by lia.
      rewrite find_absent; [reflexivity|].
      eapply Forall_impl; [exact registry_ids|].
      intros block (k & Hk & Hrange). cbn beta. rewrite Hk.
      apply bool_decide_eq_false_2. intros [= ->]. lia.
  - unfold BLOCK.fromId. rewrite (proj2 (Z.ltb_lt _ _)) by lia. reflexivity.
Qed.

(** ** Reading a block *)

(** X4. On a grid with the extents of the world [getBlock] never throws.  It
    answers [null] exactly for a position outside the world; inside, it
    answers a block with a numeric identifier, AIR when the slot is empty. *)
Theorem getBlock_answers w x y z :
  wellFormed w ->
  exists answer,
    World.getBlock w x y z = Ok answer
    /\ (answer = None <-> World.isInBounds w x y z = false)
    /\ (forall block, answer = Some block ->
          exists n, BLOCK.id block = Some n
                    /\ (World.read3_opt (World.blocks w) x y z = None -> block = BLOCK.AIR)).
Proof.
  intros Hwf. destruct (World.isInBounds w x y z) eqn:Hin.
  - rewrite (getBlock_in_bounds w x y z Hwf Hin). eexists. split; [reflexivity|].
    split; [split; discriminate|].
    intros block [= <-].
    eexists. split; [apply validateBlock_numeric|]. intros ->. reflexivity.
  - rewrite (getBlock_out_of_bounds w x y z Hin). exists None. split; [reflexivity|].
    split; [split; reflexivity|]. discriminate.
Qed.

Lemma getBlock_answers_witness :
  wellFormed (airWorld 5 5 4)
  /\ exists answer,
       World.getBlock (airWorld 5 5 4) 2 2 7 = Ok answer
       /\ (answer = None <-> World.isInBounds (airWorld 5 5 4) 2 2 7 = false)
       /\ (forall block, answer = Some block ->
             exists n, BLOCK.id block = Some n
                       /\ (World.read3_opt (World.blocks (airWorld 5 5 4)) 2 2 7 = None ->
                           block = BLOCK.AIR)).
Proof.
  assert (wellFormed (airWorld 5 5 4)) as Hwf by compute_done.
  split; [exact Hwf|]. exact (getBlock_answers (airWorld 5 5 4) 2 2 7 Hwf).
Defined.

(** ** Building chunks *)

Lemma upload_builtFrom gl0 chunk vertexData gl1 chunk' uploaded :
  Renderer.dirty chunk = true ->
  Renderer.upload gl0 chunk vertexData = (gl1, chunk', uploaded) ->
  builtFrom chunk chunk' /\ Renderer.dirty chunk' = false.
Proof.
  intros Hdirty. unfold Renderer.upload. destruct (0 <? length vertexData)%nat.
  - intros [= <- <- <-]. split; [right|]; cbn; auto.
  - intros [= <- <- <-]. split; [right|]; cbn; auto.
Qed.

Lemma dirtyCount_cons chunk chunks :
  dirtyCount (chunk :: chunks)
  = ((if Renderer.dirty chunk then 1 else 0) + dirtyCount chunks)%nat.
Proof.
  unfold dirtyCount. destruct (Renderer.dirty chunk) eqn:Hd.
  - rewrite filter_cons_True by exact Hd. reflexivity.
  - rewrite filter_cons_False by congruence. reflexivity.
Qed.

Lemma Forall2_builtFrom_refl chunks : Forall2 builtFrom chunks chunks.
Proof. induction chunks; constructor; [left; reflexivity|assumption]. Qed.

Lemma buildChunksFrom_spec world chunks : forall gl0 count,
  Forall2 builtFrom chunks (Renderer.buildChunksFrom world gl0 count chunks).2
  /\ (1 <= count ->
      (dirtyCount chunks
       <= dirtyCount (Renderer.buildChunksFrom world gl0 count chunks).2
          + Z.to_nat count)%nat)
  /\ (count <= 0 ->
      Forall (fun chunk => Renderer.dirty chunk = true ->
                           is_Ok (Renderer.chunkVerticesStrict world chunk)) chunks ->
      Forall (fun chunk => Renderer.dirty chunk = false)
             (Renderer.buildChunksFrom world gl0 count chunks).2).
Proof.
  induction chunks as [|chunk rest IH]; intros gl0 count; cbn [Renderer.buildChunksFrom].
  - cbn. repeat split; [constructor|lia|constructor].
  - destruct (Renderer.dirty chunk) eqn:Hdirty; cbn [negb].
    + destruct (Renderer.chunkVerticesStrict world chunk) as [vertexData|e] eqn:Hvertices.
      * destruct (Renderer.upload gl0 chunk vertexData) as [[gl1 chunk'] uploaded] eqn:Hup.
        destruct (upload_builtFrom _ _ _ _ _ _ Hdirty Hup) as [Hbuilt Hclean].
        destruct (Z.eqb_spec (count - 1) 0) as [Hlast|Hmore].
        -- cbn [snd]. split; [constructor; [exact Hbuilt|apply Forall2_builtFrom_refl]|].
           split.
           ++ intros _. rewrite !dirtyCount_cons, Hdirty, Hclean. lia.
           ++ intros Hcount. lia.
        -- specialize (IH gl1 (count - 1)).
           destruct (Renderer.buildChunksFrom world gl1 (count - 1) rest) as [gl2 rest'].
           cbn [snd] in *. destruct IH as (Hall & Hbound & Hevery).
           split; [constructor; assumption|]. split.
           ++ intros Hcount. rewrite !dirtyCount_cons, Hdirty, Hclean.
              specialize (Hbound ltac:(lia)). lia.
           ++ intros Hcount Hok. constructor; [exact Hclean|].
              apply Hevery; [lia|]. inversion Hok; assumption.
      * cbn [snd]. split; [apply Forall2_builtFrom_refl|]. split; [lia|].
        intros _ Hok. inversion Hok as [|? ? Hhead _]. specialize (Hhead Hdirty).
        rewrite Hvertices in Hhead. contradiction.
    + specialize (IH gl0 count).
      destruct (Renderer.buildChunksFrom world gl0 count rest) as [gl1 rest'].
      cbn [snd] in *. destruct IH as (Hall & Hbound & Hevery).
      split; [constructor; [left; reflexivity|assumption]|]. split.
      * intros Hcount. rewrite !dirtyCount_cons, Hdirty. specialize (Hbound Hcount). lia.
      * intros Hcount Hok. constructor; [exact Hdirty|].
        apply Hevery; [exact Hcount|]. inversion Hok; assumption.
Qed.

(** X5. [buildChunks(count)] leaves each chunk of the list as it is or clears its
    dirty flag, and does not touch the chunk map.  For [count >= 1] it cleans
    at most [count] chunks.  For [count <= 0] the counter never reaches 0:
    every dirty chunk is built, as long as no build throws. *)
Theorem buildChunks_bound r world count :
  let r' := Renderer.buildChunks r world count in
  Forall2 builtFrom (Renderer.chunks r) (Renderer.chunks r')
  /\ Renderer.chunkMap r' = Renderer.chunkMap r
  /\ Renderer.eventQueue r' = Renderer.eventQueue r
  /\ (1 <= count ->
      (dirtyCount (Renderer.chunks r)
       <= dirtyCount (Renderer.chunks r') + Z.to_nat count)%nat)
  /\ (count <= 0 ->
      Forall (fun chunk => Renderer.dirty chunk = true ->
                           is_Ok (Renderer.chunkVerticesStrict world chunk))
             (Renderer.chunks r) ->
      Forall (fun chunk => Renderer.dirty chunk = false) (Renderer.chunks r')).
Proof.
  cbv zeta. unfold Renderer.buildChunks.
  pose proof (buildChunksFrom_spec world (Renderer.chunks r) (Renderer.gl r) count) as Hspec.
  destruct (Renderer.buildChunksFrom world (Renderer.gl r) count (Renderer.chunks r))
    as [gl' chunks'].
  cbn [snd] in Hspec. destruct Hspec as (Hall & Hbound & Hevery).
  cbn. auto.
Qed.

Lemma buildChunksFrom_clean world chunks : forall gl0 count,
  Forall (fun chunk => Renderer.dirty chunk = false) chunks ->
  Renderer.buildChunksFrom world gl0 count chunks = (gl0, chunks).
Proof.
  induction chunks as [|chunk rest IH]; intros gl0 count Hclean; [reflexivity|].
  inversion Hclean as [|? ? Hhead Hrest]. cbn [Renderer.buildChunksFrom].
  rewrite Hhead. cbn [negb]. rewrite IH by exact Hrest. reflexivity.
Qed.

Lemma processEventsLoop_clean world : forall fuel r,
  Forall (fun chunk => Renderer.dirty chunk = false) (Renderer.chunks r) ->
  (length (Renderer.eventQueue r) <= fuel)%nat ->
  Renderer.processEventsLoop fuel r world = Renderer.set_eventQueue r [].
Proof.
  induction fuel as [|fuel IH]; intros r Hclean Hfuel; cbn [Renderer.processEventsLoop].
  - destruct r as [? ? ? ? ? ? ? ? ? ? ? ? queue]. cbn in Hfuel.
    destruct queue; [reflexivity|cbn in Hfuel; lia].
  - destruct (Renderer.eventQueue r) as [|[x y z] rest] eqn:Hqueue.
    + destruct r. cbn in Hqueue. subst. reflexivity.
    + unfold Renderer.buildChunks.
      cbn [Renderer.gl Renderer.chunks Renderer.set_eventQueue].
      rewrite buildChunksFrom_clean by exact Hclean.
      rewrite IH.
      * destruct r. reflexivity.
      * destruct r. exact Hclean.
      * destruct r. cbn in Hfuel, Hqueue |- *. subst. cbn in Hfuel. lia.
Qed.

(** X6. When no chunk of the chunk list is dirty, [processEvents] only empties
    the event queue: no chunk is rebuilt, whatever blocks the events report
    as changed.  That is so after [setWorld], which leaves the list empty. *)
Theorem processEvents_clean r world chunkSize :
  Forall (fun chunk => Renderer.dirty chunk = false) (Renderer.chunks r) ->
  Renderer.processEvents r world = Renderer.set_eventQueue r []
  /\ Renderer.chunks (Renderer.setWorld r chunkSize) = [].
Proof.
  intros Hclean. split; [|reflexivity].
  apply processEventsLoop_clean; [exact Hclean|reflexivity].
Qed.

Lemma processEvents_clean_witness :
  let r := Renderer.onBlockChanged 2 2 1 rendererWithChunk in
  Renderer.processEvents r (airWorld 5 5 4) = Renderer.set_eventQueue r []
  /\ Renderer.chunks (Renderer.setWorld r 16) = [].
Proof.
  apply processEvents_clean. constructor.
Defined.

Lemma chunkVertices_air world chunk :
  airRegion world chunk -> Renderer.chunkVertices world chunk = Ok [].
Proof.
  unfold airRegion, Renderer.chunkVertices.
  destruct (Renderer.start chunk) as [[x0 y0] z0], (Renderer.end_ chunk) as [[x1 y1] z1].
  intros Hair.
  apply for_range_unchanged. intros x Hx.
  apply for_range_unchanged. intros y Hy.
  apply for_range_unchanged. intros z Hz.
  unfold idOf in Hair. rewrite (Hair x y z Hx Hy Hz).
  rewrite bool_decide_eq_true_2 by reflexivity. reflexivity.
Qed.

(** X7. Building a chunk whose region holds nothing but AIR only clears its dirty
    flag: no buffer is created, and the buffer that the chunk had, with the
    mesh of the blocks that were there before, is neither deleted nor
    replaced. *)
Theorem buildChunk_air_region r world chunk :
  airRegion world chunk ->
  Renderer.buildChunk r world chunk
  = Ok (r, {| Renderer.start := Renderer.start chunk; Renderer.end_ := Renderer.end_ chunk;
              Renderer.dirty := false; Renderer.buffer := Renderer.buffer chunk |}).
Proof.
  intros Hair. unfold Renderer.buildChunk. rewrite (chunkVertices_air world chunk Hair).
  cbn. destruct r. reflexivity.
Qed.

Lemma emptyGrid_air sx sy sz x y z :
  0 <= x < sx -> 0 <= y < sy -> 0 <= z < sz ->
  idOf (World.emptyGrid sx sy sz) x y z = BLOCK.id BLOCK.AIR.
Proof.
  intros Hx Hy Hz. unfold idOf, World.read3_opt, World.emptyGrid, js_get.
  rewrite !(proj2 (Z.ltb_ge _ _)) by lia.
  rewrite !lookup_replicate_2 by lia. reflexivity.
Qed.

Lemma buildChunk_air_region_witness :
  let chunk := Renderer.mkChunk (0, 0, 0) (5, 5, 4) true (Some (GL.mkBuffer 0 36 [])) in
  Renderer.buildChunk rendererWithChunk (airWorld 5 5 4) chunk
  = Ok (rendererWithChunk,
        Renderer.mkChunk (0, 0, 0) (5, 5, 4) false (Some (GL.mkBuffer 0 36 []))).
Proof.
  apply (buildChunk_air_region rendererWithChunk (airWorld 5 5 4)
           (Renderer.mkChunk (0, 0, 0) (5, 5, 4) true (Some (GL.mkBuffer 0 36 [])))).
  intros x y z Hx Hy Hz. apply emptyGrid_air; assumption.
Defined.

(** ** Building the chunks nearest to the player *)

#[local] Instance nearerFirst_transitive : Transitive nearerFirst.
Proof.
  intros [i a] [j b] [k c]. unfold nearerFirst. cbn.
  intros [Hab|[Hab Hij]] [Hbc|[Hbc Hjk]].
  - left. lra.
  - left. lra.
  - left. lra.
  - right. split; [lra|lia].
Qed.

Lemma insertByDistance_Permutation e sorted :
  Renderer.insertByDistance e sorted ≡ₚ e :: sorted.
Proof.
  induction sorted as [|e' rest IH]; cbn [Renderer.insertByDistance]; [reflexivity|].
  destruct (Qle_bool e.2 e'.2); [reflexivity|].
  rewrite IH. apply Permutation_swap.
Qed.

Lemma sortByDistance_Permutation entries : Renderer.sortByDistance entries ≡ₚ entries.
Proof.
  induction entries as [|e rest IH]; [reflexivity|].
  cbn. rewrite insertByDistance_Permutation. f_equiv. exact IH.
Qed.

Lemma insertByDistance_Sorted e sorted :
  Forall (fun e' => (e.1 <= e'.1)%nat) sorted ->
  Sorted nearerFirst sorted -> Sorted nearerFirst (Renderer.insertByDistance e sorted).
Proof.
  intros Hlow Hsorted. induction Hsorted as [|e' rest Hsorted IH Hhd];
    cbn [Renderer.insertByDistance].
  - repeat constructor.
  - apply Forall_cons in Hlow as [Hlow' Hlow].
    destruct (Qle_bool e.2 e'.2) eqn:Hle.
    + apply Qle_bool_iff in Hle. constructor; [constructor; assumption|].
      constructor. unfold nearerFirst.
      destruct (Qlt_le_dec e.2 e'.2) as [Hlt|Hge]; [left; exact Hlt|].
      right. split; [lra|exact Hlow'].
    + assert (Hlt : (e'.2 < e.2)%Q).
      { apply Qnot_le_lt. intros Hq. apply Qle_bool_iff in Hq. congruence. }
      constructor; [apply IH; exact Hlow|].
      destruct rest as [|e'' rest']; cbn [Renderer.insertByDistance].
      * constructor. left. exact Hlt.
      * destruct (Qle_bool e.2 e''.2).
        -- constructor. left. exact Hlt.
        -- constructor. inversion Hhd; assumption.
Qed.

Lemma dirtyFrom_elem playerPos chunks : forall i k d,
  (k, d) ∈ Renderer.dirtyFrom playerPos i chunks <->
  exists chunk, (i <= k)%nat /\ chunks !! (k - i)%nat = Some chunk
                /\ Renderer.dirty chunk = true
                /\ d = Renderer.centreDistance playerPos chunk.
Proof.
  induction chunks as [|chunk rest IH]; intros i k d; cbn [Renderer.dirtyFrom].
  - split; [intros Hin; inversion Hin|intros (? & _ & Hnone & _); discriminate].
  - assert (Hrest : (k, d) ∈ Renderer.dirtyFrom playerPos (S i) rest <->
                    exists chunk', (i < k)%nat /\ (chunk :: rest) !! (k - i)%nat = Some chunk'
                                   /\ Renderer.dirty chunk' = true
                                   /\ d = Renderer.centreDistance playerPos chunk').
    { rewrite IH. split.
      - intros (c & Hle & Hlook & Hd & Hdist). exists c. split; [lia|].
        replace (k - i)%nat with (S (k - S i)) by lia. auto.
      - intros (c & Hle & Hlook & Hd & Hdist). exists c. split; [lia|].
        replace (k - i)%nat with (S (k - S i)) in Hlook by lia. auto. }
    destruct (Renderer.dirty chunk) eqn:Hdirty.
    + rewrite elem_of_cons, Hrest. split.
      * intros [[= -> ->]|(c & Hlt & Hlook & Hd & Hdist)].
        -- exists chunk. rewrite Nat.sub_diag. auto.
        -- exists c. split; [lia|auto].
      * intros (c & Hle & Hlook & Hd & Hdist).
        destruct (decide (k = i)) as [->|Hne].
        -- left. rewrite Nat.sub_diag in Hlook. cbn in Hlook. congruence.
        -- right. exists c. split; [lia|auto].
    + rewrite Hrest. split.
      * intros (c & Hlt & Hrem). exists c. split; [lia|exact Hrem].
      * intros (c & Hle & Hlook & Hd & Hdist).
        destruct (decide (k = i)) as [->|Hne].
        -- rewrite Nat.sub_diag in Hlook. cbn in Hlook. congruence.
        -- exists c. split; [lia|auto].
Qed.

Lemma dirtyFrom_NoDup playerPos chunks : forall i,
  NoDup (Renderer.dirtyFrom playerPos i chunks).*1.
Proof.
  induction chunks as [|chunk rest IH]; intros i; cbn [Renderer.dirtyFrom].
  - constructor.
  - destruct (Renderer.dirty chunk); [|apply IH].
    cbn. constructor; [|apply IH].
    intros Hin. apply list_elem_of_fmap in Hin as ([k d] & Hk & Hin). cbn in Hk. subst k.
    apply dirtyFrom_elem in Hin as (? & Hle & _). lia.
Qed.

Lemma sortByDistance_Sorted playerPos chunks : forall i,
  Sorted nearerFirst (Renderer.sortByDistance (Renderer.dirtyFrom playerPos i chunks)).
Proof.
  induction chunks as [|chunk rest IH]; intros i; cbn [Renderer.dirtyFrom].
  - constructor.
  - destruct (Renderer.dirty chunk); [|apply IH].
    cbn. apply insertByDistance_Sorted; [|apply IH].
    apply Forall_forall. intros [k d] Hin. cbn.
    rewrite sortByDistance_Permutation in Hin.
    apply dirtyFrom_elem in Hin as (? & Hle & _). lia.
Qed.

Lemma upload_cleans gl0 chunk vertexData gl1 chunk' uploaded :
  Renderer.upload gl0 chunk vertexData = (gl1, chunk', uploaded) ->
  Renderer.dirty chunk' = false
  /\ Renderer.start chunk' = Renderer.start chunk
  /\ Renderer.end_ chunk' = Renderer.end_ chunk
  /\ GL.nextBuffer gl1 = (GL.nextBuffer gl0 + (if uploaded then 1 else 0))%nat.
Proof.
  unfold Renderer.upload. destruct (0 <? length vertexData)%nat.
  - intros [= <- <- <-]. cbn. repeat split.
    destruct (Renderer.buffer chunk); cbn; lia.
  - intros [= <- <- <-]. cbn. repeat split. lia.
Qed.

(** The loop builds a prefix of [sortedChunks], and nothing else changes. *)
Lemma buildNear_prefix world count : forall sortedChunks gl0 chunks built gl' chunks' built',
  NoDup sortedChunks.*1 ->
  Renderer.buildNear world count sortedChunks (gl0, chunks, built) = (gl', chunks', built') ->
  exists k,
    length chunks' = length chunks
    /\ (forall i, i ∈ (take k sortedChunks).*1 ->
          exists chunk chunk', chunks !! i = Some chunk /\ chunks' !! i = Some chunk'
            /\ Renderer.dirty chunk' = false
            /\ Renderer.start chunk' = Renderer.start chunk
            /\ Renderer.end_ chunk' = Renderer.end_ chunk)
    /\ (forall i, i ∉ (take k sortedChunks).*1 -> chunks' !! i = chunks !! i)
    /\ Z.of_nat (GL.nextBuffer gl') - Z.of_nat (GL.nextBuffer gl0) = built' - built
    /\ built <= built' <= Z.max built count.
Proof.
  induction sortedChunks as [|[i d] rest IH]; intros gl0 chunks built gl' chunks' built' Hnodup;
    cbn [Renderer.buildNear].
  - intros [= <- <- <-]. exists 0%nat. cbn.
    repeat split; try lia. intros i Hin. inversion Hin.
  - assert (Hstop : (gl0, chunks, built) = (gl', chunks', built') ->
              exists k,
                length chunks' = length chunks
                /\ (forall i', i' ∈ (take k ((i, d) :: rest)).*1 ->
                      exists chunk chunk', chunks !! i' = Some chunk /\ chunks' !! i' = Some chunk'
                        /\ Renderer.dirty chunk' = false
                        /\ Renderer.start chunk' = Renderer.start chunk
                        /\ Renderer.end_ chunk' = Renderer.end_ chunk)
                /\ (forall i', i' ∉ (take k ((i, d) :: rest)).*1 -> chunks' !! i' = chunks !! i')
                /\ Z.of_nat (GL.nextBuffer gl') - Z.of_nat (GL.nextBuffer gl0) = built' - built
                /\ built <= built' <= Z.max built count).
    { intros [= <- <- <-]. exists 0%nat. cbn.
      repeat split; try lia. intros i' Hin. inversion Hin. }
    destruct (built >=? count) eqn:Hfull; [exact Hstop|].
    destruct (chunks !! i) as [chunk|] eqn:Hchunk; [|exact Hstop].
    destruct (Renderer.chunkVerticesNear world chunk) as [vertexData|e]; [|exact Hstop].
    clear Hstop.
    destruct (Renderer.upload gl0 chunk vertexData) as [[gl1 chunk1] uploaded] eqn:Hup.
    apply upload_cleans in Hup as (Hclean & Hstart & Hend & Hnext).
    intros Hrun. cbn in Hnodup. apply NoDup_cons in Hnodup as [Hfresh Hnodup].
    apply IH in Hrun as (k & Hlen & Hbuilt & Hkept & Hbuffers & Hcount); [|exact Hnodup].
    assert (Hi : (i < length chunks)%nat) by (eapply lookup_lt_Some; exact Hchunk).
    assert (Hsub : forall i', i' ∈ (take k rest).*1 -> i' ≠ i).
    { intros i' Hin ->. apply Hfresh.
      apply list_elem_of_fmap in Hin as (e & Heq & Hin).
      apply list_elem_of_fmap. exists e. split; [exact Heq|].
      exact (subseteq_take _ _ _ Hin). }
    exists (S k). cbn [take fmap list_fmap fst].
    rewrite length_insert in Hlen. split; [exact Hlen|]. split; [|split; [|split]].
    + intros i' Hin. apply elem_of_cons in Hin as [->|Hin].
      * exists chunk, chunk1. split; [exact Hchunk|]. split; [|auto].
        rewrite Hkept by (intros Hin; exact (Hsub _ Hin eq_refl)). apply list_lookup_insert_eq. exact Hi.
      * destruct (Hbuilt i' Hin) as (c & c' & Hc & Hrest).
        exists c, c'. split; [|exact Hrest].
        rewrite list_lookup_insert_ne in Hc by (apply not_eq_sym, Hsub, Hin). exact Hc.
    + intros i' Hout. apply not_elem_of_cons in Hout as [Hne Hout].
      rewrite Hkept by exact Hout. apply list_lookup_insert_ne. congruence.
    + destruct uploaded; lia.
    + destruct uploaded; lia.
Qed.

Lemma StronglySorted_across {A} (R : relation A) (l1 l2 : list A) a b :
  StronglySorted R (l1 ++ l2) -> a ∈ l1 -> b ∈ l2 -> R a b.
Proof.
  induction l1 as [|x l1 IH]; intros Hsorted Ha Hb; [inversion Ha|].
  cbn in Hsorted. apply StronglySorted_inv in Hsorted as [Hrest Hall].
  apply elem_of_cons in Ha as [->|Ha].
  - rewrite Forall_forall in Hall. apply Hall, elem_of_app. right. exact Hb.
  - apply IH; assumption.
Qed.

(** X30. [buildChunksAroundPlayer(playerPos, count)] leaves each chunk of the list
    as it is or clears its dirty flag, and does not touch the chunk map.  It
    creates at most [count] buffers.  It takes the dirty chunks nearest first
    (the centre of the box against the player, the earlier of the list among
    those equally far): when it has cleaned a chunk, it has cleaned every
    dirty chunk that comes before that one in this order. *)
Theorem buildChunksAroundPlayer_nearest r world playerPos count :
  let r' := Renderer.buildChunksAroundPlayer r world playerPos count in
  let dist := Renderer.centreDistance playerPos in
  Forall2 builtFrom (Renderer.chunks r) (Renderer.chunks r')
  /\ Renderer.chunkMap r' = Renderer.chunkMap r
  /\ (GL.nextBuffer (Renderer.gl r) <= GL.nextBuffer (Renderer.gl r')
      <= GL.nextBuffer (Renderer.gl r) + Z.to_nat count)%nat
  /\ (forall i j ci cj cj',
        Renderer.chunks r !! i = Some ci -> Renderer.dirty ci = true ->
        Renderer.chunks r !! j = Some cj -> Renderer.dirty cj = true ->
        nearerFirst (i, dist ci) (j, dist cj) ->
        Renderer.chunks r' !! j = Some cj' -> Renderer.dirty cj' = false ->
        exists ci', Renderer.chunks r' !! i = Some ci' /\ Renderer.dirty ci' = false).
Proof.
  intros r' dist. subst r'. unfold Renderer.buildChunksAroundPlayer.
  set (sortedChunks := Renderer.sortByDistance
                         (Renderer.dirtyFrom playerPos 0 (Renderer.chunks r))).
  assert (Hentries : forall k d, (k, d) ∈ sortedChunks <->
            exists chunk, Renderer.chunks r !! k = Some chunk
                          /\ Renderer.dirty chunk = true /\ d = dist chunk).
  { intros k d. subst sortedChunks. rewrite sortByDistance_Permutation, dirtyFrom_elem.
    rewrite Nat.sub_0_r. split.
    - intros (c & _ & Hrest). exists c. exact Hrest.
    - intros (c & Hrest). exists c. split; [lia|exact Hrest]. }
  assert (Hnodup : NoDup sortedChunks.*1).
  { subst sortedChunks. rewrite sortByDistance_Permutation. apply dirtyFrom_NoDup. }
  assert (Hsorted : StronglySorted nearerFirst sortedChunks).
  { apply Sorted_StronglySorted; [exact nearerFirst_transitive|].
    apply sortByDistance_Sorted. }
  destruct (Renderer.buildNear world count sortedChunks
              (Renderer.gl r, Renderer.chunks r, 0)) as [[gl' chunks'] built'] eqn:Hrun.
  apply buildNear_prefix in Hrun as (k & Hlen & Hbuilt & Hkept & Hbuffers & Hcount);
    [|exact Hnodup].
  cbn. split; [|split; [reflexivity|split; [lia|]]].
  - apply Forall2_same_length_lookup_2; [symmetry; exact Hlen|].
    intros i chunk chunk' Hchunk Hchunk'.
    destruct (decide (i ∈ (take k sortedChunks).*1)) as [Hin|Hout].
    + destruct (Hbuilt i Hin) as (c & c' & Hc & Hc' & Hclean & Hstart & Hend).
      assert (c = chunk) by congruence. assert (c' = chunk') by congruence. subst c c'.
      right. split; [|auto].
      apply list_elem_of_fmap in Hin as ([i' d] & Heq & Hin). cbn in Heq. subst i'.
      apply subseteq_take, Hentries in Hin as (c & Hc'' & Hdirty & _). congruence.
    + left. rewrite Hkept in Hchunk' by exact Hout. congruence.
  - intros i j ci cj cj' Hi Hdi Hj Hdj Horder Hj' Hclean.
    assert (Hjin : j ∈ (take k sortedChunks).*1).
    { destruct (decide (j ∈ (take k sortedChunks).*1)) as [Hin|Hout]; [exact Hin|].
      rewrite Hkept in Hj' by exact Hout. congruence. }
    assert (Hiin : i ∈ (take k sortedChunks).*1).
    { assert (Hin : (i, dist ci) ∈ take k sortedChunks ++ drop k sortedChunks).
      { rewrite take_drop. apply Hentries. exists ci. auto. }
      apply elem_of_app in Hin as [Hin|Hin].
      - apply list_elem_of_fmap. exists (i, dist ci). split; [reflexivity|exact Hin].
      - apply list_elem_of_fmap in Hjin as ([j' d] & Heq & Hjin). cbn in Heq. subst j'.
        assert (d = dist cj).
        { apply subseteq_take, Hentries in Hjin as (c & Hc & _ & ->). congruence. }
        subst d. rewrite <- (take_drop k sortedChunks) in Hsorted.
        pose proof (StronglySorted_across _ _ _ _ _ Hsorted Hjin Hin) as Hback.
        assert (i = j).
        { unfold nearerFirst in Horder, Hback. cbn in Horder, Hback.
          destruct Horder as [?|[? ?]], Hback as [?|[? ?]]; try lra. lia. }
        subst i. apply list_elem_of_fmap. exists (j, dist cj).
        split; [reflexivity|exact Hjin]. }
    destruct (Hbuilt i Hiin) as (c & c' & _ & Hc' & Hcleaned & _).
    exists c'. auto.
Qed.

(** ** The frustum test *)

Lemma allOutside_contains plane outer inner :
  contains outer inner ->
  Renderer.allOutside plane outer = true -> Renderer.allOutside plane inner = true.
Proof.
  intros Hin Hout.
  assert (forall px py pz : Z,
             inChunk outer (inject_Z px, inject_Z py, inject_Z pz) ->
             Qltb (vec4.dot plane
                     (vec4.fromValues (inject_Z px) (inject_Z py) (inject_Z pz) 1)) 0 = true)
    as Hpoint.
  { intros px py pz Hp. apply Qltb_lt. exact (box_outside plane outer _ _ _ Hp Hout). }
  unfold contains in Hin. unfold inChunk in Hpoint.
  destruct outer as [[[s0 s1] s2] [[e0 e1] e2] d b].
  destruct inner as [[[t0 t1] t2] [[f0 f1] f2] d' b'].
  cbn [Renderer.start Renderer.end_] in *.
  unfold Renderer.allOutside, Renderer.corners. cbn [Renderer.start Renderer.end_ forallb].
  rewrite !andb_true_iff.
  repeat split; apply Hpoint; rewrite <- !Zle_Qle; lia.
Qed.

(** X8. The frustum test is monotone in the box: a chunk whose box contains the
    box of a chunk that passes the test passes it too. *)
Theorem isChunkInFrustum_monotone r outer inner :
  contains outer inner ->
  Renderer.isChunkInFrustum r inner = true ->
  Renderer.isChunkInFrustum r outer = true.
Proof.
  intros Hin. unfold Renderer.isChunkInFrustum. rewrite !negb_true_iff.
  intros Hinner. apply not_true_iff_false. intros Houter. apply not_true_iff_false in Hinner.
  apply Hinner. apply existsb_exists in Houter as (plane & Hplane & Hout).
  apply existsb_exists. exists plane. split; [exact Hplane|].
  exact (allOutside_contains plane outer inner Hin Hout).
Qed.

Lemma isChunkInFrustum_monotone_witness :
  let r := looking (newRenderer 16 8 12 2) (Math.PI / 4) (4 # 3) (1 # 10) 1000
             (8, 8, 20)%Q (0, 0, 0)%Q in
  let inner := Renderer.mkChunk (0, 16, 16) (16, 32, 32) false None in
  let outer := Renderer.mkChunk (0, 0, 0) (32, 32, 32) false None in
  Renderer.isChunkInFrustum r inner = true /\ Renderer.isChunkInFrustum r outer = true.
Proof.
  intros r inner outer.
  assert (Renderer.isChunkInFrustum r inner = true) as Hinner by (vm_compute; reflexivity).
  split; [exact Hinner|].
  apply (isChunkInFrustum_monotone r outer inner); [|exact Hinner].
  cbn. lia.
Defined.

(** ** The load queue *)

Lemma Sorted_suffix {A} (R : A -> A -> Prop) (l1 l2 : list A) :
  Sorted R (l1 ++ l2) -> Sorted R l2.
Proof.
  induction l1 as [|a l1 IH]; [auto|]. cbn. intros Hsorted.
  apply Sorted_inv in Hsorted as [Hsorted _]. exact (IH Hsorted).
Qed.

(** X10. The queue that a streaming pass leaves is in ascending order of priority.
    Each of its entries is the origin of a chunk that is in bounds, within
    [loadDistance] of the player's chunk and was not in the chunk map when
    the pass began; its priority is the distance in chunks, less 2 when the
    offset of the chunk has a positive inner product with the view vector.
    Whatever the queue held before the pass is dropped. *)
Theorem updateChunksAroundPlayer_queue r world playerPos cam r' res :
  0 < Renderer.chunkSize r ->
  0 <= Renderer.loadDistance r < 2 ^ 51 ->
  Renderer.camPos r = Some cam ->
  Renderer.updateChunksAroundPlayer r world playerPos = (r', res) ->
  Sorted byPriority (Renderer.chunkLoadQueue r')
  /\ forall e, e ∈ Renderer.chunkLoadQueue r' ->
       let '(px, py, pz) := playerChunk r playerPos in
       exists x y z,
         e = entryOf r px py pz (Renderer.viewVector cam) x y z
         /\ World.isInBounds world (x * Renderer.chunkSize r) (y * Renderer.chunkSize r)
              (z * Renderer.chunkSize r) = true
         /\ distance2 (x, y, z) (px, py, pz)
            <= Renderer.loadDistance r * Renderer.loadDistance r
         /\ Renderer.chunkMap r !! (x, y, z) = None.
Proof.
  intros Hcs HL Hcam Hpass.
  unfold Renderer.updateChunksAroundPlayer in Hpass. rewrite Hcam in Hpass.
  unfold Renderer.processChunkQueue in Hpass. unfold playerChunk.
  set (px := Math.floor (World.x playerPos / inject_Z (Renderer.chunkSize r))) in *.
  set (py := Math.floor (World.y playerPos / inject_Z (Renderer.chunkSize r))) in *.
  set (pz := Math.floor (World.z playerPos / inject_Z (Renderer.chunkSize r))) in *.
  set (queue := Renderer.sortByPriority
                  (Renderer.collectQueue r world px py pz (Renderer.viewVector cam))) in *.
  apply processLoop_budget in Hpass as (processed & _ & Hrest & _).
  cbn [Renderer.chunkLoadQueue Renderer.set_gl Renderer.set_chunkMap
       Renderer.set_chunkLoadQueue] in Hrest.
  split.
  - apply (Sorted_suffix _ processed). rewrite <- Hrest. apply sortByPriority_Sorted.
  - intros e He.
    assert (e ∈ queue) as Hin by (rewrite Hrest; apply elem_of_app; right; exact He).
    subst queue. rewrite sortByPriority_Permutation in Hin.
    apply elem_of_collectQueue in Hin; assumption.
Qed.

Lemma updateChunksAroundPlayer_queue_witness :
  let r := streamingRenderer in
  let world := airWorld 208 96 48 in
  let playerPos := World.mkVector 48 48 16 in
  let r' := (Renderer.updateChunksAroundPlayer r world playerPos).1 in
  Renderer.camPos r = Some (48, 48, 16)%Q
  /\ Sorted byPriority (Renderer.chunkLoadQueue r').
Proof.
  intros r world playerPos r'. split; [reflexivity|].
  refine (proj1 (updateChunksAroundPlayer_queue r world playerPos (48, 48, 16)%Q r'
                   (Renderer.updateChunksAroundPlayer r world playerPos).2 _ _ _ _)).
  - reflexivity.
  - cbn. lia.
  - reflexivity.
  - apply surjective_pairing.
Defined.
(** ** The lightmap *)

Lemma highestOpaque_spec blocks x y maxZ v : forall n : nat,
  World.highestOpaque blocks x y n maxZ = Ok v ->
  (0 <= v < Z.of_nat n /\ opaqueAt blocks x y v = true
   /\ forall z, v < z < Z.of_nat n -> opaqueAt blocks x y z = false)
  \/ (v = maxZ /\ forall z, 0 <= z < Z.of_nat n -> opaqueAt blocks x y z = false).
Proof.
  induction n as [|n IH]; cbn [World.highestOpaque]; intros Hrun.
  - right. split; [congruence|]. intros z Hz. lia.
  - destruct (World.read3 blocks x y (Z.of_nat n)) as [cell|] eqn:Hread; [|discriminate].
    apply read3_read3_opt in Hread. cbn [mbind Result_bind] in Hrun.
    destruct cell as [block|]; [|discriminate].
    destruct (negb (BLOCK.truthy (BLOCK.transparent block))) eqn:Hopaque.
    + injection Hrun as <-. left. split; [lia|]. split.
      * unfold opaqueAt. rewrite Hread. exact Hopaque.
      * intros z Hz. lia.
    + assert (opaqueAt blocks x y (Z.of_nat n) = false) as Hn
        by (unfold opaqueAt; rewrite Hread; exact Hopaque).
      destruct (IH Hrun) as [(Hv & Hopq & Habove)|(Hv & Hnone)].
      * left. split; [lia|]. split; [exact Hopq|]. intros z Hz.
        destruct (decide (z = Z.of_nat n)) as [->|]; [exact Hn|apply Habove; lia].
      * right. split; [exact Hv|]. intros z Hz.
        destruct (decide (z = Z.of_nat n)) as [->|]; [exact Hn|apply Hnone; lia].
Qed.

Lemma lightAt_write2 lightmap x y v lightmap' x' y' :
  World.write2 lightmap x y v = Ok lightmap' ->
  lightAt lightmap' x' y'
  = if bool_decide (x' = x /\ y' = y /\ 0 <= y) then Some v else lightAt lightmap x' y'.
Proof.
  unfold World.write2. destruct (js_get lightmap x) as [row|] eqn:Hrow; [|discriminate].
  intros [= <-]. unfold lightAt.
  pose proof Hrow as Hlen. unfold js_get in Hlen.
  destruct (x <? 0) eqn:Hx; [discriminate|]. apply Z.ltb_ge in Hx.
  apply lookup_lt_Some in Hlen.
  rewrite js_get_insert by assumption.
  destruct (decide (x' = x)) as [->|Hne].
  - rewrite bool_decide_true by reflexivity. cbn [mbind option_bind]. rewrite Hrow.
    cbn [mbind option_bind]. rewrite js_get_set.
    destruct (decide (y' = y /\ 0 <= y)) as [[-> Hy]|Hney].
    + rewrite !bool_decide_true by (repeat split; assumption). reflexivity.
    + rewrite !bool_decide_false by (intros ?; apply Hney; split; lia).
      reflexivity.
  - rewrite !bool_decide_false by (try intros [? ?]; congruence). reflexivity.
Qed.

(** X11. [updateLighting] leaves the blocks as they are and stores for every
    column the height of its highest block that is not transparent, or
    [sz - 1] when the column has none. *)
Theorem updateLighting_highest (w : World.t) :
  grid (World.sx w) (World.sy w) (World.sz w) (World.blocks w) ->
  0 <= World.sz w ->
  length (World.lightmap w) = Z.to_nat (World.sx w) ->
  exists w',
    World.updateLighting w = Ok w'
    /\ World.blocks w' = World.blocks w
    /\ forall x y, 0 <= x < World.sx w -> 0 <= y < World.sy w ->
         exists v, lightAt (World.lightmap w') x y = Some v
                   /\ highest (World.blocks w) (World.sz w) x y v.
Proof.
  destruct w as [sx sy sz blocks spawnPoint lightmap].
  cbn [World.sx World.sy World.sz World.blocks World.lightmap].
  intros Hg Hsz Hlen.
  destruct (updateLighting_total sx sy sz blocks spawnPoint lightmap Hg Hsz Hlen)
    as (lightmap' & Hrun).
  eexists. split; [exact Hrun|]. split; [reflexivity|].
  cbn [World.lightmap]. intros x0 y0 Hx0 Hy0.
  unfold World.updateLighting in Hrun.
  cbn [World.sx World.sy World.sz World.blocks World.lightmap] in Hrun.
  match type of Hrun with
  | mbind _ ?loop = _ => destruct loop as [l|] eqn:Hloop; [|discriminate]
  end.
  cbn [mbind Result_bind] in Hrun. injection Hrun as <-.
  set (good := fun l : list (list (option Z)) =>
                 exists v, lightAt l x0 y0 = Some v /\ highest blocks sz x0 y0 v).
  change (good l). revert Hloop.
  apply for_range_establishes with (i0 := x0); [| |exact Hx0].
  - intros t t'. apply for_range_establishes with (i0 := y0); [| |exact Hy0].
    + intros t1 t1' Hbody.
      destruct (World.highestOpaque blocks x0 y0 (Z.to_nat sz) (sz - 1)) as [v|] eqn:Hv;
        [|discriminate].
      cbn [mbind Result_bind] in Hbody. exists v. split.
      * rewrite (lightAt_write2 _ _ _ _ _ _ _ Hbody), bool_decide_true by lia.
        reflexivity.
      * apply highestOpaque_spec in Hv. rewrite Z2Nat.id in Hv by exact Hsz. exact Hv.
    + intros y t1 t1' Hy (v & Hv & Hhigh) Hbody.
      destruct (World.highestOpaque blocks x0 y (Z.to_nat sz) (sz - 1)); [|discriminate].
      cbn [mbind Result_bind] in Hbody. exists v. split; [|exact Hhigh].
      rewrite (lightAt_write2 _ _ _ _ _ _ _ Hbody), bool_decide_false by lia. exact Hv.
  - intros x t t' Hx Hgood. apply for_range_preserves; [|exact Hgood].
    intros y t1 t1' (v & Hv & Hhigh) Hbody.
    destruct (World.highestOpaque blocks x y (Z.to_nat sz) (sz - 1)); [|discriminate].
    cbn [mbind Result_bind] in Hbody. exists v. split; [|exact Hhigh].
    rewrite (lightAt_write2 _ _ _ _ _ _ _ Hbody), bool_decide_false by lia. exact Hv.
Qed.

Lemma updateLighting_highest_witness :
  exists w',
    World.updateLighting columnWorld = Ok w'
    /\ World.blocks w' = World.blocks columnWorld
    /\ forall x y, 0 <= x < 1 -> 0 <= y < 1 ->
         exists v, lightAt (World.lightmap w') x y = Some v
                   /\ highest (World.blocks columnWorld) 3 x y v.
Proof.
  apply (updateLighting_highest columnWorld); [|cbn; lia|reflexivity].
  split; [compute_done|]. intros x y z Hx Hy Hz.
  assert (x = 0) as -> by (cbn in Hx; lia). assert (y = 0) as -> by (cbn in Hy; lia).
  cbn in Hz.
  assert (z = 0 \/ z = 1 \/ z = 2) as [->|[->| ->]] by lia; cbn; eauto.
Defined.
(** ** Flat worlds and serialisation *)

(** X12. [createFlatWorld(height)] throws for a height below 0 or above [sz];
    otherwise it answers a grid of the extents of the world that holds DIRT
    in every slot below [height] and AIR in every slot from [height] on, and
    sets the spawn point above the middle of the world at that height. *)
Theorem createFlatWorld_layers (sx sy sz height : Z) :
  (height < 0 \/ sz < height ->
   World.createFlatWorld sx sy sz height = Throw (JsError "Invalid height for flat world."))
  /\ (0 <= height <= sz ->
      exists blocks,
        World.createFlatWorld sx sy sz height
        = Ok (blocks, World.mkVector (inject_Z sx / 2 + (1 # 2)) (inject_Z sy / 2 + (1 # 2))
                                     (inject_Z height))
        /\ shaped sx sy sz blocks
        /\ forall x y z, 0 <= x < sx -> 0 <= y < sy -> 0 <= z < sz ->
             World.read3_opt blocks x y z
             = Some (if z <? height then BLOCK.DIRT else BLOCK.AIR)).
Proof.
  unfold World.createFlatWorld. split.
  - intros Hheight.
    assert ((height <? 0) || (height >? sz) = true) as ->; [|reflexivity].
    apply orb_true_iff. rewrite Z.ltb_lt, Z.gtb_gt. lia.
  - intros Hheight.
    assert ((height <? 0) || (height >? sz) = false) as ->.
    { apply orb_false_iff. rewrite Z.ltb_ge, Z.gtb_ltb, Z.ltb_ge. lia. }
    run_loop (shaped sx sy sz) blocks Hrun Hshaped; [apply emptyGrid_shaped| |].
    + intros x t Hx Ht. apply for_range_total; [exact Ht|]. intros y t1 Hy Ht1.
      apply for_range_total; [exact Ht1|]. intros z t2 Hz Ht2.
      destruct (write3_shaped_Ok sx sy sz t2 x y z
                  (Some (if z <? height then BLOCK.DIRT else BLOCK.AIR)) Ht2 Hx Hy)
        as [t2' Hw].
      exists t2'. split; [exact Hw|]. exact (write3_shaped _ _ _ _ _ _ _ _ _ Ht2 Hw).
    + exists blocks. split; [reflexivity|]. split; [exact Hshaped|].
      intros x0 y0 z0 Hx0 Hy0 Hz0. revert Hrun.
      set (cell := Some (if z0 <? height then BLOCK.DIRT else BLOCK.AIR)).
      apply (for_range_establishes (fun t => World.read3_opt t x0 y0 z0 = cell))
        with (i0 := x0); [| |exact Hx0].
      * intros t t'.
        apply (for_range_establishes (fun t => World.read3_opt t x0 y0 z0 = cell))
          with (i0 := y0); [| |exact Hy0].
        -- intros t1 t1'.
           apply (for_range_establishes (fun t => World.read3_opt t x0 y0 z0 = cell))
             with (i0 := z0); [| |exact Hz0].
           ++ intros t2 t2' Hw. rewrite (read3_opt_write3 _ _ _ _ _ _ _ _ _ Hw).
              rewrite bool_decide_true by lia. reflexivity.
           ++ intros z t2 t2' Hz Hcell Hw. rewrite (read3_opt_write3 _ _ _ _ _ _ _ _ _ Hw).
              rewrite bool_decide_false by lia. exact Hcell.
        -- intros y t1 t1' Hy Hcell. apply (for_range_preserves (fun t => World.read3_opt t x0 y0 z0 = cell)); [|exact Hcell].
           intros z t2 t2' Hcell2 Hw. rewrite (read3_opt_write3 _ _ _ _ _ _ _ _ _ Hw).
           rewrite bool_decide_false by lia. exact Hcell2.
      * intros x t t' Hx Hcell. apply (for_range_preserves (fun t => World.read3_opt t x0 y0 z0 = cell)); [|exact Hcell].
        intros y t1 t1' Hcell1. apply (for_range_preserves (fun t => World.read3_opt t x0 y0 z0 = cell)); [|exact Hcell1].
        intros z t2 t2' Hcell2 Hw. rewrite (read3_opt_write3 _ _ _ _ _ _ _ _ _ Hw).
        rewrite bool_decide_false by lia. exact Hcell2.
Qed.

Section Encoding.

Variable w : World.t.
Hypothesis Hshape : wellFormed w.

(** The code unit that [toNetworkString] writes for a cell. *)
Let code (x y z : Z) : Z := (97 + default 0 (idOf (World.blocks w) x y z)) mod 65536.

(** The accumulator of [toNetworkString] on reaching [(x, y, z)]. *)
Let written (x y z : Z) (acc : list Z) : Prop :=
  Z.of_nat (length acc) = cellIndex w x y z
  /\ forall x' y' z',
       0 <= x' < World.sx w -> 0 <= y' < World.sy w -> 0 <= z' < World.sz w ->
       visitedBefore x y z x' y' z' ->
       acc !! Z.to_nat (cellIndex w x' y' z') = Some (code x' y' z').

Lemma toNetworkString_written :
  0 <= World.sx w -> 0 <= World.sy w -> 0 <= World.sz w ->
  exists str, World.toNetworkString w = Ok str /\ written (World.sx w) 0 0 str.
Proof.
  intros Hsx Hsy Hsz. unfold World.toNetworkString.
  apply (for_range_invariant (fun x => written x 0 0)); [exact Hsx| |].
  { split; [unfold cellIndex; cbn; lia|]. unfold visitedBefore. intros; lia. }
  intros x acc0 Hx Hinv0.
  destruct (for_range_invariant (fun y => written x y 0)
              (fun y => for_range 0 (World.sz w) (fun z blockArray =>
                 cell ← World.read3 (World.blocks w) x y z;
                 let block := World.validateBlock (World.cellValue cell) in
                 Ok (blockArray ++ [fromCharCode ((fun n => 97 + n) <$> BLOCK.id block)])))
              0 (World.sy w) acc0) as (acc1' & Hrun1 & Hlen1 & Hacc1);
    [assumption|assumption| |].
  2: { exists acc1'. split; [exact Hrun1|]. split; [rewrite Hlen1; unfold cellIndex; lia|].
       intros x' y' z' Hx' Hy' Hz' Hv. apply Hacc1; try assumption.
       unfold visitedBefore in *. lia. }
  intros y acc1 Hy Hinv1.
  destruct (for_range_invariant (fun z => written x y z)
              (fun z blockArray =>
                 cell ← World.read3 (World.blocks w) x y z;
                 let block := World.validateBlock (World.cellValue cell) in
                 Ok (blockArray ++ [fromCharCode ((fun n => 97 + n) <$> BLOCK.id block)]))
              0 (World.sz w) acc1) as (acc2 & Hrun2 & Hlen2 & Hacc2);
    [assumption|assumption| |].
  2: { exists acc2. split; [exact Hrun2|]. split; [rewrite Hlen2; unfold cellIndex; lia|].
       intros x' y' z' Hx' Hy' Hz' Hv. apply Hacc2; try assumption.
       unfold visitedBefore in *. lia. }
  intros z acc3 Hz [Hlen3 Hacc3].
  rewrite (read3_shaped _ _ _ _ x y z Hshape) by lia. cbn [mbind Result_bind].
  eexists. split; [reflexivity|]. split.
  - rewrite length_app. cbn [length]. unfold cellIndex in *. lia.
  - intros x' y' z' Hx' Hy' Hz' Hv.
    destruct (decide (x' = x /\ y' = y /\ z' = z)) as [(-> & -> & ->)|Hne].
    + rewrite <- Hlen3, Nat2Z.id.
      rewrite (list_lookup_middle acc3 [] _ (length acc3) eq_refl). f_equal.
      rewrite validateBlock_numeric. unfold code, idOf. cbn [fmap option_fmap option_map fromCharCode].
      destruct (World.read3_opt (World.blocks w) x y z) as [block|]; reflexivity.
    + apply lookup_app_l_Some, Hacc3; try assumption. unfold visitedBefore in *. lia.
Qed.

End Encoding.

(** X13. On a world whose grid has the extents of the world, [toNetworkString]
    does not throw.  Its answer has one code unit for each slot, that of the
    slot [(x, y, z)] at the index [(x * sy + y) * sz + z], and the code unit
    is 97 plus the identifier of the block in the slot, modulo 65536, an
    empty slot and a block without a numeric identifier counting as 0. *)
Theorem toNetworkString_layout (w : World.t) :
  wellFormed w ->
  0 <= World.sx w -> 0 <= World.sy w -> 0 <= World.sz w ->
  exists str,
    World.toNetworkString w = Ok str
    /\ Z.of_nat (length str) = World.sx w * World.sy w * World.sz w
    /\ forall x y z,
         0 <= x < World.sx w -> 0 <= y < World.sy w -> 0 <= z < World.sz w ->
         str !! Z.to_nat (cellIndex w x y z)
         = Some ((97 + default 0 (idOf (World.blocks w) x y z)) mod 65536).
Proof.
  intros Hshape Hsx Hsy Hsz.
  destruct (toNetworkString_written w Hshape Hsx Hsy Hsz) as (str & Hrun & Hlen & Hstr).
  exists str. split; [exact Hrun|]. split; [rewrite Hlen; unfold cellIndex; lia|].
  intros x y z Hx Hy Hz. apply Hstr; try assumption. unfold visitedBefore. lia.
Qed.

Lemma toNetworkString_layout_witness :
  exists str,
    World.toNetworkString columnWorld = Ok str
    /\ Z.of_nat (length str) = 1 * 1 * 3
    /\ forall x y z,
         0 <= x < 1 -> 0 <= y < 1 -> 0 <= z < 3 ->
         str !! Z.to_nat (cellIndex columnWorld x y z)
         = Some ((97 + default 0 (idOf (World.blocks columnWorld) x y z)) mod 65536).
Proof.
  apply (toNetworkString_layout columnWorld); [compute_done|cbn; lia..].
Defined.
(** ** The blocks of generated worlds *)

Ltac in_list := repeat first [apply list_elem_of_here | apply list_elem_of_further].

Section Terrain.

Variable createNoise3D : string -> Q -> Q -> Q -> Q.
Variable random : nat -> Q.
Variables sx sy sz : Z.
Variable floor : bool.
Hypothesis Hfloor : floor = true -> 4 <= sz.
Hypothesis Hsx : 5 <= sx.
Hypothesis Hsy : 5 <= sy.
Hypothesis Hsz : 1 <= sz.

(** The invariant of generation: a grid without empty slots that holds
    terrain blocks. *)
Let T (blocks : World.Blocks) : Prop := grid sx sy sz blocks /\ terrain floor blocks.
Let TT (g : World.Blocks * nat) : Prop := T g.1.

(** The blocks that generation writes, as validated. *)
Let placed (block : BLOCK.Block) : BLOCK.Block := World.validateBlock (BLOCK.Object block).

Lemma write3_terrain blocks x y z block blocks' :
  T blocks -> terrainBlock floor z block ->
  World.write3 blocks x y z (Some block) = Ok blocks' -> T blocks'.
Proof.
  intros [[Hshape Hpop] Ht] Hblock Hw. split; [split|].
  - exact (write3_shaped _ _ _ _ _ _ _ _ _ Hshape Hw).
  - intros x' y' z' Hx' Hy' Hz'. rewrite (read3_opt_write3 _ _ _ _ _ _ _ _ _ Hw).
    destruct (bool_decide _); [eexists; reflexivity|apply Hpop; assumption].
  - intros x' y' z' block'. rewrite (read3_opt_write3 _ _ _ _ _ _ _ _ _ Hw).
    case_bool_decide as Hsame; [|apply Ht].
    destruct Hsame as (_ & _ & -> & _). intros [= <-]. exact Hblock.
Qed.

Lemma placed_above z block :
  block ∈ [BLOCK.AIR; BLOCK.DIRT; BLOCK.WOOD; BLOCK.WATER; BLOCK.LEAVES; BLOCK.ROCK] ->
  (floor = true -> z <> 0) -> terrainBlock floor z (placed block).
Proof.
  intros Hblock Hz. split; [|intros Hf ->; destruct (Hz Hf eq_refl)].
  repeat (apply elem_of_cons in Hblock as [->|Hblock]);
    [eexists; split; [reflexivity|unfold terrainIds; in_list]..|inversion Hblock].
Qed.

Lemma placed_bedrock z : terrainBlock floor z (placed BLOCK.BEDROCK).
Proof.
  split; [eexists; split; [reflexivity|unfold terrainIds; in_list]|reflexivity].
Qed.

(** A slot that holds AIR is not in the bottom layer where that is BEDROCK. *)
Lemma air_above blocks x y z :
  T blocks -> World.idAt blocks x y z = Ok (BLOCK.id BLOCK.AIR) -> floor = true -> z <> 0.
Proof.
  intros [_ Ht] Hid Hf ->. unfold World.idAt in Hid.
  apply bind_Ok in Hid as (cell & Hread & [= Hid]). apply read3_read3_opt in Hread.
  destruct cell as [block|]; [|discriminate]. cbn in Hid.
  destruct (Ht _ _ _ _ Hread) as [_ Hbed]. rewrite (Hbed Hf eq_refl) in Hid. discriminate.
Qed.

Lemma addTree_terrain g x y z g' :
  TT g -> 0 < z -> World.addTree random sx sy sz g x y z = Ok g' -> TT g'.
Proof.
  destruct g as [blocks n]. unfold TT, World.addTree. cbn [fst]. intros Ht Hz.
  destruct (negb (World.inBounds sx sy sz (x + 2) (y + 2) (z + 6)));
    [intros [= <-]; exact Ht|].
  destruct (negb (World.inBounds sx sy sz (x - 2) (y - 2) z));
    [intros [= <-]; exact Ht|].
  intros Hrun. apply bind_Ok in Hrun as (blocks1 & Htrunk & Hrun).
  apply bind_Ok in Hrun as (blocks2 & Hleaves & Hrun). injection Hrun as <-. cbn [fst].
  apply (for_range_preserves_in T) in Htrunk; [| |exact Ht].
  2:{ intros i t t' Hi Ht' Hw. refine (write3_terrain _ _ _ _ _ _ Ht' _ Hw).
      apply placed_above; [in_list|lia]. }
  revert Hleaves. apply (for_range_preserves T); [|exact Htrunk].
  intros lz t t' Ht'. apply (for_range_preserves T); [|exact Ht'].
  intros lx t1 t1' Ht1. apply (for_range_preserves T); [|exact Ht1].
  intros ly t2 t2' Ht2.
  destruct (Qle_bool _ _); [|intros [= <-]; exact Ht2].
  destruct (World.inBounds sx sy sz _ _ _); [|intros [= <-]; exact Ht2].
  intros Hrun. apply bind_Ok in Hrun as (i & Hid & Hrun).
  case_bool_decide as Hair; [subst i|injection Hrun as <-; exact Ht2].
  refine (write3_terrain _ _ _ _ _ _ Ht2 _ Hrun).
  apply placed_above; [in_list|]. exact (air_above _ _ _ _ Ht2 Hid).
Qed.

Lemma createCavity_terrain g x y z g' :
  TT g -> 1 < z -> World.createCavity random sx sy sz g x y z = Ok g' -> TT g'.
Proof.
  unfold World.createCavity. intros Ht Hz.
  apply (for_range_preserves TT); [|exact Ht].
  intros dx t t' Ht'. apply (for_range_preserves TT); [|exact Ht'].
  intros dy t1 t1' Ht1. apply (for_range_preserves_in TT); [|exact Ht1].
  intros dz [blocks n] t2' Hdz Ht2. unfold TT in Ht2. cbn [fst] in Ht2.
  destruct (World.inBounds sx sy sz _ _ _); [|intros [= <-]; exact Ht2].
  intros Hrun. apply bind_Ok in Hrun as (i & _ & Hrun).
  destruct (negb _ && negb _); [|injection Hrun as <-; exact Ht2].
  destruct (Qltb _ _); [|injection Hrun as <-; exact Ht2].
  apply bind_Ok in Hrun as (blocks1 & Hw & Hrun). injection Hrun as <-.
  refine (write3_terrain _ _ _ _ _ _ Ht2 _ Hw). apply placed_above; [in_list|lia].
Qed.

Lemma generateCaves_terrain g g' :
  TT g -> World.generateCaves random g sx sy sz = Ok g' -> TT g'.
Proof.
  unfold World.generateCaves. intros Ht.
  apply (for_range_preserves TT); [|exact Ht].
  intros x t t' Ht'. apply (for_range_preserves TT); [|exact Ht'].
  intros y t1 t1' Ht1. apply (for_range_preserves_in TT); [|exact Ht1].
  intros z [blocks n] t2' Hz Ht2. unfold TT in Ht2. cbn [fst] in Ht2.
  intros Hrun. apply bind_Ok in Hrun as (i & _ & Hrun).
  destruct (bool_decide _ || bool_decide _); [injection Hrun as <-; exact Ht2|].
  match type of Hrun with
  | (if ?c then _ else _) = _ => destruct c; [|injection Hrun as <-; exact Ht2]
  end.
  apply bind_Ok in Hrun as (blocks1 & Hw & Hrun).
  assert (T blocks1) as Ht3.
  { refine (write3_terrain _ _ _ _ _ _ Ht2 _ Hw). apply placed_above; [in_list|lia]. }
  match type of Hrun with
  | (if ?c then _ else _) = _ => destruct c; [|injection Hrun as <-; exact Ht3]
  end.
  refine (createCavity_terrain (blocks1, n) _ _ _ _ Ht3 _ Hrun). lia.
Qed.

Lemma carvePlatform_terrain blocks centerX centerY blocks' :
  T blocks ->
  World.carvePlatform blocks centerX centerY (Math.floor (inject_Z sz * (6 # 10))) = Ok blocks' ->
  T blocks'.
Proof.
  rewrite floor_scaled. change (Z.pos 10) with 10.
  assert (floor = true -> 2 <= sz * 6 / 10) as Hh.
  { intros Hf. apply Z.div_le_lower_bound; [lia|]. specialize (Hfloor Hf). lia. }
  unfold World.carvePlatform. intros Ht.
  apply (for_range_preserves T); [|exact Ht].
  intros x t t' Ht'. apply (for_range_preserves T); [|exact Ht'].
  intros y t1 t1' Ht1 Hrun.
  apply bind_Ok in Hrun as (t2 & Hw1 & Hrun). apply bind_Ok in Hrun as (t3 & Hw2 & Hw3).
  refine (write3_terrain _ _ _ _ _ _ _ _ Hw3);
    [refine (write3_terrain _ _ _ _ _ _ _ _ Hw2);
     [refine (write3_terrain _ _ _ _ _ _ Ht1 _ Hw1)|]|];
    (apply placed_above; [in_list|intros Hf; specialize (Hh Hf); lia]).
Qed.

(** Validation keeps the identifier of a block that has one. *)
Lemma validation_terrain blocks blocks' :
  T blocks ->
  for_range 0 sx (fun x =>
    for_range 0 sy (fun y =>
      for_range 0 sz (fun z blocks =>
        cell ← World.read3 blocks x y z;
        World.write3 blocks x y z (Some (World.validateBlock (World.cellValue cell))))))
    blocks = Ok blocks' ->
  T blocks'.
Proof.
  intros Ht. apply (for_range_preserves_in T); [|exact Ht].
  intros x t t' Hx Ht'. apply (for_range_preserves_in T); [|exact Ht'].
  intros y t1 t1' Hy Ht1. apply (for_range_preserves_in T); [|exact Ht1].
  intros z t2 t2' Hz Ht2 Hrun. apply bind_Ok in Hrun as (cell & Hread & Hw).
  apply read3_read3_opt in Hread.
  refine (write3_terrain _ _ _ _ _ _ Ht2 _ Hw).
  destruct (proj2 (proj1 Ht2) x y z Hx Hy Hz) as [block Hblock].
  rewrite Hblock in Hread. subst cell.
  destruct (proj2 Ht2 _ _ _ _ Hblock) as [(n & Hid & Hn) Hbed].
  unfold terrainBlock. cbn [World.cellValue].
  rewrite validateBlock_numeric, Hid. cbn [default]. split; [eauto|].
  intros Hf Hz0. rewrite <- (Hbed Hf Hz0). symmetry. exact Hid.
Qed.

(** The cells of the empty grid hold AIR. *)
Lemma emptyGrid_cells x y z block :
  World.read3_opt (World.emptyGrid sx sy sz) x y z = Some block -> block = BLOCK.AIR.
Proof.
  unfold World.read3_opt, World.emptyGrid.
  destruct (js_get _ x) as [row|] eqn:Hrow; [|discriminate].
  apply js_get_Some in Hrow as [_ Hrow]. apply lookup_replicate in Hrow as [-> _].
  destruct (js_get _ y) as [column|] eqn:Hcolumn; [|discriminate].
  apply js_get_Some in Hcolumn as [_ Hcolumn]. apply lookup_replicate in Hcolumn as [-> _].
  destruct (js_get _ z) as [cell|] eqn:Hcell; [|discriminate].
  apply js_get_Some in Hcell as [_ Hcell]. apply lookup_replicate in Hcell as [-> _].
  cbn. congruence.
Qed.

Lemma read3_opt_inside blocks x y z block :
  shaped sx sy sz blocks -> World.read3_opt blocks x y z = Some block ->
  0 <= x < sx /\ 0 <= y < sy.
Proof.
  intros [Hlen Hrows]. unfold World.read3_opt.
  destruct (js_get blocks x) as [row|] eqn:Hrow; [|discriminate].
  apply js_get_Some in Hrow as [Hx Hrow].
  destruct (js_get row y) as [column|] eqn:Hcolumn; [|discriminate].
  apply js_get_Some in Hcolumn as [Hy Hcolumn]. intros _.
  pose proof (proj1 (Forall_lookup _ _) Hrows _ _ Hrow) as [Hrl _].
  apply lookup_lt_Some in Hrow, Hcolumn. lia.
Qed.

(** The bedrock layer. *)
Lemma bedrock_terrain blocks :
  for_range 0 sx (fun x =>
    for_range 0 sy (fun y blocks =>
      World.write3 blocks x y 0 (Some (World.validateBlock (BLOCK.Object BLOCK.BEDROCK)))))
    (World.emptyGrid sx sy sz) = Ok blocks ->
  T blocks.
Proof.
  intros Hrun.
  assert (grid sx sy sz blocks) as Hg.
  { revert Hrun. apply (for_range_preserves_in (grid sx sy sz)); [|apply emptyGrid_grid].
    intros x t t' Hx Ht. apply (for_range_preserves_in (grid sx sy sz)); [|exact Ht].
    intros y t1 t1' Hy Ht1 Hw.
    destruct (write3_grid sx sy sz t1 x y 0 (World.validateBlock (BLOCK.Object BLOCK.BEDROCK))
                Ht1 Hx Hy) as (t2 & Hw' & Ht2). congruence. }
  assert (forall x y z block, World.read3_opt blocks x y z = Some block -> z <> 0 ->
            block = BLOCK.AIR) as Habove.
  { intros x y z block Hblock Hz. revert Hblock. revert Hrun.
    apply (for_range_preserves (fun t => World.read3_opt t x y z = Some block -> block = BLOCK.AIR));
      [|apply emptyGrid_cells].
    intros x' t t'.
    apply (for_range_preserves
             (fun t => World.read3_opt t x y z = Some block -> block = BLOCK.AIR)).
    intros y' t1 t1' Ht1 Hw. rewrite (read3_opt_write3 _ _ _ _ _ _ _ _ _ Hw).
    rewrite bool_decide_false by lia. exact Ht1. }
  assert (forall x y, 0 <= x < sx -> 0 <= y < sy ->
            World.read3_opt blocks x y 0 = Some (placed BLOCK.BEDROCK)) as Hbottom.
  { intros x y Hx Hy. revert Hrun.
    apply (for_range_establishes
             (fun t => World.read3_opt t x y 0 = Some (placed BLOCK.BEDROCK)) _ x); [| |lia].
    - intros t t'.
      apply (for_range_establishes
               (fun t => World.read3_opt t x y 0 = Some (placed BLOCK.BEDROCK)) _ y); [| |lia].
      + intros t1 t1' Hw. rewrite (read3_opt_write3 _ _ _ _ _ _ _ _ _ Hw).
        rewrite bool_decide_true by lia. reflexivity.
      + intros y' t1 t1' Hy' Ht1 Hw. rewrite (read3_opt_write3 _ _ _ _ _ _ _ _ _ Hw).
        rewrite bool_decide_false by lia. exact Ht1.
    - intros x' t t' Hx' Ht. revert Ht.
      apply (for_range_preserves
               (fun t => World.read3_opt t x y 0 = Some (placed BLOCK.BEDROCK))).
      intros y' t1 t1' Ht1 Hw. rewrite (read3_opt_write3 _ _ _ _ _ _ _ _ _ Hw).
      rewrite bool_decide_false by lia. exact Ht1. }
  split; [exact Hg|]. intros x y z block Hblock.
  destruct (decide (z = 0)) as [->|Hz].
  - destruct (read3_opt_inside _ _ _ _ _ (proj1 Hg) Hblock) as [Hx Hy].
    rewrite (Hbottom x y Hx Hy) in Hblock. injection Hblock as <-. apply placed_bedrock.
  - rewrite (Habove _ _ _ _ Hblock Hz).
    apply (placed_above z BLOCK.AIR); [in_list|intros _; exact Hz].
Qed.

Lemma generateTerrain_try_terrain n blocks n' :
  World.generateTerrain_try createNoise3D random sx sy sz n = Ok (blocks, n') -> T blocks.
Proof.
  unfold World.generateTerrain_try. intros Hrun.
  apply bind_Ok in Hrun as (blocks0 & Hbedrock & Hrun). apply bedrock_terrain in Hbedrock.
  apply bind_Ok in Hrun as (g1 & Hcolumns & Hrun).
  assert (TT g1) as Hg1.
  { revert Hcolumns. apply (for_range_preserves TT); [|exact Hbedrock].
    intros x t t' Ht. apply (for_range_preserves TT); [|exact Ht].
    intros y [blocks1 m] t1' Ht1 Hcolumn. unfold TT in Ht1. cbn [fst] in Ht1.
    apply bind_Ok in Hcolumn as (blocks2 & Hfill & Htree).
    assert (T blocks2) as Ht2.
    { revert Hfill. apply (for_range_preserves T); [|exact Ht1].
      intros z t2 t2' Ht2 Hw. refine (write3_terrain _ _ _ _ _ _ Ht2 _ Hw).
      destruct (Z.eqb_spec z 0) as [->|Hz]; [apply placed_bedrock|].
      repeat match goal with |- context [if ?c then _ else _] => destruct c end;
        (apply placed_above; [in_list|intros _; exact Hz]). }
    destruct (Z.gtb_spec (World.finalHeight (createNoise3D "minecraft") sz x y)
                         (Math.floor (inject_Z sz * (1 # 2)))) as [Hhigh|_];
      [|injection Htree as <-; exact Ht2].
    destruct (Qltb _ _); [|injection Htree as <-; exact Ht2].
    refine (addTree_terrain (blocks2, S m) _ _ _ _ Ht2 _ Htree).
    rewrite floor_scaled in Hhigh. change (Z.pos 2) with 2 in Hhigh.
    assert (0 <= sz * 1 / 2) by (apply Z.div_pos; lia). lia. }
  apply bind_Ok in Hrun as ([blocks2 n2] & Hcaves & Hrun).
  apply (generateCaves_terrain _ _ Hg1) in Hcaves. unfold TT in Hcaves. cbn [fst] in Hcaves.
  apply bind_Ok in Hrun as (blocks3 & Hplatform & Hrun).
  apply (carvePlatform_terrain _ _ _ _ Hcaves) in Hplatform.
  apply bind_Ok in Hrun as (blocks4 & Hvalid & Hrun).
  apply (validation_terrain _ _ Hplatform) in Hvalid.
  apply bind_Ok in Hrun as (_ & _ & [= <- _]). exact Hvalid.
Qed.

End Terrain.
Lemma generateWorld_terrain (createNoise3D : string -> Q -> Q -> Q -> Q) (random : nat -> Q)
    (sx sy sz : Z) (floor : bool) (n : nat) :
  5 <= sx <= 254 -> 5 <= sy <= 254 -> 1 <= sz <= 254 -> (floor = true -> 4 <= sz) ->
  exists w n',
    World.generateWorld createNoise3D random (inject_Z sx) (inject_Z sy) (inject_Z sz) n
    = Ok (w, n')
    /\ (World.sx w = sx /\ World.sy w = sy /\ World.sz w = sz)
    /\ grid sx sy sz (World.blocks w) /\ terrain floor (World.blocks w).
Proof.
  intros Hsx Hsy Hsz Hfloor. unfold World.generateWorld.
  rewrite !isInteger_inject_Z. cbn [negb orb].
  change 0%Q with (inject_Z 0). change 254%Q with (inject_Z 254).
  rewrite !Qle_bool_inject_Z, !Qltb_inject_Z.
  rewrite !(proj2 (Z.leb_gt _ _)), !(proj2 (Z.ltb_ge _ _)) by lia. cbn [orb].
  rewrite !Qfloor_Z. unfold World.constructor.
  rewrite !(proj2 (Z.leb_gt _ _)) by lia. cbn [orb].
  unfold World.generateTerrain.
  destruct (generateTerrain_try_total createNoise3D random sx sy sz
              ltac:(lia) ltac:(lia) ltac:(lia) n) as (blocks & n' & Htry & Hg).
  rewrite Htry. cbn [mbind Result_bind].
  apply (generateTerrain_try_terrain _ _ _ _ _ floor Hfloor) in Htry; [|lia..].
  unfold World.findSpawnPoint.
  destruct (carvePlatform_total sx sy sz _ _ (Math.floor (inject_Z sz * (6 # 10)))
              (centre_inside sx ltac:(lia)) (centre_inside sy ltac:(lia)) blocks Hg)
    as (blocks1 & Hplatform & Hg1).
  rewrite Hplatform. cbn [mbind Result_bind].
  apply (carvePlatform_terrain sx sy sz floor Hfloor _ _ _ _ Htry) in Hplatform.
  match goal with
  | |- context [World.updateLighting
                  {| World.sx := _; World.sy := _; World.sz := _; World.blocks := _;
                     World.spawnPoint := ?p; World.lightmap := ?l |}] =>
      destruct (updateLighting_total sx sy sz blocks1 p l Hg1) as (lightmap' & ->);
      [lia|apply length_replicate|]
  end.
  cbn [mbind Result_bind try_catch]. eexists _, n'. split; [reflexivity|].
  cbn [World.sx World.sy World.sz World.blocks]. split; [auto|]. split; apply Hplatform.
Qed.

(** X16. For dimensions of 5 to 254 in x and in y and of 4 to 254 in z the bottom
    layer of a created world is BEDROCK throughout, whatever the noise and
    the random numbers. *)
Theorem generateWorld_bedrock (createNoise3D : string -> Q -> Q -> Q -> Q) (random : nat -> Q)
    (sx sy sz : Z) (n : nat) :
  5 <= sx <= 254 -> 5 <= sy <= 254 -> 4 <= sz <= 254 ->
  exists w n',
    World.generateWorld createNoise3D random (inject_Z sx) (inject_Z sy) (inject_Z sz) n
    = Ok (w, n')
    /\ forall x y, 0 <= x < sx -> 0 <= y < sy ->
         idOf (World.blocks w) x y 0 = BLOCK.id BLOCK.BEDROCK.
Proof.
  intros Hsx Hsy Hsz.
  destruct (generateWorld_terrain createNoise3D random sx sy sz true n Hsx Hsy
              ltac:(lia) ltac:(lia)) as (w & n' & Hrun & _ & [_ Hpop] & Hterrain).
  exists w, n'. split; [exact Hrun|]. intros x y Hx Hy.
  destruct (Hpop x y 0 Hx Hy ltac:(lia)) as [block Hblock].
  unfold idOf. rewrite Hblock. exact (proj2 (Hterrain _ _ _ _ Hblock) eq_refl eq_refl).
Qed.

Lemma generateWorld_bedrock_witness :
  exists w n',
    World.generateWorld flatNoise (constantRandom 0) (inject_Z 5) (inject_Z 5) (inject_Z 4) 0
    = Ok (w, n')
    /\ forall x y, 0 <= x < 5 -> 0 <= y < 5 ->
         idOf (World.blocks w) x y 0 = BLOCK.id BLOCK.BEDROCK.
Proof. apply (generateWorld_bedrock flatNoise (constantRandom 0) 5 5 4 0); lia. Defined.

(** Every index of the serialised string is the index of a cell. *)
Lemma cellIndex_cover (w : World.t) (i : Z) :
  0 < World.sy w -> 0 < World.sz w ->
  0 <= i < World.sx w * World.sy w * World.sz w ->
  exists x y z,
    (0 <= x < World.sx w /\ 0 <= y < World.sy w /\ 0 <= z < World.sz w)
    /\ i = cellIndex w x y z.
Proof.
  intros Hsy Hsz Hi. set (q := i / World.sz w).
  pose proof (Z.div_mod i (World.sz w) ltac:(lia)) as Hi'.
  pose proof (Z.mod_pos_bound i (World.sz w) Hsz) as Hz. fold q in Hi'.
  pose proof (Z.div_mod q (World.sy w) ltac:(lia)) as Hq'.
  pose proof (Z.mod_pos_bound q (World.sy w) Hsy) as Hy.
  assert (0 <= q < World.sx w * World.sy w) as Hq.
  { split; [apply Z.div_pos; lia|]. apply Z.div_lt_upper_bound; lia. }
  exists (q / World.sy w), (q mod World.sy w), (i mod World.sz w). split.
  - split; [|auto]. split; [apply Z.div_pos; lia|]. apply Z.div_lt_upper_bound; lia.
  - unfold cellIndex. lia.
Qed.

(** A string of registry codes of the right length decodes into a world that
    encodes to the string again. *)
Lemma createFromString_rebuilds (w : World.t) (str : JsString) :
  wellFormed w -> 0 <= World.sx w -> 0 <= World.sy w -> 0 <= World.sz w ->
  Z.of_nat (length str) = World.sx w * World.sy w * World.sz w ->
  Forall registryCode str ->
  exists w', World.createFromString w str = Ok w' /\ World.toNetworkString w' = Ok str.
Proof.
  intros Hwf Hsx Hsy Hsz Hlen Hcodes.
  destruct (createFromString_loops w str Hwf Hsx Hsy Hsz) as ([blocks' i] & Hrun & Hinv).
  destruct Hinv as (Hshape & _ & Hcells). cbn [fst] in Hshape, Hcells.
  exists (World.set_blocks w blocks'). split.
  - unfold World.createFromString. rewrite (proj2 (Z.eqb_eq _ _) Hlen). cbn [negb].
    rewrite Hrun. reflexivity.
  - rewrite <- (reencoded_known str Hcodes) at 1.
    apply toNetworkString_loops; try assumption.
    intros x y z Hx Hy Hz. apply Hcells; try assumption. unfold visitedBefore. lia.
Qed.

(** X17. A world created with dimensions of 5 to 254 in x and in y and of 1 to 254
    in z serialises without error, whatever the noise and the random numbers.
    The string has one code unit for each slot, each of them the code of one
    of the seven blocks that terrain generation places, and every world of
    these dimensions rebuilds from it a world that serialises to the same
    string. *)
Theorem serializedWorld_rebuilds (createNoise3D : string -> Q -> Q -> Q -> Q)
    (random : nat -> Q) (sx sy sz : Z) :
  5 <= sx <= 254 -> 5 <= sy <= 254 -> 1 <= sz <= 254 ->
  exists str,
    serializedWorld createNoise3D random sx sy sz = Ok str
    /\ Z.of_nat (length str) = sx * sy * sz
    /\ Forall (fun c => c - 97 ∈ terrainIds) str
    /\ forall w0,
         World.sx w0 = sx -> World.sy w0 = sy -> World.sz w0 = sz -> wellFormed w0 ->
         exists w', World.createFromString w0 str = Ok w'
                    /\ World.toNetworkString w' = Ok str.
Proof.
  intros Hsx Hsy Hsz. unfold serializedWorld.
  destruct (generateWorld_terrain createNoise3D random sx sy sz false 0 Hsx Hsy Hsz
              ltac:(discriminate)) as (w & n' & -> & (Hwx & Hwy & Hwz) & Hg & Hterrain).
  cbn [mbind Result_bind].
  assert (wellFormed w) as Hwf by (unfold wellFormed; rewrite Hwx, Hwy, Hwz; apply Hg).
  destruct (toNetworkString_written w Hwf ltac:(lia) ltac:(lia) ltac:(lia))
    as (str & -> & Hlen & Hstr).
  assert (Z.of_nat (length str) = sx * sy * sz) as Hlen'
    by (rewrite Hlen; unfold cellIndex; rewrite Hwy, Hwz; lia).
  assert (Forall (fun c => c - 97 ∈ terrainIds) str) as Hcodes.
  { apply Forall_lookup. intros i c Hc.
    destruct (cellIndex_cover w (Z.of_nat i)) as (x & y & z & (Hx & Hy & Hz) & Hi);
      [lia|lia|apply lookup_lt_Some in Hc; rewrite Hwx, Hwy, Hwz; lia|].
    specialize (Hstr x y z Hx Hy Hz ltac:(unfold visitedBefore; lia)).
    rewrite <- Hi, Nat2Z.id, Hc in Hstr. injection Hstr as ->.
    destruct (proj2 Hg x y z ltac:(lia) ltac:(lia) ltac:(lia)) as [block Hblock].
    destruct (proj1 (Hterrain _ _ _ _ Hblock)) as (k & Hid & Hk).
    unfold idOf. rewrite Hblock. cbn [mbind option_bind]. rewrite Hid.
    cbn [default from_option Datatypes.id].
    assert (0 <= k <= 21) as Hk'.
    { unfold terrainIds in Hk. repeat (apply elem_of_cons in Hk as [->|Hk]); try lia.
      inversion Hk. }
    rewrite Z.mod_small by lia. replace (97 + k - 97) with k by lia. exact Hk. }
  exists str. split; [reflexivity|]. split; [exact Hlen'|]. split; [exact Hcodes|].
  intros w0 H0x H0y H0z Hwf0.
  apply createFromString_rebuilds; [exact Hwf0|lia..| |].
  - rewrite H0x, H0y, H0z. exact Hlen'.
  - apply (Forall_impl _ _ _ Hcodes). intros c Hc. unfold registryCode.
    unfold terrainIds in Hc. repeat (apply elem_of_cons in Hc as [Hc|Hc]); try lia.
    inversion Hc.
Qed.

Lemma serializedWorld_rebuilds_witness :
  exists str,
    serializedWorld flatNoise (constantRandom 0) 5 5 4 = Ok str
    /\ Z.of_nat (length str) = 5 * 5 * 4
    /\ Forall (fun c => c - 97 ∈ terrainIds) str
    /\ forall w0,
         World.sx w0 = 5 -> World.sy w0 = 5 -> World.sz w0 = 4 -> wellFormed w0 ->
         exists w', World.createFromString w0 str = Ok w'
                    /\ World.toNetworkString w' = Ok str.
Proof. apply (serializedWorld_rebuilds flatNoise (constantRandom 0) 5 5 4); lia. Defined.
(** ** The chunk list of the world *)

Section Tiles.

Variable world : World.t.
Variable size : Z.
Hypothesis Hsize : 1 <= size.

(** The chunk that [setWorld] pushes in the turn [(a, b, c)] of its loops. *)
Let tile (a b c : Z) : Renderer.Chunk :=
  Renderer.mkChunk (a * size, b * size, c * size)
    (Z.min (World.sx world) (a * size + size),
     Z.min (World.sy world) (b * size + size),
     Z.min (World.sz world) (c * size + size))
    true None.

(** The turns that come before the turn [(ka, kb, kc)]. *)
Let before (ka kb kc a b c : Z) : Prop :=
  a < ka \/ (a = ka /\ (b < kb \/ (b = kb /\ c < kc))).

(** The chunk list on reaching the turn [(ka, kb, kc)]. *)
Let pushed (ka kb kc : Z) (chunks : list Renderer.Chunk) : Prop :=
  NoDup chunks
  /\ forall chunk, chunk ∈ chunks <->
       exists a b c,
         (0 <= a /\ a * size < World.sx world)
         /\ (0 <= b /\ b * size < World.sy world)
         /\ (0 <= c /\ c * size < World.sz world)
         /\ before ka kb kc a b c /\ chunk = tile a b c.

(** The rule of the strided loop, the turns counted in strides. *)
Lemma stride_loop_invariant {S : Type} (P : Z -> S -> Prop) (body : Z -> S -> option S)
    (hi : Z) :
  forall (fuel : nat) (k : Z) (s : S),
    P k s -> hi - k * size <= Z.of_nat fuel ->
    (forall k' t, k <= k' -> k' * size < hi -> P k' t ->
       exists t', body (k' * size) t = Some t' /\ P (k' + 1) t') ->
    exists k_end s',
      WorldChunks.stride_loop fuel (k * size) hi size body s = Some s'
      /\ P k_end s' /\ k <= k_end /\ hi <= k_end * size.
Proof.
  induction fuel as [|fuel IH]; intros k s Hs Hfuel Hstep;
    cbn [WorldChunks.stride_loop]; destruct (Z.ltb_spec (k * size) hi) as [Hlt|Hge];
    try (exists k, s; repeat split; [exact Hs|lia|lia]).
  - lia.
  - destruct (Hstep k s ltac:(lia) Hlt Hs) as (t' & -> & Ht'). cbn [mbind option_bind].
    replace (k * size + size) with ((k + 1) * size) by lia.
    destruct (IH (k + 1) t' Ht' ltac:(nia)) as (k_end & s' & Hrun & Hs' & Hk & Hend).
    { intros k' t Hk'. apply Hstep. lia. }
    exists k_end, s'. repeat split; [exact Hrun|exact Hs'|lia|exact Hend].
Qed.

Lemma tile_inj a b c a' b' c' : tile a b c = tile a' b' c' -> a = a' /\ b = b' /\ c = c'.
Proof. unfold tile. intros [= Ha Hb Hc _ _ _]. nia. Qed.

Lemma setWorld_pushed (fuel : nat) :
  World.sx world <= Z.of_nat fuel -> World.sy world <= Z.of_nat fuel ->
  World.sz world <= Z.of_nat fuel ->
  exists chunks,
    WorldChunks.setWorld fuel world size
    = Some {| WorldChunks.chunkSize := Some size; WorldChunks.chunks := chunks |}
    /\ NoDup chunks
    /\ forall chunk, chunk ∈ chunks <->
         exists a b c,
           (0 <= a /\ a * size < World.sx world)
           /\ (0 <= b /\ b * size < World.sy world)
           /\ (0 <= c /\ c * size < World.sz world)
           /\ chunk = tile a b c.
Proof.
  intros Hfx Hfy Hfz. unfold WorldChunks.setWorld.
  destruct (stride_loop_invariant (fun ka => pushed ka 0 0)
              (fun x =>
                 WorldChunks.stride_loop fuel 0 (World.sy world) size (fun y =>
                   WorldChunks.stride_loop fuel 0 (World.sz world) size (fun z chunks =>
                     Some (chunks ++
                           [Renderer.mkChunk (x, y, z)
                              (Z.min (World.sx world) (x + size),
                               Z.min (World.sy world) (y + size),
                               Z.min (World.sz world) (z + size))
                              true None]))))
              (World.sx world) fuel 0 [])
    as (ka & chunks & Hrun & [Hnodup Hin] & Hka & Hend).
  { split; [constructor|]. intros chunk. split; [intros Hc; inversion Hc|].
    intros (a & b & c & Ha & Hb & Hc & Hbefore & _). unfold before in Hbefore. lia. }
  { lia. }
  { intros a t Ha Hax Ht.
    destruct (stride_loop_invariant (fun kb => pushed a kb 0)
                (fun y =>
                   WorldChunks.stride_loop fuel 0 (World.sz world) size (fun z chunks =>
                     Some (chunks ++
                           [Renderer.mkChunk (a * size, y, z)
                              (Z.min (World.sx world) (a * size + size),
                               Z.min (World.sy world) (y + size),
                               Z.min (World.sz world) (z + size))
                              true None])))
                (World.sy world) fuel 0 t Ht ltac:(lia))
      as (kb & t' & Hrun & [Hnodup Hin] & Hkb & Hend).
    2:{ exists t'. split; [exact Hrun|]. split; [exact Hnodup|]. intros chunk.
        rewrite Hin. unfold before.
        split; intros (a' & b' & c' & Ha' & Hb' & Hc' & Hbefore & ->);
          exists a', b', c'; (repeat split; try tauto; try lia); nia. }
    intros b t1 Hb Hby Ht1.
    destruct (stride_loop_invariant (fun kc => pushed a b kc)
                (fun z chunks =>
                   Some (chunks ++
                         [Renderer.mkChunk (a * size, b * size, z)
                            (Z.min (World.sx world) (a * size + size),
                             Z.min (World.sy world) (b * size + size),
                             Z.min (World.sz world) (z + size))
                            true None]))
                (World.sz world) fuel 0 t1 Ht1 ltac:(lia))
      as (kc & t1' & Hrun & [Hnodup Hin] & Hkc & Hend).
    2:{ exists t1'. split; [exact Hrun|]. split; [exact Hnodup|]. intros chunk.
        rewrite Hin. unfold before.
        split; intros (a' & b' & c' & Ha' & Hb' & Hc' & Hbefore & ->);
          exists a', b', c'; (repeat split; try tauto; try lia); nia. }
    intros c t2 Hc Hcz [Hnodup Hin]. eexists. split; [reflexivity|]. split.
    - apply NoDup_app. split; [exact Hnodup|]. split; [|apply NoDup_singleton].
      intros chunk Hchunk Hnew. apply list_elem_of_singleton in Hnew. subst chunk.
      apply Hin in Hchunk as (a' & b' & c' & _ & _ & _ & Hbefore & Heq).
      apply tile_inj in Heq as (-> & -> & ->). unfold before in Hbefore. lia.
    - intros chunk. rewrite elem_of_app, list_elem_of_singleton, Hin. unfold before. split.
      + intros [(a' & b' & c' & Ha' & Hb' & Hc' & Hbefore & ->)| ->].
        * exists a', b', c'. repeat split; try tauto; try lia.
        * exists a, b, c. repeat split; try lia.
      + intros (a' & b' & c' & Ha' & Hb' & Hc' & Hbefore & ->).
        destruct (decide (a' = a /\ b' = b /\ c' = c)) as [(-> & -> & ->)|Hne];
          [right; reflexivity|left].
        exists a', b', c'. repeat split; try tauto; try lia. }
  change (0 * size) with 0 in Hrun. rewrite Hrun. cbn [mbind option_bind].
  exists chunks. split; [reflexivity|].
  split; [exact Hnodup|]. intros chunk. rewrite Hin. unfold before.
  split; intros (a & b & c & Ha & Hb & Hc & Hrest); exists a, b, c;
    (repeat split; try tauto; try lia); nia.
Qed.

End Tiles.

(** X18. [setWorld] with a chunk size of at least 1 cuts the world into chunks:
    the loops end, no chunk is listed twice, every chunk is dirty and its box
    is a box of at least one cell within the world, and every cell of the
    world lies in exactly one chunk, the one whose start is the chunk size
    times what [getChunkAtBlock] answers for the cell. *)
Theorem setWorld_tiles (world : World.t) (size : Z) (fuel : nat) :
  1 <= size ->
  World.sx world <= Z.of_nat fuel -> World.sy world <= Z.of_nat fuel ->
  World.sz world <= Z.of_nat fuel ->
  exists this,
    WorldChunks.setWorld fuel world size = Some this
    /\ NoDup (WorldChunks.chunks this)
    /\ (forall chunk, chunk ∈ WorldChunks.chunks this ->
          Renderer.dirty chunk = true
          /\ exists x y z, holds chunk x y z /\ World.isInBounds world x y z = true)
    /\ forall x y z, World.isInBounds world x y z = true ->
         exists chunk a b c,
           chunk ∈ WorldChunks.chunks this /\ holds chunk x y z
           /\ WorldChunks.getChunkAtBlock this x y z = Some (a, b, c)
           /\ Renderer.start chunk = (a * size, b * size, c * size)
           /\ forall chunk', chunk' ∈ WorldChunks.chunks this -> holds chunk' x y z ->
                chunk' = chunk.
Proof.
  intros Hsize Hfx Hfy Hfz.
  destruct (setWorld_pushed world size Hsize fuel Hfx Hfy Hfz) as (chunks & Hrun & Hnodup & Hin).
  eexists. split; [exact Hrun|]. cbn [WorldChunks.chunks]. split; [exact Hnodup|]. split.
  - intros chunk Hchunk. apply Hin in Hchunk as (a & b & c & Ha & Hb & Hc & ->).
    split; [reflexivity|]. exists (a * size), (b * size), (c * size). split.
    + unfold holds. cbn [Renderer.start Renderer.end_]. lia.
    + apply isInBounds_true. nia.
  - intros x y z Hcell. apply isInBounds_true in Hcell as (Hx & Hy & Hz).
    pose proof (Z.div_mod x size ltac:(lia)). pose proof (Z.mod_pos_bound x size ltac:(lia)).
    pose proof (Z.div_mod y size ltac:(lia)). pose proof (Z.mod_pos_bound y size ltac:(lia)).
    pose proof (Z.div_mod z size ltac:(lia)). pose proof (Z.mod_pos_bound z size ltac:(lia)).
    assert (0 <= x / size /\ 0 <= y / size /\ 0 <= z / size) as (Ha & Hb & Hc)
      by (repeat split; apply Z.div_pos; lia).
    eexists _, (x / size), (y / size), (z / size). split; [|split; [|split; [|split]]].
    + apply Hin. exists (x / size), (y / size), (z / size).
      repeat split; try assumption; try reflexivity; nia.
    + unfold holds. cbn [Renderer.start Renderer.end_]. lia.
    + unfold WorldChunks.getChunkAtBlock. cbn [WorldChunks.chunkSize].
      rewrite (proj2 (Z.eqb_neq size 0)) by lia. reflexivity.
    + reflexivity.
    + intros chunk' Hchunk' Hholds.
      apply Hin in Hchunk' as (a & b & c & Ha' & Hb' & Hc' & ->).
      unfold holds in Hholds. cbn [Renderer.start Renderer.end_] in Hholds.
      assert (a = x / size) as -> by nia. assert (b = y / size) as -> by nia.
      assert (c = z / size) as -> by nia. reflexivity.
Qed.

Lemma setWorld_tiles_witness :
  exists this,
    WorldChunks.setWorld 48 (airWorld 40 20 48) 16 = Some this
    /\ NoDup (WorldChunks.chunks this)
    /\ (forall chunk, chunk ∈ WorldChunks.chunks this ->
          Renderer.dirty chunk = true
          /\ exists x y z, holds chunk x y z
                           /\ World.isInBounds (airWorld 40 20 48) x y z = true)
    /\ forall x y z, World.isInBounds (airWorld 40 20 48) x y z = true ->
         exists chunk a b c,
           chunk ∈ WorldChunks.chunks this /\ holds chunk x y z
           /\ WorldChunks.getChunkAtBlock this x y z = Some (a, b, c)
           /\ Renderer.start chunk = (a * 16, b * 16, c * 16)
           /\ forall chunk', chunk' ∈ WorldChunks.chunks this -> holds chunk' x y z ->
                chunk' = chunk.
Proof. apply (setWorld_tiles (airWorld 40 20 48) 16 48); cbn; lia. Defined.

Lemma stride_loop_stuck {S : Type} (body : Z -> S -> option S) (hi step : Z) :
  step <= 0 ->
  forall (fuel : nat) (i : Z) (s : S),
    i < hi -> WorldChunks.stride_loop fuel i hi step body s = None.
Proof.
  intros Hstep. induction fuel as [|fuel IH]; intros i s Hi; cbn [WorldChunks.stride_loop];
    rewrite (proj2 (Z.ltb_lt i hi) Hi); [reflexivity|].
  destruct (body i s) as [s'|]; [|reflexivity]. cbn [mbind option_bind]. apply IH. lia.
Qed.

(** X19. With a chunk size of 0 or less [setWorld] does not return for a world of
    positive extent in x: the outermost loop never advances, whatever the
    number of turns allowed. *)
Theorem setWorld_diverges (world : World.t) (size : Z) (fuel : nat) :
  size <= 0 -> 0 < World.sx world ->
  WorldChunks.setWorld fuel world size = None.
Proof.
  intros Hsize Hsx. unfold WorldChunks.setWorld.
  rewrite (stride_loop_stuck _ _ _ Hsize fuel 0 [] Hsx). reflexivity.
Qed.

Lemma setWorld_diverges_witness :
  WorldChunks.setWorld 1000 (airWorld 16 16 16) 0 = None.
Proof. apply (setWorld_diverges (airWorld 16 16 16) 0 1000); cbn; lia. Defined.
(** ** The rentgen view of the player *)

Lemma setBlock_stores {R : Type} (notify : Z -> Z -> Z -> R -> R) (w : World.t)
    (r : option R) (x y z : Z) (block : BLOCK.Block) (meta : BLOCK.Metadata) :
  wellFormed w -> World.isInBounds w x y z = true ->
  exists blocks' r',
    World.setBlock notify w r x y z (BLOCK.Object block) meta
    = Ok (World.set_blocks w blocks', r', true)
    /\ World.write3 (World.blocks w) x y z (Some (storedBlock (BLOCK.Object block) meta))
       = Ok blocks'.
Proof.
  intros Hwf Hin. unfold World.setBlock. rewrite Hin. cbn [negb].
  pose proof (proj1 (isInBounds_true _ _ _ _) Hin) as (Hx & Hy & Hz).
  destruct (write3_shaped_Ok _ _ _ _ x y z
              (Some (storedBlock (BLOCK.Object block) meta)) Hwf Hx Hy) as [blocks' Hw].
  unfold storedBlock in Hw |- *. rewrite Hw. cbn [mbind Result_bind].
  eexists _, _. split; reflexivity.
Qed.

Lemma map_set_fresh (m : Player.Saved) (key : Z * Z * Z) (block : BLOCK.Block) :
  key ∉ m.*1 -> Player.map_set m key block = m ++ [(key, block)].
Proof.
  induction m as [|[k b] m IH]; intros Hkey; cbn [Player.map_set]; [reflexivity|].
  cbn [fmap list_fmap fst] in Hkey. apply not_elem_of_cons in Hkey as [Hne Hkey].
  destruct (decide (k = key)) as [->|_]; [congruence|]. rewrite IH by exact Hkey. reflexivity.
Qed.

(** The rentgen version of a block is stored, and read back, transparent. *)
Lemma rentgen_transparent (block : BLOCK.Block) (n : Z) :
  BLOCK.id block = Some n ->
  BLOCK.truthy
    (BLOCK.transparent
       (World.validateBlock
          (BLOCK.Object (storedBlock (BLOCK.Object (Player.rentgenBlock block)) []))))
  = true.
Proof.
  intros Hid. unfold storedBlock, World.validateBlock.
  cbn [Player.rentgenBlock BLOCK.id BLOCK.xray BLOCK.rentgenView]. rewrite Hid.
  destruct (n =? 0) eqn:Hn, (BLOCK.xray block);
    cbn [World.withMetadata World.seeThrough BLOCK.id BLOCK.rentgenView BLOCK.xray
         Player.rentgenBlock];
    rewrite ?Hid; cbn [Z.eqb]; rewrite ?Hn; reflexivity.
Qed.

Section RentgenView.

Context {R : Type}.
Variable onBlockChanged : Z -> Z -> Z -> R -> R.
Variable w : World.t.
Hypothesis Hwf : wellFormed w.
Hypothesis Hsx : 0 <= World.sx w.
Hypothesis Hsy : 0 <= World.sy w.
Hypothesis Hsz : 0 <= World.sz w.

Let inside (x y z : Z) : Prop :=
  0 <= x < World.sx w /\ 0 <= y < World.sy w /\ 0 <= z < World.sz w.

(** The cell that [showCaves] leaves at a position. *)
Let shown (x y z : Z) : World.Cell :=
  if opaque (answerAt w x y z)
  then Some (storedBlock (BLOCK.Object (Player.rentgenBlock (answerAt w x y z))) [])
  else World.read3_opt (World.blocks w) x y z.

(** The world keeps its dimensions, lightmap and shape. *)
Let akin (w1 : World.t) : Prop :=
  (World.sx w1 = World.sx w /\ World.sy w1 = World.sy w /\ World.sz w1 = World.sz w)
  /\ World.lightmap w1 = World.lightmap w
  /\ wellFormed w1.

(** The state of the loops of [showCaves] on reaching [(X, Y, Z)]. *)
Let revealed (X Y Z : Z) (st : World.t * option R * Player.Saved) : Prop :=
  akin st.1.1
  /\ (forall x y z, inside x y z ->
        (visitedBefore X Y Z x y z -> World.read3_opt (World.blocks st.1.1) x y z = shown x y z)
        /\ (~ visitedBefore X Y Z x y z ->
            World.read3_opt (World.blocks st.1.1) x y z
            = World.read3_opt (World.blocks w) x y z))
  /\ NoDup st.2.*1
  /\ forall x y z block,
       (x, y, z, block) ∈ st.2 <->
       inside x y z /\ visitedBefore X Y Z x y z
       /\ opaque (answerAt w x y z) = true /\ block = answerAt w x y z.

Lemma akin_write w1 x y z cell blocks' :
  akin w1 -> World.write3 (World.blocks w1) x y z cell = Ok blocks' ->
  akin (World.set_blocks w1 blocks').
Proof.
  intros (Hdims & Hlight & Hshape) Hw. split; [exact Hdims|]. split; [exact Hlight|].
  exact (write3_shaped _ _ _ _ _ _ _ _ _ Hshape Hw).
Qed.

Lemma reveal_step x y z st :
  inside x y z -> revealed x y z st ->
  exists st', Player.reveal onBlockChanged x y z st = Ok st' /\ revealed x y (z + 1) st'.
Proof.
  destruct st as [[w1 r1] saved]. unfold revealed. cbn [fst snd].
  intros Hin (Hakin & Hcells & Hnodup & Hsaved).
  pose proof Hakin as ((Hdx & Hdy & Hdz) & Hlight & Hwf1).
  assert (World.isInBounds w1 x y z = true) as Hbounds
    by (apply isInBounds_true; unfold inside in Hin; lia).
  unfold Player.reveal. rewrite (getBlock_in_bounds w1 x y z Hwf1 Hbounds).
  cbn [mbind Result_bind].
  rewrite (proj2 (Hcells x y z Hin)) by (unfold visitedBefore; lia).
  fold (answerAt w x y z). fold (opaque (answerAt w x y z)).
  assert (forall x' y' z', visitedBefore x y (z + 1) x' y' z'
            <-> visitedBefore x y z x' y' z' \/ (x' = x /\ y' = y /\ z' = z)) as Hnext
    by (unfold visitedBefore; lia).
  destruct (opaque (answerAt w x y z)) eqn:Hopaque.
  - destruct (setBlock_stores onBlockChanged w1 r1 x y z
                (Player.rentgenBlock (answerAt w x y z)) [] Hwf1 Hbounds)
      as (blocks' & r' & -> & Hw).
    cbn [mbind Result_bind]. eexists. split; [reflexivity|]. cbn [fst snd].
    assert ((x, y, z) ∉ saved.*1) as Hfresh.
    { intros Hkey. apply list_elem_of_fmap in Hkey as ([[[x' y'] z'] b] & [= -> -> ->] & Hb).
      apply Hsaved in Hb as (_ & Hv & _). unfold visitedBefore in Hv. lia. }
    rewrite (map_set_fresh _ _ _ Hfresh).
    split; [exact (akin_write _ _ _ _ _ _ Hakin Hw)|]. split; [|split].
    + intros x' y' z' Hin'. cbn [World.blocks World.set_blocks].
      rewrite (read3_opt_write3 _ _ _ _ _ _ x' y' z' Hw). rewrite Hnext. split.
      * intros [Hv|(-> & -> & ->)].
        -- rewrite bool_decide_false by (unfold visitedBefore in Hv; lia).
           apply (Hcells x' y' z' Hin'), Hv.
        -- rewrite bool_decide_true by (unfold inside in Hin; lia).
           unfold shown. rewrite Hopaque. reflexivity.
      * intros Hv. rewrite bool_decide_false by tauto.
        apply (Hcells x' y' z' Hin'). tauto.
    + rewrite fmap_app. apply NoDup_app. split; [exact Hnodup|].
      split; [|apply NoDup_singleton].
      intros key Hkey Hnew. apply list_elem_of_singleton in Hnew. subst key. tauto.
    + intros x' y' z' block. rewrite elem_of_app, list_elem_of_singleton, Hsaved, Hnext.
      split.
      * intros [(Hin' & Hv & Ho & Hb)|[= -> -> -> ->]]; [tauto|].
        split; [exact Hin|]. split; [tauto|]. split; [exact Hopaque|reflexivity].
      * intros (Hin' & [Hv|(-> & -> & ->)] & Ho & ->); [tauto|right; reflexivity].
  - eexists. split; [reflexivity|]. cbn [fst snd].
    split; [exact Hakin|]. split; [|split; [exact Hnodup|]].
    + intros x' y' z' Hin'. rewrite Hnext. split.
      * intros [Hv|(-> & -> & ->)]; [apply (Hcells x' y' z' Hin'), Hv|].
        rewrite (proj2 (Hcells x y z Hin)) by (unfold visitedBefore; lia).
        unfold shown. rewrite Hopaque. reflexivity.
      * intros Hv. apply (Hcells x' y' z' Hin'). tauto.
    + intros x' y' z' block. rewrite Hsaved, Hnext. split; [tauto|].
      intros (Hin' & [Hv|(-> & -> & ->)] & Ho & ->); [tauto|congruence].
Qed.

Lemma showCaves_revealed (r : option R) :
  exists st,
    Player.showCaves onBlockChanged (w, r) = Ok st
    /\ revealed (World.sx w) 0 0 st.
Proof.
  unfold Player.showCaves. cbn [fst].
  apply (for_range_invariant (fun x => revealed x 0 0)); [exact Hsx| |].
  { unfold revealed, akin. cbn [fst snd]. split; [auto|]. split; [|split].
    - intros x y z Hin. split; [unfold visitedBefore, inside in *; lia|reflexivity].
    - constructor.
    - intros x y z block. split; [intros Hb; inversion Hb|].
      unfold visitedBefore, inside. lia. }
  intros x st0 Hx Hst0.
  destruct (for_range_invariant (fun y => revealed x y 0)
              (fun y => for_range 0 (World.sz w) (fun z => Player.reveal onBlockChanged x y z))
              0 (World.sy w) st0 Hsy Hst0) as (st1 & Hrun1 & Hst1).
  2:{ exists st1. split; [exact Hrun1|]. unfold revealed in *.
      destruct Hst1 as (Hakin & Hcells & Hnodup & Hsaved).
      split; [exact Hakin|]. split; [|split; [exact Hnodup|]].
      - intros x' y' z' Hin'. destruct (Hcells x' y' z' Hin') as [Hv Hn].
        split; intros H; [apply Hv|apply Hn]; unfold visitedBefore, inside in *; lia.
      - intros x' y' z' block. rewrite Hsaved. unfold visitedBefore, inside. split;
          intros (Hin' & Hv & Hrest); (split; [exact Hin'|]); (split; [lia|exact Hrest]). }
  intros y st1 Hy Hst1.
  destruct (for_range_invariant (fun z => revealed x y z)
              (fun z => Player.reveal onBlockChanged x y z)
              0 (World.sz w) st1 Hsz Hst1) as (st2 & Hrun2 & Hst2).
  2:{ exists st2. split; [exact Hrun2|]. unfold revealed in *.
      destruct Hst2 as (Hakin & Hcells & Hnodup & Hsaved).
      split; [exact Hakin|]. split; [|split; [exact Hnodup|]].
      - intros x' y' z' Hin'. destruct (Hcells x' y' z' Hin') as [Hv Hn].
        split; intros H; [apply Hv|apply Hn]; unfold visitedBefore, inside in *; lia.
      - intros x' y' z' block. rewrite Hsaved. unfold visitedBefore, inside. split;
          intros (Hin' & Hv & Hrest); (split; [exact Hin'|]); (split; [lia|exact Hrest]). }
  intros z st2 Hz Hst2. apply reveal_step; [unfold inside; lia|exact Hst2].
Qed.

(** The loop of [hideCaves] stores each saved block in its cell. *)
Lemma restore_stores (entries : Player.Saved) :
  forall (w1 : World.t) (r1 : option R),
    akin w1 -> NoDup entries.*1 ->
    (forall x y z block, (x, y, z, block) ∈ entries -> inside x y z) ->
    exists w2 r2,
      Player.restore onBlockChanged entries (w1, r1) = Ok (w2, r2)
      /\ akin w2
      /\ forall x y z,
           (forall block, (x, y, z, block) ∈ entries ->
              World.read3_opt (World.blocks w2) x y z
              = Some (storedBlock (BLOCK.Object block) []))
           /\ ((x, y, z) ∉ entries.*1 ->
               World.read3_opt (World.blocks w2) x y z
               = World.read3_opt (World.blocks w1) x y z).
Proof.
  induction entries as [|[[[x0 y0] z0] b0] entries IH]; intros w1 r1 Hakin Hnodup Hinside.
  - exists w1, r1. split; [reflexivity|]. split; [exact Hakin|].
    intros x y z. split; [intros block Hb; inversion Hb|reflexivity].
  - cbn [Player.restore fst snd]. cbn [fmap list_fmap fst] in Hnodup.
    apply NoDup_cons in Hnodup as [Hfresh Hnodup].
    pose proof Hakin as ((Hdx & Hdy & Hdz) & Hlight & Hwf1).
    assert (World.isInBounds w1 x0 y0 z0 = true) as Hbounds.
    { apply isInBounds_true. pose proof (Hinside x0 y0 z0 b0 ltac:(left)) as Hin.
      unfold inside in Hin. lia. }
    destruct (setBlock_stores onBlockChanged w1 r1 x0 y0 z0 b0 [] Hwf1 Hbounds)
      as (blocks' & r' & -> & Hw).
    cbn [mbind Result_bind].
    destruct (IH (World.set_blocks w1 blocks') r' (akin_write _ _ _ _ _ _ Hakin Hw) Hnodup)
      as (w2 & r2 & Hrun & Hakin2 & Hcells).
    { intros x y z block Hb. apply (Hinside x y z block). right. exact Hb. }
    exists w2, r2. split; [exact Hrun|]. split; [exact Hakin2|].
    intros x y z. destruct (Hcells x y z) as [Hstored Hkept].
    cbn [World.blocks World.set_blocks] in Hkept.
    rewrite (read3_opt_write3 _ _ _ _ _ _ x y z Hw) in Hkept. split.
    + intros block Hb. apply elem_of_cons in Hb as [[= -> -> -> ->]|Hb];
        [|apply Hstored, Hb].
      rewrite Hkept by exact Hfresh. rewrite bool_decide_true; [reflexivity|].
      pose proof (Hinside x0 y0 z0 b0 ltac:(left)) as Hin. unfold inside in Hin. lia.
    + cbn [fmap list_fmap fst]. intros Hkey. apply not_elem_of_cons in Hkey as [Hne Hkey].
      rewrite Hkept by exact Hkey. rewrite bool_decide_false; [reflexivity|].
      intros (-> & -> & -> & _). congruence.
Qed.

End RentgenView.

(** X20. Switching the rentgen view on and off again gives the world back.  On
    a well-formed world both calls of [toggleRentgenView] return.  After
    the first, [getBlock] answers a transparent block or BEDROCK for every
    cell; after the second it answers for every cell a block equivalent to
    the one it answered before the first, the lightmap and the dimensions
    are as they were, and the player holds no saved blocks. *)
Theorem toggleRentgenView_round_trip {R : Type} (onBlockChanged : Z -> Z -> Z -> R -> R)
    (p : Player.t) (w : World.t) (r : option R) :
  wellFormed w ->
  0 <= World.sx w -> 0 <= World.sy w -> 0 <= World.sz w ->
  Player.rentgenView p = false ->
  exists p1 w1 r1 p2 w2 r2,
    Player.toggleRentgenView onBlockChanged p (w, r) = Ok (p1, (w1, r1))
    /\ Player.toggleRentgenView onBlockChanged p1 (w1, r1) = Ok (p2, (w2, r2))
    /\ Player.rentgenView p1 = true
    /\ p2 = {| Player.rentgenView := false; Player.originalBlocks := None |}
    /\ World.lightmap w2 = World.lightmap w
    /\ (World.sx w2 = World.sx w /\ World.sy w2 = World.sy w /\ World.sz w2 = World.sz w)
    /\ forall x y z, World.isInBounds w x y z = true ->
         exists b b1 b2,
           World.getBlock w x y z = Ok (Some b)
           /\ World.getBlock w1 x y z = Ok (Some b1)
           /\ World.getBlock w2 x y z = Ok (Some b2)
           /\ opaque b1 = false
           /\ equivalent b2 b.
Proof.
  intros Hwf Hsx Hsy Hsz Hview. unfold Player.toggleRentgenView. rewrite Hview. cbn [negb].
  destruct (showCaves_revealed onBlockChanged w Hwf Hsx Hsy Hsz r)
    as ([[w1 r1] saved] & -> & Hakin1 & Hcells1 & Hnodup & Hsaved).
  cbn [fst snd] in Hakin1, Hcells1, Hnodup, Hsaved. cbn [mbind Result_bind].
  destruct (restore_stores onBlockChanged w saved w1 r1 Hakin1 Hnodup)
    as (w2 & r2 & Hrun2 & Hakin2 & Hcells2).
  { intros x y z block Hb. apply Hsaved in Hb. tauto. }
  eexists _, w1, r1, _, w2, r2. split; [reflexivity|]. split.
  { cbn [Player.rentgenView Player.originalBlocks negb Player.hideCaves].
    rewrite Hrun2. reflexivity. }
  split; [reflexivity|]. split; [reflexivity|].
  destruct Hakin1 as (Hdims1 & Hlight1 & Hwf1), Hakin2 as (Hdims2 & Hlight2 & Hwf2).
  split; [exact Hlight2|]. split; [exact Hdims2|].
  intros x y z Hin. pose proof (proj1 (isInBounds_true _ _ _ _) Hin) as Hinside.
  assert (World.isInBounds w1 x y z = true) as Hin1 by (apply isInBounds_true; lia).
  assert (World.isInBounds w2 x y z = true) as Hin2 by (apply isInBounds_true; lia).
  rewrite (getBlock_in_bounds w x y z Hwf Hin), (getBlock_in_bounds w1 x y z Hwf1 Hin1),
    (getBlock_in_bounds w2 x y z Hwf2 Hin2).
  eexists _, _, _. split; [reflexivity|]. split; [reflexivity|]. split; [reflexivity|].
  fold (answerAt w x y z).
  rewrite (proj1 (Hcells1 x y z Hinside)) by (unfold visitedBefore; lia).
  destruct (Hcells2 x y z) as [Hstored Hkept].
  destruct (opaque (answerAt w x y z)) eqn:Hopaque.
  - cbn [World.cellValue]. split.
    + pose proof (proj1 (validateBlock_stable
                           (World.cellValue (World.read3_opt (World.blocks w) x y z))))
        as Hid.
      fold (answerAt w x y z) in Hid. unfold opaque. rewrite (rentgen_transparent _ _ Hid). reflexivity.
    + rewrite (Hstored (answerAt w x y z)).
      * cbn [World.cellValue]. apply validateBlock_storedBlock, validateBlock_valid.
      * apply Hsaved. unfold visitedBefore. repeat split; try lia; assumption.
  - fold (answerAt w x y z). split; [exact Hopaque|].
    rewrite Hkept.
    + rewrite (proj1 (Hcells1 x y z Hinside)) by (unfold visitedBefore; lia).
      rewrite Hopaque. fold (answerAt w x y z).
      repeat split.
    + intros Hkey. apply list_elem_of_fmap in Hkey as ([[[x' y'] z'] b] & [= -> -> ->] & Hb).
      apply Hsaved in Hb as (_ & _ & Ho & _). congruence.
Qed.

Lemma toggleRentgenView_round_trip_witness :
  exists p1 w1 r1 p2 w2 r2,
    Player.toggleRentgenView (fun _ _ _ (u : unit) => u) (Player.mk false None)
      (columnWorld, None) = Ok (p1, (w1, r1))
    /\ Player.toggleRentgenView (fun _ _ _ (u : unit) => u) p1 (w1, r1) = Ok (p2, (w2, r2))
    /\ Player.rentgenView p1 = true
    /\ p2 = {| Player.rentgenView := false; Player.originalBlocks := None |}
    /\ World.lightmap w2 = World.lightmap columnWorld
    /\ (World.sx w2 = World.sx columnWorld /\ World.sy w2 = World.sy columnWorld
        /\ World.sz w2 = World.sz columnWorld)
    /\ forall x y z, World.isInBounds columnWorld x y z = true ->
         exists b b1 b2,
           World.getBlock columnWorld x y z = Ok (Some b)
           /\ World.getBlock w1 x y z = Ok (Some b1)
           /\ World.getBlock w2 x y z = Ok (Some b2)
           /\ opaque b1 = false
           /\ equivalent b2 b.
Proof.
  apply (toggleRentgenView_round_trip (fun _ _ _ (u : unit) => u) (Player.mk false None)
           columnWorld None); [compute_done|cbn; lia..|reflexivity].
Defined.
(** ** Generated worlds *)

(** What one turn of the platform loops leaves in the grid. *)
Lemma platform_column t x y h t' x' y' z' :
  (blocks ← World.write3 t x y (h - 1) (Some (World.validateBlock (BLOCK.Object BLOCK.DIRT)));
   blocks ← World.write3 blocks x y h (Some (World.validateBlock (BLOCK.Object BLOCK.AIR)));
   World.write3 blocks x y (h + 1) (Some (World.validateBlock (BLOCK.Object BLOCK.AIR))))
  = Ok t' ->
  World.read3_opt t' x' y' z'
  = if bool_decide (x' = x /\ y' = y /\ h - 1 <= z' <= h + 1 /\ 0 <= z')
    then Some (World.validateBlock
                 (BLOCK.Object (if bool_decide (z' = h - 1) then BLOCK.DIRT else BLOCK.AIR)))
    else World.read3_opt t x' y' z'.
Proof.
  intros Hrun.
  apply bind_Ok in Hrun as (t2 & Hw1 & Hrun). apply bind_Ok in Hrun as (t3 & Hw2 & Hw3).
  rewrite (read3_opt_write3 _ _ _ _ _ _ _ _ _ Hw3), (read3_opt_write3 _ _ _ _ _ _ _ _ _ Hw2),
    (read3_opt_write3 _ _ _ _ _ _ _ _ _ Hw1).
  repeat case_bool_decide; try reflexivity; try lia.
Qed.

Lemma carvePlatform_cells blocks centerX centerY h blocks' x y z :
  World.carvePlatform blocks centerX centerY h = Ok blocks' ->
  centerX - 2 <= x <= centerX + 2 -> centerY - 2 <= y <= centerY + 2 ->
  h - 1 <= z <= h + 1 -> 0 <= z ->
  World.read3_opt blocks' x y z
  = Some (World.validateBlock
            (BLOCK.Object (if bool_decide (z = h - 1) then BLOCK.DIRT else BLOCK.AIR))).
Proof.
  intros Hrun Hx Hy Hz Hz0. set (cell := Some _). revert Hrun. unfold World.carvePlatform.
  apply (for_range_establishes (fun t => World.read3_opt t x y z = cell) _ x); [| |lia].
  - intros t t'.
    apply (for_range_establishes (fun t => World.read3_opt t x y z = cell) _ y); [| |lia].
    + intros t1 t1' Hrun. rewrite (platform_column _ _ _ _ _ _ _ _ Hrun).
      rewrite bool_decide_true by lia. reflexivity.
    + intros y' t1 t1' Hne Hq Hrun. rewrite (platform_column _ _ _ _ _ _ _ _ Hrun).
      rewrite bool_decide_false by lia. exact Hq.
  - intros x' t t' Hne Hq. revert Hq.
    apply (for_range_preserves (fun t => World.read3_opt t x y z = cell)).
    intros y' t1 t1' Hq Hrun. rewrite (platform_column _ _ _ _ _ _ _ _ Hrun).
    rewrite bool_decide_false by lia. exact Hq.
Qed.

(** X14. For dimensions of 5 to 254 in x and in y and of 1 to 254 in z world
    creation succeeds, whatever the noise and the random numbers, and the
    spawn point is the middle of the world at six tenths of its height.  In
    each of the 25 columns within two blocks of the spawn column the slot at
    the spawn height and the slot above it hold AIR, and (the world being at
    least two blocks high) the slot below holds DIRT, which is not
    transparent. *)
Theorem generateWorld_spawn (createNoise3D : string -> Q -> Q -> Q -> Q) (random : nat -> Q)
    (sx sy sz : Z) (n : nat) :
  5 <= sx <= 254 -> 5 <= sy <= 254 -> 1 <= sz <= 254 ->
  exists w n',
    World.generateWorld createNoise3D random (inject_Z sx) (inject_Z sy) (inject_Z sz) n
    = Ok (w, n')
    /\ World.spawnPoint w
       = World.mkVector (inject_Z (sx / 2)) (inject_Z (sy / 2)) (inject_Z (sz * 6 / 10))
    /\ forall x y, sx / 2 - 2 <= x <= sx / 2 + 2 -> sy / 2 - 2 <= y <= sy / 2 + 2 ->
         idOf (World.blocks w) x y (sz * 6 / 10) = BLOCK.id BLOCK.AIR
         /\ idOf (World.blocks w) x y (sz * 6 / 10 + 1) = BLOCK.id BLOCK.AIR
         /\ (2 <= sz ->
             idOf (World.blocks w) x y (sz * 6 / 10 - 1) = BLOCK.id BLOCK.DIRT
             /\ opaqueAt (World.blocks w) x y (sz * 6 / 10 - 1) = true).
Proof.
  intros Hsx Hsy Hsz. unfold World.generateWorld.
  rewrite !isInteger_inject_Z. cbn [negb orb].
  change 0%Q with (inject_Z 0). change 254%Q with (inject_Z 254).
  rewrite !Qle_bool_inject_Z, !Qltb_inject_Z.
  rewrite !(proj2 (Z.leb_gt _ _)), !(proj2 (Z.ltb_ge _ _)) by lia. cbn [orb].
  rewrite !Qfloor_Z. unfold World.constructor.
  rewrite !(proj2 (Z.leb_gt _ _)) by lia. cbn [orb].
  unfold World.generateTerrain.
  destruct (generateTerrain_try_total createNoise3D random sx sy sz
              ltac:(lia) ltac:(lia) ltac:(lia) n) as (blocks & n' & -> & Hg).
  cbn [mbind Result_bind]. unfold World.findSpawnPoint.
  pose proof (centre_inside sx ltac:(lia)) as Hcx.
  pose proof (centre_inside sy ltac:(lia)) as Hcy.
  rewrite !floor_half, floor_scaled in *.
  change (Z.pos 10) with 10.
  assert (0 <= sz * 6 / 10) as Hh by (apply Z.div_pos; lia).
  destruct (carvePlatform_total sx sy sz (sx / 2) (sy / 2) (sz * 6 / 10) Hcx Hcy blocks Hg)
    as (blocks1 & Hplatform & Hg1).
  rewrite Hplatform. cbn [mbind Result_bind].
  match goal with
  | |- context [World.updateLighting
                  {| World.sx := _; World.sy := _; World.sz := _; World.blocks := _;
                     World.spawnPoint := ?p; World.lightmap := ?l |}] =>
      destruct (updateLighting_total sx sy sz blocks1 p l Hg1) as (lightmap' & ->);
      [lia|apply length_replicate|]
  end.
  cbn [mbind Result_bind try_catch]. eexists _, n'. split; [reflexivity|].
  cbn [World.spawnPoint World.blocks]. split; [reflexivity|].
  intros x y Hx Hy. unfold idOf, opaqueAt.
  rewrite !(carvePlatform_cells _ _ _ _ _ _ _ _ Hplatform) by lia.
  rewrite !bool_decide_false by lia. split; [reflexivity|]. split; [reflexivity|].
  intros Hsz2.
  assert (1 <= sz * 6 / 10) by (apply Z.div_le_lower_bound; lia).
  rewrite !(carvePlatform_cells _ _ _ _ _ _ _ _ Hplatform) by lia.
  rewrite !bool_decide_true by lia. split; reflexivity.
Qed.

Lemma generateWorld_spawn_witness :
  exists w n',
    World.generateWorld flatNoise (constantRandom 0) (inject_Z 5) (inject_Z 5) (inject_Z 4) 0
    = Ok (w, n')
    /\ World.spawnPoint w
       = World.mkVector (inject_Z (5 / 2)) (inject_Z (5 / 2)) (inject_Z (4 * 6 / 10))
    /\ forall x y, 5 / 2 - 2 <= x <= 5 / 2 + 2 -> 5 / 2 - 2 <= y <= 5 / 2 + 2 ->
         idOf (World.blocks w) x y (4 * 6 / 10) = BLOCK.id BLOCK.AIR
         /\ idOf (World.blocks w) x y (4 * 6 / 10 + 1) = BLOCK.id BLOCK.AIR
         /\ (2 <= 4 ->
             idOf (World.blocks w) x y (4 * 6 / 10 - 1) = BLOCK.id BLOCK.DIRT
             /\ opaqueAt (World.blocks w) x y (4 * 6 / 10 - 1) = true).
Proof. apply (generateWorld_spawn flatNoise (constantRandom 0) 5 5 4 0); lia. Defined.

(** X15. [generateWorld] checks its arguments in a fixed order and reports the
    first check that fails: a dimension that is not an integer, then one that
    is not positive, then one above 254.  Whatever goes wrong, the promise is
    rejected with an error whose message starts with the same prefix. *)
Theorem generateWorld_refuses (createNoise3D : string -> Q -> Q -> Q -> Q) (random : nat -> Q)
    (sx sy sz : Q) (n : nat) :
  (World.isInteger sx && World.isInteger sy && World.isInteger sz = false ->
   World.generateWorld createNoise3D random sx sy sz n
   = Throw (JsError "Failed to generate world: World dimensions must be integers"))
  /\ (World.isInteger sx && World.isInteger sy && World.isInteger sz = true ->
      (sx <= 0 \/ sy <= 0 \/ sz <= 0)%Q ->
      World.generateWorld createNoise3D random sx sy sz n
      = Throw (JsError "Failed to generate world: World dimensions must be positive"))
  /\ (World.isInteger sx && World.isInteger sy && World.isInteger sz = true ->
      (0 < sx /\ 0 < sy /\ 0 < sz)%Q -> (254 < sx \/ 254 < sy \/ 254 < sz)%Q ->
      World.generateWorld createNoise3D random sx sy sz n
      = Throw (JsError "Failed to generate world: World dimensions cannot exceed 254"))
  /\ (forall e, World.generateWorld createNoise3D random sx sy sz n = Throw e ->
        exists message, e = JsError ("Failed to generate world: " +:+ message)).
Proof.
  unfold World.generateWorld.
  assert (forall a b : Q, Qle_bool a b = true <-> (a <= b)%Q) as Hle
    by (intros; apply Qle_bool_iff).
  assert (forall a b : Q, Qltb a b = true <-> (a < b)%Q) as Hlt.
  { intros a b. unfold Qltb. rewrite negb_true_iff, <- not_true_iff_false, Hle.
    split; [apply Qnot_le_lt|apply Qlt_not_le]. }
  split; [|split; [|split]].
  - intros Hint. apply andb_false_iff in Hint as [Hint|Hint];
      [apply andb_false_iff in Hint as [Hint|Hint]|]; rewrite Hint; cbn [negb orb];
      rewrite ?orb_true_r; reflexivity.
  - intros Hint Hbad. apply andb_true_iff in Hint as [Hint ->].
    apply andb_true_iff in Hint as [-> ->]. cbn [negb orb].
    assert (Qle_bool sx 0 || Qle_bool sy 0 || Qle_bool sz 0 = true) as ->; [|reflexivity].
    rewrite !orb_true_iff, !Hle. tauto.
  - intros Hint (Hx & Hy & Hz) Hbig. apply andb_true_iff in Hint as [Hint ->].
    apply andb_true_iff in Hint as [-> ->]. cbn [negb orb].
    assert (Qle_bool sx 0 || Qle_bool sy 0 || Qle_bool sz 0 = false) as ->.
    { rewrite !orb_false_iff, <- !not_true_iff_false, !Hle.
      repeat split; apply Qlt_not_le; assumption. }
    assert (Qltb 254 sx || Qltb 254 sy || Qltb 254 sz = true) as ->; [|reflexivity].
    rewrite !orb_true_iff, !Hlt. tauto.
  - intros e. unfold try_catch.
    match goal with |- match ?body with _ => _ end = _ -> _ => destruct body as [|e0] end;
      [discriminate|].
    intros [= <-]. eexists. reflexivity.
Qed.
(** ** Perlin noise *)

Lemma land_15_cases (hash : Z) :
  Z.land hash 15 ∈ seqZ 0 16.
Proof.
  apply elem_of_seqZ. change 15 with (Z.ones 4). rewrite Z.land_ones by lia.
  pose proof (Z.mod_pos_bound hash (2 ^ 4) ltac:(lia)). lia.
Qed.

Lemma fastGrad_vector (hash : Z) (x y z : Q) :
  (PerlinNoise.fastGrad hash x y z = None <-> 12 <= Z.land hash 15)
  /\ forall g, PerlinNoise.fastGrad hash x y z = Some g ->
       exists a b c, gradients !! Z.to_nat (Z.land hash 15) = Some (a, b, c)
                     /\ g = (a * x + b * y + c * z)%Q
                     /\ (Qabs g <= Qabs x + Qabs y + Qabs z)%Q.
Proof.
  unfold PerlinNoise.fastGrad.
  pose proof (land_15_cases hash) as Hh.
  set (h := Z.land hash 15) in *.
  assert (forall a b c : Q, (Qabs a <= 1 -> Qabs b <= 1 -> Qabs c <= 1 ->
            Qabs (a * x + b * y + c * z) <= Qabs x + Qabs y + Qabs z)%Q) as Hbound.
  { intros a b c Ha Hb Hc.
    eapply Qle_trans; [apply Qabs_triangle|]. apply Qplus_le_compat.
    - eapply Qle_trans; [apply Qabs_triangle|]. apply Qplus_le_compat.
      + rewrite Qabs_Qmult. rewrite <- (Qmult_1_l (Qabs x)) at 2.
        apply Qmult_le_compat_r; [exact Ha|apply Qabs_nonneg].
      + rewrite Qabs_Qmult. rewrite <- (Qmult_1_l (Qabs y)) at 2.
        apply Qmult_le_compat_r; [exact Hb|apply Qabs_nonneg].
    - rewrite Qabs_Qmult. rewrite <- (Qmult_1_l (Qabs z)) at 2.
      apply Qmult_le_compat_r; [exact Hc|apply Qabs_nonneg]. }
  cbv [seqZ] in Hh. cbn in Hh.
  repeat (apply elem_of_cons in Hh as [->|Hh]);
    try (split; [split; [discriminate|lia]|];
         intros g [= <-]; eexists _, _, _; split; [reflexivity|]; split; [reflexivity|];
         apply Hbound; discriminate);
    try (split; [split; [lia|reflexivity]|discriminate]).
  inversion Hh.
Qed.

(** X21. [fastGrad] answers [NaN] exactly for the hashes whose low four bits are 12
    or more, the vector table holding twelve vectors only.  For every other
    hash the answer is the product of the point with the vector that the
    hash selects, and at most the sum of the magnitudes of the coordinates. *)
Theorem fastGrad_defined (hash : Z) (x y z : Q) :
  (PerlinNoise.fastGrad hash x y z = None <-> 12 <= Z.land hash 15)
  /\ forall g, PerlinNoise.fastGrad hash x y z = Some g ->
       exists a b c, gradients !! Z.to_nat (Z.land hash 15) = Some (a, b, c)
                     /\ g = (a * x + b * y + c * z)%Q
                     /\ (Qabs g <= Qabs x + Qabs y + Qabs z)%Q.
Proof. apply fastGrad_vector. Qed.

Lemma toInt32_inject_Z (i : Z) :
  - 2 ^ 31 <= i < 2 ^ 31 -> PerlinNoise.toInt32 (inject_Z i) = i.
Proof.
  intros Hi. unfold PerlinNoise.toInt32. cbn [Qnum Qden inject_Z].
  rewrite Z.quot_1_r, Z.mod_small by lia. lia.
Qed.

Lemma toInt32_nonneg (x : Q) :
  (0 <= x)%Q -> (x < inject_Z (2 ^ 31))%Q ->
  PerlinNoise.toInt32 x = Qnum x / Z.pos (Qden x)
  /\ 0 <= Qnum x / Z.pos (Qden x) < 2 ^ 31.
Proof.
  destruct x as [n d]. unfold Qle, Qlt, PerlinNoise.toInt32. cbn [Qnum Qden inject_Z].
  intros H0 Hlt.
  assert (0 <= n) by lia.
  assert (0 <= n / Z.pos d < 2 ^ 31) as Hq.
  { split; [apply Z.div_pos; lia|]. apply Z.div_lt_upper_bound; lia. }
  split; [|exact Hq].
  rewrite Z.quot_div_nonneg by lia. rewrite Z.mod_small by lia. lia.
Qed.

Lemma toInt32_shift (x : Q) (m : Z) :
  (0 <= x)%Q -> 0 <= m -> (x + inject_Z m < inject_Z (2 ^ 31))%Q ->
  PerlinNoise.toInt32 (x + inject_Z m) = PerlinNoise.toInt32 x + m.
Proof.
  intros H0 Hm Hlt.
  assert (0 <= inject_Z m)%Q as Hm' by (change 0%Q with (inject_Z 0); rewrite <- Zle_Qle; exact Hm).
  destruct (toInt32_nonneg (x + inject_Z m)) as [-> _];
    [apply Qle_trans with x; [exact H0|]; rewrite <- (Qplus_0_r x) at 1;
     apply Qplus_le_compat; [apply Qle_refl|exact Hm']|exact Hlt|].
  destruct (toInt32_nonneg x) as [-> _]; [exact H0| |].
  { eapply Qle_lt_trans; [|exact Hlt]. rewrite <- (Qplus_0_r x) at 1.
    apply Qplus_le_compat; [apply Qle_refl|exact Hm']. }
  destruct x as [n d]. cbn [Qplus Qnum Qden inject_Z].
  rewrite Pos.mul_1_r, Z.mul_1_r. apply Z.div_add. lia.
Qed.

Lemma noise3D_ext (buffer : PerlinNoise.Buffer) (x y z x' y' z' : Q) :
  Z.land (PerlinNoise.toInt32 x) 255 = Z.land (PerlinNoise.toInt32 x') 255 ->
  Z.land (PerlinNoise.toInt32 y) 255 = Z.land (PerlinNoise.toInt32 y') 255 ->
  Z.land (PerlinNoise.toInt32 z) 255 = Z.land (PerlinNoise.toInt32 z') 255 ->
  Qred (x - inject_Z (PerlinNoise.toInt32 x)) = Qred (x' - inject_Z (PerlinNoise.toInt32 x')) ->
  Qred (y - inject_Z (PerlinNoise.toInt32 y)) = Qred (y' - inject_Z (PerlinNoise.toInt32 y')) ->
  Qred (z - inject_Z (PerlinNoise.toInt32 z)) = Qred (z' - inject_Z (PerlinNoise.toInt32 z')) ->
  PerlinNoise.noise3D buffer x y z = PerlinNoise.noise3D buffer x' y' z'.
Proof.
  intros HX HY HZ Hx Hy Hz. unfold PerlinNoise.noise3D. cbv zeta.
  rewrite HX, HY, HZ, Hx, Hy, Hz. reflexivity.
Qed.

Lemma cell_shift (x : Q) (a : Z) :
  (0 <= x)%Q -> 0 <= a -> (x + inject_Z (256 * a) < inject_Z (2 ^ 31))%Q ->
  Z.land (PerlinNoise.toInt32 (x + inject_Z (256 * a))) 255
  = Z.land (PerlinNoise.toInt32 x) 255
  /\ Qred (x + inject_Z (256 * a) - inject_Z (PerlinNoise.toInt32 (x + inject_Z (256 * a))))
     = Qred (x - inject_Z (PerlinNoise.toInt32 x)).
Proof.
  intros H0 Ha Hlt. rewrite toInt32_shift by (assumption || lia). split.
  - change 255 with (Z.ones 8). rewrite !Z.land_ones by lia.
    change (2 ^ 8) with 256. rewrite Z.mul_comm. apply Z.mod_add. lia.
  - apply Qred_complete. rewrite inject_Z_plus. ring.
Qed.

(** X22. In each coordinate [noise3D] has the period 256 on the numbers from 0 up
    to the 32-bit range. *)
Theorem noise3D_period (buffer : PerlinNoise.Buffer) (x y z : Q) (a b c : Z) :
  (0 <= x)%Q -> (0 <= y)%Q -> (0 <= z)%Q -> 0 <= a -> 0 <= b -> 0 <= c ->
  (x + inject_Z (256 * a) < inject_Z (2 ^ 31))%Q ->
  (y + inject_Z (256 * b) < inject_Z (2 ^ 31))%Q ->
  (z + inject_Z (256 * c) < inject_Z (2 ^ 31))%Q ->
  PerlinNoise.noise3D buffer (x + inject_Z (256 * a)) (y + inject_Z (256 * b))
                      (z + inject_Z (256 * c))
  = PerlinNoise.noise3D buffer x y z.
Proof.
  intros Hx Hy Hz Ha Hb Hc Hxa Hyb Hzc.
  destruct (cell_shift x a Hx Ha Hxa), (cell_shift y b Hy Hb Hyb), (cell_shift z c Hz Hc Hzc).
  apply noise3D_ext; assumption.
Qed.

Lemma noise3D_period_witness :
  PerlinNoise.noise3D PerlinNoise.constructor ((1 # 2) + inject_Z (256 * 1))
                      ((3 # 4) + inject_Z (256 * 2)) (5 + inject_Z (256 * 0))
  = PerlinNoise.noise3D PerlinNoise.constructor (1 # 2) (3 # 4) 5.
Proof.
  apply (noise3D_period PerlinNoise.constructor (1 # 2) (3 # 4) 5 1 2 0);
    try discriminate; try lia; reflexivity.
Defined.

Lemma lerp_zero (a b : option Q) (r : Q) :
  PerlinNoise.lerp 0 a b = Some r -> exists a', a = Some a' /\ (r == a')%Q.
Proof.
  destruct a as [a'|], b as [b'|]; try discriminate. intros [= <-].
  exists a'. split; [reflexivity|ring].
Qed.

Lemma Qred_zero (q : Q) : (q == 0)%Q -> Qred q = 0%Q.
Proof. intros Hq. apply (Qred_complete q 0 Hq). Qed.

Lemma fastGrad_origin (hash : Z) (g : Q) :
  PerlinNoise.fastGrad hash 0 0 0 = Some g -> (g == 0)%Q.
Proof.
  intros Hg. destruct (fastGrad_vector hash 0 0 0) as [_ Hvec].
  destruct (Hvec g Hg) as (a & b & c & _ & -> & _). ring.
Qed.

(** X23. At a point with integer coordinates in the 32-bit range [noise3D] is 0,
    or it is [NaN] ([None]). *)
Theorem noise3D_lattice (buffer : PerlinNoise.Buffer) (i j k : Z) :
  - 2 ^ 31 <= i < 2 ^ 31 -> - 2 ^ 31 <= j < 2 ^ 31 -> - 2 ^ 31 <= k < 2 ^ 31 ->
  match PerlinNoise.noise3D buffer (inject_Z i) (inject_Z j) (inject_Z k) with
  | Some r => (r == 0)%Q
  | None => True
  end.
Proof.
  intros Hi Hj Hk.
  destruct (PerlinNoise.noise3D _ _ _ _) as [r|] eqn:Hr; [|exact I].
  revert Hr. unfold PerlinNoise.noise3D. cbv zeta.
  rewrite !toInt32_inject_Z by assumption.
  rewrite !(Qred_zero (inject_Z _ - inject_Z _)) by ring.
  change (0 * 0 * 0 * (0 * (0 * 6 - 15) + 10))%Q with 0%Q.
  intros Hr.
  apply lerp_zero in Hr as (r1 & Hr & ->).
  apply lerp_zero in Hr as (r2 & Hr & ->).
  apply lerp_zero in Hr as (r3 & Hr & ->).
  exact (fastGrad_origin _ _ Hr).
Qed.

Lemma noise3D_lattice_witness :
  match PerlinNoise.noise3D PerlinNoise.constructor (inject_Z 3) (inject_Z (-7))
                            (inject_Z 300) with
  | Some r => (r == 0)%Q
  | None => True
  end.
Proof. apply (noise3D_lattice PerlinNoise.constructor 3 (-7) 300); lia. Defined.

(** X24. The two tables of the constructor are views of one buffer, so the writes
    to the one overwrite the other.  After the constructor, [#permMod] holds
    the permutation at the indices below 256 only; from 256 on it holds the
    low bytes of [#perm].  [#perm] holds two permutation entries packed into
    each of its first 128 elements, the permutation itself at the indices
    128 to 254 and 256 to 511, and 257 times the last entry at 255. *)
Theorem constructor_tables (k : Z) :
  0 <= k < 512 ->
  PerlinNoise.permMod PerlinNoise.constructor k
  = (if k <? 256 then permutation k
     else if k =? 511 then permutation 255
     else if Z.even k then permutation (k / 2) else 0)
  /\ PerlinNoise.perm PerlinNoise.constructor k
     = (if k <? 128 then permutation (2 * k) + 256 * permutation (2 * k + 1)
        else if k =? 255 then 257 * permutation 255
        else if k <? 256 then permutation k else permutation (k - 256)).
Proof.
  intros Hk.
  assert (Forall (fun k =>
            PerlinNoise.permMod PerlinNoise.constructor k
            = (if k <? 256 then permutation k
               else if k =? 511 then permutation 255
               else if Z.even k then permutation (k / 2) else 0)
            /\ PerlinNoise.perm PerlinNoise.constructor k
               = (if k <? 128 then permutation (2 * k) + 256 * permutation (2 * k + 1)
                  else if k =? 255 then 257 * permutation 255
                  else if k <? 256 then permutation k else permutation (k - 256)))
            (seqZ 0 512)) as Hall.
  { compute_done. }
  rewrite Forall_forall in Hall. apply Hall, elem_of_seqZ. lia.
Qed.

Lemma constructor_tables_witness :
  PerlinNoise.permMod PerlinNoise.constructor 256
  = (if 256 <? 256 then permutation 256
     else if 256 =? 511 then permutation 255
     else if Z.even 256 then permutation (256 / 2) else 0)
  /\ PerlinNoise.perm PerlinNoise.constructor 256
     = (if 256 <? 128 then permutation (2 * 256) + 256 * permutation (2 * 256 + 1)
        else if 256 =? 255 then 257 * permutation 255
        else if 256 <? 256 then permutation 256 else permutation (256 - 256)).
Proof. apply (constructor_tables 256). lia. Defined.
(** ** Physics *)


(** X25. [simulate()] leaves a world without empty slots as it is: on a grid of
    the extents of the world in which every slot holds a block, it returns,
    records the step, and changes neither a block nor the lightmap nor the
    renderer, whatever the step and whatever the blocks: the tests for an
    empty slot below a gravity block and beside a fluid block never hold,
    AIR being a block. *)
Theorem simulate_populated {R : Type} (onBlockChanged : Z -> Z -> Z -> R -> R)
    (p : Physics.t) (step : Z) (w : World.t) (r : option R) :
  grid (World.sx w) (World.sy w) (World.sz w) (World.blocks w) ->
  Physics.simulate onBlockChanged p step (w, r) = Ok (Physics.mk step, (w, r)).
Proof.
  intros Hg. unfold Physics.simulate. cbn [fst snd].
  destruct (Z.eqb_spec step (Physics.lastStep p)) as [->|_]; [destruct p; reflexivity|].
  assert (forall x y z, 0 <= x < World.sx w -> 0 <= y < World.sy w -> 0 <= z < World.sz w ->
            forall gravity, gravity && (z >? 0) = true ->
            Physics.vacant (w, r) x y (z - 1) = Ok false) as Hbelow.
  { intros x y z Hx Hy Hz gravity Hgz. unfold Physics.vacant. cbn [fst].
    rewrite (read3_grid _ _ _ _ _ _ _ Hg) by lia. cbn [mbind Result_bind].
    apply andb_true_iff in Hgz as [_ Hz0]. apply Z.gtb_gt in Hz0.
    destruct (proj2 Hg x y (z - 1)) as [block ->]; [lia..|]. reflexivity. }
  assert (forall block inside x y z spawned,
            (inside = true -> 0 <= x < World.sx w /\ 0 <= y < World.sy w) ->
            0 <= z < World.sz w ->
            Physics.spread onBlockChanged block inside x y z (w, r, spawned)
            = Ok (w, r, spawned)) as Hbeside.
  { intros block inside x y z spawned Hin Hz. unfold Physics.spread.
    destruct inside; [|reflexivity]. destruct (Hin eq_refl) as [Hx Hy].
    unfold Physics.vacant. cbn [fst].
    rewrite (read3_grid _ _ _ _ _ _ _ Hg) by lia. cbn [mbind Result_bind].
    destruct (proj2 Hg x y z) as [neighbour ->]; [lia..|]. reflexivity. }
  assert (for_range 0 (World.sx w) (fun x =>
            for_range 0 (World.sy w) (fun y =>
              for_range 0 (World.sz w) (fun z => Physics.fall onBlockChanged x y z)))
            (w, r) = Ok (w, r)) as Hgravity.
  { apply for_range_unchanged. intros x Hx. apply for_range_unchanged. intros y Hy.
    apply for_range_unchanged. intros z Hz. unfold Physics.fall. cbn [fst].
    rewrite (read3_grid _ _ _ _ _ _ _ Hg) by lia. cbn [mbind Result_bind].
    destruct (World.read3_opt _ x y z) as [block|]; [|reflexivity].
    destruct (_ && _) eqn:Hgz; [|reflexivity].
    rewrite (Hbelow x y z Hx Hy Hz _ Hgz). reflexivity. }
  assert (for_range 0 (World.sx w) (fun x =>
            for_range 0 (World.sy w) (fun y =>
              for_range 0 (World.sz w) (fun z =>
                Physics.flow onBlockChanged (World.sx w) (World.sy w) x y z)))
            (w, r, ∅) = Ok (w, r, ∅)) as Hfluids.
  { apply for_range_unchanged. intros x Hx. apply for_range_unchanged. intros y Hy.
    apply for_range_unchanged. intros z Hz. unfold Physics.flow. cbn [fst].
    rewrite (read3_grid _ _ _ _ _ _ _ Hg) by lia. cbn [mbind Result_bind].
    destruct (World.read3_opt _ x y z) as [block|]; [|reflexivity].
    destruct (_ && _); [|reflexivity].
    repeat (rewrite Hbeside;
            [cbn [mbind Result_bind]
            |intros Hin; first [apply Z.gtb_gt in Hin|apply Z.ltb_lt in Hin]; lia
            |assumption]).
    reflexivity. }
  destruct (Z.rem step 1 =? 0); rewrite ?Hgravity; cbn [mbind Result_bind];
    (destruct (Z.rem step 10 =? 0); rewrite ?Hfluids; reflexivity).
Qed.
(** The rule of the counting loop for a body that keeps a property of the
    state or throws one error. *)
Lemma for_loop_settles {St : Type} (P : St -> Prop) (e0 : Error) (body : Z -> St -> Result St) :
  forall (n : nat) (lo : Z) (s : St),
    (forall i t, lo <= i < lo + Z.of_nat n -> P t ->
       (exists t', body i t = Ok t' /\ P t') \/ body i t = Throw e0) ->
    P s ->
    (exists s', for_loop n lo body s = Ok s' /\ P s') \/ for_loop n lo body s = Throw e0.
Proof.
  induction n as [|n IH]; intros lo s Hstep Hs; cbn [for_loop].
  - left. exists s. split; [reflexivity|exact Hs].
  - destruct (Hstep lo s ltac:(lia) Hs) as [(s1 & -> & Hs1)| ->]; [|right; reflexivity].
    apply IH; [|exact Hs1]. intros i t Hi. apply Hstep. lia.
Qed.

Lemma for_range_settles {St : Type} (P : St -> Prop) (e0 : Error) (body : Z -> St -> Result St)
    (lo hi : Z) (s : St) :
  (forall i t, lo <= i < hi -> P t ->
     (exists t', body i t = Ok t' /\ P t') \/ body i t = Throw e0) ->
  P s ->
  (exists s', for_range lo hi body s = Ok s' /\ P s') \/ for_range lo hi body s = Throw e0.
Proof.
  intros Hstep Hs. unfold for_range. apply for_loop_settles; [|exact Hs].
  intros i t Hi. apply Hstep. lia.
Qed.

(** If moreover one turn throws whenever the property holds, the loop throws. *)
Lemma for_loop_throws_in {St : Type} (P : St -> Prop) (e0 : Error) (body : Z -> St -> Result St)
    (i0 : Z) :
  forall (n : nat) (lo : Z) (s : St),
    (forall i t, lo <= i < lo + Z.of_nat n -> P t ->
       (exists t', body i t = Ok t' /\ P t') \/ body i t = Throw e0) ->
    (forall t, P t -> body i0 t = Throw e0) ->
    lo <= i0 < lo + Z.of_nat n -> P s ->
    for_loop n lo body s = Throw e0.
Proof.
  induction n as [|n IH]; intros lo s Hstep Hthrow Hi Hs; [lia|]. cbn [for_loop].
  destruct (decide (lo = i0)) as [->|Hne]; [rewrite (Hthrow s Hs); reflexivity|].
  destruct (Hstep lo s ltac:(lia) Hs) as [(s1 & -> & Hs1)| ->]; [|reflexivity].
  apply IH; [|exact Hthrow|lia|exact Hs1]. intros i t Hi'. apply Hstep. lia.
Qed.

Lemma for_range_throws_in {St : Type} (P : St -> Prop) (e0 : Error) (body : Z -> St -> Result St)
    (i0 lo hi : Z) (s : St) :
  (forall i t, lo <= i < hi -> P t ->
     (exists t', body i t = Ok t' /\ P t') \/ body i t = Throw e0) ->
  (forall t, P t -> body i0 t = Throw e0) ->
  lo <= i0 < hi -> P s ->
  for_range lo hi body s = Throw e0.
Proof.
  intros Hstep Hthrow Hi Hs. unfold for_range.
  apply (for_loop_throws_in P e0 body i0); [|exact Hthrow|lia|exact Hs].
  intros i t Hi'. apply Hstep. lia.
Qed.

Section Gravity.

Context {R : Type}.
Variable onBlockChanged : Z -> Z -> Z -> R -> R.
Variable w : World.t.
Variable r : option R.

Lemma read3_TypeError blocks x y z e : World.read3 blocks x y z = Throw e -> e = TypeError.
Proof.
  unfold World.read3. destruct (js_get blocks x) as [row|]; [|congruence].
  destruct (js_get row y); [discriminate|congruence].
Qed.

Lemma write3_TypeError blocks x y z cell e :
  World.write3 blocks x y z cell = Throw e -> e = TypeError.
Proof.
  unfold World.write3. destruct (js_get blocks x) as [row|]; [|congruence].
  destruct (js_get row y); [discriminate|congruence].
Qed.

Lemma place_null (s : World.t * option R) x y z :
  World.isInBounds s.1 x y z = true ->
  Physics.place onBlockChanged s x y z BLOCK.Nullish = Throw TypeError.
Proof. intros Hin. unfold Physics.place, World.setBlock. rewrite Hin. reflexivity. Qed.

Lemma place_object (s : World.t * option R) x y z block :
  (exists s', Physics.place onBlockChanged s x y z (BLOCK.Object block) = Ok s'
              /\ forall x' y' z', World.isInBounds s'.1 x' y' z' = World.isInBounds s.1 x' y' z')
  \/ Physics.place onBlockChanged s x y z (BLOCK.Object block) = Throw TypeError.
Proof.
  unfold Physics.place, World.setBlock.
  destruct (negb (World.isInBounds s.1 x y z)); cbn [mbind Result_bind].
  - left. eexists. split; reflexivity.
  - destruct (World.write3 _ _ _ _ _) as [blocks'|e] eqn:Hw; cbn [mbind Result_bind].
    + left. eexists. split; reflexivity.
    + right. rewrite (write3_TypeError _ _ _ _ _ _ Hw). reflexivity.
Qed.

(** Moving a block down ends in [setBlock(x, y, z, null)], which throws. *)
Lemma drop_throws x y z block :
  World.isInBounds w x y z = true ->
  (s ← Physics.place onBlockChanged (w, r) x y (z - 1) (BLOCK.Object block);
   Physics.place onBlockChanged s x y z BLOCK.Nullish) = Throw TypeError.
Proof.
  intros Hin.
  destruct (place_object (w, r) x y (z - 1) block) as [(s' & -> & Hdims)| ->];
    [|reflexivity].
  cbn [mbind Result_bind]. apply place_null. rewrite Hdims. exact Hin.
Qed.

Lemma fall_settles x y z :
  World.isInBounds w x y z = true ->
  Physics.fall onBlockChanged x y z (w, r) = Ok (w, r)
  \/ Physics.fall onBlockChanged x y z (w, r) = Throw TypeError.
Proof.
  intros Hin. unfold Physics.fall, Physics.vacant. cbn [fst].
  destruct (World.read3 (World.blocks w) x y z) as [[block|]|e] eqn:Hread;
    cbn [mbind Result_bind]; [|left; reflexivity|right; f_equal; exact (read3_TypeError _ _ _ _ _ Hread)].
  destruct (_ && _); [|left; reflexivity].
  destruct (World.read3 (World.blocks w) x y (z - 1)) as [below|e] eqn:Hbelow;
    cbn [mbind Result_bind]; [|right; f_equal; exact (read3_TypeError _ _ _ _ _ Hbelow)].
  destruct (bool_decide (below = None)); [|left; reflexivity].
  right. apply drop_throws, Hin.
Qed.

Lemma read3_Some blocks x y z block :
  World.read3_opt blocks x y z = Some block ->
  World.read3 blocks x y z = Ok (Some block)
  /\ forall z', World.read3 blocks x y z' = Ok (World.read3_opt blocks x y z').
Proof.
  unfold World.read3, World.read3_opt.
  destruct (js_get blocks x) as [row|]; [|discriminate].
  destruct (js_get row y) as [column|]; [|discriminate].
  intros ->. split; reflexivity.
Qed.

Lemma fall_throws x y z block :
  World.isInBounds w x y z = true -> 0 < z ->
  World.read3_opt (World.blocks w) x y z = Some block ->
  BLOCK.truthy (BLOCK.gravity block) = true ->
  World.read3_opt (World.blocks w) x y (z - 1) = None ->
  Physics.fall onBlockChanged x y z (w, r) = Throw TypeError.
Proof.
  intros Hin Hz Hblock Hgravity Hbelow. unfold Physics.fall, Physics.vacant. cbn [fst].
  destruct (read3_Some _ _ _ _ _ Hblock) as [-> Hcolumn]. cbn [mbind Result_bind].
  rewrite Hgravity, (proj2 (Z.gtb_gt z 0)) by lia. cbn [andb].
  rewrite Hcolumn, Hbelow. cbn [mbind Result_bind].
  rewrite bool_decide_true by reflexivity. apply drop_throws, Hin.
Qed.

(** The gravity loops return the scene as it was, or throw. *)
Lemma gravity_settles :
  (exists s', for_range 0 (World.sx w) (fun x =>
                for_range 0 (World.sy w) (fun y =>
                  for_range 0 (World.sz w) (fun z => Physics.fall onBlockChanged x y z)))
                (w, r) = Ok s' /\ s' = (w, r))
  \/ for_range 0 (World.sx w) (fun x =>
       for_range 0 (World.sy w) (fun y =>
         for_range 0 (World.sz w) (fun z => Physics.fall onBlockChanged x y z)))
       (w, r) = Throw TypeError.
Proof.
  apply for_range_settles; [|reflexivity]. intros x t Hx ->.
  apply for_range_settles; [|reflexivity]. intros y t Hy ->.
  apply for_range_settles; [|reflexivity]. intros z t Hz ->.
  destruct (fall_settles x y z) as [-> | ->]; [apply isInBounds_true; lia| |];
    [left; eauto|right; reflexivity].
Qed.

Lemma gravity_throws x y z block :
  World.isInBounds w x y z = true -> 0 < z ->
  World.read3_opt (World.blocks w) x y z = Some block ->
  BLOCK.truthy (BLOCK.gravity block) = true ->
  World.read3_opt (World.blocks w) x y (z - 1) = None ->
  for_range 0 (World.sx w) (fun x =>
    for_range 0 (World.sy w) (fun y =>
      for_range 0 (World.sz w) (fun z => Physics.fall onBlockChanged x y z)))
    (w, r) = Throw TypeError.
Proof.
  intros Hin Hz Hblock Hgravity Hbelow. pose proof (proj1 (isInBounds_true _ _ _ _) Hin) as Hb.
  assert (forall x y z t, 0 <= x < World.sx w -> 0 <= y < World.sy w -> 0 <= z < World.sz w ->
            t = (w, r) ->
            (exists t', Physics.fall onBlockChanged x y z t = Ok t' /\ t' = (w, r))
            \/ Physics.fall onBlockChanged x y z t = Throw TypeError) as Hfall.
  { intros x' y' z' t Hx' Hy' Hz' ->.
    destruct (fall_settles x' y' z') as [-> | ->]; [apply isInBounds_true; lia| |];
      [left; eauto|right; reflexivity]. }
  apply (for_range_throws_in (fun t => t = (w, r)) TypeError _ x); [| |lia|reflexivity].
  - intros x' t Hx' ->. apply for_range_settles; [|reflexivity]. intros y' t Hy' ->.
    apply for_range_settles; [|reflexivity]. intros z' t Hz' ->. apply Hfall; auto.
  - intros t ->.
    apply (for_range_throws_in (fun t => t = (w, r)) TypeError _ y); [| |lia|reflexivity].
    + intros y' t Hy' ->. apply for_range_settles; [|reflexivity].
      intros z' t Hz' ->. apply Hfall; auto; lia.
    + intros t ->.
      apply (for_range_throws_in (fun t => t = (w, r)) TypeError _ z); [| |lia|reflexivity].
      * intros z' t Hz' ->. apply Hfall; auto; lia.
      * intros t ->. exact (fall_throws x y z block Hin Hz Hblock Hgravity Hbelow).
Qed.

End Gravity.

(** X26. Gravity never moves a block.  A call of [simulate()] whose step is not a
    multiple of 10, so that the fluid pass is skipped, and that returns has
    left the blocks, the lightmap and the renderer as they were. *)
Theorem simulate_gravity_unchanged {R : Type} (onBlockChanged : Z -> Z -> Z -> R -> R)
    (p p' : Physics.t) (step : Z) (w w' : World.t) (r r' : option R) :
  Z.rem step 10 <> 0 ->
  Physics.simulate onBlockChanged p step (w, r) = Ok (p', (w', r')) ->
  w' = w /\ r' = r /\ Physics.lastStep p' = step.
Proof.
  intros Hstep. unfold Physics.simulate. cbn [fst snd].
  destruct (Z.eqb_spec step (Physics.lastStep p)) as [->|_]; [intros [= <- <- <-]; auto|].
  rewrite (proj2 (Z.eqb_neq _ _) Hstep).
  destruct (Z.rem step 1 =? 0); cbn [mbind Result_bind]; [|intros [= <- <- <-]; auto].
  destruct (gravity_settles onBlockChanged w r) as [(s' & -> & ->)| ->]; [|discriminate].
  cbn [mbind Result_bind]. intros [= <- <- <-]. auto.
Qed.

Lemma simulate_gravity_unchanged_witness :
  Physics.simulate (fun _ _ _ (u : unit) => u) Physics.constructor 7 (airWorld 2 2 2, None)
  = Ok (Physics.mk 7, (airWorld 2 2 2, None))
  /\ airWorld 2 2 2 = airWorld 2 2 2 /\ @None unit = None
  /\ Physics.lastStep (Physics.mk 7) = 7.
Proof.
  assert (Physics.simulate (fun _ _ _ (u : unit) => u) Physics.constructor 7
            (airWorld 2 2 2, None)
          = Ok (Physics.mk 7, (airWorld 2 2 2, None))) as Hrun by reflexivity.
  split; [exact Hrun|].
  exact (simulate_gravity_unchanged _ _ _ 7 _ _ _ _ ltac:(discriminate) Hrun).
Defined.

(** X27. When a block with the gravity flag sits over an empty slot, [simulate()]
    does not return: having copied the block down it calls [setBlock] with
    [null], which throws a [TypeError]. *)
Theorem simulate_gravity_throws {R : Type} (onBlockChanged : Z -> Z -> Z -> R -> R)
    (p : Physics.t) (step : Z) (w : World.t) (r : option R) (x y z : Z)
    (block : BLOCK.Block) :
  step <> Physics.lastStep p ->
  World.isInBounds w x y z = true -> 0 < z ->
  World.read3_opt (World.blocks w) x y z = Some block ->
  BLOCK.truthy (BLOCK.gravity block) = true ->
  World.read3_opt (World.blocks w) x y (z - 1) = None ->
  Physics.simulate onBlockChanged p step (w, r) = Throw TypeError.
Proof.
  intros Hstep Hin Hz Hblock Hgravity Hbelow. unfold Physics.simulate. cbn [fst snd].
  rewrite (proj2 (Z.eqb_neq _ _) Hstep).
  rewrite Z.rem_1_r. cbn [Z.eqb].
  rewrite (gravity_throws onBlockChanged w r x y z block Hin Hz Hblock Hgravity Hbelow).
  reflexivity.
Qed.

Lemma simulate_gravity_throws_witness :
  Physics.simulate (fun _ _ _ (u : unit) => u) Physics.constructor 12 (hollowWorld, None)
  = Throw TypeError.
Proof.
  apply (simulate_gravity_throws _ Physics.constructor 12 hollowWorld None 0 0 1 BLOCK.GRAVEL);
    [discriminate|reflexivity|lia|reflexivity..].
Defined.

Section Fluids.

Context {R : Type}.
Variable onBlockChanged : Z -> Z -> Z -> R -> R.
Variable w : World.t.

(** The scene has the dimensions of [w] and every block of [w] in its slot. *)
Let keeps (s : World.t * option R) : Prop :=
  (World.sx s.1 = World.sx w /\ World.sy s.1 = World.sy w /\ World.sz s.1 = World.sz w)
  /\ forall x y z block,
       World.read3_opt (World.blocks w) x y z = Some block ->
       World.read3_opt (World.blocks s.1) x y z = Some block.

Lemma spread_keeps block inside x y z st st' :
  Physics.spread onBlockChanged block inside x y z st = Ok st' -> keeps st.1 -> keeps st'.1.
Proof.
  unfold Physics.spread. destruct inside; [|intros [= <-]; auto].
  unfold Physics.vacant.
  destruct (World.read3 _ x y z) as [cell|] eqn:Hread; [|discriminate].
  cbn [mbind Result_bind]. case_bool_decide as Hcell; [subst cell|intros [= <-]; auto].
  apply read3_read3_opt in Hread.
  unfold Physics.place, World.setBlock.
  destruct (negb _); cbn [mbind Result_bind]; [intros [= <-]; destruct st as [[? ?] ?]; auto|].
  destruct (World.write3 _ _ _ _ _) as [blocks'|] eqn:Hw; [|discriminate].
  cbn [mbind Result_bind]. intros [= <-] [Hdims Hkeeps]. split; [exact Hdims|].
  cbn [fst World.blocks World.set_blocks]. intros x' y' z' block' Hblock.
  rewrite (read3_opt_write3 _ _ _ _ _ _ _ _ _ Hw).
  case_bool_decide as Hsame; [|apply Hkeeps, Hblock].
  destruct Hsame as (-> & -> & -> & _). apply Hkeeps in Hblock. congruence.
Qed.

Lemma flow_keeps sx sy x y z st st' :
  Physics.flow onBlockChanged sx sy x y z st = Ok st' -> keeps st.1 -> keeps st'.1.
Proof.
  unfold Physics.flow.
  destruct (World.read3 _ x y z) as [[block|]|]; cbn [mbind Result_bind];
    [|intros [= <-]; auto|discriminate].
  destruct (_ && _); [|intros [= <-]; auto].
  intros Hrun Hkeeps.
  apply bind_Ok in Hrun as (st1 & H1 & Hrun). apply bind_Ok in Hrun as (st2 & H2 & Hrun).
  apply bind_Ok in Hrun as (st3 & H3 & H4).
  eauto using spread_keeps.
Qed.

Lemma fluids_keeps sx sy sz st st' :
  for_range 0 sx (fun x =>
    for_range 0 sy (fun y =>
      for_range 0 sz (fun z => Physics.flow onBlockChanged (World.sx w) (World.sy w) x y z)))
    st = Ok st' ->
  keeps st.1 -> keeps st'.1.
Proof.
  intros Hrun Hkeeps. revert Hrun.
  apply (for_range_preserves (fun st => keeps st.1)); [|exact Hkeeps].
  intros x t t' Ht. apply (for_range_preserves (fun st => keeps st.1)); [|exact Ht].
  intros y t1 t1' Ht1. apply (for_range_preserves (fun st => keeps st.1)); [|exact Ht1].
  intros z t2 t2' Ht2 Hflow. exact (flow_keeps _ _ _ _ _ _ _ Hflow Ht2).
Qed.

End Fluids.

(** X28. [simulate()] never overwrites a block: whatever the world and the step,
    when the call returns the world has its dimensions and every slot that
    held a block holds that block still (fluid is placed into empty slots
    only, and a call in which gravity acts throws). *)
Theorem simulate_keeps_blocks {R : Type} (onBlockChanged : Z -> Z -> Z -> R -> R)
    (p p' : Physics.t) (step : Z) (w w' : World.t) (r r' : option R) :
  Physics.simulate onBlockChanged p step (w, r) = Ok (p', (w', r')) ->
  (World.sx w' = World.sx w /\ World.sy w' = World.sy w /\ World.sz w' = World.sz w)
  /\ forall x y z block,
       World.read3_opt (World.blocks w) x y z = Some block ->
       World.read3_opt (World.blocks w') x y z = Some block.
Proof.
  unfold Physics.simulate. cbn [fst snd].
  destruct (Z.eqb_spec step (Physics.lastStep p)) as [->|_]; [intros [= <- <- <-]; auto|].
  intros Hrun. apply bind_Ok in Hrun as (s1 & Hgravity & Hrun).
  assert (s1 = (w, r)) as ->.
  { destruct (Z.rem step 1 =? 0); [|congruence].
    destruct (gravity_settles onBlockChanged w r) as [(s' & Hs' & ->)|Hthrow]; congruence. }
  apply bind_Ok in Hrun as (s2 & Hfluids & Heq). injection Heq as _ ->.
  destruct (Z.rem step 10 =? 0); [|injection Hfluids as <- <-; auto].
  apply bind_Ok in Hfluids as ([s3 spawned] & Hloops & [= ->]).
  apply (fluids_keeps onBlockChanged w _ _ _ _ _ Hloops). cbn [fst]. auto.
Qed.

Lemma simulate_keeps_blocks_witness :
  exists w',
    Physics.simulate (fun _ _ _ (u : unit) => u) Physics.constructor 10 (poolWorld, None)
    = Ok (Physics.mk 10, (w', None))
    /\ idOf (World.blocks w') 1 0 0 = BLOCK.id BLOCK.WATER
    /\ (World.sx w' = 2 /\ World.sy w' = 1 /\ World.sz w' = 1)
    /\ forall x y z block,
         World.read3_opt (World.blocks poolWorld) x y z = Some block ->
         World.read3_opt (World.blocks w') x y z = Some block.
Proof.
  eexists. split; [reflexivity|]. split; [reflexivity|].
  eapply (simulate_keeps_blocks (fun _ _ _ (u : unit) => u) Physics.constructor
            (Physics.mk 10) 10 poolWorld _ None None).
  reflexivity.
Defined.

Lemma simulate_populated_witness :
  Physics.simulate (fun _ _ _ (u : unit) => u) Physics.constructor 20 (airWorld 3 3 3, None)
  = Ok (Physics.mk 20, (airWorld 3 3 3, None)).
Proof.
  apply (simulate_populated (fun _ _ _ (u : unit) => u) Physics.constructor 20
           (airWorld 3 3 3) None).
  apply emptyGrid_grid.
Defined.

(** The rule of the counting loop for a property that one turn establishes
    and the others keep, under an invariant of the loop. *)
Lemma for_loop_establishes_under {St : Type} (J Q : St -> Prop) (body : Z -> St -> Result St)
    (i0 : Z) :
  (forall i t t', J t -> body i t = Ok t' -> J t') ->
  (forall t t', J t -> body i0 t = Ok t' -> Q t') ->
  (forall i t t', Q t -> body i t = Ok t' -> Q t') ->
  forall (n : nat) (lo : Z) (s s' : St),
    J s -> (lo <= i0 < lo + Z.of_nat n \/ Q s) -> for_loop n lo body s = Ok s' -> Q s'.
Proof.
  intros Hinv Hset Hkeep. induction n as [|n IH]; intros lo s s' Hj Hs; cbn [for_loop].
  - intros [= <-]. destruct Hs as [Hi|Hs]; [lia|exact Hs].
  - destruct (body lo s) as [s1|e] eqn:Hbody; [|discriminate].
    apply IH; [exact (Hinv _ _ _ Hj Hbody)|].
    destruct Hs as [Hi|Hs]; [|right; exact (Hkeep _ _ _ Hs Hbody)].
    destruct (decide (lo = i0)) as [->|Hne]; [right; exact (Hset _ _ Hj Hbody)|left; lia].
Qed.

Lemma for_range_establishes_under {St : Type} (J Q : St -> Prop)
    (body : Z -> St -> Result St) (i0 lo hi : Z) (s s' : St) :
  (forall i t t', J t -> body i t = Ok t' -> J t') ->
  (forall t t', J t -> body i0 t = Ok t' -> Q t') ->
  (forall i t t', Q t -> body i t = Ok t' -> Q t') ->
  lo <= i0 < hi -> J s -> for_range lo hi body s = Ok s' -> Q s'.
Proof.
  intros Hinv Hset Hkeep Hi Hj. unfold for_range.
  apply (for_loop_establishes_under J Q body i0 Hinv Hset Hkeep); [exact Hj|left; lia].
Qed.

Section Spreading.

Context {R : Type}.
Variable onBlockChanged : Z -> Z -> Z -> R -> R.
Variable w : World.t.

(** The invariant of the fluid loops: the scene has the dimensions of [w] and
    every block of [w] in its slot, and the slots filled in this step were
    empty in [w]. *)
Let settled (st : World.t * option R * gset (Z * Z * Z)) : Prop :=
  ((World.sx st.1.1 = World.sx w /\ World.sy st.1.1 = World.sy w
    /\ World.sz st.1.1 = World.sz w)
   /\ forall x y z block,
        World.read3_opt (World.blocks w) x y z = Some block ->
        World.read3_opt (World.blocks st.1.1) x y z = Some block)
  /\ forall x y z, (x, y, z) ∈ st.2 -> World.read3_opt (World.blocks w) x y z = None.

(** The slot holds a block. *)
Let filled (x y z : Z) (st : World.t * option R * gset (Z * Z * Z)) : Prop :=
  is_Some (World.read3_opt (World.blocks st.1.1) x y z).

Lemma spread_settled block inside x y z st st' :
  Physics.spread onBlockChanged block inside x y z st = Ok st' -> settled st -> settled st'.
Proof.
  intros Hrun [Hkeeps Hfresh]. split; [exact (spread_keeps _ _ _ _ _ _ _ _ _ Hrun Hkeeps)|].
  revert Hrun. unfold Physics.spread. destruct inside; [|intros [= <-]; exact Hfresh].
  unfold Physics.vacant.
  destruct (World.read3 _ x y z) as [cell|] eqn:Hread; [|discriminate].
  cbn [mbind Result_bind]. case_bool_decide as Hcell; [subst cell|intros [= <-]; exact Hfresh].
  apply read3_read3_opt in Hread.
  destruct (Physics.place _ _ _ _ _ _) as [s|]; [|discriminate].
  cbn [mbind Result_bind]. intros [= <-]. cbn [snd]. intros x' y' z' Hkey.
  apply elem_of_union in Hkey as [Hkey|Hkey]; [|exact (Hfresh _ _ _ Hkey)].
  apply elem_of_singleton in Hkey. injection Hkey as -> -> ->.
  destruct (World.read3_opt (World.blocks w) x y z) as [b|] eqn:Horig; [|reflexivity].
  rewrite (proj2 Hkeeps _ _ _ _ Horig) in Hread. discriminate.
Qed.

Lemma spread_filled block inside x y z st st' x' y' z' :
  Physics.spread onBlockChanged block inside x y z st = Ok st' ->
  filled x' y' z' st -> filled x' y' z' st'.
Proof.
  unfold Physics.spread, filled. destruct inside; [|intros [= <-]; auto].
  destruct (Physics.vacant _ _ _ _) as [[|]|]; cbn [mbind Result_bind];
    [|intros [= <-]; auto|discriminate].
  unfold Physics.place, World.setBlock.
  destruct (negb _); cbn [mbind Result_bind]; [intros [= <-]; destruct st as [[? ?] ?]; auto|].
  destruct (World.write3 _ _ _ _ _) as [blocks'|] eqn:Hw; [|discriminate].
  cbn [mbind Result_bind]. intros [= <-]. cbn [fst World.blocks World.set_blocks].
  rewrite (read3_opt_write3 _ _ _ _ _ _ _ _ _ Hw).
  destruct (bool_decide _); [eauto|auto].
Qed.

(** A spread into a slot of the world fills it, unless it holds a block. *)
Lemma spread_fills block x y z st st' :
  settled st -> World.isInBounds w x y z = true ->
  Physics.spread onBlockChanged block true x y z st = Ok st' -> filled x y z st'.
Proof.
  intros [[Hdims _] _] Hin. unfold Physics.spread, Physics.vacant, filled.
  destruct (World.read3 _ x y z) as [cell|] eqn:Hread; [|discriminate].
  apply read3_read3_opt in Hread. cbn [mbind Result_bind].
  case_bool_decide as Hcell; [|intros [= <-]; rewrite Hread; destruct cell; [eauto|congruence]].
  unfold Physics.place, World.setBlock.
  assert (World.isInBounds st.1.1 x y z = true) as ->.
  { apply isInBounds_true. apply isInBounds_true in Hin. lia. }
  cbn [negb]. destruct (World.write3 _ _ _ _ _) as [blocks'|] eqn:Hw; [|discriminate].
  cbn [mbind Result_bind]. intros [= <-]. cbn [fst World.blocks World.set_blocks].
  rewrite (read3_opt_write3 _ _ _ _ _ _ _ _ _ Hw).
  rewrite bool_decide_true; [eauto|]. apply isInBounds_true in Hin. lia.
Qed.

Lemma flow_settled sx sy x y z st st' :
  Physics.flow onBlockChanged sx sy x y z st = Ok st' -> settled st -> settled st'.
Proof.
  unfold Physics.flow.
  destruct (World.read3 _ x y z) as [[block|]|]; cbn [mbind Result_bind];
    [|intros [= <-]; auto|discriminate].
  destruct (_ && _); [|intros [= <-]; auto].
  intros Hrun Hst.
  apply bind_Ok in Hrun as (st1 & H1 & Hrun). apply bind_Ok in Hrun as (st2 & H2 & Hrun).
  apply bind_Ok in Hrun as (st3 & H3 & H4).
  eauto using spread_settled.
Qed.

Lemma flow_filled sx sy x y z st st' x' y' z' :
  Physics.flow onBlockChanged sx sy x y z st = Ok st' ->
  filled x' y' z' st -> filled x' y' z' st'.
Proof.
  unfold Physics.flow.
  destruct (World.read3 _ x y z) as [[block|]|]; cbn [mbind Result_bind];
    [|intros [= <-]; auto|discriminate].
  destruct (_ && _); [|intros [= <-]; auto].
  intros Hrun Hst.
  apply bind_Ok in Hrun as (st1 & H1 & Hrun). apply bind_Ok in Hrun as (st2 & H2 & Hrun).
  apply bind_Ok in Hrun as (st3 & H3 & H4).
  eauto using spread_filled.
Qed.

(** The turn of a fluid block of [w] fills its four neighbours in [w]. *)
Lemma flow_fills x y z block nx ny st st' :
  settled st ->
  World.read3_opt (World.blocks w) x y z = Some block ->
  BLOCK.truthy (BLOCK.fluid block) = true ->
  (nx, ny) ∈ [(x - 1, y); (x + 1, y); (x, y - 1); (x, y + 1)] ->
  World.isInBounds w nx ny z = true ->
  Physics.flow onBlockChanged (World.sx w) (World.sy w) x y z st = Ok st' ->
  filled nx ny z st'.
Proof.
  intros Hst Hblock Hfluid Hside Hin. unfold Physics.flow.
  destruct (World.read3 _ x y z) as [cell|] eqn:Hread; [|discriminate].
  apply read3_read3_opt in Hread. rewrite (proj2 (proj1 Hst) _ _ _ _ Hblock) in Hread.
  subst cell. cbn [mbind Result_bind]. rewrite Hfluid.
  rewrite bool_decide_true.
  2:{ intros Hkey. apply (proj2 Hst) in Hkey. congruence. }
  cbn [andb]. intros Hrun.
  apply bind_Ok in Hrun as (st1 & H1 & Hrun). apply bind_Ok in Hrun as (st2 & H2 & Hrun).
  apply bind_Ok in Hrun as (st3 & H3 & H4).
  pose proof (spread_settled _ _ _ _ _ _ _ H1 Hst) as Hst1.
  pose proof (spread_settled _ _ _ _ _ _ _ H2 Hst1) as Hst2.
  pose proof (spread_settled _ _ _ _ _ _ _ H3 Hst2) as Hst3.
  pose proof (proj1 (isInBounds_true _ _ _ _) Hin) as (Hnx & Hny & Hz).
  repeat (apply elem_of_cons in Hside as [[= -> ->]|Hside]); [| | | |inversion Hside].
  - rewrite (proj2 (Z.gtb_gt x 0)) in H1 by lia.
    eauto using spread_fills, spread_filled.
  - rewrite (proj2 (Z.ltb_lt x (World.sx w - 1))) in H2 by lia.
    eauto using spread_fills, spread_filled.
  - rewrite (proj2 (Z.gtb_gt y 0)) in H3 by lia.
    eauto using spread_fills, spread_filled.
  - rewrite (proj2 (Z.ltb_lt y (World.sy w - 1))) in H4 by lia.
    eauto using spread_fills, spread_filled.
Qed.

Lemma fluids_fill x y z block nx ny st st' :
  settled st ->
  World.isInBounds w x y z = true ->
  World.read3_opt (World.blocks w) x y z = Some block ->
  BLOCK.truthy (BLOCK.fluid block) = true ->
  (nx, ny) ∈ [(x - 1, y); (x + 1, y); (x, y - 1); (x, y + 1)] ->
  World.isInBounds w nx ny z = true ->
  for_range 0 (World.sx w) (fun x =>
    for_range 0 (World.sy w) (fun y =>
      for_range 0 (World.sz w) (fun z =>
        Physics.flow onBlockChanged (World.sx w) (World.sy w) x y z)))
    st = Ok st' ->
  filled nx ny z st'.
Proof.
  intros Hst Hcell Hblock Hfluid Hside Hin.
  pose proof (proj1 (isInBounds_true _ _ _ _) Hcell) as (Hx & Hy & Hz).
  apply (for_range_establishes_under settled (filled nx ny z) _ x); [| | |lia|exact Hst].
  - intros x' t t' Ht. apply (for_range_preserves settled); [|exact Ht].
    intros y' t1 t1' Ht1. apply (for_range_preserves settled); [|exact Ht1].
    intros z' t2 t2' Ht2 Hrun. exact (flow_settled _ _ _ _ _ _ _ Hrun Ht2).
  - intros t t' Ht.
    apply (for_range_establishes_under settled (filled nx ny z) _ y); [| | |lia|exact Ht].
    + intros y' t1 t1' Ht1. apply (for_range_preserves settled); [|exact Ht1].
      intros z' t2 t2' Ht2 Hrun. exact (flow_settled _ _ _ _ _ _ _ Hrun Ht2).
    + intros t1 t1' Ht1.
      apply (for_range_establishes_under settled (filled nx ny z) _ z); [| | |lia|exact Ht1].
      * intros z' t2 t2' Ht2 Hrun. exact (flow_settled _ _ _ _ _ _ _ Hrun Ht2).
      * intros t2 t2' Ht2. exact (flow_fills x y z block nx ny _ _ Ht2 Hblock Hfluid Hside Hin).
      * intros z' t2 t2' Ht2 Hrun. exact (flow_filled _ _ _ _ _ _ _ _ _ _ Hrun Ht2).
    + intros y' t1 t1' Ht1. apply (for_range_preserves (filled nx ny z)); [|exact Ht1].
      intros z' t2 t2' Ht2 Hrun. exact (flow_filled _ _ _ _ _ _ _ _ _ _ Hrun Ht2).
  - intros x' t t' Ht. apply (for_range_preserves (filled nx ny z)); [|exact Ht].
    intros y' t1 t1' Ht1. apply (for_range_preserves (filled nx ny z)); [|exact Ht1].
    intros z' t2 t2' Ht2 Hrun. exact (flow_filled _ _ _ _ _ _ _ _ _ _ Hrun Ht2).
Qed.

End Spreading.

(** X29. Fluid spreads sideways.  When a call of [simulate()] with a new step that
    is a multiple of 10 returns, each of the four cells beside a fluid block
    of the world, at its height and within the world, holds a block. *)
Theorem simulate_fluid_spreads {R : Type} (onBlockChanged : Z -> Z -> Z -> R -> R)
    (p p' : Physics.t) (step : Z) (w w' : World.t) (r r' : option R) (x y z nx ny : Z)
    (block : BLOCK.Block) :
  step <> Physics.lastStep p -> Z.rem step 10 = 0 ->
  Physics.simulate onBlockChanged p step (w, r) = Ok (p', (w', r')) ->
  World.isInBounds w x y z = true ->
  World.read3_opt (World.blocks w) x y z = Some block ->
  BLOCK.truthy (BLOCK.fluid block) = true ->
  (nx, ny) ∈ [(x - 1, y); (x + 1, y); (x, y - 1); (x, y + 1)] ->
  World.isInBounds w nx ny z = true ->
  is_Some (World.read3_opt (World.blocks w') nx ny z).
Proof.
  intros Hnew Hstep. unfold Physics.simulate. cbn [fst snd].
  rewrite (proj2 (Z.eqb_neq _ _) Hnew), Hstep. cbn [Z.eqb].
  intros Hrun Hcell Hblock Hfluid Hside Hin.
  apply bind_Ok in Hrun as (s1 & Hgravity & Hrun).
  assert (s1 = (w, r)) as ->.
  { destruct (Z.rem step 1 =? 0); [|congruence].
    destruct (gravity_settles onBlockChanged w r) as [(s' & Hs' & ->)|Hthrow]; congruence. }
  apply bind_Ok in Hrun as (s2 & Hfluids & Heq). injection Heq as _ ->.
  apply bind_Ok in Hfluids as ([s3 spawned] & Hloops & [= ->]).
  refine (fluids_fill onBlockChanged w x y z block nx ny _ _ _ Hcell Hblock Hfluid Hside Hin
            Hloops).
  split; [split; [auto|auto]|]. cbn [snd]. intros x' y' z' Hkey. set_solver.
Qed.

Lemma simulate_fluid_spreads_witness :
  exists w',
    Physics.simulate (fun _ _ _ (u : unit) => u) Physics.constructor 10 (poolWorld, None)
    = Ok (Physics.mk 10, (w', None))
    /\ is_Some (World.read3_opt (World.blocks w') 1 0 0).
Proof.
  eexists. split; [reflexivity|].
  eapply (simulate_fluid_spreads (fun _ _ _ (u : unit) => u) Physics.constructor
            (Physics.mk 10) 10 poolWorld _ None None 0 0 0 1 0 BLOCK.WATER);
    [discriminate|reflexivity|reflexivity|reflexivity|reflexivity|reflexivity| |reflexivity].
  apply list_elem_of_further, list_elem_of_here.
Defined.
